(** * Tender decomposition quantizer of [modeling_llama_tender_eval.py]

    A shallow embedding of the symmetric quantize/dequantize primitive
    ([sym_quant], [sym_dequant]) and of the chunked magnitude-decomposition
    code of [LmHeadTender.forward] and [LlamaAttention_Tender_Eval.forward].

    Numeric model, in two layers.

    The loops over the bands, the shapes, the masks, the counts and the
    attributes of the modules are modelled on tensors of exact rationals
    ([Q]): the rounding error of float16/bfloat16/float32 arithmetic is not
    represented there, only the dtype a tensor carries is tracked as a tag,
    and non-finite values (inf, NaN) have no representation; where the code
    would create one (a division by a zero Python scalar or by a zero tensor
    entry) the model stops with the outcome [NonFinite] and says nothing
    more about that run.  What is proved on this layer is about tensors of
    finite numbers and does not depend on how an entry is rounded: which
    band a channel falls in, what is counted, what is zeroed, which
    assertion stops a run, which attribute is written.

    The quantization primitive itself ([sym_quant], [sym_dequant]) is
    modelled a second time with IEEE 754 rounding (module [IEEE] below, on
    [FTensor]): an entry is a finite number of its format, an infinity or
    NaN, and every conversion, division and product rounds to nearest, ties
    to even, in the format it is computed in.  What depends on rounding
    (when a scale counts as zero, which integer an entry is rounded to,
    whether a second pass changes a result) is proved on that layer.

    Python exceptions are the outcome [Raise]. *)

From Stdlib Require Import ZArith QArith Qround Qabs Qminmax Qpower List Bool Lia Lqa.
Import ListNotations.

(** ** Outcomes of a run *)

(** The exceptions the modelled code can raise, named as in the
    specification's error taxonomy. *)
Inductive error : Type :=
| ZeroScaleError      (* assert ..., "Zero is given as a scale factor"     *)
| EmptyInputError     (* assert (chunks != 0)                               *)
| BandCoverageError   (* assert sum(count) == ...                           *)
| ShapeMismatchError  (* RuntimeError of a reshape, view, matmul, broadcast
                         or of a reduction over an empty dimension          *)
| ZeroDivisionError   (* tgt_len / self.chunk_size with chunk_size = 0      *)
| DTypeAssertionError. (* assert t.dtype == torch.float32                   *)

Inductive outcome (A : Type) : Type :=
| Ok (a : A)
| Raise (e : error)
| NonFinite.

Arguments Ok {A} a.
Arguments Raise {A} e.
Arguments NonFinite {A}.

Definition obind {A B} (m : outcome A) (k : A -> outcome B) : outcome B :=
  match m with
  | Ok a => k a
  | Raise e => Raise e
  | NonFinite => NonFinite
  end.

Declare Scope outcome_scope.
Delimit Scope outcome_scope with outcome.
Notation "x <- m ;; k" := (obind m (fun x => k))
  (at level 61, m at next level, right associativity) : outcome_scope.
Notation "'assert!' b 'else' e ;; k" := (if b then k else Raise e)
  (at level 61, b at next level, e at next level, right associativity) : outcome_scope.

(** ** Tensors *)

Inductive DType : Type := Float16 | BFloat16 | Float32 | Float64.

(** torch's type promotion on the floating dtypes. *)
Definition promote (a b : DType) : DType :=
  match a, b with
  | Float64, _ | _, Float64 => Float64
  | Float32, _ | _, Float32 => Float32
  | Float16, Float16 => Float16
  | BFloat16, BFloat16 => BFloat16
  | _, _ => Float32
  end.

(** A rank-[n] array is [n] nested lists; index 0 is the outermost
    dimension, as in torch. *)
Fixpoint tensor (A : Type) (n : nat) : Type :=
  match n with
  | O => A
  | S m => list (tensor A m)
  end.

(** A torch tensor: its dtype, its shape and its entries.  The shape is kept
    next to the entries because nested lists alone lose the inner dimensions
    of a tensor with a zero-size outer dimension. *)
Record Tensor (n : nat) : Type :=
  mkTensor { dtype : DType; shape : list nat; data : tensor Q n }.

Arguments mkTensor {n} dtype shape data.
Arguments dtype {n} t.
Arguments shape {n} t.
Arguments data {n} t.

(** [t.to(d)]: the values stay (exact model), the tag changes. *)
Definition to {n} (d : DType) (t : Tensor n) : Tensor n :=
  mkTensor d (shape t) (data t).

Fixpoint tmap {A B} (f : A -> B) (n : nat) : tensor A n -> tensor B n :=
  match n with
  | O => fun a => f a
  | S m => fun xs => map (tmap f m) xs
  end.

(** Every entry of a rank-[n] array, in row-major order. *)
Fixpoint entries {A} (n : nat) : tensor A n -> list A :=
  match n with
  | O => fun a => [a]
  | S m => fun xs => flat_map (entries m) xs
  end.

(** [has_shape sh t]: [t] is rectangular with dimensions [sh]. *)
Fixpoint has_shape {A} (n : nat) (sh : list nat) : tensor A n -> bool :=
  match n with
  | O => fun _ => match sh with [] => true | _ => false end
  | S m => fun xs =>
      match sh with
      | [] => false
      | d :: sh' => Nat.eqb (length xs) d && forallb (has_shape m sh') xs
      end
  end.

(** Well-formed tensors: the entries are laid out as the shape says. *)
Definition wf {n} (t : Tensor n) : Prop :=
  length (shape t) = n /\ has_shape n (shape t) (data t) = true.

Definition numel (sh : list nat) : nat := fold_right Nat.mul 1%nat sh.

(** The rank-[n] array of shape [sh] whose row-major entries are [l]. *)
Fixpoint build {A} (d : A) (n : nat) (sh : list nat) (l : list A) : tensor A n :=
  match n with
  | O => hd d l
  | S m =>
      let k := numel (tl sh) in
      map (fun i => build d m (tl sh) (firstn k (skipn (i * k) l)))
          (seq 0 (hd 0%nat sh))
  end.

Definition shape_eqb (s1 s2 : list nat) : bool :=
  if list_eq_dec Nat.eq_dec s1 s2 then true else false.

(** torch's broadcasting rule for two shapes of the same rank: in every
    dimension the sizes agree or one of them is 1. *)
Fixpoint broadcastable (s1 s2 : list nat) : bool :=
  match s1, s2 with
  | [], [] => true
  | a :: s1', b :: s2' =>
      (Nat.eqb a b || Nat.eqb a 1 || Nat.eqb b 1) && broadcastable s1' s2'
  | _, _ => false
  end.

(** The shape two broadcastable shapes expand to. *)
Fixpoint bshape (s1 s2 : list nat) : list nat :=
  match s1, s2 with
  | a :: s1', b :: s2' => (if Nat.eqb a 1 then b else a) :: bshape s1' s2'
  | _, _ => []
  end.

(** Two lists paired up entry by entry, a one-entry list being repeated
    along the other (a size-1 dimension expands). *)
Definition bzip {A B C} (g : A -> B -> C) (xs : list A) (ys : list B) : list C :=
  match ys with
  | [y] => map (fun x => g x y) xs
  | _ =>
      match xs with
      | [x] => map (fun y => g x y) ys
      | _ => map (fun p => g (fst p) (snd p)) (combine xs ys)
      end
  end.

(** Elementwise binary operation with size-1 dimensions expanded. *)
Fixpoint bmap2 {A B C} (f : A -> B -> C) (n : nat)
  : tensor A n -> tensor B n -> tensor C n :=
  match n with
  | O => fun a b => f a b
  | S m => fun xs ys => bzip (bmap2 f m) xs ys
  end.

(** A binary operation on the matrices of two tensors of rank [n + 2],
    the leading [n] dimensions broadcasting. *)
Fixpoint bmap2_mats {A B C}
         (f : list (list A) -> list (list B) -> list (list C)) (n : nat)
  : tensor A (S (S n)) -> tensor B (S (S n)) -> tensor C (S (S n)) :=
  match n return tensor A (S (S n)) -> tensor B (S (S n)) -> tensor C (S (S n)) with
  | O => fun a b => f a b
  | S m => fun xs ys => bzip (bmap2_mats f m) xs ys
  end.

(** ** Scalar arithmetic *)

(** [torch.round]: round to nearest, ties to even. *)
Definition round_half_even (x : Q) : Z :=
  let f := Qfloor x in
  match Qcompare (x - inject_Z f) (1 # 2) with
  | Lt => f
  | Gt => (f + 1)%Z
  | Eq => if Z.even f then f else (f + 1)%Z
  end.

(** [x.clamp(min = lo, max = hi)]; torch returns [hi] when [lo > hi]. *)
Definition clamp (lo hi x : Q) : Q := Qmin (Qmax x lo) hi.

(** The literal [1e-9] of [sym_quant]. *)
Definition eps : Q := 1 # 1000000000.

(** Python's [2 ** k] on an int [k]: an int for [k >= 0], the float
    [1 / 2 ** -k] otherwise. *)
Definition pow2 (k : Z) : Q := Qpower 2 k.

(** [q_max = (2 ** (q_bits - 1) - 1)]. *)
Definition q_max_of (q_bits : Z) : Q := pow2 (q_bits - 1) - 1.

Definition is_zero (x : Q) : bool := Qeq_bool x 0.

(** ** The quantization primitive *)

Definition tlift {n} (f : Q -> Q) (t : Tensor n) : Tensor n :=
  mkTensor (dtype t) (shape t) (tmap f n (data t)).

(** [torch.sum(t == 0.0).item()]. *)
Definition count_zeros {n} (t : Tensor n) : nat :=
  length (filter is_zero (entries n (data t))).

Definition tabs {n} (t : Tensor n) : Tensor n := tlift Qabs t.

(** [torch.clamp(t, min = lo)]. *)
Definition clamp_min {n} (lo : Q) (t : Tensor n) : Tensor n :=
  tlift (fun x => Qmax x lo) t.

Definition tround {n} (t : Tensor n) : Tensor n :=
  tlift (fun x => inject_Z (round_half_even x)) t.

Definition tclamp {n} (lo hi : Q) (t : Tensor n) : Tensor n :=
  tlift (clamp lo hi) t.

(** A broadcasting binary operator [a op b] on tensors; torch raises a
    RuntimeError when the shapes do not broadcast. *)
Definition tbinop {n} (f : Q -> Q -> Q) (a b : Tensor n) : outcome (Tensor n) :=
  if broadcastable (shape a) (shape b)
  then Ok (mkTensor (promote (dtype a) (dtype b)) (bshape (shape a) (shape b))
                    (bmap2 f n (data a) (data b)))
  else Raise ShapeMismatchError.

(** [a / b] for a divisor tensor [b] without zero entries. *)
Definition tdiv {n} (a b : Tensor n) : outcome (Tensor n) := tbinop Qdiv a b.

Definition tmul {n} (a b : Tensor n) : outcome (Tensor n) := tbinop Qmult a b.

Local Open Scope outcome_scope.

(** [sym_quant(fp, scale, q_bits)], lines 52-66.  [scale] is a tensor at
    every call site; the [else] branch for a non-tensor scale is behind
    [scale.to(torch.float32)], which only a tensor has. *)
Definition sym_quant {n} (fp scale : Tensor n) (q_bits : Z) : outcome (Tensor n) :=
  let fp := to Float32 fp in
  let scale := to Float32 scale in
  assert! Nat.eqb (count_zeros scale) 0 else ZeroScaleError ;;
  let scale := clamp_min eps (tabs scale) in
  let q_max := q_max_of q_bits in
  q <- tdiv fp scale ;;
  let q_int := tclamp (- (q_max + 1)) q_max (tround q) in
  Ok q_int.

(** [sym_dequant(q_int, scale, dtype)], lines 68-73. *)
Definition sym_dequant {n} (q_int scale : Tensor n) (dt : DType) : outcome (Tensor n) :=
  fp <- tmul q_int scale ;;
  Ok (to dt fp).

(** ** Tensor operations used by the forward passes *)

Definition Qlt_bool (x y : Q) : bool := negb (Qle_bool y x).

(** The largest entry of a non-empty list. *)
Definition max_list (l : list Q) : Q :=
  match l with
  | [] => 0
  | x :: r => fold_right Qmax x r
  end.

Definition min_list (l : list Q) : Q :=
  match l with
  | [] => 0
  | x :: r => fold_right Qmin x r
  end.

(** Column [j] of a list of rows. *)
Definition column {A} (d : A) (j : nat) (rows : list (list A)) : list A :=
  map (fun r => nth j r d) rows.

(** A reduction over the last dimension. *)
Fixpoint reduce_last {A B} (f : list A -> B) (n : nat)
  : tensor A (S n) -> tensor B n :=
  match n return tensor A (S n) -> tensor B n with
  | O => fun l => f l
  | S m => fun xs => map (reduce_last f m) xs
  end.

(** A reduction over the last but one dimension; [cols] is the size of the
    last one. *)
Fixpoint reduce_rows {A B} (d : A) (f : list A -> B) (cols : nat) (n : nat)
  : tensor A (S (S n)) -> tensor B (S n) :=
  match n return tensor A (S (S n)) -> tensor B (S n) with
  | O => fun rows => map (fun j => f (column d j rows)) (seq 0 cols)
  | S m => fun xs => map (reduce_rows d f cols m) xs
  end.

(** [t.unsqueeze(-1)] on the entries. *)
Fixpoint unsqueeze_data {A} (n : nat) : tensor A n -> tensor A (S n) :=
  match n return tensor A n -> tensor A (S n) with
  | O => fun a => [a]
  | S m => fun xs => map (unsqueeze_data m) xs
  end.

Definition unsqueeze_last {n} (t : Tensor n) : Tensor (S n) :=
  mkTensor (dtype t) (shape t ++ [1%nat]) (unsqueeze_data n (data t)).

(** The shape without its last but one dimension. *)
Definition drop_rows_dim (sh : list nat) : list nat :=
  removelast (removelast sh) ++ [last sh 0%nat].

(** [torch.max(t, dim=-1)[0]]; torch refuses an empty reduction dimension. *)
Definition max_dim_last {n} (t : Tensor (S n)) : outcome (Tensor n) :=
  assert! negb (Nat.eqb (last (shape t) 0%nat) 0) else ShapeMismatchError ;;
  Ok (mkTensor (dtype t) (removelast (shape t)) (reduce_last max_list n (data t))).

(** [torch.max(t, dim=-1, keepdim=True)[0]]. *)
Definition max_dim_last_keepdim {n} (t : Tensor (S n)) : outcome (Tensor (S n)) :=
  m <- max_dim_last t ;;
  Ok (unsqueeze_last m).

(** [torch.max(t, dim=-2)[0]] and [torch.min(t, dim=-2)[0]]. *)
Definition reduce_dim_rows {n} (f : list Q -> Q) (t : Tensor (S (S n)))
  : outcome (Tensor (S n)) :=
  assert! negb (Nat.eqb (last (removelast (shape t)) 0%nat) 0)
    else ShapeMismatchError ;;
  Ok (mkTensor (dtype t) (drop_rows_dim (shape t))
               (reduce_rows 0 f (last (shape t) 0%nat) n (data t))).

Definition max_dim_rows {n} (t : Tensor (S (S n))) := reduce_dim_rows max_list t.
Definition min_dim_rows {n} (t : Tensor (S (S n))) := reduce_dim_rows min_list t.

(** [t / c] for a Python number [c]; a zero [c] gives inf or NaN entries. *)
Definition div_scalar {n} (t : Tensor n) (c : Q) : outcome (Tensor n) :=
  if is_zero c && negb (Nat.eqb (numel (shape t)) 0) then NonFinite
  else Ok (tlift (fun x => x / c) t).

(** [torch.sum(mask).item()]. *)
Definition tcount {n} (mask : tensor bool n) : nat :=
  length (filter (fun b : bool => b) (entries n mask)).

(** [torch.zeros(sh)]. *)
Definition zeros {n} (dt : DType) (sh : list nat) : Tensor n :=
  mkTensor dt sh (build 0 n sh (repeat 0 (numel sh))).

(** [t.reshape(sh)] and [t.view(sh)]: the row-major entries regrouped;
    torch raises when the number of entries differs. *)
Definition reshape {m} (n : nat) (sh : list nat) (t : Tensor m) : outcome (Tensor n) :=
  assert! Nat.eqb (numel sh) (numel (shape t)) && Nat.eqb (length sh) n
    else ShapeMismatchError ;;
  Ok (mkTensor (dtype t) sh (build 0 n sh (entries m (data t)))).

(** The size torch infers for a [-1] in a reshape whose other sizes
    multiply to [known]. *)
Definition infer_dim (total known : nat) : outcome nat :=
  assert! negb (Nat.eqb known 0) && Nat.eqb (total mod known) 0
    else ShapeMismatchError ;;
  Ok (total / known)%nat.

(** [torch.cat((a, b), dim=0)] of two tensors that agree on the other
    dimensions. *)
Definition cat0 {n} (a b : Tensor (S n)) : outcome (Tensor (S n)) :=
  assert! shape_eqb (tl (shape a)) (tl (shape b)) else ShapeMismatchError ;;
  Ok (@mkTensor (S n) (promote (dtype a) (dtype b))
                 ((hd 0 (shape a) + hd 0 (shape b))%nat :: tl (shape a))
                 (data a ++ data b)).

(** [t[:k]]. *)
Definition take_rows {n} (k : nat) (t : Tensor (S n)) : Tensor (S n) :=
  @mkTensor (S n) (dtype t) (Nat.min k (hd 0%nat (shape t)) :: tl (shape t))
            (firstn k (data t)).

(** [t.transpose(-1, -2)] of a matrix. *)
Definition transpose2 (t : Tensor 2) : Tensor 2 :=
  @mkTensor 2 (dtype t) (rev (shape t))
            (map (fun j => column 0 j (data t)) (seq 0 (last (shape t) 0%nat))).

Definition dot (a b : list Q) : Q :=
  fold_right Qplus 0 (map (fun p => fst p * snd p) (combine a b)).

(** Product of a list of rows with a matrix given by its rows, [cols]
    columns wide. *)
Definition matmul_data (cols : nat) (a b : list (list Q)) : list (list Q) :=
  map (fun row => map (fun j => dot row (column 0 j b)) (seq 0 cols)) a.

(** [torch.matmul(a, b)] for a batch of matrices [a] and one matrix [b]. *)
Definition matmul_3_2 (a : Tensor 3) (b : Tensor 2) : outcome (Tensor 3) :=
  assert! Nat.eqb (last (shape a) 0%nat) (hd 0%nat (shape b))
    else ShapeMismatchError ;;
  let cols := last (shape b) 0%nat in
  Ok (@mkTensor 3 (promote (dtype a) (dtype b)) (removelast (shape a) ++ [cols])
                 (map (fun mat => matmul_data cols mat (data b)) (data a))).

(** [math.ceil(a / b)] on Python ints, [b] not zero. *)
Definition ceil_div (a b : nat) : nat :=
  Z.to_nat (Qceiling (inject_Z (Z.of_nat a) / inject_Z (Z.of_nat b))).

(** [result += x]: the sum is stored in [result], whose shape and dtype
    stay. *)
Definition iadd {n} (result x : Tensor n) : outcome (Tensor n) :=
  assert! broadcastable (shape result) (shape x)
          && shape_eqb (bshape (shape result) (shape x)) (shape result)
    else ShapeMismatchError ;;
  Ok (mkTensor (dtype result) (shape result) (bmap2 Qplus n (data result) (data x))).

(** [torch.where(mask, t, zero)] for the one-entry tensor [zero]. *)
Definition where_zero {n} (mask : tensor bool n) (t : Tensor n) : Tensor n :=
  mkTensor (dtype t) (shape t)
           (bmap2 (fun (b : bool) x => if b then x else 0) n mask (data t)).

(** [mask.unsqueeze(-2).repeat(..., k, 1)]: every row of channel flags is
    repeated for the [k] rows of its chunk. *)
Fixpoint repeat_rows {A} (k : nat) (n : nat) : tensor A (S n) -> tensor A (S (S n)) :=
  match n return tensor A (S n) -> tensor A (S (S n)) with
  | O => fun row => repeat row k
  | S m => fun xs => map (repeat_rows k m) xs
  end.

(** Comparison masks, broadcasting like the tensors they compare. *)
Definition le_mask {n} (a b : Tensor n) : tensor bool n := bmap2 Qle_bool n (data a) (data b).
Definition lt_mask {n} (a b : Tensor n) : tensor bool n := bmap2 Qlt_bool n (data a) (data b).
Definition gt_mask {n} (a b : Tensor n) : tensor bool n := lt_mask b a.
Definition logical_and {n} (a b : tensor bool n) : tensor bool n := bmap2 andb n a b.

(** [sum(count)]. *)
Definition sum_list (l : list nat) : nat := fold_right Nat.add 0%nat l.

(** [quant_bfloat(t)], lines 75-82; the rounding itself belongs to the
    external [mx] package and is a parameter. *)
Section QuantBfloat.
Variable mx_quantize_bfloat : forall n, Tensor n -> Tensor n.

Definition quant_bfloat {n} (t : Tensor n) : outcome (Tensor n) :=
  match dtype t with
  | Float32 => Ok (mx_quantize_bfloat n t)
  | _ => Raise DTypeAssertionError
  end.
End QuantBfloat.

(** *** Operations of the attention path *)

(** A boolean tensor with its shape. *)
Record Mask (n : nat) : Type := mkMask { mshape : list nat; mdata : tensor bool n }.

Arguments mkMask {n} mshape mdata.
Arguments mshape {n} m.
Arguments mdata {n} m.

(** A broadcasting comparison [a op b]. *)
Definition tcompare {n} (f : Q -> Q -> bool) (a b : Tensor n) : outcome (Mask n) :=
  assert! broadcastable (shape a) (shape b) else ShapeMismatchError ;;
  Ok (mkMask (bshape (shape a) (shape b)) (bmap2 f n (data a) (data b))).

(** [torch.logical_and(a, b)]. *)
Definition mask_and {n} (a b : Mask n) : outcome (Mask n) :=
  assert! broadcastable (mshape a) (mshape b) else ShapeMismatchError ;;
  Ok (mkMask (bshape (mshape a) (mshape b)) (bmap2 andb n (mdata a) (mdata b))).

(** [t == i] for a Python int [i]. *)
Definition eq_scalar {n} (t : Tensor n) (i : nat) : Mask n :=
  mkMask (shape t) (tmap (fun x => Qeq_bool x (inject_Z (Z.of_nat i))) n (data t)).

(** The shape with a dimension of size [k] put before the last one. *)
Definition insert_rows_dim (k : nat) (sh : list nat) : list nat :=
  removelast sh ++ [k; last sh 0%nat].

(** [mask.unsqueeze(-2).repeat(..., k, 1)] with its shape. *)
Definition mask_repeat_rows {n} (k : nat) (m : Mask (S n)) : Mask (S (S n)) :=
  mkMask (insert_rows_dim k (mshape m)) (repeat_rows k n (mdata m)).

(** [torch.where(mask, t, zero)], the shapes checked. *)
Definition where_mask {n} (m : Mask n) (t : Tensor n) : outcome (Tensor n) :=
  assert! broadcastable (mshape m) (shape t) else ShapeMismatchError ;;
  Ok (mkTensor (dtype t) (bshape (mshape m) (shape t))
               (bmap2 (fun (b : bool) x => if b then x else 0) n (mdata m) (data t))).

(** [t.unsqueeze(-2)]: every row becomes a one-row matrix. *)
Definition unsqueeze_rows {n} (t : Tensor (S n)) : Tensor (S (S n)) :=
  mkTensor (dtype t) (insert_rows_dim 1 (shape t)) (repeat_rows 1 n (data t)).

(** [torch.max(t, dim=-2, keepdim=True)[0]] and the same for [min]. *)
Definition max_dim_rows_keepdim {n} (t : Tensor (S (S n))) : outcome (Tensor (S (S n))) :=
  m <- max_dim_rows t ;;
  Ok (unsqueeze_rows m).

Definition min_dim_rows_keepdim {n} (t : Tensor (S (S n))) : outcome (Tensor (S (S n))) :=
  m <- min_dim_rows t ;;
  Ok (unsqueeze_rows m).

(** An operation applied to every matrix of a tensor of rank [n + 2]. *)
Fixpoint map_mats {A B} (f : list (list A) -> list (list B)) (n : nat)
  : tensor A (S (S n)) -> tensor B (S (S n)) :=
  match n return tensor A (S (S n)) -> tensor B (S (S n)) with
  | O => fun mat => f mat
  | S m => fun xs => map (map_mats f m) xs
  end.

(** [t.transpose(-1, -2)]. *)
Definition transpose_last {n} (t : Tensor (S (S n))) : Tensor (S (S n)) :=
  let cols := last (shape t) 0%nat in
  let rows := last (removelast (shape t)) 0%nat in
  mkTensor (dtype t) (removelast (removelast (shape t)) ++ [cols; rows])
           (map_mats (fun mat => map (fun j => column 0 j mat) (seq 0 cols)) n (data t)).

(** [t.repeat(1, ..., 1, k, 1)]: the rows of every matrix tiled [k] times. *)
Definition tile_rows {n} (k : nat) (t : Tensor (S (S n))) : Tensor (S (S n)) :=
  let cols := last (shape t) 0%nat in
  let rows := last (removelast (shape t)) 0%nat in
  mkTensor (dtype t) (removelast (removelast (shape t)) ++ [(rows * k)%nat; cols])
           (map_mats (fun mat => concat (repeat mat k)) n (data t)).

(** [t.unsqueeze(1).repeat(1, k, 1, 1)] of a batch of matrices. *)
Definition repeat_dim1 (k : nat) (t : Tensor 3) : Tensor 4 :=
  @mkTensor 4 (dtype t) (hd 0%nat (shape t) :: k :: tl (shape t))
            (map (fun mat => repeat mat k) (data t)).

(** [t.unsqueeze(0)]. *)
Definition unsqueeze_first {n} (t : Tensor n) : Tensor (S n) :=
  @mkTensor (S n) (dtype t) (1%nat :: shape t) [data t].

(** [t[:, :k]] and [t[:, :k, :m]]. *)
Definition take_dim1 {n} (k : nat) (t : Tensor (S (S n))) : Tensor (S (S n)) :=
  @mkTensor (S (S n)) (dtype t)
            (match shape t with
             | a :: b :: r => a :: Nat.min k b :: r
             | sh => sh
             end)
            (map (firstn k) (data t)).

Definition take_dim2 {n} (m : nat) (t : Tensor (S (S (S n)))) : Tensor (S (S (S n))) :=
  @mkTensor (S (S (S n))) (dtype t)
            (match shape t with
             | a :: b :: c :: r => a :: b :: Nat.min m c :: r
             | sh => sh
             end)
            (map (map (firstn m)) (data t)).

(** [torch.cat((a, b), dim=1)]. *)
Definition cat1 {n} (a b : Tensor (S (S n))) : outcome (Tensor (S (S n))) :=
  assert! Nat.eqb (hd 0%nat (shape a)) (hd 0%nat (shape b))
          && shape_eqb (tl (tl (shape a))) (tl (tl (shape b)))
    else ShapeMismatchError ;;
  Ok (@mkTensor (S (S n)) (promote (dtype a) (dtype b))
                (hd 0%nat (shape a)
                 :: (hd 0 (tl (shape a)) + hd 0 (tl (shape b)))%nat
                 :: tl (tl (shape a)))
                (map (fun p => fst p ++ snd p) (combine (data a) (data b)))).

(** [torch.matmul(a, b)] on tensors of rank [n + 2]: the leading [n]
    dimensions broadcast, the matrices are multiplied. *)
Definition matmul {n} (a b : Tensor (S (S n))) : outcome (Tensor (S (S n))) :=
  let batch_a := removelast (removelast (shape a)) in
  let batch_b := removelast (removelast (shape b)) in
  let cols := last (shape b) 0%nat in
  assert! broadcastable batch_a batch_b
          && Nat.eqb (last (shape a) 0%nat) (last (removelast (shape b)) 0%nat)
    else ShapeMismatchError ;;
  Ok (mkTensor (promote (dtype a) (dtype b))
               (bshape batch_a batch_b ++ [last (removelast (shape a)) 0%nat; cols])
               (bmap2_mats (matmul_data cols) n (data a) (data b))).

(** The loop [for i in range(decomp_factor)] over the bands; its state is
    the list [count] and the tensor [result], and an exception ends it. *)
Definition run_bands {R} (step : list nat * R -> nat -> outcome (list nat * R))
           (decomp_factor : nat) (result : R) : outcome (list nat * R) :=
  fold_left (fun acc i => st <- acc ;; step st i) (seq 0 decomp_factor)
            (Ok ([], result)).

(** [result -= x]. *)
Definition isub {n} (result x : Tensor n) : outcome (Tensor n) :=
  assert! broadcastable (shape result) (shape x)
          && shape_eqb (bshape (shape result) (shape x)) (shape result)
    else ShapeMismatchError ;;
  Ok (mkTensor (dtype result) (shape result) (bmap2 Qminus n (data result) (data x))).

(** [t.transpose(1, 2)] of a rank-4 tensor. *)
Definition swap_dims_1_2 (t : Tensor 4) : Tensor 4 :=
  @mkTensor 4 (dtype t)
            (match shape t with
             | a :: b :: c :: r => a :: c :: b :: r
             | sh => sh
             end)
            (map (fun heads : list (list (list Q)) =>
                    map (fun j => column [] j heads)
                        (seq 0 (nth 2 (shape t) 0%nat)))
                 (data t)).

(** ** [LmHeadTender], lines 1515-1589 *)

Module LmHeadTender.

Record t : Type := mk {
  quant_out_bf16 : bool;
  q_bits : Z;
  decomp_factor : nat;
  chunk_size : nat
}.

(** [__init__], lines 1516-1521. *)
Definition init : t := mk false 4 14 256.

(** Lines 1539-1551: the rows are cut in chunks of [chunk_size], the last
    one filled with zero rows. *)
Definition chunking (chunk_size : nat) (hidden_states : Tensor 2)
  : outcome (nat * Tensor 3) :=
  let tgt_len := hd 0%nat (shape hidden_states) in
  let hidden_dim := last (shape hidden_states) 0%nat in
  assert! negb (Nat.eqb chunk_size 0) else ZeroDivisionError ;;
  let chunks := ceil_div tgt_len chunk_size in
  assert! negb (Nat.eqb chunks 0) else EmptyInputError ;;
  let padded_rows := (chunks * chunk_size)%nat in
  let pad_num := (padded_rows - tgt_len)%nat in
  hidden_chunks <-
    (if Nat.ltb 0 pad_num
     then cat0 hidden_states (zeros (dtype hidden_states) [pad_num; hidden_dim])
     else Ok hidden_states) ;;
  hidden_chunks <- reshape 3 [chunks; chunk_size; hidden_dim] hidden_chunks ;;
  Ok (chunks, hidden_chunks).

(** Lines 1557-1559: [thresholds[i] = h_tmax / 2 ** (decomp_factor - 1 - i)],
    one column per chunk. *)
Definition thresholds_of (decomp_factor : nat) (h_tmax : Tensor 1) : list (Tensor 2) :=
  map (fun i => unsqueeze_last
                  (tlift (fun x => x / pow2 (Z.of_nat (decomp_factor - 1 - i))) h_tmax))
      (seq 0 decomp_factor).

Definition threshold (thresholds : list (Tensor 2)) (i : nat) : Tensor 2 :=
  nth i thresholds (zeros Float32 [0%nat; 1%nat]).

(** Lines 1565-1570: the channel flags of band [i]. *)
Definition band_mask (decomp_factor : nat) (thresholds : list (Tensor 2))
           (h_cmax : Tensor 2) (i : nat) : tensor bool 2 :=
  if Nat.eqb i 0 then le_mask h_cmax (threshold thresholds i)
  else if Nat.eqb i (decomp_factor - 1) then gt_mask h_cmax (threshold thresholds (i - 1))
  else logical_and (lt_mask (threshold thresholds (i - 1)) h_cmax)
                   (le_mask h_cmax (threshold thresholds i)).

(** Lines 1564-1580: one turn of the loop over the bands.  The state of
    the loop is the list [count] and the tensor [result]. *)
Definition band_step (self : t) (dt : DType) (hidden_chunks : Tensor 3)
           (thresholds : list (Tensor 2)) (h_cmax : Tensor 2)
           (st : list nat * Tensor 3) (i : nat) : outcome (list nat * Tensor 3) :=
  let '(count, result) := st in
  let q_max := q_max_of (q_bits self) in
  let mask := band_mask (decomp_factor self) thresholds h_cmax i in
  let count := count ++ [tcount mask] in
  if Nat.eqb (nth i count 0%nat) 0 then Ok (count, result)
  else
    let mask := repeat_rows (chunk_size self) 1 mask in
    scale <- div_scalar (unsqueeze_last (threshold thresholds i)) q_max ;;
    let decomp_fp := where_zero mask hidden_chunks in
    decomp_i <- sym_quant decomp_fp scale (q_bits self) ;;
    deq <- sym_dequant decomp_i scale dt ;;
    result <- iadd result deq ;;
    Ok (count, result).

(** Lines 1552-1580: statistics of the chunks and the loop over the
    bands; the value is [(count, result)] as the loop leaves them. *)
Definition bands (self : t) (dt : DType) (hidden_chunks : Tensor 3)
  : outcome (list nat * Tensor 3) :=
  let result := zeros (dtype hidden_chunks) (shape hidden_chunks) in
  h_tmax <- max_dim_last (tabs hidden_chunks) ;;
  h_tmax <- max_dim_last h_tmax ;;
  let thresholds := thresholds_of (decomp_factor self) h_tmax in
  h_cmax <- max_dim_rows (tabs hidden_chunks) ;;
  run_bands (band_step self dt hidden_chunks thresholds h_cmax)
            (decomp_factor self) result.

(** Lines 1552-1582: the loop and the check of the counts. *)
Definition decompose (self : t) (dt : DType) (chunks : nat) (hidden_chunks : Tensor 3)
  : outcome (list nat * Tensor 3) :=
  let hidden_dim := last (shape hidden_chunks) 0%nat in
  st <- bands self dt hidden_chunks ;;
  let '(count, result) := st in
  assert! Nat.eqb (sum_list count) (hidden_dim * chunks) else BandCoverageError ;;
  Ok (count, result).

(** Lines 1585-1586: the padded rows are dropped and the batch dimension
    is restored. *)
Definition trim (bsz orig_tgt_len padded_rows : nat) (lm_out : Tensor 3)
  : outcome (Tensor 3) :=
  vocab <- infer_dim (numel (shape lm_out)) padded_rows ;;
  logits <- reshape 2 [padded_rows; vocab] lm_out ;;
  let logits := take_rows (bsz * orig_tgt_len) logits in
  vocab <- infer_dim (numel (shape logits)) (bsz * orig_tgt_len) ;;
  reshape 3 [bsz; orig_tgt_len; vocab] logits.

(** Lines 1528-1530: the weight quantized row by row, then transposed. *)
Definition quantized_weight (self : t) (dt : DType) (lm_weight : Tensor 2)
  : outcome (Tensor 2) :=
  let q_max := q_max_of (q_bits self) in
  m <- max_dim_last_keepdim (tabs lm_weight) ;;
  scale <- div_scalar m q_max ;;
  Wq <- sym_quant lm_weight scale (q_bits self) ;;
  Wl <- sym_dequant Wq scale dt ;;
  Ok (transpose2 Wl).

Section Forward.
Variable mx_quantize_bfloat : forall n, Tensor n -> Tensor n.

(** [forward(self, hidden_states, lm_weight)], lines 1523-1589. *)
Definition forward (self : t) (hidden_states : Tensor 3) (lm_weight : Tensor 2)
  : outcome (Tensor 3) :=
  let dt := dtype hidden_states in
  Wl <- quantized_weight self dt lm_weight ;;
  match shape hidden_states with
  | [bsz; tgt_len; hidden_dim] =>
      let orig_tgt_len := tgt_len in
      hidden_states <- reshape 2 [(tgt_len * bsz)%nat; hidden_dim] hidden_states ;;
      ch <- chunking (chunk_size self) hidden_states ;;
      let '(chunks, hidden_chunks) := ch in
      let padded_rows := (chunks * chunk_size self)%nat in
      st <- decompose self dt chunks hidden_chunks ;;
      let result := snd st in
      lm_out <- matmul_3_2 result Wl ;;
      logits <- trim bsz orig_tgt_len padded_rows lm_out ;;
      if quant_out_bf16 self
      then quant_bfloat mx_quantize_bfloat logits
      else Ok logits
  | _ => Raise ShapeMismatchError
  end.
End Forward.

End LmHeadTender.


(** ** [LlamaAttention_Tender_Eval], lines 518-964 *)

Module LlamaAttention_Tender_Eval.

(** The calibration attributes a caller may supply (lines 557-559,
    567-570, 578-581, 584, 586); [None] is Python's [None]. *)
Record Supplied : Type := mkSupplied {
  h_ch_bias : option (Tensor 3);
  k_ch_bias : option (Tensor 3);
  q_ch_bias : option (Tensor 4);
  h_tmax : option (Tensor 1);
  q_tmax : option (Tensor 2);
  s_tmax : option (Tensor 2);
  o_tmax : option (Tensor 1);
  h_group_index : option (Tensor 2);
  q_group_index : option (Tensor 3);
  s_group_index : option (Tensor 3);
  o_group_index : option (Tensor 2);
  k_scale : option (Tensor 3);
  v_scale : option (Tensor 4)
}.

(** The calibration attributes a forward pass fills in (the [_cal]
    attributes of lines 553-555, 562-565, 573-576, 585, 587). *)
Record Collected : Type := mkCollected {
  h_ch_bias_cal : option (Tensor 3);
  k_ch_bias_cal : option (Tensor 3);
  q_ch_bias_cal : option (Tensor 4);
  h_tmax_cal : option (Tensor 1);
  q_tmax_cal : option (Tensor 2);
  s_tmax_cal : option (Tensor 2);
  o_tmax_cal : option (Tensor 1);
  h_cmax_cal : option (Tensor 2);
  q_cmax_cal : option (Tensor 3);
  s_cmax_cal : option (Tensor 3);
  o_cmax_cal : option (Tensor 2);
  k_scale_cal : option (Tensor 3);
  v_scale_cal : option (Tensor 4)
}.

(** The attributes of the module that the forward pass reads or writes.
    [k_proj_out_features] stands for [self.k_proj.weight.data.shape[0]]. *)
Record t : Type := mk {
  hidden_size : nat;
  num_heads : nat;
  head_dim : nat;
  k_proj_out_features : nat;
  quant_mha : bool;
  quant_out_bf16 : bool;
  q_bits : Z;
  decomp_factor : nat;
  chunk_size : nat;
  embed_dim : option nat;
  kv_dim : option nat;
  supplied : Supplied;
  collected : Collected
}.

Definition no_supplied : Supplied :=
  mkSupplied None None None None None None None None None None None None None.

Definition no_collected : Collected :=
  mkCollected None None None None None None None None None None None None None.

(** [__init__], lines 521-587, for a configuration with the given sizes. *)
Definition init (hidden num_attention_heads num_key_value_heads : nat) : t :=
  mk hidden num_attention_heads (hidden / num_attention_heads)
     (num_key_value_heads * (hidden / num_attention_heads))
     false false 4 8 256 None None no_supplied no_collected.

Definition with_k_ch_bias_cal (v : Tensor 3) (c : Collected) : Collected :=
  mkCollected (h_ch_bias_cal c) (Some v) (q_ch_bias_cal c) (h_tmax_cal c)
              (q_tmax_cal c) (s_tmax_cal c) (o_tmax_cal c) (h_cmax_cal c)
              (q_cmax_cal c) (s_cmax_cal c) (o_cmax_cal c)
              (k_scale_cal c) (v_scale_cal c).

Definition with_q_ch_bias_cal (v : Tensor 4) (c : Collected) : Collected :=
  mkCollected (h_ch_bias_cal c) (k_ch_bias_cal c) (Some v) (h_tmax_cal c)
              (q_tmax_cal c) (s_tmax_cal c) (o_tmax_cal c) (h_cmax_cal c)
              (q_cmax_cal c) (s_cmax_cal c) (o_cmax_cal c)
              (k_scale_cal c) (v_scale_cal c).

Definition with_q_tmax_cal (v : Tensor 2) (c : Collected) : Collected :=
  mkCollected (h_ch_bias_cal c) (k_ch_bias_cal c) (q_ch_bias_cal c) (h_tmax_cal c)
              (Some v) (s_tmax_cal c) (o_tmax_cal c) (h_cmax_cal c)
              (q_cmax_cal c) (s_cmax_cal c) (o_cmax_cal c)
              (k_scale_cal c) (v_scale_cal c).

Definition with_q_cmax_cal (v : Tensor 3) (c : Collected) : Collected :=
  mkCollected (h_ch_bias_cal c) (k_ch_bias_cal c) (q_ch_bias_cal c) (h_tmax_cal c)
              (q_tmax_cal c) (s_tmax_cal c) (o_tmax_cal c) (h_cmax_cal c)
              (Some v) (s_cmax_cal c) (o_cmax_cal c)
              (k_scale_cal c) (v_scale_cal c).

Definition with_k_scale_cal (v : Tensor 3) (c : Collected) : Collected :=
  mkCollected (h_ch_bias_cal c) (k_ch_bias_cal c) (q_ch_bias_cal c) (h_tmax_cal c)
              (q_tmax_cal c) (s_tmax_cal c) (o_tmax_cal c) (h_cmax_cal c)
              (q_cmax_cal c) (s_cmax_cal c) (o_cmax_cal c)
              (Some v) (v_scale_cal c).

Definition with_s_tmax_cal (v : Tensor 2) (c : Collected) : Collected :=
  mkCollected (h_ch_bias_cal c) (k_ch_bias_cal c) (q_ch_bias_cal c) (h_tmax_cal c)
              (q_tmax_cal c) (Some v) (o_tmax_cal c) (h_cmax_cal c)
              (q_cmax_cal c) (s_cmax_cal c) (o_cmax_cal c)
              (k_scale_cal c) (v_scale_cal c).

Definition with_s_cmax_cal (v : Tensor 3) (c : Collected) : Collected :=
  mkCollected (h_ch_bias_cal c) (k_ch_bias_cal c) (q_ch_bias_cal c) (h_tmax_cal c)
              (q_tmax_cal c) (s_tmax_cal c) (o_tmax_cal c) (h_cmax_cal c)
              (q_cmax_cal c) (Some v) (o_cmax_cal c)
              (k_scale_cal c) (v_scale_cal c).

Definition with_v_scale_cal (v : Tensor 4) (c : Collected) : Collected :=
  mkCollected (h_ch_bias_cal c) (k_ch_bias_cal c) (q_ch_bias_cal c) (h_tmax_cal c)
              (q_tmax_cal c) (s_tmax_cal c) (o_tmax_cal c) (h_cmax_cal c)
              (q_cmax_cal c) (s_cmax_cal c) (o_cmax_cal c)
              (k_scale_cal c) (Some v).

Definition with_collected (c : Collected) (self : t) : t :=
  mk (hidden_size self) (num_heads self) (head_dim self) (k_proj_out_features self)
     (quant_mha self) (quant_out_bf16 self) (q_bits self) (decomp_factor self)
     (chunk_size self) (embed_dim self) (kv_dim self) (supplied self) c.

Definition with_embed_dim (d : nat) (self : t) : t :=
  mk (hidden_size self) (num_heads self) (head_dim self) (k_proj_out_features self)
     (quant_mha self) (quant_out_bf16 self) (q_bits self) (decomp_factor self)
     (chunk_size self) (Some d) (kv_dim self) (supplied self) (collected self).

Definition with_kv_dim (d : nat) (self : t) : t :=
  mk (hidden_size self) (num_heads self) (head_dim self) (k_proj_out_features self)
     (quant_mha self) (quant_out_bf16 self) (q_bits self) (decomp_factor self)
     (chunk_size self) (embed_dim self) (Some d) (supplied self) (collected self).

(** *** Computations that read and write the attributes *)

Definition M (A : Type) : Type := t -> outcome (A * t).

Definition ret {A} (a : A) : M A := fun self => Ok (a, self).

Definition bind {A B} (m : M A) (k : A -> M B) : M B :=
  fun self =>
    match m self with
    | Ok (a, self') => k a self'
    | Raise e => Raise e
    | NonFinite => NonFinite
    end.

(** A computation that touches no attribute. *)
Definition lift {A} (o : outcome A) : M A :=
  fun self =>
    match o with
    | Ok a => Ok (a, self)
    | Raise e => Raise e
    | NonFinite => NonFinite
    end.

Definition get : M t := fun self => Ok (self, self).

(** [self.<name>_cal = v]. *)
Definition collect (upd : Collected -> Collected) : M unit :=
  fun self => Ok (tt, with_collected (upd (collected self)) self).

Definition modify (f : t -> t) : M unit := fun self => Ok (tt, f self).

Declare Scope attn_scope.
Delimit Scope attn_scope with attn.
Notation "x <-- m ;; k" := (bind m (fun x => k))
  (at level 61, m at next level, right associativity) : attn_scope.
Notation "m ;;; k" := (bind m (fun _ => k))
  (at level 61, right associativity) : attn_scope.

(** Which tensor decides the bands: the channel maxima computed from the
    chunks, or a supplied group index. *)
Inductive band_source : Type :=
| Computed (cmax : Tensor 3)
| Indexed (group_index : Tensor 3).

Definition threshold (thresholds : list (Tensor 3)) (i : nat) : Tensor 3 :=
  nth i thresholds (zeros Float32 [0%nat; 0%nat; 1%nat]).

(** Lines 739-742 and 837-839. *)
Definition thresholds_of (decomp_factor : nat) (tmax : Tensor 2) : list (Tensor 3) :=
  map (fun i => unsqueeze_last
                  (tlift (fun x => x / pow2 (Z.of_nat (decomp_factor - 1 - i))) tmax))
      (seq 0 decomp_factor).

(** Lines 750-756: the channel flags of band [i] for Q x K^T. *)
Definition qk_band_mask (chunks : nat) (thresholds : list (Tensor 3))
           (src : band_source) (i : nat) : outcome (Mask 3) :=
  match src with
  | Computed q_cmax =>
      if Nat.eqb i 0 then tcompare Qle_bool q_cmax (threshold thresholds i)
      else
        lo <- tcompare Qlt_bool (threshold thresholds (i - 1)) q_cmax ;;
        hi <- tcompare Qle_bool q_cmax (threshold thresholds i) ;;
        mask_and lo hi
  | Indexed q_group_index => Ok (eq_scalar (take_dim1 chunks q_group_index) i)
  end.

(** Lines 847-855: the channel flags of band [i] for S x V. *)
Definition sv_band_mask (decomp_factor chunks src_len : nat)
           (thresholds : list (Tensor 3)) (src : band_source) (i : nat)
  : outcome (Mask 3) :=
  match src with
  | Computed s_cmax =>
      if Nat.eqb i 0 then tcompare Qle_bool s_cmax (threshold thresholds i)
      else if Nat.eqb i (decomp_factor - 1)
      then tcompare (fun x y => Qlt_bool y x) s_cmax (threshold thresholds (i - 1))
      else
        lo <- tcompare Qlt_bool (threshold thresholds (i - 1)) s_cmax ;;
        hi <- tcompare Qle_bool s_cmax (threshold thresholds i) ;;
        mask_and lo hi
  | Indexed s_group_index =>
      Ok (eq_scalar (take_dim2 src_len (take_dim1 chunks s_group_index)) i)
  end.

(** Lines 749-766: one turn of the loop over the bands of Q x K^T. *)
Definition qk_band_step (self : t) (dt : DType) (chunks : nat)
           (hidden_chunks : Tensor 4) (thresholds : list (Tensor 3))
           (src : band_source) (st : list nat * Tensor 4) (i : nat)
  : outcome (list nat * Tensor 4) :=
  let '(count, result) := st in
  let q_max := q_max_of (q_bits self) in
  mask <- qk_band_mask chunks thresholds src i ;;
  let count := count ++ [tcount (mdata mask)] in
  if Nat.eqb (nth i count 0%nat) 0 then Ok (count, result)
  else
    let mask := mask_repeat_rows (chunk_size self) mask in
    scale <- div_scalar (unsqueeze_last (threshold thresholds i)) q_max ;;
    decomp_fp <- where_mask mask hidden_chunks ;;
    decomp_i <- sym_quant decomp_fp scale (q_bits self) ;;
    deq <- sym_dequant decomp_i scale dt ;;
    result <- iadd result deq ;;
    Ok (count, result).

(** Line 864: [torch.round(decomp_fp / scale).clamp(min = 0, max = prob_q_max)];
    a zero entry of [scale] gives inf or NaN quotients. *)
Definition quant_unsigned (decomp_fp scale : Tensor 4) (prob_q_max : Q)
  : outcome (Tensor 4) :=
  if negb (Nat.eqb (count_zeros scale) 0)
     && negb (Nat.eqb (numel (shape decomp_fp)) 0)
  then NonFinite
  else
    q <- tdiv decomp_fp scale ;;
    Ok (tclamp 0 prob_q_max (tround q)).

(** Lines 846-865: one turn of the loop over the bands of S x V. *)
Definition sv_band_step (self : t) (dt : DType) (chunks src_len : nat)
           (hidden_chunks : Tensor 4) (thresholds : list (Tensor 3))
           (src : band_source) (st : list nat * Tensor 4) (i : nat)
  : outcome (list nat * Tensor 4) :=
  let '(count, result) := st in
  let prob_q_max := pow2 (q_bits self) - 1 in
  mask <- sv_band_mask (decomp_factor self) chunks src_len thresholds src i ;;
  let count := count ++ [tcount (mdata mask)] in
  if Nat.eqb (nth i count 0%nat) 0 then Ok (count, result)
  else
    let mask := mask_repeat_rows (chunk_size self) mask in
    scale <- div_scalar (unsqueeze_last (threshold thresholds i)) prob_q_max ;;
    decomp_fp <- where_mask mask hidden_chunks ;;
    decomp_i <- quant_unsigned decomp_fp scale prob_q_max ;;
    deq <- sym_dequant decomp_i scale dt ;;
    result <- iadd result deq ;;
    Ok (count, result).

(** Lines 702-714 and 815-827: the rows of every batch entry are cut in
    chunks of [chunk_size], the last one filled with zero rows. *)
Definition chunking (chunk_size : nat) (pad_dtype : DType) (states : Tensor 3)
  : outcome (nat * Tensor 4) :=
  match shape states with
  | [batch; tgt_len; channels] =>
      assert! negb (Nat.eqb chunk_size 0) else ZeroDivisionError ;;
      let chunks := ceil_div tgt_len chunk_size in
      assert! negb (Nat.eqb chunks 0) else EmptyInputError ;;
      let padded_rows := (chunks * chunk_size)%nat in
      let pad_num := (padded_rows - tgt_len)%nat in
      hidden_chunks <-
        (if Nat.ltb 0 pad_num
         then cat1 states (zeros pad_dtype [batch; pad_num; channels])
         else Ok states) ;;
      hidden_chunks <- reshape 4 [batch; chunks; chunk_size; channels] hidden_chunks ;;
      Ok (chunks, hidden_chunks)
  | _ => Raise ShapeMismatchError
  end.

Local Open Scope attn_scope.

(** Lines 732-766: the statistics of the query chunks (computed, or read
    from the supplied calibration) and the loop over the bands; the value
    is [(count, result)] as the loop leaves them. *)
Definition qk_bands (dt : DType) (chunks : nat) (hidden_chunks result : Tensor 4)
  : M (list nat * Tensor 4) :=
  self <-- get ;;
  q_tmax <--
    match q_tmax (supplied self) with
    | None =>
        m <-- lift (max_dim_last (tabs hidden_chunks)) ;;
        q_tmax <-- lift (max_dim_last m) ;;
        collect (with_q_tmax_cal q_tmax) ;;;
        ret q_tmax
    | Some m => ret (take_dim1 chunks m)
    end ;;
  let thresholds := thresholds_of (decomp_factor self) q_tmax in
  src <--
    match q_group_index (supplied self) with
    | None =>
        q_cmax <-- lift (max_dim_rows (tabs hidden_chunks)) ;;
        collect (with_q_cmax_cal q_cmax) ;;;
        ret (Computed q_cmax)
    | Some g => ret (Indexed g)
    end ;;
  lift (run_bands (qk_band_step self dt chunks hidden_chunks thresholds src)
                  (decomp_factor self) result).

(** Lines 830-865: the same for the chunks of attention scores. *)
Definition sv_bands (dt : DType) (chunks src_len : nat) (hidden_chunks result : Tensor 4)
  : M (list nat * Tensor 4) :=
  self <-- get ;;
  s_tmax <--
    match s_tmax (supplied self) with
    | None =>
        m <-- lift (max_dim_last (tabs hidden_chunks)) ;;
        s_tmax <-- lift (max_dim_last m) ;;
        collect (with_s_tmax_cal s_tmax) ;;;
        ret s_tmax
    | Some m => ret (take_dim1 chunks m)
    end ;;
  let thresholds := thresholds_of (decomp_factor self) s_tmax in
  src <--
    match s_group_index (supplied self) with
    | None =>
        s_cmax <-- lift (max_dim_rows (tabs hidden_chunks)) ;;
        collect (with_s_cmax_cal s_cmax) ;;;
        ret (Computed s_cmax)
    | Some g => ret (Indexed g)
    end ;;
  lift (run_bands (sv_band_step self dt chunks src_len hidden_chunks thresholds src)
                  (decomp_factor self) result).

Section Forward.
(** [math.sqrt]. *)
Variable math_sqrt : nat -> Q.
(** [mx.quantize_bfloat] of the external [mx] package. *)
Variable mx_quantize_bfloat : forall n, Tensor n -> Tensor n.
(** Lines 642-662: the projections, the rotary embedding, the key/value
    cache and [repeat_kv], from the flattened hidden states to
    [query_states], [key_states], [value_states] and [kv_seq_len].  They
    depend on learned weights and on sine and cosine tables, read none of
    the calibration attributes and write no attribute. *)
Variable project : Tensor 2 -> outcome (Tensor 4 * Tensor 4 * Tensor 4 * nat).
(** Line 795: the softmax over the last dimension, cast back. *)
Variable softmax : Tensor 4 -> Tensor 4.
(** Lines 888-893: the output projection. *)
Variable o_proj : Tensor 3 -> outcome (Tensor 3).

(** Lines 667-778: Q x K^T with the key quantized by row and the query
    decomposed by chunk. *)
Definition qk_block (dt : DType) (orig_tgt_len q_len kv_seq_len : nat)
           (query_states key_states : Tensor 4) : M (nat * Tensor 4) :=
  self <-- get ;;
  match shape query_states, shape key_states with
  | [bsz; heads; tgt_len; _], [_; _; src_len; _] =>
      query_states <-- lift (reshape 3 [(bsz * heads)%nat; tgt_len; head_dim self]
                                     query_states) ;;
      key_states <-- lift (reshape 3 [(bsz * heads)%nat; src_len; head_dim self]
                                   key_states) ;;
      query_states <-- lift (div_scalar query_states (math_sqrt (head_dim self))) ;;
      let q_max := q_max_of (q_bits self) in
      (* key normalize *)
      let orig_k := key_states in
      k_ch_bias <--
        match k_ch_bias (supplied self) with
        | None =>
            ch_max <-- lift (max_dim_rows_keepdim key_states) ;;
            ch_min <-- lift (min_dim_rows_keepdim key_states) ;;
            sum <-- lift (tbinop Qplus ch_max ch_min) ;;
            let k_ch_bias := tlift (fun x => x / 2) sum in
            collect (with_k_ch_bias_cal k_ch_bias) ;;;
            ret k_ch_bias
        | Some b => ret b
        end ;;
      K <-- lift (tbinop Qminus key_states k_ch_bias) ;;
      let k_ch_bias := unsqueeze_rows k_ch_bias in
      (* key - row-wise symmetric *)
      scale <--
        match k_scale (supplied self) with
        | None =>
            m <-- lift (max_dim_last_keepdim (tabs K)) ;;
            scale <-- lift (div_scalar m q_max) ;;
            collect (with_k_scale_cal scale) ;;;
            ret scale
        | Some sc => ret (take_dim1 src_len sc)
        end ;;
      K <-- lift (sym_quant K scale (q_bits self)) ;;
      K <-- lift (sym_dequant K scale dt) ;;
      let K := transpose_last K in
      (* chunking *)
      ch <-- lift (chunking (chunk_size self) (dtype K) query_states) ;;
      let '(chunks, hidden_chunks) := ch in
      let padded_rows := (chunks * chunk_size self)%nat in
      let result := zeros (dtype hidden_chunks) (shape hidden_chunks) in
      (* Acts normalize *)
      q_ch_bias <--
        match q_ch_bias (supplied self) with
        | None =>
            ch_max <-- lift (max_dim_rows_keepdim hidden_chunks) ;;
            ch_min <-- lift (min_dim_rows_keepdim hidden_chunks) ;;
            sum <-- lift (tbinop Qplus ch_max ch_min) ;;
            let q_ch_bias := tlift (fun x => x / 2) sum in
            collect (with_q_ch_bias_cal q_ch_bias) ;;;
            ret q_ch_bias
        | Some b => ret (take_dim1 chunks b)
        end ;;
      o1_ch_bias <-- lift (matmul q_ch_bias (transpose_last (repeat_dim1 chunks orig_k))) ;;
      o2_ch_bias <-- lift (matmul hidden_chunks (transpose_last k_ch_bias)) ;;
      o3 <-- lift (matmul q_ch_bias (transpose_last k_ch_bias)) ;;
      let o3_ch_bias := tlift Qopp o3 in
      hidden_chunks <-- lift (isub hidden_chunks q_ch_bias) ;;
      st <-- qk_bands dt chunks hidden_chunks result ;;
      let '(count, result) := st in
      lift (assert! Nat.eqb (sum_list count) (num_heads self * head_dim self * chunks)
              else BandCoverageError ;; Ok tt)%outcome ;;;
      let rows := (bsz * num_heads self)%nat in
      result <-- lift (reshape 3 [rows; padded_rows; head_dim self] result) ;;
      o1_ch_bias <-- lift (reshape 3 [rows; padded_rows; src_len]
                                   (tile_rows (chunk_size self) o1_ch_bias)) ;;
      o2_ch_bias <-- lift (reshape 3 [rows; padded_rows; 1%nat] o2_ch_bias) ;;
      o3_ch_bias <-- lift (reshape 3 [rows; padded_rows; 1%nat]
                                   (tile_rows (chunk_size self) o3_ch_bias)) ;;
      attn_weights <-- lift (matmul result K) ;;
      attn_weights <-- lift (tbinop Qplus attn_weights o1_ch_bias) ;;
      attn_weights <-- lift (tbinop Qplus attn_weights o2_ch_bias) ;;
      attn_weights <-- lift (tbinop Qplus attn_weights o3_ch_bias) ;;
      let attn_weights := take_dim1 orig_tgt_len attn_weights in
      attn_weights <-- lift (reshape 4 [bsz; num_heads self; q_len; kv_seq_len]
                                     attn_weights) ;;
      ret (bsz, attn_weights)
  | _, _ => lift (Raise ShapeMismatchError)
  end.

(** Lines 800-876: S x V with the value quantized by column and the
    attention scores decomposed by chunk. *)
Definition sv_block (dt hidden_dtype : DType) (attn_weights value_states : Tensor 4)
  : M (nat * Tensor 4) :=
  self <-- get ;;
  match shape attn_weights with
  | [bsz; heads; tgt_len; src_len] =>
      attn_weights <-- lift (reshape 3 [(bsz * heads)%nat; tgt_len; src_len]
                                     attn_weights) ;;
      let q_max := q_max_of (q_bits self) in
      scale <--
        match v_scale (supplied self) with
        | None =>
            m <-- lift (max_dim_rows_keepdim (tabs value_states)) ;;
            scale <-- lift (div_scalar m q_max) ;;
            collect (with_v_scale_cal scale) ;;;
            ret scale
        | Some sc => ret sc
        end ;;
      V <-- lift (sym_quant value_states scale (q_bits self)) ;;
      V <-- lift (sym_dequant V scale dt) ;;
      ch <-- lift (chunking (chunk_size self) hidden_dtype attn_weights) ;;
      let '(chunks, hidden_chunks) := ch in
      let padded_rows := (chunks * chunk_size self)%nat in
      let result := zeros (dtype hidden_chunks) (shape hidden_chunks) in
      st <-- sv_bands dt chunks src_len hidden_chunks result ;;
      let '(count, result) := st in
      lift (assert! Nat.eqb (sum_list count) (num_heads self * src_len * chunks)
              else BandCoverageError ;; Ok tt)%outcome ;;;
      let result := to (dtype attn_weights) result in
      result <-- lift (reshape 3 [(bsz * num_heads self)%nat; padded_rows; src_len]
                               result) ;;
      let result := take_dim1 tgt_len result in
      attn_output <-- lift (matmul (unsqueeze_first result) V) ;;
      attn_output <-- lift (reshape 4 [bsz; num_heads self; tgt_len; head_dim self]
                                    attn_output) ;;
      attn_output <--
        (if quant_out_bf16 self
         then lift (quant_bfloat mx_quantize_bfloat attn_output)
         else ret attn_output) ;;
      ret (bsz, attn_output)
  | _ => lift (Raise ShapeMismatchError)
  end.

(** [forward], lines 619-964.  The value is [(attn_output, attn_weights)];
    [past_key_value] is handed back as it came. *)
Definition forward (hidden_states : Tensor 3) (attention_mask : option (Tensor 4))
           (output_attentions : bool) : M (Tensor 3 * option (Tensor 4)) :=
  match shape hidden_states with
  | [bsz; q_len; dimensions] =>
      modify (with_embed_dim dimensions) ;;;
      self <-- get ;;
      modify (with_kv_dim (k_proj_out_features self)) ;;;
      self <-- get ;;
      let dt := dtype hidden_states in
      let orig_tgt_len := q_len in
      hidden_flat <-- lift (reshape 2 [(q_len * bsz)%nat; dimensions] hidden_states) ;;
      qkv <-- lift (project hidden_flat) ;;
      let '(query_states, key_states, value_states, kv_seq_len) := qkv in
      r <--
        (if negb (quant_mha self)
         then
           p <-- lift (matmul query_states (transpose_last key_states)) ;;
           w <-- lift (div_scalar p (math_sqrt (head_dim self))) ;;
           ret (bsz, w)
         else qk_block dt orig_tgt_len q_len kv_seq_len query_states key_states) ;;
      let '(bsz, attn_weights) := r in
      lift (assert! shape_eqb (shape attn_weights)
                      [bsz; num_heads self; q_len; kv_seq_len]
              else ShapeMismatchError ;; Ok tt)%outcome ;;;
      attn_weights <--
        match attention_mask with
        | Some mask =>
            lift (assert! shape_eqb (shape mask) [bsz; 1%nat; q_len; kv_seq_len]
                    else ShapeMismatchError ;; Ok tt)%outcome ;;;
            lift (tbinop Qplus attn_weights mask)
        | None => ret attn_weights
        end ;;
      let attn_weights := softmax attn_weights in
      r <--
        (if negb (quant_mha self)
         then
           o <-- lift (matmul attn_weights value_states) ;;
           ret (bsz, o)
         else sv_block dt (dtype hidden_states) attn_weights value_states) ;;
      let '(bsz, attn_output) := r in
      lift (assert! shape_eqb (shape attn_output)
                      [bsz; num_heads self; q_len; head_dim self]
              else ShapeMismatchError ;; Ok tt)%outcome ;;;
      let attn_output := swap_dims_1_2 attn_output in
      attn_output <-- lift (reshape 3 [bsz; q_len; hidden_size self] attn_output) ;;
      attn_output <-- lift (o_proj attn_output) ;;
      ret (attn_output, if output_attentions then Some attn_weights else None)
  | _ => lift (Raise ShapeMismatchError)
  end.
End Forward.

End LlamaAttention_Tender_Eval.

(** ** Notions used to state the properties *)

(** What [sym_quant] computes on an entry [x] whose scale entry is [s]:
    line 58 and line 63 on one entry. *)
Definition quant_entry (q_bits : Z) (x s : Q) : Q :=
  clamp (- (q_max_of q_bits + 1)) (q_max_of q_bits)
        (inject_Z (round_half_even (x / Qmax (Qabs s) eps))).

(** The quantizer on one entry as the specification words it:
    [round(x / scale)] clamped to [[-(2^(bits-1)), 2^(bits-1) - 1]]. *)
Definition quantize_spec (bits : Z) (x s : Q) : Q :=
  clamp (- pow2 (bits - 1)) (pow2 (bits - 1) - 1)
        (inject_Z (round_half_even (x / s))).

(** Arrays equal entry by entry as rational numbers. *)
Fixpoint teq (n : nat) : tensor Q n -> tensor Q n -> Prop :=
  match n with
  | O => Qeq
  | S m => Forall2 (teq m)
  end.

(** [sym_dequant(sym_quant(x, scale, q_bits), scale, dtype)], as at lines
    698, 813 and 1529. *)
Definition quant_dequant {n} (x scale : Tensor n) (q_bits : Z) (dt : DType)
  : outcome (Tensor n) :=
  q <- sym_quant x scale q_bits ;;
  sym_dequant q scale dt.


(** The thresholds and the two band policies as the specification words
    them, for a chunk whose largest magnitude is [tmax] and a channel whose
    largest magnitude in the chunk is [cmax]:
    [threshold[i] = tmax / 2^(decomposition_factor - 1 - i)]. *)
Definition threshold_spec (factor : nat) (tmax : Q) (i : nat) : Q :=
  tmax / pow2 (Z.of_nat (factor - 1 - i)).

(** Band 0 takes [cmax <= threshold[0]], band [i > 0] takes
    [threshold[i-1] < cmax <= threshold[i]]. *)
Definition band_inclusive (factor : nat) (i : nat) (tmax cmax : Q) : bool :=
  if Nat.eqb i 0 then Qle_bool cmax (threshold_spec factor tmax 0)
  else Qlt_bool (threshold_spec factor tmax (i - 1)) cmax
       && Qle_bool cmax (threshold_spec factor tmax i).

(** The closed-top variant: the last band takes [cmax > threshold[last-1]]
    instead. *)
Definition band_closed_top (factor : nat) (i : nat) (tmax cmax : Q) : bool :=
  if Nat.eqb i 0 then Qle_bool cmax (threshold_spec factor tmax 0)
  else if Nat.eqb i (factor - 1) then Qlt_bool (threshold_spec factor tmax (i - 1)) cmax
  else Qlt_bool (threshold_spec factor tmax (i - 1)) cmax
       && Qle_bool cmax (threshold_spec factor tmax i).

(** The flags of one band over every chunk: the channel maxima of a chunk
    (a row of [cmax]) against the chunk's [tmax]. *)
Definition band_flags (band : Q -> Q -> bool) (cmax : list (list Q)) (tmax : list Q)
  : list (list bool) :=
  map (fun p => map (band (snd p)) (fst p)) (combine cmax tmax).

Definition b2n (b : bool) : nat := if b then 1%nat else 0%nat.

(** The largest magnitude of a chunk and of each of its channels, read
    from the matrix of magnitudes of the chunk. *)
Definition chunk_tmax (mat : list (list Q)) : Q := max_list (map max_list mat).

Definition chunk_cmax (channels : nat) (mat : list (list Q)) : list Q :=
  map (fun j => max_list (column 0 j mat)) (seq 0 channels).

(** The statistics [h_tmax] (line 1555) and [h_cmax] (line 1561) of the
    chunks of the LM head, in closed form. *)
Definition lm_tmax (hidden_chunks : Tensor 3) : Tensor 1 :=
  @mkTensor 1 (dtype hidden_chunks) (removelast (removelast (shape hidden_chunks)))
            (map chunk_tmax (tmap Qabs 3 (data hidden_chunks))).

Definition lm_cmax (hidden_chunks : Tensor 3) : Tensor 2 :=
  @mkTensor 2 (dtype hidden_chunks) (drop_rows_dim (shape hidden_chunks))
            (map (chunk_cmax (last (shape hidden_chunks) 0%nat))
                 (tmap Qabs 3 (data hidden_chunks))).

(** The sanity baseline of the specification: one direct symmetric
    quantize-then-dequantize of the whole chunked tensor, the scale of a
    chunk being its largest magnitude divided by [2^(bits-1) - 1]. *)
Definition direct_quant_dequant (bits : Z) (dt : DType) (hidden_chunks : Tensor 3)
  : outcome (Tensor 3) :=
  m <- max_dim_last (tabs hidden_chunks) ;;
  chunk_max <- max_dim_last m ;;
  scale <- div_scalar (unsqueeze_last (unsqueeze_last chunk_max)) (pow2 (bits - 1) - 1) ;;
  quant_dequant hidden_chunks scale bits dt.

(** The flags of one band over every chunk of every batch entry. *)
Definition batch_flags (band : Q -> Q -> bool)
           (cmax : list (list (list Q))) (tmax : list (list Q))
  : list (list (list bool)) :=
  map (fun p => band_flags band (fst p) (snd p)) (combine cmax tmax).

(** The statistics of the chunks of an attention path (lines 733-734 and
    745, 831-832 and 842), in closed form. *)
Definition attn_tmax (hidden_chunks : Tensor 4) : Tensor 2 :=
  @mkTensor 2 (dtype hidden_chunks) (removelast (removelast (shape hidden_chunks)))
            (map (map chunk_tmax) (tmap Qabs 4 (data hidden_chunks))).

Definition attn_cmax (hidden_chunks : Tensor 4) : Tensor 3 :=
  @mkTensor 3 (dtype hidden_chunks) (drop_rows_dim (shape hidden_chunks))
            (map (map (chunk_cmax (last (shape hidden_chunks) 0%nat)))
                 (tmap Qabs 4 (data hidden_chunks))).

(** [fp] holds the entries of [x] where [mask] is set and zero elsewhere,
    position by position in row-major order. *)
Definition zeroed_outside (n : nat) (mask : tensor bool n) (x fp : tensor Q n) : Prop :=
  entries n fp
  = map (fun p : bool * Q => if fst p then snd p else 0)
        (combine (entries n mask) (entries n x)).

(** What a forward pass of the attention module must leave as it found it:
    the supplied calibration attributes, the configuration, and the [_cal]
    attributes of the paths that are not run. *)
Definition untouched_cal (c : LlamaAttention_Tender_Eval.Collected) :=
  (LlamaAttention_Tender_Eval.h_ch_bias_cal c,
   LlamaAttention_Tender_Eval.h_tmax_cal c,
   LlamaAttention_Tender_Eval.o_tmax_cal c,
   LlamaAttention_Tender_Eval.h_cmax_cal c,
   LlamaAttention_Tender_Eval.o_cmax_cal c).

Definition frame_view (self : LlamaAttention_Tender_Eval.t) :=
  (LlamaAttention_Tender_Eval.supplied self,
   (LlamaAttention_Tender_Eval.hidden_size self,
    LlamaAttention_Tender_Eval.num_heads self,
    LlamaAttention_Tender_Eval.head_dim self,
    LlamaAttention_Tender_Eval.k_proj_out_features self),
   (LlamaAttention_Tender_Eval.quant_mha self,
    LlamaAttention_Tender_Eval.quant_out_bf16 self,
    LlamaAttention_Tender_Eval.q_bits self,
    LlamaAttention_Tender_Eval.decomp_factor self,
    LlamaAttention_Tender_Eval.chunk_size self),
   untouched_cal (LlamaAttention_Tender_Eval.collected self)).

(** A computation on the attributes that, when it returns, has kept the
    frame. *)
Definition preserves {A} (m : LlamaAttention_Tender_Eval.M A) : Prop :=
  forall self a self',
    m self = Ok (a, self') -> frame_view self' = frame_view self.

(** ** Concrete inputs *)

(** The rounding of [mx] left out (the identity). *)
Definition mx_exact : forall n, Tensor n -> Tensor n := fun n t => t.

(** An LM head with 2 bands, chunks of 2 rows and 4 bits; and one with a
    single band. *)
Definition lm_small : LmHeadTender.t := LmHeadTender.mk false 4 2 2.
Definition lm_one_band : LmHeadTender.t := LmHeadTender.mk false 4 1 2.

(** Three rows of two channels, and a weight of three rows. *)
Definition hidden_3x2 : Tensor 3 :=
  @mkTensor 3 Float16 [1%nat; 3%nat; 2%nat] [[[1; 8]; [-2; 4]; [3; 0]]].

Definition weight_3x2 : Tensor 2 :=
  @mkTensor 2 Float16 [3%nat; 2%nat] [[1; 0]; [0; 1]; [1; 1]].

(** Three rows, the last of them zero: with chunks of 2 rows the second
    chunk holds that row and a row of padding. *)
Definition hidden_zero_row : Tensor 3 :=
  @mkTensor 3 Float16 [1%nat; 3%nat; 2%nat] [[[1; 8]; [-2; 4]; [0; 0]]].

(** One row of one channel with the value 5, and a chunked tensor of one
    chunk of 2 rows. *)
Definition hidden_1x1 : Tensor 3 := @mkTensor 3 Float16 [1%nat; 1%nat; 1%nat] [[[5]]].

Definition chunk_2x2 : Tensor 3 :=
  @mkTensor 3 Float16 [1%nat; 2%nat; 2%nat] [[[1; 8]; [-2; 4]]].

(** Three rows of two channels, flattened as the LM head flattens them. *)
Definition rows_3x2 : Tensor 2 :=
  @mkTensor 2 Float16 [3%nat; 2%nat] [[1; 8]; [-2; 4]; [3; 0]].

(** [math.sqrt] at a head dimension of 1. *)
Definition sqrt_one : nat -> Q := fun _ => 1.

(** One query row and two key and value rows for one sequence, one head
    of dimension 1. *)
Definition query_one : Tensor 4 :=
  @mkTensor 4 Float16 [1%nat; 1%nat; 1%nat; 1%nat] [[[[1]]]].
Definition key_one : Tensor 4 :=
  @mkTensor 4 Float16 [1%nat; 1%nat; 2%nat; 1%nat] [[[[1]; [3]]]].
Definition value_one : Tensor 4 :=
  @mkTensor 4 Float16 [1%nat; 1%nat; 2%nat; 1%nat] [[[[1]; [3]]]].
Definition scores_one : Tensor 4 :=
  @mkTensor 4 Float16 [1%nat; 1%nat; 1%nat; 2%nat] [[[[1 # 4; 3 # 4]]]].
Definition hidden_one : Tensor 3 :=
  @mkTensor 3 Float16 [1%nat; 1%nat; 1%nat] [[[1]]].

(** Projections and a softmax that hand back the tensors above, and an
    output projection that changes nothing. *)
Definition project_one (h : Tensor 2) : outcome (Tensor 4 * Tensor 4 * Tensor 4 * nat) :=
  Ok (query_one, key_one, value_one, 2%nat).
Definition softmax_one (w : Tensor 4) : Tensor 4 := scores_one.
Definition o_proj_id (x : Tensor 3) : outcome (Tensor 3) := Ok x.

(** The one-head module with a key bias and a value scale supplied. *)
Definition supplied_k_bias_v_scale : LlamaAttention_Tender_Eval.Supplied :=
  LlamaAttention_Tender_Eval.mkSupplied
    None (Some (@mkTensor 3 Float16 [1%nat; 1%nat; 1%nat] [[[2]]])) None
    None None None None None None None None None
    (Some (@mkTensor 4 Float16 [1%nat; 1%nat; 1%nat; 1%nat] [[[[3 # 7]]]])).

Definition attn_calibrated : LlamaAttention_Tender_Eval.t :=
  LlamaAttention_Tender_Eval.mk 1 1 1 1 true false 4 2 2 None None
    supplied_k_bias_v_scale LlamaAttention_Tender_Eval.no_collected.

(** A module with two heads of dimension 4, chunks of 2 rows, 2 bands and
    4 bits, nothing supplied. *)
Definition attn_two_heads : LlamaAttention_Tender_Eval.t :=
  LlamaAttention_Tender_Eval.mk 8 2 4 8 true false 4 2 2 None None
    LlamaAttention_Tender_Eval.no_supplied LlamaAttention_Tender_Eval.no_collected.

(** The attention scores of the two heads of one sequence as line 802
    lays them out ([bsz * num_heads] first), one row each, and their chunks
    of 2 rows: every head gets a row of padding. *)
Definition scores_rows_two : Tensor 3 :=
  @mkTensor 3 Float16 [2%nat; 1%nat; 2%nat] [[[1 # 4; 3 # 4]]; [[1 # 2; 1 # 2]]].

Definition scores_chunks_two : Tensor 4 :=
  @mkTensor 4 Float16 [2%nat; 1%nat; 2%nat; 2%nat]
            [[[[1 # 4; 3 # 4]; [0; 0]]]; [[[1 # 2; 1 # 2]; [0; 0]]]].

(** The chunk of the query of the batch of one sequence once its channel
    bias is taken off: the row and its row of padding. *)
Definition query_chunks_one : Tensor 4 :=
  @mkTensor 4 Float16 [1%nat; 1%nat; 2%nat; 1%nat] [[[[1 # 2]; [- (1 # 2)]]]].

(** The one-head module with a group index supplied for the query that
    puts the channel of every chunk in band 0. *)
Definition supplied_q_group_zero : LlamaAttention_Tender_Eval.Supplied :=
  LlamaAttention_Tender_Eval.mkSupplied
    None None None None None None None None
    (Some (@mkTensor 3 Float16 [1%nat; 1%nat; 1%nat] [[[0]]]))
    None None None None.

Definition attn_indexed : LlamaAttention_Tender_Eval.t :=
  LlamaAttention_Tender_Eval.mk 1 1 1 1 true false 4 2 2 None None
    supplied_q_group_zero LlamaAttention_Tender_Eval.no_collected.

(** ** Further concrete inputs *)

(** A weight whose second row is all zeros. *)
Definition weight_zero_row : Tensor 2 :=
  @mkTensor 2 Float16 [2%nat; 2%nat] [[1; 0]; [0; 0]].

(** Hidden states without a row, and an LM head whose chunks have no row. *)
Definition hidden_no_row : Tensor 3 :=
  @mkTensor 3 Float16 [1%nat; 0%nat; 2%nat] [[]].

Definition lm_no_chunk_rows : LmHeadTender.t := LmHeadTender.mk false 4 2 0.

(** An LM head without a band, and one that rounds its output to bfloat16. *)
Definition lm_no_band : LmHeadTender.t := LmHeadTender.mk false 4 0 2.
Definition lm_bf16_out : LmHeadTender.t := LmHeadTender.mk true 4 2 2.

(** ** Notions for the calibration attributes of the attention module *)

(** The statistics a quantized forward pass computes when they are not
    supplied.  The channel maxima stand in for the group index: they are
    computed when no group index is supplied (lines 744-746, 841-843). *)
Inductive cal_field : Type :=
| KChBias | QChBias | QTmax | QCmax | KScale | STmax | SCmax | VScale.

Definition is_some {A} (o : option A) : bool :=
  match o with Some _ => true | None => false end.

(** Is the attribute that spares the computation of the statistic set? *)
Definition is_supplied (f : cal_field) (s : LlamaAttention_Tender_Eval.Supplied) : bool :=
  match f with
  | KChBias => is_some (LlamaAttention_Tender_Eval.k_ch_bias s)
  | QChBias => is_some (LlamaAttention_Tender_Eval.q_ch_bias s)
  | QTmax => is_some (LlamaAttention_Tender_Eval.q_tmax s)
  | QCmax => is_some (LlamaAttention_Tender_Eval.q_group_index s)
  | KScale => is_some (LlamaAttention_Tender_Eval.k_scale s)
  | STmax => is_some (LlamaAttention_Tender_Eval.s_tmax s)
  | SCmax => is_some (LlamaAttention_Tender_Eval.s_group_index s)
  | VScale => is_some (LlamaAttention_Tender_Eval.v_scale s)
  end.

(** The [_cal] attribute of the statistic, with its rank. *)
Definition cal_value (f : cal_field) (c : LlamaAttention_Tender_Eval.Collected)
  : option {n : nat & Tensor n} :=
  match f with
  | KChBias => option_map (existT Tensor 3%nat) (LlamaAttention_Tender_Eval.k_ch_bias_cal c)
  | QChBias => option_map (existT Tensor 4%nat) (LlamaAttention_Tender_Eval.q_ch_bias_cal c)
  | QTmax => option_map (existT Tensor 2%nat) (LlamaAttention_Tender_Eval.q_tmax_cal c)
  | QCmax => option_map (existT Tensor 3%nat) (LlamaAttention_Tender_Eval.q_cmax_cal c)
  | KScale => option_map (existT Tensor 3%nat) (LlamaAttention_Tender_Eval.k_scale_cal c)
  | STmax => option_map (existT Tensor 2%nat) (LlamaAttention_Tender_Eval.s_tmax_cal c)
  | SCmax => option_map (existT Tensor 3%nat) (LlamaAttention_Tender_Eval.s_cmax_cal c)
  | VScale => option_map (existT Tensor 4%nat) (LlamaAttention_Tender_Eval.v_scale_cal c)
  end.

(** A computation on the attributes that, started where [P] holds, ends
    where [Q] holds when it returns. *)
Definition triple {A} (P : LlamaAttention_Tender_Eval.t -> Prop)
           (m : LlamaAttention_Tender_Eval.M A)
           (Q : LlamaAttention_Tender_Eval.t -> Prop) : Prop :=
  forall s a s', P s -> m s = Ok (a, s') -> Q s'.

(** The one-head module with the quantization switched off. *)
Definition attn_plain : LlamaAttention_Tender_Eval.t :=
  LlamaAttention_Tender_Eval.mk 1 1 1 1 false false 4 2 2 None None
    LlamaAttention_Tender_Eval.no_supplied LlamaAttention_Tender_Eval.no_collected.

(** ** Attention masks *)

Local Open Scope outcome_scope.

(** The entry of a rank-[n] array at an index, [d] out of range. *)
Fixpoint tnth {A} (d : A) (n : nat) : tensor A n -> list nat -> A :=
  match n return tensor A n -> list nat -> A with
  | O => fun a _ => a
  | S m => fun xs idx =>
      match idx with
      | [] => d
      | i :: idx' =>
          match nth_error xs i with
          | Some x => tnth d m x idx'
          | None => d
          end
      end
  end.

(** [index < shape], dimension by dimension. *)
Definition in_range (idx sh : list nat) : Prop := Forall2 lt idx sh.

(** [torch.finfo(dtype).min]. *)
Definition finfo_min (d : DType) : Q :=
  match d with
  | Float16 => - 65504
  | BFloat16 => - (pow2 128 - pow2 120)
  | Float32 => - (pow2 128 - pow2 104)
  | Float64 => - (pow2 1024 - pow2 971)
  end.

(** [t.masked_fill(mask, value)]. *)
Definition masked_fill {n} (mask : tensor bool n) (value : Q) (t : tensor Q n) : tensor Q n :=
  bmap2 (fun (c : bool) x => if c then value else x) n mask t.

(** [t.to(torch.bool)]: the entries that are not zero. *)
Definition to_bool {n} (t : tensor Q n) : tensor bool n :=
  tmap (fun x => negb (is_zero x)) n t.

(** The values a floating dtype holds lie between [finfo.min] and
    [finfo.max]; beyond them a result is an infinity. *)
Definition finite_in (d : DType) (x : Q) : bool :=
  Qle_bool (finfo_min d) x && Qle_bool x (- finfo_min d).

(** [a + b] on the two masks of the decoder, whose entries are 0 or
    [finfo.min]: a sum is 0, [finfo.min], or twice [finfo.min], which the
    dtype does not hold. *)
Definition mask_add (a b : Tensor 4) : outcome (Tensor 4) :=
  r <- tbinop Qplus a b ;;
  if forallb (finite_in (dtype r)) (entries 4 (data r)) then Ok r else NonFinite.

Section Masks.
(** A Python scalar as the entry of a tensor of torch's default dtype
    ([torch.full] called without a dtype): the scalar itself when the
    default dtype holds it. *)
Variable default_dtype_scalar : Q -> outcome Q.

(** [_make_causal_mask], lines 97-111. *)
Definition _make_causal_mask (input_ids_shape : nat * nat) (dtype : DType)
           (past_key_values_length : nat) : outcome (Tensor 4) :=
  let '(bsz, tgt_len) := input_ids_shape in
  v <- default_dtype_scalar (finfo_min dtype) ;;
  let mask : tensor Q 2 := repeat (repeat v tgt_len) tgt_len in
  let mask_cond := seq 0 tgt_len in
  let cond : tensor bool 2 :=
    map (fun bound => map (fun c => Nat.ltb c bound) mask_cond) (map S mask_cond) in
  let mask := masked_fill cond 0 mask in
  let mask :=
    if Nat.ltb 0 past_key_values_length
    then map (fun row => repeat 0 past_key_values_length ++ row) mask
    else mask in
  Ok (@mkTensor 4 dtype [bsz; 1%nat; tgt_len; (tgt_len + past_key_values_length)%nat]
                 (repeat [mask] bsz)).

(** [_expand_mask], lines 115-126. *)
Definition _expand_mask (mask : Tensor 2) (dtype : DType) (tgt_len : option nat)
  : outcome (Tensor 4) :=
  match shape mask with
  | [bsz; src_len] =>
      let tgt_len := match tgt_len with Some t => t | None => src_len end in
      let expanded_mask : tensor Q 4 := map (fun row => [repeat row tgt_len]) (data mask) in
      let inverted_mask : tensor Q 4 := tmap (fun x => 1 - x) 4 expanded_mask in
      Ok (@mkTensor 4 dtype [bsz; 1%nat; tgt_len; src_len]
                   (masked_fill (to_bool inverted_mask) (finfo_min dtype) inverted_mask))
  | _ => Raise ShapeMismatchError
  end.

(** [LlamaModel._prepare_decoder_attention_mask], lines 1359-1381. *)
Definition _prepare_decoder_attention_mask (attention_mask : option (Tensor 2))
           (input_shape : nat * nat) (inputs_embeds_dtype : DType)
           (past_key_values_length : nat) : outcome (option (Tensor 4)) :=
  combined_attention_mask <-
    (if Nat.ltb 1 (snd input_shape)
     then m <- _make_causal_mask input_shape inputs_embeds_dtype past_key_values_length ;;
          Ok (Some m)
     else Ok None) ;;
  match attention_mask with
  | Some attention_mask =>
      expanded_attn_mask <-
        _expand_mask attention_mask inputs_embeds_dtype (Some (snd input_shape)) ;;
      match combined_attention_mask with
      | None => Ok (Some expanded_attn_mask)
      | Some causal => m <- mask_add expanded_attn_mask causal ;; Ok (Some m)
      end
  | None => Ok combined_attention_mask
  end.
End Masks.

(** [torch.full] when the default dtype holds every scalar it is given. *)
Definition scalar_exact (v : Q) : outcome Q := Ok v.

(** A padding mask of one sequence of three positions, the first of them
    padding, and one whose last position is padding. *)
Definition mask_left_pad : Tensor 2 := @mkTensor 2 Float32 [1%nat; 3%nat] [[0; 1; 1]].
Definition mask_right_pad : Tensor 2 := @mkTensor 2 Float32 [1%nat; 3%nat] [[1; 1; 0]].

(** ** Integer tensors *)

(** A value of a signed integer dtype of [bits] bits: the integer taken
    modulo [2^bits] into [[-2^(bits-1), 2^(bits-1))]. *)
Definition wrap (bits : Z) (z : Z) : Z :=
  ((z + 2 ^ (bits - 1)) mod 2 ^ bits - 2 ^ (bits - 1))%Z.

Definition int32 : Z -> Z := wrap 32.
Definition int64 : Z -> Z := wrap 64.

(** [t.sum(dtype=dt)] of a one-dimensional tensor: the entries are cast,
    then added in the dtype. *)
Definition sum_as (cast : Z -> Z) (row : list Z) : Z :=
  fold_left (fun acc x => cast (acc + cast x)%Z) row 0%Z.

(** [torch.cumsum(t, dim=0, dtype=dt)] of a one-dimensional tensor, from
    the running sum [acc]. *)
Fixpoint cumsum_as (cast : Z -> Z) (acc : Z) (l : list Z) : list Z :=
  match l with
  | [] => []
  | x :: l' => let s := cast (acc + cast x)%Z in s :: cumsum_as cast s l'
  end.

(** [torch.nonzero(t, as_tuple=False).flatten()] of a one-dimensional
    tensor: the positions of the entries that are not zero, in order. *)
Definition nonzero (l : list Z) : list Z :=
  map (fun p => Z.of_nat (fst p))
      (filter (fun p => negb (Z.eqb (snd p) 0)) (combine (seq 0 (length l)) l)).

(** [t.max()] of a one-dimensional tensor; torch raises on an empty one. *)
Definition max_all (l : list Z) : outcome Z :=
  match l with
  | [] => Raise ShapeMismatchError
  | x :: l' => Ok (fold_left Z.max l' x)
  end.

Local Open Scope outcome_scope.

(** [_get_unpad_data], lines 84-93, for a padding mask of integers of
    shape [[bsz, seq_len]] given by its rows.  The value is
    [(indices, cu_seqlens, max_seqlen_in_batch)]. *)
Definition _get_unpad_data (padding_mask : list (list Z)) : outcome (list Z * list Z * Z) :=
  let seqlens_in_batch := map (sum_as int32) padding_mask in
  let indices := nonzero (concat padding_mask) in
  max_seqlen_in_batch <- max_all seqlens_in_batch ;;
  let cu_seqlens := 0%Z :: cumsum_as int32 0%Z seqlens_in_batch in
  Ok (indices, cu_seqlens, max_seqlen_in_batch).

(** The number of entries of a row that are not zero. *)
Definition tokens (row : list Z) : Z :=
  Z.of_nat (length (filter (fun x => negb (Z.eqb x 0)) row)).

(** Every entry is smaller than the entries after it. *)
Fixpoint increasing (l : list Z) : Prop :=
  match l with
  | [] => True
  | x :: l' => Forall (Z.lt x) l' /\ increasing l'
  end.

(** A padding mask of two sequences of three positions, the first one
    padded on the left by one position. *)
Definition padding_two : list (list Z) := [[0; 1; 1]; [1; 1; 1]]%Z.

(** ** Token positions and pooling *)

(** How a run of the functions below ends when it does not return:
    Python's [IndexError] and [ValueError], and the ends of a tensor
    operation. *)
Inductive failure : Type :=
| IndexError
| ValueError
| TensorError (e : error)
| NotFinite.

Inductive result (A : Type) : Type :=
| Return (a : A)
| Fail (f : failure).

Arguments Return {A} a.
Arguments Fail {A} f.

Definition rbind {A B} (m : result A) (k : A -> result B) : result B :=
  match m with
  | Return a => k a
  | Fail f => Fail f
  end.

Definition of_outcome {A} (o : outcome A) : result A :=
  match o with
  | Ok a => Return a
  | Raise e => Fail (TensorError e)
  | NonFinite => Fail NotFinite
  end.

(** Every element in turn, up to the first failure. *)
Fixpoint rmap {A B} (f : A -> result B) (l : list A) : result (list B) :=
  match l with
  | [] => Return []
  | a :: l' => rbind (f a) (fun b => rbind (rmap f l') (fun bs => Return (b :: bs)))
  end.

(** A two-dimensional tensor of integers: its shape and its rows. *)
Record LongTensor : Type := mkLong { lshape : nat * nat; ldata : list (list Z) }.

Definition lwf (t : LongTensor) : Prop :=
  length (ldata t) = fst (lshape t)
  /\ Forall (fun row => length row = snd (lshape t)) (ldata t).

(** [if past_key_values:] is false for [None] and for an empty tuple. *)
Definition truthy {X} (past_key_values : option (list X)) : bool :=
  match past_key_values with
  | Some (_ :: _) => true
  | _ => false
  end.

(** [t[:, -1:]]: the last column, none when there is no column. *)
Definition last_column_slice (t : LongTensor) : LongTensor :=
  mkLong (fst (lshape t), Nat.min 1 (snd (lshape t)))
         (map (fun row => skipn (length row - 1) row) (ldata t)).

(** Lines 1732-1733 on one row: [mask.long().cumsum(-1) - 1], then 1
    where the mask is 0. *)
Definition position_row (mask_row : list Z) : list Z :=
  let position_ids := map (fun c => int64 (c - 1)) (cumsum_as int64 0%Z mask_row) in
  map (fun p => if Z.eqb (fst p) 0 then 1%Z else snd p) (combine mask_row position_ids).

(** The dictionary [prepare_inputs_for_generation] returns; of
    ["inputs_embeds"] and ["input_ids"] it holds one. *)
Record ModelInputs (X E : Type) : Type := mkModelInputs {
  mi_inputs_embeds : option E;
  mi_input_ids : option LongTensor;
  mi_position_ids : option LongTensor;
  mi_past_key_values : option (list X);
  mi_use_cache : option bool;
  mi_attention_mask : option LongTensor
}.

Arguments mkModelInputs {X E}.
Arguments mi_inputs_embeds {X E}.
Arguments mi_input_ids {X E}.
Arguments mi_position_ids {X E}.
Arguments mi_past_key_values {X E}.
Arguments mi_use_cache {X E}.
Arguments mi_attention_mask {X E}.

(** [LlamaForCausalLM.prepare_inputs_for_generation], lines 1723-1752;
    [kw_position_ids] and [kw_use_cache] are the entries of [kwargs]. *)
Definition prepare_inputs_for_generation {X E} (input_ids : LongTensor)
           (past_key_values : option (list X)) (attention_mask : option LongTensor)
           (inputs_embeds : option E)
           (kw_position_ids : option LongTensor) (kw_use_cache : option bool)
  : result (ModelInputs X E) :=
  let input_ids :=
    if truthy past_key_values then last_column_slice input_ids else input_ids in
  rbind
    (match attention_mask, kw_position_ids with
     | Some mask, None =>
         let position_ids := mkLong (lshape mask) (map position_row (ldata mask)) in
         if truthy past_key_values
         then
           if Nat.eqb (snd (lshape position_ids)) 0
           then Fail IndexError
           else Return (Some (mkLong (fst (lshape position_ids), 1%nat)
                                     (map (fun row => [last row 0%Z]) (ldata position_ids))))
         else Return (Some position_ids)
     | _, _ => Return kw_position_ids
     end)
    (fun position_ids =>
       let embeds_only :=
         match inputs_embeds, past_key_values with
         | Some _, None => true
         | _, _ => false
         end in
       Return (mkModelInputs
                 (if embeds_only then inputs_embeds else None)
                 (if embeds_only then None else Some input_ids)
                 position_ids past_key_values kw_use_cache attention_mask)).

(** The position given to a token: one less than the number of tokens up
    to it, and 1 at a masked position. *)
Definition token_position (mask_row : list Z) (j : nat) : Z :=
  if Z.eqb (nth j mask_row 0%Z) 0 then 1%Z
  else (tokens (firstn (S j) mask_row) - 1)%Z.

(** [torch.argmax] of a one-dimensional tensor: the position of the first
    of its largest entries, from the best position so far. *)
Fixpoint argmax_from (best_i : nat) (best : Z) (i : nat) (l : list Z) : nat :=
  match l with
  | [] => best_i
  | y :: l' =>
      if Z.ltb best y then argmax_from i y (S i) l'
      else argmax_from best_i best (S i) l'
  end.

Definition argmax (l : list Z) : result Z :=
  match l with
  | [] => Fail IndexError
  | x :: l' => Return (Z.of_nat (argmax_from 0 x 1 l'))
  end.

(** [l[i]] with Python's negative indices. *)
Definition index_py {A} (l : list A) (i : Z) : result A :=
  let n := Z.of_nat (length l) in
  let i := if Z.ltb i 0 then (i + n)%Z else i in
  if Z.leb 0 i && Z.ltb i n
  then match nth_error l (Z.to_nat i) with
       | Some a => Return a
       | None => Fail IndexError
       end
  else Fail IndexError.

(** Lines 1830-1847 of [LlamaForSequenceClassification.forward]: the
    logits of one position of every sequence.  [logits] is what
    [self.score] returned, by sequence and position; [embeds_batch] is
    [inputs_embeds.shape[0]], read when there are no [input_ids]. *)
Definition pooled_logits {A} (pad_token_id : option Z) (input_ids : option LongTensor)
           (embeds_batch : nat) (logits : list (list A)) : result (list A) :=
  let batch_size :=
    match input_ids with
    | Some ids => fst (lshape ids)
    | None => embeds_batch
    end in
  if match pad_token_id with None => negb (Nat.eqb batch_size 1) | Some _ => false end
  then Fail ValueError
  else
    rbind
      (match pad_token_id, input_ids with
       | Some pad, Some ids =>
           if Nat.eqb (snd (lshape ids)) 0 then Fail IndexError
           else
             rmap (fun row =>
                     rbind (argmax (map (fun t => if Z.eqb t pad then 1%Z else 0%Z) row))
                           (fun a => Return (int64 (a - 1))))
                  (ldata ids)
       | _, _ => Return (repeat (-1)%Z batch_size)
       end)
      (fun sequence_lengths =>
         rmap (fun b =>
                 rbind (index_py logits (Z.of_nat b))
                       (fun row => index_py row (nth b sequence_lengths 0%Z)))
              (seq 0 batch_size)).

(** The position of the first pad token of a row. *)
Fixpoint first_pad (pad : Z) (row : list Z) : option nat :=
  match row with
  | [] => None
  | t :: row' => if Z.eqb t pad then Some 0%nat else option_map S (first_pad pad row')
  end.

(** The position whose logits are pooled: the one before the first pad
    token; the last one when there is no pad token, and also when the row
    starts with one. *)
Definition pooled_position (pad : Z) (row : list Z) : nat :=
  match first_pad pad row with
  | Some (S k) => k
  | _ => (length row - 1)%nat
  end.

(** An attention mask of two sequences of three positions, the first
    padded by one position on the left; token ids of two sequences, the
    second padded by one pad token 0 on the right; and a score for every
    position. *)
Definition mask_two : LongTensor := mkLong (2%nat, 3%nat) [[0; 1; 1]; [1; 1; 1]]%Z.
Definition ids_two : LongTensor := mkLong (2%nat, 3%nat) [[5; 6; 7]; [8; 9; 0]]%Z.
Definition logits_two : list (list Z) := [[10; 11; 12]; [20; 21; 22]]%Z.

(** ** Rotary position embedding and grouped key/value heads *)

(** A function of the rows of the last dimension. *)
Fixpoint map_last {A B} (f : list A -> list B) (n : nat)
  : tensor A (S n) -> tensor B (S n) :=
  match n return tensor A (S n) -> tensor B (S n) with
  | O => fun row => f row
  | S m => fun xs => map (map_last f m) xs
  end.

(** [rotate_half] on one row: [cat((-x2, x1))] for the halves [x1], [x2]
    cut at [len // 2]. *)
Definition rotate_row (row : list Q) : list Q :=
  let half := (length row / 2)%nat in
  let x1 := firstn half row in
  let x2 := skipn half row in
  map Qopp x2 ++ x1.

(** [rotate_half], lines 230-234. *)
Definition rotate_half {n} (x : Tensor (S n)) : Tensor (S n) :=
  mkTensor (dtype x) (shape x) (map_last rotate_row n (data x)).

(** [table[position_ids].unsqueeze(1)] for a table of shape
    [[seq_len, dim]]: the row of every position, [IndexError] for a
    position outside the table. *)
Definition gather_positions (table : Tensor 2) (position_ids : LongTensor)
  : result (Tensor 4) :=
  rbind (rmap (fun ids => rmap (index_py (data table)) ids) (ldata position_ids))
        (fun rows =>
           Return (@mkTensor 4 (dtype table)
                     [fst (lshape position_ids); 1%nat; snd (lshape position_ids);
                      last (shape table) 0%nat]
                     (map (fun r => [r]) rows))).

(** [(x * cos) + (rotate_half(x) * sin)]. *)
Definition rotary (x cos sin : Tensor 4) : outcome (Tensor 4) :=
  (a <- tmul x cos ;;
   b <- tmul (rotate_half x) sin ;;
   tbinop Qplus a b)%outcome.

(** [apply_rotary_pos_emb], lines 237-247.  [cos] and [sin] are the
    tables once squeezed: the rotary embedding hands them over with the
    shape [[1, 1, seq_len, dim]]. *)
Definition apply_rotary_pos_emb (q k : Tensor 4) (cos sin : Tensor 2)
           (position_ids : LongTensor) : result (Tensor 4 * Tensor 4) :=
  rbind (gather_positions cos position_ids) (fun cos =>
  rbind (gather_positions sin position_ids) (fun sin =>
  rbind (of_outcome (rotary q cos sin)) (fun q_embed =>
  rbind (of_outcome (rotary k cos sin)) (fun k_embed =>
  Return (q_embed, k_embed))))).

(** [repeat_kv], lines 506-515. *)
Definition repeat_kv (hidden_states : Tensor 4) (n_rep : nat) : outcome (Tensor 4) :=
  match shape hidden_states with
  | [batch; num_key_value_heads; slen; head_dim] =>
      if Nat.eqb n_rep 1 then Ok hidden_states
      else
        let expanded : Tensor 5 :=
          @mkTensor 5 (dtype hidden_states)
                    [batch; num_key_value_heads; n_rep; slen; head_dim]
                    (map (map (fun head => repeat head n_rep)) (data hidden_states)) in
        reshape 4 [batch; (num_key_value_heads * n_rep)%nat; slen; head_dim] expanded
  | _ => Raise ShapeMismatchError
  end.

(** The index a tensor of shape [sh] is read at when it is broadcast:
    0 in its dimensions of size 1. *)
Fixpoint bidx (sh idx : list nat) : list nat :=
  match sh, idx with
  | d :: sh', i :: idx' => (if Nat.eqb d 1 then 0%nat else i) :: bidx sh' idx'
  | _, _ => []
  end.

(** Two key/value heads of one position and two channels; the cosine and
    sine tables of two positions for a head of dimension 2 (the angle of
    position 1 is 1, and the float16 numbers nearest to its cosine and sine
    are 1107/2048 and 1723/2048); a query of one head. *)
Definition kv_two_heads : Tensor 4 :=
  @mkTensor 4 Float16 [1%nat; 2%nat; 1%nat; 2%nat] [[[[1; 2]]; [[3; 4]]]].
Definition cos_table : Tensor 2 :=
  @mkTensor 2 Float16 [2%nat; 2%nat] [[1; 1]; [1107 # 2048; 1107 # 2048]].
Definition sin_table : Tensor 2 :=
  @mkTensor 2 Float16 [2%nat; 2%nat] [[0; 0]; [1723 # 2048; 1723 # 2048]].
Definition query_rot : Tensor 4 :=
  @mkTensor 4 Float16 [1%nat; 1%nat; 2%nat; 2%nat] [[[[1; 2]; [5; 10]]]].
(** ** The coverage check of the attention paths for one sequence *)

(** A computation on the attributes that never ends in the assertion of
    the coverage check. *)
Definition never_cov {A} (m : LlamaAttention_Tender_Eval.M A) : Prop :=
  forall s, m s <> Raise BandCoverageError.

(** A stand-in for the softmax that hands the scores back, as [o_proj_id]
    does for the output projection. *)
Definition softmax_keep (w : Tensor 4) : Tensor 4 := w.
(** ** Floating-point arithmetic

    The definitions above compute on exact rationals.  The ones below follow
    the arithmetic of torch on the floating dtypes: a value is a number of
    the format, an infinity or NaN, and every operation that rounds in torch
    rounds here, to nearest with ties to even.  The two zeros of a format are
    not told apart: they compare equal and nothing modelled here divides by
    one. *)

(** A binary format: the bits of precision, the hidden one included, and
    the least and largest exponent of the leading bit. *)
Record format : Type := mkFormat { prec : Z; emin : Z; emax : Z }.

Definition format_of (d : DType) : format :=
  match d with
  | Float16 => mkFormat 11 (-14) 15
  | BFloat16 => mkFormat 8 (-126) 127
  | Float32 => mkFormat 24 (-126) 127
  | Float64 => mkFormat 53 (-1022) 1023
  end.

(** [floor (log2 |q|)] for [q] other than 0. *)
Definition ilog2 (q : Q) : Z :=
  let k := (Z.log2 (Z.abs (Qnum q)) - Z.log2 (Zpos (Qden q)))%Z in
  if Qle_bool (pow2 k) (Qabs q) then k else (k - 1)%Z.

(** The distance between the numbers of the format next to [q]; below
    [2 ^ emin] the numbers are the subnormal ones, evenly spaced. *)
Definition quantum (f : format) (q : Q) : Q :=
  pow2 (Z.max (ilog2 q) (emin f) - prec f + 1).

(** [q] rounded to the nearest multiple of the quantum, ties to the even
    one, in lowest terms. *)
Definition round_finite (f : format) (q : Q) : Q :=
  Qred (inject_Z (round_half_even (q / quantum f q)) * quantum f q).

Inductive fval : Type :=
| Finite (q : Q)
| Inf (negative : bool)
| NaN.

(** Rounding to the format: a result of magnitude [2 ^ (emax + 1)] or more
    overflows to an infinity. *)
Definition fround (f : format) (q : Q) : fval :=
  let r := round_finite f q in
  if Qle_bool (pow2 (emax f + 1)) (Qabs r) then Inf (Qlt_bool r 0) else Finite r.

(** A number the format holds. *)
Definition representable (d : DType) (q : Q) : Prop :=
  fround (format_of d) q = Finite (Qred q).

(** [v.to(d)] on one entry. *)
Definition round_to (d : DType) (v : fval) : fval :=
  match v with
  | Finite q => fround (format_of d) q
  | _ => v
  end.

Definition fabs (v : fval) : fval :=
  match v with
  | Finite q => Finite (Qabs q)
  | Inf _ => Inf false
  | NaN => NaN
  end.

(** [v == 0.0]: false of NaN. *)
Definition fis_zero (v : fval) : bool :=
  match v with
  | Finite q => Qeq_bool q 0
  | _ => false
  end.

(** [torch.clamp(v, min = lo)]; NaN stays. *)
Definition fclamp_min (lo : Q) (v : fval) : fval :=
  match v with
  | Finite q => Finite (Qmax q lo)
  | Inf true => Finite lo
  | Inf false => Inf false
  | NaN => NaN
  end.

(** [v.clamp(min = lo, max = hi)]; NaN stays. *)
Definition fclamp (lo hi : Q) (v : fval) : fval :=
  match v with
  | Finite q => Finite (Qred (clamp lo hi q))
  | Inf true => Finite (Qred (Qmin lo hi))
  | Inf false => Finite (Qred hi)
  | NaN => NaN
  end.

(** [torch.round] on one entry. *)
Definition fround_int (v : fval) : fval :=
  match v with
  | Finite q => Finite (inject_Z (round_half_even q))
  | _ => v
  end.

(** [a / b] computed in the format [f]. *)
Definition fdiv (f : format) (a b : fval) : fval :=
  match a, b with
  | NaN, _ | _, NaN => NaN
  | Inf _, Inf _ => NaN
  | Inf s, Finite y => Inf (xorb s (Qlt_bool y 0))
  | Finite _, Inf _ => Finite 0
  | Finite x, Finite y =>
      if Qeq_bool y 0
      then (if Qeq_bool x 0 then NaN else Inf (Qlt_bool x 0))
      else fround f (x / y)
  end.

(** [a * b] computed in the format [f]. *)
Definition fmul (f : format) (a b : fval) : fval :=
  match a, b with
  | NaN, _ | _, NaN => NaN
  | Inf s, Inf s' => Inf (xorb s s')
  | Inf s, Finite y | Finite y, Inf s =>
      if Qeq_bool y 0 then NaN else Inf (xorb s (Qlt_bool y 0))
  | Finite x, Finite y => fround f (x * y)
  end.

(** The literal [1e-9] of [sym_quant]: a Python float, cast to the float32
    of the tensor it clamps. *)
Definition eps32 : Q :=
  round_finite (format_of Float32) (round_finite (format_of Float64) eps).

(** A torch tensor of floating-point values. *)
Record FTensor (n : nat) : Type :=
  mkFTensor { fdtype : DType; fshape : list nat; fdata : tensor fval n }.

Arguments mkFTensor {n} fdtype fshape fdata.
Arguments fdtype {n} _.
Arguments fshape {n} _.
Arguments fdata {n} _.

Definition fvec (dt : DType) (l : list fval) : FTensor 1 := @mkFTensor 1 dt [length l] l.

Module IEEE.

Local Open Scope outcome_scope.

(** [t.to(d)]: every entry is rounded to [d]. *)
Definition to {n} (d : DType) (t : FTensor n) : FTensor n :=
  mkFTensor d (fshape t) (tmap (round_to d) n (fdata t)).

Definition tlift {n} (f : fval -> fval) (t : FTensor n) : FTensor n :=
  mkFTensor (fdtype t) (fshape t) (tmap f n (fdata t)).

(** [torch.sum(t == 0.0).item()]. *)
Definition count_zeros {n} (t : FTensor n) : nat :=
  length (filter fis_zero (entries n (fdata t))).

(** A broadcasting binary operator computed in the promoted dtype. *)
Definition tbinop {n} (f : format -> fval -> fval -> fval) (a b : FTensor n)
  : outcome (FTensor n) :=
  if broadcastable (fshape a) (fshape b)
  then let d := promote (fdtype a) (fdtype b) in
       Ok (mkFTensor d (bshape (fshape a) (fshape b))
                     (bmap2 (f (format_of d)) n (fdata a) (fdata b)))
  else Raise ShapeMismatchError.

(** The bounds of the clamp of line 63, Python numbers cast to float32. *)
Definition q_lo (q_bits : Z) : Q := round_finite (format_of Float32) (- (q_max_of q_bits + 1)).
Definition q_hi (q_bits : Z) : Q := round_finite (format_of Float32) (q_max_of q_bits).

(** [sym_quant(fp, scale, q_bits)], lines 52-66, on a tensor scale. *)
Definition sym_quant {n} (fp scale : FTensor n) (q_bits : Z) : outcome (FTensor n) :=
  let fp := to Float32 fp in
  let scale := to Float32 scale in
  assert! Nat.eqb (count_zeros scale) 0 else ZeroScaleError ;;
  let scale := tlift (fclamp_min eps32) (tlift fabs scale) in
  q <- tbinop fdiv fp scale ;;
  let q_int := tlift (fclamp (q_lo q_bits) (q_hi q_bits)) (tlift fround_int q) in
  Ok q_int.

(** [sym_dequant(q_int, scale, dtype)], lines 68-73: the product in the
    promoted dtype, then the cast. *)
Definition sym_dequant {n} (q_int scale : FTensor n) (dt : DType) : outcome (FTensor n) :=
  fp <- tbinop fmul q_int scale ;;
  Ok (to dt fp).

(** [sym_dequant(sym_quant(x, scale, q_bits), scale, dtype)]. *)
Definition quant_dequant {n} (x scale : FTensor n) (q_bits : Z) (dt : DType)
  : outcome (FTensor n) :=
  q <- sym_quant x scale q_bits ;;
  sym_dequant q scale dt.

End IEEE.

(** What [IEEE.sym_quant] computes on an entry [x] whose scale entry is
    [s]: lines 53, 54, 58 and 63 on one entry. *)
Definition quant_entry32 (q_bits : Z) (x s : fval) : fval :=
  fclamp (IEEE.q_lo q_bits) (IEEE.q_hi q_bits)
         (fround_int (fdiv (format_of Float32) (round_to Float32 x)
                           (fclamp_min eps32 (fabs (round_to Float32 s))))).


(** ** Inputs with a head of dimension 4

    One head of dimension 4 (the rotary embedding needs an even dimension,
    and [math.sqrt(4)] is 2), chunks of 2 rows, 2 bands, 4 bits. *)

(** [math.sqrt] on the perfect squares. *)
Definition sqrt_exact (n : nat) : Q := inject_Z (Z.sqrt (Z.of_nat n)).

Definition attn_head4 : LlamaAttention_Tender_Eval.t :=
  LlamaAttention_Tender_Eval.mk 4 1 4 4 true false 4 2 2 None None
    LlamaAttention_Tender_Eval.no_supplied LlamaAttention_Tender_Eval.no_collected.

(** One query row and two key and value rows for one sequence. *)
Definition query_h4 : Tensor 4 :=
  @mkTensor 4 Float16 [1%nat; 1%nat; 1%nat; 4%nat] [[[[2; -4; 6; 8]]]].
Definition key_h4 : Tensor 4 :=
  @mkTensor 4 Float16 [1%nat; 1%nat; 2%nat; 4%nat] [[[[1; 3; 2; -1]; [2; -1; 0; 4]]]].
Definition value_h4 : Tensor 4 :=
  @mkTensor 4 Float16 [1%nat; 1%nat; 2%nat; 4%nat] [[[[1; 3; 2; -1]; [2; -1; 0; 4]]]].
Definition scores_h4 : Tensor 4 :=
  @mkTensor 4 Float16 [1%nat; 1%nat; 1%nat; 2%nat] [[[[1 # 4; 3 # 4]]]].
Definition hidden_h4 : Tensor 3 :=
  @mkTensor 3 Float16 [1%nat; 1%nat; 4%nat] [[[2; -4; 6; 8]]].

(** The same for a batch of two sequences. *)
Definition query_batch2 : Tensor 4 :=
  @mkTensor 4 Float16 [2%nat; 1%nat; 1%nat; 4%nat]
            [[[[2; -4; 6; 8]]]; [[[4; 8; -2; 6]]]].
Definition key_batch2 : Tensor 4 :=
  @mkTensor 4 Float16 [2%nat; 1%nat; 2%nat; 4%nat]
            [[[[1; 3; 2; -1]; [2; -1; 0; 4]]]; [[[2; 5; 1; 1]; [0; 1; 3; -2]]]].
Definition value_batch2 : Tensor 4 :=
  @mkTensor 4 Float16 [2%nat; 1%nat; 2%nat; 4%nat]
            [[[[1; 3; 2; -1]; [2; -1; 0; 4]]]; [[[2; 5; 1; 1]; [0; 1; 3; -2]]]].
Definition scores_batch2 : Tensor 4 :=
  @mkTensor 4 Float16 [2%nat; 1%nat; 1%nat; 2%nat]
            [[[[1 # 4; 3 # 4]]]; [[[1 # 2; 1 # 2]]]].

(** The chunks of the query of the batch of two sequences, divided by
    [math.sqrt(4)], padded with a row of zeros and with their channel
    biases taken off. *)
Definition query_chunks_batch2 : Tensor 4 :=
  @mkTensor 4 Float16 [2%nat; 1%nat; 2%nat; 4%nat]
            [[[[1 # 2; -1; 3 # 2; 2]; [- (1 # 2); 1; - (3 # 2); -2]]];
             [[[1; 2; - (1 # 2); 3 # 2]; [-1; -2; 1 # 2; - (3 # 2)]]]].

(** The chunks of the attention scores of the batch of two sequences. *)
Definition scores_chunks_batch2 : Tensor 4 :=
  @mkTensor 4 Float16 [2%nat; 1%nat; 2%nat; 2%nat]
            [[[[1 # 4; 3 # 4]; [0; 0]]]; [[[1 # 2; 1 # 2]; [0; 0]]]].

(** The module with a group index supplied for the query that puts the
    channels of the first sequence in bands 0 and 1 and those of the second
    sequence in no band. *)
Definition supplied_q_group_skewed4 : LlamaAttention_Tender_Eval.Supplied :=
  LlamaAttention_Tender_Eval.mkSupplied
    None None None None None None None None
    (Some (@mkTensor 3 Float16 [2%nat; 1%nat; 4%nat] [[[0; 0; 1; 1]]; [[7; 7; 7; 7]]]))
    None None None None.

Definition attn_skewed4 : LlamaAttention_Tender_Eval.t :=
  LlamaAttention_Tender_Eval.mk 4 1 4 4 true false 4 2 2 None None
    supplied_q_group_skewed4 LlamaAttention_Tender_Eval.no_collected.

(** Projections that hand back the tensors of the one sequence. *)
Definition project_h4 (h : Tensor 2) : outcome (Tensor 4 * Tensor 4 * Tensor 4 * nat) :=
  Ok (query_h4, key_h4, value_h4, 2%nat).

(** The chunk of the query of the one sequence: the row divided by
    [math.sqrt(4)] and its row of padding, with the channel biases taken
    off; and the chunk of its attention scores. *)
Definition query_chunks_h4 : Tensor 4 :=
  @mkTensor 4 Float16 [1%nat; 1%nat; 2%nat; 4%nat]
            [[[[1 # 2; -1; 3 # 2; 2]; [- (1 # 2); 1; - (3 # 2); -2]]]].

Definition scores_chunks_h4 : Tensor 4 :=
  @mkTensor 4 Float16 [1%nat; 1%nat; 2%nat; 2%nat] [[[[1 # 4; 3 # 4]; [0; 0]]]].

(** * Properties *)

(** ** Rounding and clamping of one entry *)

Lemma round_half_even_comp (x y : Q) : x == y -> round_half_even x = round_half_even y.
Proof.
  intros E. unfold round_half_even.
  rewrite (Qfloor_comp x y E).
  assert (H : Qcompare (x - inject_Z (Qfloor y)) (1 # 2)
              = Qcompare (y - inject_Z (Qfloor y)) (1 # 2)).
  { apply Qcompare_comp; [rewrite E|]; reflexivity. }
  rewrite H. reflexivity.
Qed.

Lemma round_half_even_Z (z : Z) : round_half_even (inject_Z z) = z.
Proof.
  unfold round_half_even. rewrite Qfloor_Z.
  assert (H : Qcompare (inject_Z z - inject_Z z) (1 # 2) = Lt).
  { rewrite <- Qlt_alt. ring_simplify (inject_Z z - inject_Z z). reflexivity. }
  rewrite H. reflexivity.
Qed.

(** [round_half_even] returns a nearest integer. *)
Lemma round_half_even_nearest (x : Q) :
  Qabs (x - inject_Z (round_half_even x)) <= 1 # 2.
Proof.
  unfold round_half_even.
  pose proof (Qfloor_le x) as Hl. pose proof (Qlt_floor x) as Hu.
  rewrite inject_Z_plus in Hu. change (inject_Z 1) with 1 in Hu.
  set (f := Qfloor x) in *.
  apply Qabs_Qle_condition.
  destruct (Qcompare (x - inject_Z f) (1 # 2)) eqn:E.
  - apply Qeq_alt in E. destruct (Z.even f).
    + split; lra.
    + rewrite inject_Z_plus. change (inject_Z 1) with 1. split; lra.
  - apply Qlt_alt in E. split; lra.
  - apply Qgt_alt in E. rewrite inject_Z_plus. change (inject_Z 1) with 1. split; lra.
Qed.

(** On a tie the even neighbour is taken. *)
Lemma round_half_even_tie (x : Q) :
  x - inject_Z (Qfloor x) == 1 # 2 -> Z.even (round_half_even x) = true.
Proof.
  intros E. unfold round_half_even.
  apply Qeq_alt in E. rewrite E.
  destruct (Z.even (Qfloor x)) eqn:Ev; [exact Ev|].
  rewrite Z.even_add, Ev. reflexivity.
Qed.

(** ** Elementwise operations *)

Lemma bzip_map_out {A B C D} (k : C -> D) (g : A -> B -> C) xs ys :
  map k (bzip g xs ys) = bzip (fun a b => k (g a b)) xs ys.
Proof.
  unfold bzip.
  destruct ys as [|y [|y' ys]]; destruct xs as [|x [|x' xs]];
    rewrite ?map_map; reflexivity.
Qed.

Lemma bzip_map_r {A B B' C} (h : B' -> B) (g : A -> B -> C) xs ys :
  bzip g xs (map h ys) = bzip (fun a b => g a (h b)) xs ys.
Proof.
  unfold bzip.
  destruct ys as [|y [|y' ys]]; destruct xs as [|x [|x' xs]]; simpl;
    rewrite ?map_map; try reflexivity.
  - f_equal. f_equal. clear. revert ys. induction xs as [|a xs IH]; intros [|b ys]; simpl; auto.
    f_equal. apply IH.
Qed.

Lemma bzip_map_l {A A' B C} (h : A' -> A) (g : A -> B -> C) xs ys :
  bzip g (map h xs) ys = bzip (fun a b => g (h a) b) xs ys.
Proof.
  unfold bzip.
  destruct ys as [|y [|y' ys]]; destruct xs as [|x [|x' xs]]; simpl;
    rewrite ?map_map; try reflexivity.
  - f_equal. f_equal. clear. revert ys. induction xs as [|a xs IH]; intros [|b ys]; simpl; auto.
    f_equal. apply IH.
Qed.

Lemma bzip_ext {A B C} (g g' : A -> B -> C) xs ys :
  (forall a b, In a xs -> In b ys -> g a b = g' a b) -> bzip g xs ys = bzip g' xs ys.
Proof.
  intros H. unfold bzip.
  assert (Hc : map (fun p => g (fst p) (snd p)) (combine xs ys)
               = map (fun p => g' (fst p) (snd p)) (combine xs ys)).
  { apply map_ext_in. intros [a b] Hin. simpl.
    apply H; [eapply in_combine_l | eapply in_combine_r]; eassumption. }
  destruct ys as [|y [|y' ys]].
  - destruct xs as [|x [|x' xs]]; reflexivity.
  - apply map_ext_in. intros a Ha. apply H; simpl; auto.
  - destruct xs as [|x [|x' xs]]; try exact Hc.
    apply map_ext_in. intros b Hb. apply H; simpl; auto.
Qed.

Lemma tmap_bmap2 {A B C D} (k : C -> D) (f : A -> B -> C) n a b :
  tmap k n (bmap2 f n a b) = bmap2 (fun x y => k (f x y)) n a b.
Proof.
  induction n as [|n IH]; simpl; [reflexivity|].
  rewrite bzip_map_out. apply bzip_ext. intros; apply IH.
Qed.

Lemma bmap2_tmap_r {A B B' C} (h : B' -> B) (f : A -> B -> C) n a b :
  bmap2 f n a (tmap h n b) = bmap2 (fun x y => f x (h y)) n a b.
Proof.
  induction n as [|n IH]; simpl; [reflexivity|].
  rewrite bzip_map_r. apply bzip_ext. intros; apply IH.
Qed.

Lemma bmap2_tmap_l {A A' B C} (h : A' -> A) (f : A -> B -> C) n a b :
  bmap2 f n (tmap h n a) b = bmap2 (fun x y => f (h x) y) n a b.
Proof.
  induction n as [|n IH]; simpl; [reflexivity|].
  rewrite bzip_map_l. apply bzip_ext. intros; apply IH.
Qed.

Lemma entries_tmap {A B} (f : A -> B) n (a : tensor A n) :
  entries n (tmap f n a) = map f (entries n a).
Proof.
  induction n as [|n IH]; simpl; [reflexivity|].
  induction a as [|x a IHa]; simpl; [reflexivity|].
  rewrite map_app, IH, IHa. reflexivity.
Qed.

Lemma filter_length_0 {A} (p : A -> bool) (l : list A) :
  Nat.eqb (length (filter p l)) 0 = true <-> Forall (fun v => p v = false) l.
Proof.
  rewrite Nat.eqb_eq. induction l as [|a l IH]; simpl.
  - split; auto.
  - destruct (p a) eqn:E; simpl.
    + split; [discriminate|]. intros H. inversion H; congruence.
    + rewrite IH. split; intros H; [constructor; auto | inversion H; auto].
Qed.

Lemma is_zero_iff (x : Q) : is_zero x = true <-> x == 0.
Proof. apply Qeq_bool_iff. Qed.

Lemma is_zero_false_iff (x : Q) : is_zero x = false <-> ~ x == 0.
Proof.
  rewrite <- is_zero_iff. destruct (is_zero x); split; congruence.
Qed.

Lemma count_zeros_0 n (s : Tensor n) :
  Nat.eqb (count_zeros s) 0 = true <-> Forall (fun v => ~ v == 0) (entries n (data s)).
Proof.
  unfold count_zeros. rewrite filter_length_0.
  split; apply Forall_impl; intros v; apply is_zero_false_iff.
Qed.

Lemma count_zeros_pos n (s : Tensor n) :
  Nat.eqb (count_zeros s) 0 = false <-> Exists (fun v => v == 0) (entries n (data s)).
Proof.
  rewrite <- Bool.not_true_iff_false, count_zeros_0.
  induction (entries n (data s)) as [|v l IH].
  - split; [intros H; exfalso; apply H; constructor | intros H; inversion H].
  - split.
    + intros H. destruct (Qeq_dec v 0) as [E|E]; [left; exact E|].
      right. apply IH. intros F. apply H. constructor; assumption.
    + intros H F. inversion F; subst. inversion H; subst; [tauto|].
      apply IH in H1. tauto.
Qed.

(** What [sym_quant] returns when no scale entry is zero. *)
Lemma sym_quant_value n (x s : Tensor n) (b : Z) :
  Nat.eqb (count_zeros s) 0 = true ->
  broadcastable (shape x) (shape s) = true ->
  sym_quant x s b
  = Ok (mkTensor Float32 (bshape (shape x) (shape s))
                 (bmap2 (quant_entry b) n (data x) (data s))).
Proof.
  intros Hz Hb. unfold sym_quant.
  change (count_zeros (to Float32 s)) with (count_zeros s). rewrite Hz.
  unfold tdiv, tbinop. simpl. rewrite Hb. simpl.
  unfold tclamp, tround, tlift. simpl. f_equal. f_equal.
  rewrite !tmap_bmap2, !bmap2_tmap_r. reflexivity.
Qed.

Lemma sym_quant_zero n (x s : Tensor n) (b : Z) :
  Nat.eqb (count_zeros s) 0 = false -> sym_quant x s b = Raise ZeroScaleError.
Proof.
  intros Hz. unfold sym_quant.
  change (count_zeros (to Float32 s)) with (count_zeros s). rewrite Hz. reflexivity.
Qed.

(** ** The clamp and the integer range *)

Lemma clamp_cases (lo hi x : Q) :
  (hi <= lo /\ clamp lo hi x == hi) \/
  (lo < hi /\ x <= lo /\ clamp lo hi x == lo) \/
  (lo < hi /\ lo <= x <= hi /\ clamp lo hi x == x) \/
  (lo < hi /\ hi <= x /\ clamp lo hi x == hi).
Proof.
  unfold clamp.
  destruct (Q.max_spec x lo) as [[H1 E1]|[H1 E1]];
    destruct (Q.min_spec (Qmax x lo) hi) as [[H2 E2]|[H2 E2]];
    rewrite E1 in H2; destruct (Qlt_le_dec lo hi) as [L|L];
    assert (E : Qmin (Qmax x lo) hi == lo \/ Qmin (Qmax x lo) hi == x
                \/ Qmin (Qmax x lo) hi == hi)
      by (rewrite E2; rewrite ?E1; auto using Qeq_refl);
    rewrite E2; rewrite ?E1;
    first [ left; split; lra
          | right; left; repeat split; lra
          | right; right; left; repeat split; lra
          | right; right; right; repeat split; lra ].
Qed.

Lemma clamp_comp (lo lo' hi hi' x x' : Q) :
  lo == lo' -> hi == hi' -> x == x' -> clamp lo hi x == clamp lo' hi' x'.
Proof.
  intros El Eh Ex.
  destruct (clamp_cases lo hi x) as [[H E]|[[H [H' E]]|[[H [H' E]]|[H [H' E]]]]];
    destruct (clamp_cases lo' hi' x') as [[G F]|[[G [G' F]]|[[G [G' F]]|[G [G' F]]]]];
    rewrite E, F; lra.
Qed.

Lemma pow2_nonneg_exp (k : Z) : (0 <= k)%Z -> pow2 k == inject_Z (2 ^ k).
Proof.
  intros Hk. unfold pow2. rewrite (Zpower_Qpower 2 k Hk). reflexivity.
Qed.

Lemma q_max_of_int (b : Z) : (1 <= b)%Z -> q_max_of b == inject_Z (2 ^ (b - 1) - 1).
Proof.
  intros Hb. unfold q_max_of. rewrite pow2_nonneg_exp by lia.
  unfold Zminus at 2. rewrite inject_Z_plus. reflexivity.
Qed.

(** With at least one bit the clamp of [sym_quant] maps integers to the
    integers of the signed range. *)
Lemma clamp_int (b z : Z) :
  (1 <= b)%Z ->
  clamp (- (q_max_of b + 1)) (q_max_of b) (inject_Z z)
  == inject_Z (Z.min (Z.max z (- 2 ^ (b - 1))) (2 ^ (b - 1) - 1)).
Proof.
  intros Hb.
  pose proof (q_max_of_int b Hb) as Eq.
  assert (Hp : (0 < 2 ^ (b - 1))%Z) by (apply Z.pow_pos_nonneg; lia).
  set (P := (2 ^ (b - 1))%Z) in *.
  assert (Em1 : inject_Z (P - 1) == inject_Z P - 1).
  { unfold Zminus. rewrite inject_Z_plus. reflexivity. }
  assert (Eq' : q_max_of b == inject_Z P - 1) by (rewrite Eq; exact Em1).
  assert (Hz : forall a c : Z, (a <= c)%Z -> inject_Z a <= inject_Z c)
    by (intros; rewrite <- Zle_Qle; assumption).
  assert (Ez : forall a : Z, inject_Z (- a) == - inject_Z a)
    by (intros; rewrite inject_Z_opp; reflexivity).
  destruct (clamp_cases (- (q_max_of b + 1)) (q_max_of b) (inject_Z z))
    as [[H E]|[[H [H' E]]|[[H [H' E]]|[H [H' E]]]]]; rewrite E.
  - exfalso. rewrite Eq' in H.
    assert (1 <= inject_Z P) by (apply (Hz 1%Z); lia). lra.
  - assert (Hle : (z <= - P)%Z).
    { rewrite Zle_Qle, Ez. rewrite Eq' in H'. lra. }
    rewrite Z.max_r by lia. rewrite Z.min_l by lia.
    rewrite Ez, Eq'. lra.
  - destruct H' as [Ha Hc].
    assert (Hle : (- P <= z)%Z) by (rewrite Zle_Qle, Ez; rewrite Eq' in Ha; lra).
    assert (Hge : (z <= P - 1)%Z).
    { rewrite Zle_Qle, Em1. rewrite Eq' in Hc. lra. }
    rewrite Z.max_l by lia. rewrite Z.min_l by lia. reflexivity.
  - assert (Hge : (P - 1 <= z)%Z).
    { rewrite Zle_Qle, Em1. rewrite Eq' in H'. lra. }
    rewrite Z.max_l by lia. rewrite Z.min_r by lia. exact Eq.
Qed.


(** [sym_quant] in closed form. *)
Lemma sym_quant_unfold n (x s : Tensor n) (b : Z) :
  sym_quant x s b
  = if Nat.eqb (count_zeros s) 0
    then if broadcastable (shape x) (shape s)
         then Ok (mkTensor Float32 (bshape (shape x) (shape s))
                           (bmap2 (quant_entry b) n (data x) (data s)))
         else Raise ShapeMismatchError
    else Raise ZeroScaleError.
Proof.
  destruct (Nat.eqb (count_zeros s) 0) eqn:Hz.
  - destruct (broadcastable (shape x) (shape s)) eqn:Hb.
    + apply sym_quant_value; assumption.
    + unfold sym_quant. change (count_zeros (to Float32 s)) with (count_zeros s).
      rewrite Hz. unfold tdiv, tbinop. simpl. rewrite Hb. reflexivity.
  - apply sym_quant_zero; assumption.
Qed.

Lemma sym_dequant_unfold n (q s : Tensor n) (dt : DType) :
  sym_dequant q s dt
  = if broadcastable (shape q) (shape s)
    then Ok (mkTensor dt (bshape (shape q) (shape s)) (bmap2 Qmult n (data q) (data s)))
    else Raise ShapeMismatchError.
Proof.
  unfold sym_dequant, tmul, tbinop.
  destruct (broadcastable (shape q) (shape s)); reflexivity.
Qed.




(** ** The quantization primitive on exact rationals (claim C10) *)



(** *** Operations that fuse *)

Lemma combine_map_self {A B C} (h : A * B -> C) (xs : list A) (ys : list B) :
  combine (map h (combine xs ys)) ys
  = map (fun p => (h p, snd p)) (combine xs ys).
Proof.
  revert ys. induction xs as [|x xs IH]; intros [|y ys]; simpl; auto.
  f_equal. apply IH.
Qed.

Lemma combine_map_same {B C} (h : B -> C) (ys : list B) :
  combine (map h ys) ys = map (fun y => (h y, y)) ys.
Proof. induction ys as [|y ys IH]; simpl; [reflexivity|]. f_equal. exact IH. Qed.

Lemma bzip_fuse {A B C D} (f : C -> B -> D) (g : A -> B -> C) xs ys :
  bzip f (bzip g xs ys) ys = bzip (fun a c => f (g a c) c) xs ys.
Proof.
  unfold bzip at 2 3.
  destruct ys as [|y [|y' ys]].
  - destruct xs as [|x [|x' xs]]; reflexivity.
  - unfold bzip. rewrite map_map. reflexivity.
  - destruct xs as [|x [|x' xs]].
    + reflexivity.
    + unfold bzip. simpl. f_equal. f_equal. rewrite combine_map_same, map_map.
      reflexivity.
    + unfold bzip. simpl. f_equal. f_equal.
      destruct xs as [|x'' xs]; simpl; [reflexivity|].
      f_equal. destruct ys as [|y'' ys]; simpl; [reflexivity|].
      f_equal. rewrite combine_map_self, map_map. reflexivity.
Qed.

Lemma bmap2_fuse {A B C D} (f : C -> B -> D) (g : A -> B -> C) n x s :
  bmap2 f n (bmap2 g n x s) s = bmap2 (fun a c => f (g a c) c) n x s.
Proof.
  induction n as [|n IH]; simpl; [reflexivity|].
  rewrite bzip_fuse. apply bzip_ext. intros; apply IH.
Qed.

Lemma bzip_Forall2 {A B C} (R : C -> C -> Prop) (g g' : A -> B -> C) xs ys :
  (forall a b, In a xs -> In b ys -> R (g a b) (g' a b)) ->
  Forall2 R (bzip g xs ys) (bzip g' xs ys).
Proof.
  intros H.
  assert (Hm : forall (A' : Type) (k k' : A' -> C) (l : list A'),
             (forall a, In a l -> R (k a) (k' a)) -> Forall2 R (map k l) (map k' l)).
  { intros A' k k' l. induction l as [|a l IH]; simpl; intros Hl; constructor; auto. }
  unfold bzip.
  assert (Hc : Forall2 R (map (fun p => g (fst p) (snd p)) (combine xs ys))
                       (map (fun p => g' (fst p) (snd p)) (combine xs ys))).
  { apply Hm. intros [a b] Hin. simpl.
    apply H; [eapply in_combine_l | eapply in_combine_r]; eassumption. }
  destruct ys as [|y [|y' ys]].
  - destruct xs as [|x [|x' xs]]; exact Hc.
  - apply Hm. intros a Ha. apply H; simpl; auto.
  - destruct xs as [|x [|x' xs]]; try exact Hc.
    apply Hm. intros b Hb. apply H; simpl; auto.
Qed.


(** Two elementwise results agree when the functions agree on the entries
    of the second argument. *)
Lemma bmap2_teq (f g : Q -> Q -> Q) n (x s : tensor Q n) :
  (forall a c, In c (entries n s) -> f a c == g a c) ->
  teq n (bmap2 f n x s) (bmap2 g n x s).
Proof.
  induction n as [|n IH]; simpl; intros H.
  - apply H. left. reflexivity.
  - apply bzip_Forall2. intros a b Ha Hb. apply IH.
    intros a' c Hc. apply H. apply in_flat_map. exists b. auto.
Qed.

Lemma broadcastable_bshape (a b : list nat) :
  broadcastable a b = true ->
  broadcastable (bshape a b) b = true /\ bshape (bshape a b) b = bshape a b.
Proof.
  revert b. induction a as [|x a IH]; intros [|y b] H; simpl in *; try discriminate.
  - auto.
  - apply andb_true_iff in H. destruct H as [H1 H2].
    destruct (IH b H2) as [IH1 IH2]. rewrite IH1, IH2.
    destruct (Nat.eqb x 1) eqn:Ex.
    + rewrite Nat.eqb_refl. simpl. destruct (Nat.eqb y 1); auto.
    + rewrite Ex. split; [|reflexivity]. rewrite andb_true_r.
      destruct (Nat.eqb x y); simpl in *; auto.
Qed.

(** ** Chunk arithmetic *)

Lemma ceil_div_nat (a b : nat) : (0 < b)%nat -> ceil_div a b = ((a + b - 1) / b)%nat.
Proof.
  intros Hb. unfold ceil_div, Qceiling.
  assert (E : - (inject_Z (Z.of_nat a) / inject_Z (Z.of_nat b))
              == inject_Z (- Z.of_nat a) / inject_Z (Z.of_nat b)).
  { rewrite inject_Z_opp. field. intros F.
    assert (H : inject_Z (Z.of_nat b) == inject_Z 0) by exact F.
    rewrite inject_Z_injective in H. lia. }
  rewrite (Qfloor_comp _ _ E), <- Zdiv_Qdiv.
  apply Nat2Z.inj. rewrite Z2Nat.id.
  - rewrite Nat2Z.inj_div, Nat2Z.inj_sub, Nat2Z.inj_add by lia.
    apply Z.div_unique with (r := (Z.of_nat b - 1 - (- Z.of_nat a) mod Z.of_nat b)%Z).
    + left. pose proof (Z.mod_pos_bound (- Z.of_nat a) (Z.of_nat b)). lia.
    + pose proof (Z.div_mod (- Z.of_nat a) (Z.of_nat b)). lia.
  - assert (- Z.of_nat a / Z.of_nat b <= 0)%Z; [|lia].
    apply Z.div_le_upper_bound; lia.
Qed.

(** [ceil_div a b] is the least number of chunks of [b] rows holding [a]
    rows. *)
Lemma ceil_div_spec (a b : nat) :
  (0 < b)%nat ->
  (a <= ceil_div a b * b)%nat /\
  (forall k, a <= k * b -> ceil_div a b <= k)%nat /\
  (ceil_div a b = 0%nat <-> a = 0%nat).
Proof.
  intros Hb. rewrite (ceil_div_nat a b Hb).
  pose proof (Nat.div_mod_eq (a + b - 1) b) as Hd.
  pose proof (Nat.mod_upper_bound (a + b - 1) b ltac:(lia)) as Hm.
  set (q := ((a + b - 1) / b)%nat) in *. set (r := ((a + b - 1) mod b)%nat) in *.
  split; [nia|]. split.
  - intros k Hk. destruct (Nat.le_gt_cases q k) as [H|H]; [exact H|]. exfalso. nia.
  - split; intros H; [nia|]. subst a. destruct q; [reflexivity|]. exfalso. nia.
Qed.

(** ** Shapes and entries *)

Lemma has_shape_S {A} n d sh (xs : tensor A (S n)) :
  has_shape (S n) (d :: sh) xs = true <->
  length xs = d /\ Forall (fun x => has_shape n sh x = true) xs.
Proof.
  simpl. rewrite andb_true_iff, Nat.eqb_eq, forallb_forall, Forall_forall. reflexivity.
Qed.

Lemma has_shape_build {A} (d : A) n sh l :
  length sh = n -> has_shape n sh (build d n sh l) = true.
Proof.
  revert sh l. induction n as [|n IH]; intros sh l Hn.
  - destruct sh; [reflexivity|discriminate].
  - destruct sh as [|k sh]; [discriminate|]. simpl in Hn.
    apply has_shape_S. split.
    + simpl. rewrite length_map, length_seq. reflexivity.
    + simpl. apply Forall_forall. intros x Hx. apply in_map_iff in Hx.
      destruct Hx as [i [<- _]]. apply IH. lia.
Qed.

Lemma length_entries {A} n sh (t : tensor A n) :
  has_shape n sh t = true -> length (entries n t) = numel sh.
Proof.
  revert sh t. induction n as [|n IH]; intros sh t H.
  - destruct sh; [reflexivity|discriminate].
  - destruct sh as [|d sh]; [discriminate|].
    apply has_shape_S in H. destruct H as [Hl Hf]. subst d.
    simpl. induction t as [|x t IHt]; simpl; [reflexivity|].
    inversion Hf; subst. rewrite length_app, (IH sh x), IHt by assumption.
    reflexivity.
Qed.

Lemma flat_map_ext_in {A B} (f g : A -> list B) (l : list A) :
  (forall a, In a l -> f a = g a) -> flat_map f l = flat_map g l.
Proof.
  induction l as [|a l IH]; simpl; intros H; [reflexivity|].
  rewrite H, IH; auto.
Qed.

Lemma flat_map_chunks {A} (k : nat) (l : list A) (m : nat) :
  length l = (m * k)%nat ->
  flat_map (fun i => firstn k (skipn (i * k) l)) (seq 0 m) = l.
Proof.
  revert l. induction m as [|m IH]; intros l Hl.
  - destruct l; [reflexivity|discriminate].
  - rewrite seq_S, flat_map_app. simpl. rewrite app_nil_r.
    transitivity (firstn (m * k) l ++ skipn (m * k) l); [|apply firstn_skipn].
    f_equal.
    + etransitivity; [|apply (IH (firstn (m * k) l)); rewrite length_firstn; lia].
      apply flat_map_ext_in. intros i Hi. apply in_seq in Hi.
      rewrite skipn_firstn_comm. rewrite firstn_firstn. f_equal. nia.
    + apply firstn_all2. rewrite length_skipn. lia.
Qed.

Lemma entries_build {A} (d : A) n sh l :
  length sh = n -> length l = numel sh -> entries n (build d n sh l) = l.
Proof.
  revert sh l. induction n as [|n IH]; intros sh l Hn Hl.
  - destruct sh; [|discriminate]. simpl in *.
    destruct l as [|a [|b l]]; try discriminate. reflexivity.
  - destruct sh as [|k sh]; [discriminate|]. simpl in Hn, Hl.
    simpl. rewrite flat_map_concat_map, map_map, <- flat_map_concat_map.
    etransitivity; [|apply (flat_map_chunks (numel sh) l k); lia].
    apply flat_map_ext_in. intros i Hi. apply in_seq in Hi. apply IH; [lia|].
    rewrite length_firstn, length_skipn. nia.
Qed.

(** ** Sums and counts *)

Lemma sum_list_app (l1 l2 : list nat) : sum_list (l1 ++ l2) = (sum_list l1 + sum_list l2)%nat.
Proof. induction l1 as [|a l1 IH]; simpl; [reflexivity|]. rewrite IH. lia. Qed.

Lemma sum_list_map_const {A} (l : list A) (c : nat) :
  sum_list (map (fun _ => c) l) = (length l * c)%nat.
Proof. induction l as [|a l IH]; simpl; [reflexivity|]. rewrite IH. reflexivity. Qed.

Lemma sum_list_map_ext {A} (f g : A -> nat) (l : list A) :
  (forall a, In a l -> f a = g a) -> sum_list (map f l) = sum_list (map g l).
Proof.
  induction l as [|a l IH]; simpl; intros H; [reflexivity|].
  rewrite H, IH; auto.
Qed.

Lemma sum_list_map_add {A} (f g : A -> nat) (l : list A) :
  sum_list (map (fun a => f a + g a)%nat l) = (sum_list (map f l) + sum_list (map g l))%nat.
Proof. induction l as [|a l IH]; simpl; [reflexivity|]. rewrite IH. lia. Qed.

(** Two nested sums may be exchanged. *)
Lemma sum_list_swap {A B} (F : A -> B -> nat) (xs : list A) (ys : list B) :
  sum_list (map (fun x => sum_list (map (fun y => F x y) ys)) xs)
  = sum_list (map (fun y => sum_list (map (fun x => F x y) xs)) ys).
Proof.
  induction xs as [|x xs IH]; simpl.
  - rewrite sum_list_map_const. lia.
  - rewrite IH, <- sum_list_map_add. reflexivity.
Qed.

Lemma count_true_map {A} (f : A -> bool) (l : list A) :
  length (filter (fun b : bool => b) (map f l)) = sum_list (map (fun a => b2n (f a)) l).
Proof.
  induction l as [|a l IH]; simpl; [reflexivity|].
  destruct (f a); simpl; rewrite IH; reflexivity.
Qed.

Lemma count_true_app (l1 l2 : list bool) :
  length (filter (fun b : bool => b) (l1 ++ l2))
  = (length (filter (fun b : bool => b) l1) + length (filter (fun b : bool => b) l2))%nat.
Proof. rewrite filter_app, length_app. reflexivity. Qed.

Lemma entries_1 {A} (l : tensor A 1) : entries 1 l = l.
Proof. simpl. induction l as [|a l IH]; simpl; [reflexivity|]. rewrite IH. reflexivity. Qed.

Lemma tcount_S {n} (mask : tensor bool (S n)) :
  @tcount (S n) mask = sum_list (map (@tcount n) mask).
Proof.
  unfold tcount. simpl.
  induction mask as [|x mask IH]; simpl; [reflexivity|].
  rewrite filter_app, length_app. f_equal. exact IH.
Qed.

Lemma tcount_1 (row : tensor bool 1) :
  @tcount 1 row = length (filter (fun b : bool => b) row).
Proof. unfold tcount. rewrite entries_1. reflexivity. Qed.

(** The number of flags set in a rank-2 mask, row by row. *)
Lemma tcount_2 (mask : tensor bool 2) :
  @tcount 2 mask = sum_list (map (fun row => length (filter (fun b : bool => b) row)) mask).
Proof.
  rewrite tcount_S. apply sum_list_map_ext. intros row _. apply tcount_1.
Qed.

(** ** Pairing with a broadcast column *)

Lemma bzip_eq_len {A B C} (g : A -> B -> C) xs ys :
  length xs = length ys ->
  bzip g xs ys = map (fun p => g (fst p) (snd p)) (combine xs ys).
Proof.
  intros H. unfold bzip.
  destruct ys as [|y [|y' ys]]; destruct xs as [|x [|x' xs]]; try discriminate; reflexivity.
Qed.

Lemma bzip_single_l {A B C} (g : A -> B -> C) x ys :
  bzip g [x] ys = map (fun y => g x y) ys.
Proof. unfold bzip. destruct ys as [|y [|y' ys]]; reflexivity. Qed.

Lemma combine_map_map {A B C D} (f : A -> B) (g : C -> D) (xs : list A) (ys : list C) :
  combine (map f xs) (map g ys) = map (fun p => (f (fst p), g (snd p))) (combine xs ys).
Proof.
  revert ys. induction xs as [|x xs IH]; intros [|y ys]; simpl; auto.
  f_equal. apply IH.
Qed.

Lemma combine_diag {A B C} (f : A -> B) (g : A -> C) (l : list A) :
  combine (map f l) (map g l) = map (fun a => (f a, g a)) l.
Proof. induction l as [|a l IH]; simpl; [reflexivity|]. f_equal. exact IH. Qed.

(** A tensor of channel values against a column of thresholds, one per
    chunk: every row meets its own threshold. *)
Lemma bmap2_rows_column {C} (f : Q -> Q -> C) (g : Q -> Q) (cm : list (list Q)) (tm : list Q) :
  length cm = length tm ->
  bmap2 f 2 cm (map (fun x => [g x]) tm)
  = map (fun p => map (fun v => f v (g (snd p))) (fst p)) (combine cm tm).
Proof.
  intros H. simpl. rewrite bzip_eq_len by (rewrite length_map; exact H).
  rewrite <- (map_id cm) at 1. rewrite combine_map_map, map_map.
  apply map_ext. intros [row x]. simpl. reflexivity.
Qed.

Lemma bmap2_column_rows {C} (f : Q -> Q -> C) (g : Q -> Q) (cm : list (list Q)) (tm : list Q) :
  length cm = length tm ->
  bmap2 f 2 (map (fun x => [g x]) tm) cm
  = map (fun p => map (fun v => f (g (snd p)) v) (fst p)) (combine cm tm).
Proof.
  intros H. simpl. rewrite bzip_eq_len by (rewrite length_map; symmetry; exact H).
  rewrite <- (map_id cm) at 1. rewrite combine_map_map, map_map.
  revert tm H. induction cm as [|row cm IH]; intros [|x tm] H; try discriminate; simpl.
  - reflexivity.
  - rewrite bzip_single_l. f_equal. apply IH. simpl in H. lia.
Qed.

Lemma bmap2_and_rows {P} (F G : P -> Q -> bool) (rowof : P -> list Q) (l : list P) :
  bmap2 andb 2 (map (fun p => map (F p) (rowof p)) l) (map (fun p => map (G p) (rowof p)) l)
  = map (fun p => map (fun v => F p v && G p v) (rowof p)) l.
Proof.
  simpl. rewrite bzip_eq_len by (rewrite !length_map; reflexivity).
  rewrite combine_diag, map_map. apply map_ext. intros p. simpl.
  rewrite bzip_eq_len by (rewrite !length_map; reflexivity).
  rewrite combine_diag, map_map. reflexivity.
Qed.

(** ** The bands partition the channels *)

Lemma pow2_pos (k : Z) : 0 < pow2 k.
Proof. unfold pow2. apply Qpower_0_lt. reflexivity. Qed.

Lemma pow2_succ (k : nat) : pow2 (Z.of_nat (S k)) == 2 * pow2 (Z.of_nat k).
Proof.
  unfold pow2. rewrite Nat2Z.inj_succ. unfold Z.succ.
  rewrite Qpower_plus by discriminate. rewrite Qmult_comm. reflexivity.
Qed.

Lemma threshold_spec_mono (D : nat) (t : Q) (i : nat) :
  0 <= t -> (1 <= i < D)%nat ->
  threshold_spec D t (i - 1) <= threshold_spec D t i.
Proof.
  intros Ht Hi. unfold threshold_spec.
  replace (D - 1 - (i - 1))%nat with (S (D - 1 - i)) by lia.
  rewrite pow2_succ.
  pose proof (pow2_pos (Z.of_nat (D - 1 - i))) as Hp.
  set (p := pow2 (Z.of_nat (D - 1 - i))) in *.
  apply Qle_shift_div_l; [lra|].
  assert (E : t / (2 * p) * p == t / 2) by (field; lra).
  rewrite E. apply Qle_shift_div_r; lra.
Qed.

Lemma threshold_spec_last (D : nat) (t : Q) : (0 < D)%nat -> threshold_spec D t (D - 1) == t.
Proof.
  intros HD. unfold threshold_spec. replace (D - 1 - (D - 1))%nat with 0%nat by lia.
  change (pow2 (Z.of_nat 0)) with 1. field.
Qed.

Lemma Qle_bool_true (x y : Q) : Qle_bool x y = true <-> x <= y.
Proof. apply Qle_bool_iff. Qed.

Lemma Qle_bool_false (x y : Q) : Qle_bool x y = false <-> y < x.
Proof.
  rewrite <- Bool.not_true_iff_false, Qle_bool_iff. split; [apply Qnot_le_lt | apply Qlt_not_le].
Qed.

(** The inclusive bands up to [m] together hold exactly the channels below
    [threshold[m]]. *)
Lemma inclusive_partial_sum (D : nat) (t v : Q) (m : nat) :
  0 <= t -> (m < D)%nat ->
  sum_list (map (fun i => b2n (band_inclusive D i t v)) (seq 0 (S m)))
  = b2n (Qle_bool v (threshold_spec D t m)).
Proof.
  intros Ht. induction m as [|m IH]; intros Hm.
  - simpl. unfold band_inclusive. simpl. lia.
  - rewrite seq_S, map_app, sum_list_app, IH by lia. simpl.
    unfold band_inclusive. simpl. rewrite Nat.sub_0_r.
    pose proof (threshold_spec_mono D t (S m) Ht ltac:(lia)) as Hmono.
    simpl in Hmono. rewrite Nat.sub_0_r in Hmono.
    unfold Qlt_bool.
    destruct (Qle_bool v (threshold_spec D t m)) eqn:E1; simpl.
    + apply Qle_bool_true in E1.
      assert (E2 : Qle_bool v (threshold_spec D t (S m)) = true)
        by (apply Qle_bool_true; lra).
      rewrite E2. reflexivity.
    + destruct (Qle_bool v (threshold_spec D t (S m))); reflexivity.
Qed.

Lemma inclusive_partition (D : nat) (t v : Q) :
  (0 < D)%nat -> 0 <= t ->
  sum_list (map (fun i => b2n (band_inclusive D i t v)) (seq 0 D)) = b2n (Qle_bool v t).
Proof.
  intros HD Ht. destruct D as [|m]; [lia|].
  rewrite inclusive_partial_sum by (auto; lia).
  assert (E : threshold_spec (S m) t m == t).
  { pose proof (threshold_spec_last (S m) t ltac:(lia)) as H. simpl in H.
    rewrite Nat.sub_0_r in H. exact H. }
  destruct (Qle_bool v (threshold_spec (S m) t m)) eqn:E1;
    destruct (Qle_bool v t) eqn:E2; try reflexivity; exfalso.
  - apply Qle_bool_true in E1. apply Qle_bool_false in E2. lra.
  - apply Qle_bool_false in E1. apply Qle_bool_true in E2. lra.
Qed.

(** With the closed-top policy every channel falls in exactly one band
    (with a single band: every channel not above the chunk maximum). *)
Lemma closed_top_partition (D : nat) (t v : Q) :
  (0 < D)%nat -> 0 <= t -> v <= t ->
  sum_list (map (fun i => b2n (band_closed_top D i t v)) (seq 0 D)) = 1%nat.
Proof.
  intros HD Ht Hv. destruct D as [|[|m]]; [lia| |].
  - assert (E : Qle_bool v (threshold_spec 1 t 0) = true).
    { apply Qle_bool_true.
      pose proof (threshold_spec_last 1 t ltac:(lia)) as H. simpl in H. lra. }
    simpl. unfold band_closed_top. simpl. rewrite E. reflexivity.
  - rewrite seq_S, map_app, sum_list_app.
    rewrite (sum_list_map_ext (fun i => b2n (band_closed_top (S (S m)) i t v))
                              (fun i => b2n (band_inclusive (S (S m)) i t v))).
    + rewrite inclusive_partial_sum by (auto; lia).
      simpl. unfold band_closed_top. simpl. rewrite Nat.eqb_refl, Nat.sub_0_r.
      unfold Qlt_bool. destruct (Qle_bool v (threshold_spec (S (S m)) t m)); reflexivity.
    + intros i Hi. apply in_seq in Hi. unfold band_closed_top, band_inclusive.
      destruct (Nat.eqb i 0) eqn:E0; [reflexivity|].
      assert (E1 : Nat.eqb i (S (S m) - 1) = false) by (apply Nat.eqb_neq; lia).
      rewrite E1. reflexivity.
Qed.

Lemma band_flags_count (band : Q -> Q -> bool) (cm : list (list Q)) (tm : list Q) :
  @tcount 2 (band_flags band cm tm)
  = sum_list (map (fun p => sum_list (map (fun v => b2n (band (snd p) v)) (fst p)))
                  (combine cm tm)).
Proof.
  rewrite tcount_2. unfold band_flags. rewrite map_map.
  apply sum_list_map_ext. intros p _. apply count_true_map.
Qed.

(** Summed over the bands, the flags count every channel of every chunk
    once, if in every chunk the channel maxima are at most the chunk
    maximum. *)
Lemma bands_total (D : nat) (band : nat -> Q -> Q -> bool)
      (cm : list (list Q)) (tm : list Q) :
  (forall t v, 0 <= t -> v <= t ->
     sum_list (map (fun i => b2n (band i t v)) (seq 0 D)) = 1%nat) ->
  (forall p, In p (combine cm tm) -> 0 <= snd p /\ forall v, In v (fst p) -> v <= snd p) ->
  sum_list (map (fun i => @tcount 2 (band_flags (band i) cm tm)) (seq 0 D))
  = sum_list (map (fun p => length (fst p)) (combine cm tm)).
Proof.
  intros Hpart Hcm.
  rewrite (sum_list_map_ext _ (fun i => sum_list (map (fun p =>
             sum_list (map (fun v => b2n (band i (snd p) v)) (fst p))) (combine cm tm)))).
  2: { intros i _. apply band_flags_count. }
  rewrite sum_list_swap.
  apply sum_list_map_ext. intros p Hp.
  rewrite sum_list_swap.
  destruct (Hcm p Hp) as [Ht Hv].
  rewrite (sum_list_map_ext _ (fun _ => 1%nat)).
  - rewrite sum_list_map_const. lia.
  - intros v Hin. apply Hpart; auto.
Qed.

(** ** Maxima *)

Lemma Qmax_cases (a b : Q) : Qmax a b = a \/ Qmax a b = b.
Proof.
  unfold Qmax, GenericMinMax.gmax. destruct (a ?= b); auto.
Qed.

Lemma fold_max_in (x : Q) (l : list Q) : In (fold_right Qmax x l) (x :: l).
Proof.
  induction l as [|a l IH]; simpl; [auto|].
  destruct (Qmax_cases a (fold_right Qmax x l)) as [E|E]; rewrite E.
  - auto.
  - simpl in IH. tauto.
Qed.

Lemma fold_max_ge (x : Q) (l : list Q) (y : Q) :
  In y (x :: l) -> y <= fold_right Qmax x l.
Proof.
  induction l as [|a l IH]; simpl; intros H.
  - destruct H as [->|[]]. lra.
  - destruct H as [->|[->|H]].
    + eapply Qle_trans; [apply IH; left; reflexivity | apply Q.le_max_r].
    + apply Q.le_max_l.
    + eapply Qle_trans; [apply IH; right; exact H | apply Q.le_max_r].
Qed.

Lemma max_list_in (l : list Q) : l <> [] -> In (max_list l) l.
Proof. destruct l as [|x l]; [congruence|]. intros _. apply fold_max_in. Qed.

Lemma max_list_ge (l : list Q) (y : Q) : In y l -> y <= max_list l.
Proof. destruct l as [|x l]; [intros []|]. apply fold_max_ge. Qed.

Lemma has_shape_tmap {A B} (f : A -> B) n sh (t : tensor A n) :
  has_shape n sh (tmap f n t) = has_shape n sh t.
Proof.
  revert sh t. induction n as [|n IH]; intros sh t; simpl; [reflexivity|].
  destruct sh as [|d sh]; [reflexivity|].
  rewrite length_map. f_equal.
  induction t as [|x t IHt]; simpl; [reflexivity|]. rewrite IH, IHt. reflexivity.
Qed.

(** In a chunk of magnitudes with at least one row and one channel, the
    chunk maximum is not negative and bounds every channel maximum. *)
Lemma chunk_cmax_le_tmax (cs hidden : nat) (mat : list (list Q)) :
  (0 < cs)%nat -> (0 < hidden)%nat ->
  has_shape 2 [cs; hidden] mat = true ->
  (forall row v, In row mat -> In v row -> 0 <= v) ->
  0 <= chunk_tmax mat /\ forall v, In v (chunk_cmax hidden mat) -> v <= chunk_tmax mat.
Proof.
  intros Hcs Hh Hs Hpos.
  apply (has_shape_S 1 cs [hidden] mat) in Hs. destruct Hs as [Hlen Hrows].
  assert (Hrowlen : forall row, In row mat -> length row = hidden).
  { intros row Hin. rewrite Forall_forall in Hrows. specialize (Hrows row Hin).
    apply (has_shape_S 0 hidden [] row) in Hrows. tauto. }
  assert (Hne : mat <> []) by (destruct mat; simpl in *; [lia|congruence]).
  assert (Hrowmax : forall row v, In row mat -> In v row -> v <= chunk_tmax mat).
  { intros row v Hrow Hv. unfold chunk_tmax.
    eapply Qle_trans; [apply (max_list_ge row v Hv)|].
    apply max_list_ge. apply in_map. exact Hrow. }
  split.
  - destruct mat as [|row mat]; [congruence|].
    assert (Hl : length row = hidden) by (apply Hrowlen; left; reflexivity).
    destruct row as [|v row]; [simpl in Hl; lia|].
    eapply Qle_trans; [apply (Hpos (v :: row) v); left; reflexivity|].
    apply (Hrowmax (v :: row) v); left; reflexivity.
  - intros v Hv. unfold chunk_cmax in Hv. apply in_map_iff in Hv.
    destruct Hv as [j [<- Hj]]. apply in_seq in Hj.
    assert (Hc : column 0 j mat <> []) by (unfold column; destruct mat; simpl; congruence).
    pose proof (max_list_in (column 0 j mat) Hc) as Hin.
    unfold column in Hin at 2. apply in_map_iff in Hin.
    destruct Hin as [row [E Hrow]]. rewrite <- E.
    apply (Hrowmax row); [exact Hrow|]. apply nth_In. rewrite (Hrowlen row Hrow). lia.
Qed.

(** ** The loop over the bands *)

Lemma Ok_inj {A} (a b : A) : Ok a = Ok b -> a = b.
Proof. intros H. injection H. auto. Qed.

Lemma obind_ok {A B} (m : outcome A) (k : A -> outcome B) (b : B) :
  obind m k = Ok b -> exists a, m = Ok a /\ k a = Ok b.
Proof. destruct m as [a| |]; simpl; intros H; [eauto|discriminate|discriminate]. Qed.

(** If every turn appends the count of its band, the loop leaves the counts
    of all the bands, in order. *)
Lemma run_bands_count {R} (step : list nat * R -> nat -> outcome (list nat * R))
      (c : nat -> nat) (D : nat) (r0 : R) (count : list nat) (r : R) :
  (forall cnt res i cnt' res',
      step (cnt, res) i = Ok (cnt', res') -> cnt' = cnt ++ [c i]) ->
  run_bands step D r0 = Ok (count, r) ->
  count = map c (seq 0 D).
Proof.
  intros Hstep. unfold run_bands.
  assert (G : forall n s cnt0 res0,
             fold_left (fun acc i => obind acc (fun st => step st i)) (seq s n)
                       (Ok (cnt0, res0)) = Ok (count, r) ->
             count = cnt0 ++ map c (seq s n)).
  { induction n as [|n IH]; intros s cnt0 res0 H; simpl in H.
    - inversion H. simpl. rewrite app_nil_r. reflexivity.
    - destruct (step (cnt0, res0) s) as [[cnt1 res1]| |] eqn:E.
      + apply IH in H. rewrite (Hstep _ _ _ _ _ E) in H.
        rewrite <- app_assoc in H. exact H.
      + exfalso. clear -H. induction (seq (S s) n) as [|a l IHl]; simpl in H;
          [discriminate | auto].
      + exfalso. clear -H. induction (seq (S s) n) as [|a l IHl]; simpl in H;
          [discriminate | auto]. }
  intros H. apply G in H. exact H.
Qed.

Lemma fold_bands_raise {R} (step : list nat * R -> nat -> outcome (list nat * R))
      (l : list nat) (e : error) :
  fold_left (fun acc i => obind acc (fun st => step st i)) l (Raise e) = Raise e.
Proof. induction l as [|a l IH]; simpl; auto. Qed.

Lemma fold_bands_nonfinite {R} (step : list nat * R -> nat -> outcome (list nat * R))
      (l : list nat) :
  fold_left (fun acc i => obind acc (fun st => step st i)) l NonFinite = NonFinite.
Proof. induction l as [|a l IH]; simpl; auto. Qed.

(** ** The decomposition of the LM head *)

Lemma lm_bands_unfold (self : LmHeadTender.t) (dt : DType) (hc : Tensor 3)
      (chunks cs hidden : nat) :
  shape hc = [chunks; cs; hidden] -> (0 < cs)%nat -> (0 < hidden)%nat ->
  LmHeadTender.bands self dt hc
  = run_bands (LmHeadTender.band_step self dt hc
                 (LmHeadTender.thresholds_of (LmHeadTender.decomp_factor self) (lm_tmax hc))
                 (lm_cmax hc))
              (LmHeadTender.decomp_factor self)
              (zeros (dtype hc) (shape hc)).
Proof.
  intros Hs Hcs Hh. unfold LmHeadTender.bands, max_dim_last, max_dim_rows, reduce_dim_rows.
  unfold tabs, tlift. cbn [shape dtype data]. rewrite Hs. cbn [last removelast].
  destruct hidden as [|hidden]; [lia|]. destruct cs as [|cs]; [lia|].
  cbn [Nat.eqb negb obind shape dtype data last removelast].
  unfold lm_tmax, lm_cmax. rewrite Hs. cbn [last removelast drop_rows_dim app].
  f_equal.
  - f_equal. f_equal. cbn [reduce_last]. rewrite map_map. reflexivity.
Qed.

Lemma nth_map_seq {A} (F : nat -> A) (D i : nat) (d : A) :
  (i < D)%nat -> nth i (map F (seq 0 D)) d = F i.
Proof.
  intros H. rewrite (nth_indep _ d (F 0%nat)) by (rewrite length_map, length_seq; exact H).
  rewrite (map_nth F (seq 0 D) 0%nat i), seq_nth by exact H. reflexivity.
Qed.

Lemma lm_threshold_data (D : nat) (tmax : Tensor 1) (i : nat) :
  (i < D)%nat ->
  data (LmHeadTender.threshold (LmHeadTender.thresholds_of D tmax) i)
  = map (fun x => [threshold_spec D x i]) (data tmax).
Proof.
  intros H. unfold LmHeadTender.threshold, LmHeadTender.thresholds_of.
  rewrite nth_map_seq by exact H.
  unfold unsqueeze_last, tlift. cbn [data unsqueeze_data tmap]. rewrite map_map.
  reflexivity.
Qed.

(** The flags of band [i] in the LM head are the closed-top band of the
    specification, chunk by chunk. *)
Lemma lm_band_mask_flags (D : nat) (tmax : Tensor 1) (cmax : Tensor 2) (i : nat) :
  (i < D)%nat -> length (data cmax) = length (data tmax) ->
  LmHeadTender.band_mask D (LmHeadTender.thresholds_of D tmax) cmax i
  = band_flags (band_closed_top D i) (data cmax) (data tmax).
Proof.
  intros Hi Hlen. unfold LmHeadTender.band_mask, band_flags, band_closed_top.
  unfold gt_mask, le_mask, lt_mask, logical_and.
  destruct (Nat.eqb i 0) eqn:E0.
  - rewrite lm_threshold_data by exact Hi.
    apply Nat.eqb_eq in E0. subst i.
    rewrite (bmap2_rows_column Qle_bool (fun x => threshold_spec D x 0)) by exact Hlen.
    reflexivity.
  - apply Nat.eqb_neq in E0.
    destruct (Nat.eqb i (D - 1)) eqn:E1.
    + rewrite lm_threshold_data by lia.
      rewrite (bmap2_column_rows Qlt_bool (fun x => threshold_spec D x (i - 1))) by exact Hlen.
      reflexivity.
    + rewrite !lm_threshold_data by lia.
      rewrite (bmap2_column_rows Qlt_bool (fun x => threshold_spec D x (i - 1))) by exact Hlen.
      rewrite (bmap2_rows_column Qle_bool (fun x => threshold_spec D x i)) by exact Hlen.
      apply (bmap2_and_rows
               (fun p v => Qlt_bool (threshold_spec D (snd p) (i - 1)) v)
               (fun p v => Qle_bool v (threshold_spec D (snd p) i))
               (fun p : list Q * Q => fst p)).
Qed.

Lemma lm_band_step_count (self : LmHeadTender.t) dt hc thresholds cmax cnt res i cnt' res' :
  LmHeadTender.band_step self dt hc thresholds cmax (cnt, res) i = Ok (cnt', res') ->
  cnt' = cnt ++ [@tcount 2 (LmHeadTender.band_mask (LmHeadTender.decomp_factor self)
                                                   thresholds cmax i)].
Proof.
  unfold LmHeadTender.band_step.
  destruct (Nat.eqb (nth i (cnt ++ [_]) 0%nat) 0); intros H.
  - inversion H. reflexivity.
  - repeat (apply obind_ok in H; destruct H as [? [_ H]]).
    inversion H. reflexivity.
Qed.

Lemma entries_abs_nonneg n (t : tensor Q n) :
  Forall (fun v => 0 <= v) (entries n (tmap Qabs n t)).
Proof.
  rewrite entries_tmap. apply Forall_forall. intros v Hv.
  apply in_map_iff in Hv. destruct Hv as [x [<- _]]. apply Qabs_nonneg.
Qed.

(** The statistics of a well-formed chunked tensor meet the hypothesis of
    [bands_total]. *)
Lemma lm_stats_bounds (hc : Tensor 3) (chunks cs hidden : nat) :
  shape hc = [chunks; cs; hidden] -> (0 < cs)%nat -> (0 < hidden)%nat -> wf hc ->
  length (data (lm_cmax hc)) = length (data (lm_tmax hc)) /\
  (forall p, In p (combine (data (lm_cmax hc)) (data (lm_tmax hc))) ->
     0 <= snd p /\ forall v, In v (fst p) -> v <= snd p) /\
  sum_list (map (fun p => length (fst p)) (combine (data (lm_cmax hc)) (data (lm_tmax hc))))
  = (hidden * chunks)%nat.
Proof.
  intros Hs Hcs Hh [_ Hwf]. rewrite Hs in Hwf.
  unfold lm_cmax, lm_tmax. cbn [data]. rewrite Hs. cbn [last].
  set (A := tmap Qabs 3 (data hc)).
  assert (HA : has_shape 3 [chunks; cs; hidden] A = true)
    by (unfold A; rewrite has_shape_tmap; exact Hwf).
  apply (has_shape_S 2 chunks [cs; hidden] A) in HA. destruct HA as [HlenA HmatA].
  rewrite Forall_forall in HmatA.
  assert (Hpos : forall mat row v, In mat A -> In row mat -> In v row -> 0 <= v).
  { intros mat row v Hm Hr Hv.
    pose proof (entries_abs_nonneg 3 (data hc)) as Hall. rewrite Forall_forall in Hall.
    apply Hall. fold A. simpl. apply in_flat_map. exists mat. split; [exact Hm|].
    apply in_flat_map. exists row. split; [exact Hr|].
    apply in_flat_map. exists v. split; [exact Hv|]. left. reflexivity. }
  rewrite combine_diag.
  split; [rewrite !length_map; reflexivity|]. split.
  - intros p Hp. apply in_map_iff in Hp. destruct Hp as [mat [<- Hm]]. cbn [fst snd].
    apply (chunk_cmax_le_tmax cs hidden mat Hcs Hh (HmatA mat Hm)).
    intros row v. apply Hpos. exact Hm.
  - rewrite map_map. cbn [fst].
    rewrite (sum_list_map_ext _ (fun _ => hidden)).
    + rewrite sum_list_map_const. lia.
    + intros mat _. unfold chunk_cmax. rewrite length_map, length_seq. reflexivity.
Qed.

(** In the LM head the counts the loop leaves sum to [hidden_dim * chunks]:
    the check of line 1582 cannot fail. *)
Lemma lm_bands_counts (self : LmHeadTender.t) (dt : DType) (hc : Tensor 3)
      (chunks cs hidden : nat) (count : list nat) (result : Tensor 3) :
  shape hc = [chunks; cs; hidden] -> (0 < cs)%nat -> (0 < hidden)%nat -> wf hc ->
  LmHeadTender.bands self dt hc = Ok (count, result) ->
  count = map (fun i => @tcount 2 (band_flags
                 (band_closed_top (LmHeadTender.decomp_factor self) i)
                 (data (lm_cmax hc)) (data (lm_tmax hc))))
              (seq 0 (LmHeadTender.decomp_factor self))
  /\ ((0 < LmHeadTender.decomp_factor self)%nat -> sum_list count = (hidden * chunks)%nat).
Proof.
  intros Hs Hcs Hh Hwf H.
  rewrite (lm_bands_unfold self dt hc chunks cs hidden Hs Hcs Hh) in H.
  destruct (lm_stats_bounds hc chunks cs hidden Hs Hcs Hh Hwf) as [Hlen [Hb Hsum]].
  set (D := LmHeadTender.decomp_factor self) in *.
  apply (run_bands_count _ (fun i => @tcount 2 (LmHeadTender.band_mask D
           (LmHeadTender.thresholds_of D (lm_tmax hc)) (lm_cmax hc) i))) in H.
  2: { intros cnt res i cnt' res' E. apply (lm_band_step_count _ _ _ _ _ _ _ _ _ _ E). }
  assert (Hc : count = map (fun i => @tcount 2 (band_flags (band_closed_top D i)
                              (data (lm_cmax hc)) (data (lm_tmax hc)))) (seq 0 D)).
  { rewrite H. apply map_ext_in. intros i Hi. apply in_seq in Hi.
    rewrite lm_band_mask_flags by (auto; lia). reflexivity. }
  split; [exact Hc|]. intros HD. rewrite Hc.
  rewrite (bands_total D (band_closed_top D)); [exact Hsum | | exact Hb].
  intros t v Ht Hv. apply closed_top_partition; assumption.
Qed.

(** ** Chunking and trimming in the LM head *)

Lemma promote_idem (d : DType) : promote d d = d.
Proof. destruct d; reflexivity. Qed.

Lemma shape_eqb_refl (s : list nat) : shape_eqb s s = true.
Proof. unfold shape_eqb. destruct (list_eq_dec Nat.eq_dec s s); congruence. Qed.

Lemma shape_eqb_eq (s1 s2 : list nat) : shape_eqb s1 s2 = true <-> s1 = s2.
Proof.
  unfold shape_eqb. destruct (list_eq_dec Nat.eq_dec s1 s2); split; congruence.
Qed.

Lemma entries_app {A} n (xs ys : tensor A (S n)) :
  entries (S n) (xs ++ ys) = entries (S n) xs ++ entries (S n) ys.
Proof. simpl. apply flat_map_app. Qed.

Lemma zeros_entries n (dt : DType) (sh : list nat) :
  length sh = n -> entries n (data (@zeros n dt sh)) = repeat 0 (numel sh).
Proof.
  intros H. unfold zeros. cbn [data]. apply entries_build; [exact H|].
  apply repeat_length.
Qed.

Lemma zeros_wf n (dt : DType) (sh : list nat) : length sh = n -> wf (@zeros n dt sh).
Proof.
  intros H. split; [exact H|]. unfold zeros. cbn [shape data]. apply has_shape_build. exact H.
Qed.

(** Lines 1539-1551.  [r >= 1] rows are cut in [ceil(r / chunk_size)]
    chunks; the chunked tensor holds the rows as they came, followed by zero
    rows up to [chunks * chunk_size]. *)
Lemma lm_chunking_ok (cs : nat) (hs : Tensor 2) (r hidden : nat) :
  wf hs -> shape hs = [r; hidden] -> (0 < cs)%nat -> (0 < r)%nat ->
  exists hc,
    LmHeadTender.chunking cs hs = Ok (ceil_div r cs, hc) /\
    shape hc = [ceil_div r cs; cs; hidden] /\ wf hc /\ dtype hc = dtype hs /\
    (r <= ceil_div r cs * cs)%nat /\
    entries 3 (data hc)
    = entries 2 (data hs) ++ repeat 0 ((ceil_div r cs * cs - r) * hidden)%nat.
Proof.
  intros [_ Hwf] Hs Hcs Hr. rewrite Hs in Hwf.
  destruct (ceil_div_spec r cs Hcs) as [Hle [_ Hz]].
  set (chunks := ceil_div r cs) in *.
  assert (Hc : chunks <> 0%nat) by (intros E; apply Hz in E; lia).
  pose proof (length_entries 2 [r; hidden] (data hs) Hwf) as Hlen.
  cbn [numel fold_right] in Hlen.
  unfold LmHeadTender.chunking. rewrite Hs. cbn [hd last].
  fold chunks.
  replace (negb (Nat.eqb cs 0)) with true by (symmetry; apply negb_true_iff, Nat.eqb_neq; lia).
  replace (negb (Nat.eqb chunks 0)) with true
    by (symmetry; apply negb_true_iff, Nat.eqb_neq; exact Hc).
  destruct (Nat.ltb 0 (chunks * cs - r)) eqn:Hpad.
  - apply Nat.ltb_lt in Hpad.
    set (pad := @zeros 2 (dtype hs) [(chunks * cs - r)%nat; hidden]).
    assert (Hpe : entries 2 (data pad) = repeat 0 ((chunks * cs - r) * hidden)%nat).
    { unfold pad. rewrite zeros_entries by reflexivity. cbn [numel fold_right].
      rewrite Nat.mul_1_r. reflexivity. }
    unfold cat0. change (shape pad) with [(chunks * cs - r)%nat; hidden].
    change (dtype pad) with (dtype hs).
    rewrite Hs. cbn [tl hd].
    rewrite shape_eqb_refl. cbn [obind].
    unfold reshape. cbn [shape dtype data numel fold_right length].
    replace (Nat.eqb (chunks * (cs * (hidden * 1))) ((r + (chunks * cs - r)) * (hidden * 1)))
      with true by (symmetry; apply Nat.eqb_eq; nia).
    cbn [andb Nat.eqb].
    eexists. split; [reflexivity|]. cbn [shape dtype data].
    split; [reflexivity|]. split.
    { split; [reflexivity|]. apply has_shape_build. reflexivity. }
    split; [apply promote_idem|]. split; [exact Hle|].
    rewrite entries_build.
    + rewrite (entries_app 1), Hpe. reflexivity.
    + reflexivity.
    + rewrite (entries_app 1), length_app, Hlen, Hpe, repeat_length.
      cbn [numel fold_right]. nia.
  - apply Nat.ltb_ge in Hpad.
    assert (Er : (chunks * cs)%nat = r) by lia.
    cbn [obind]. unfold reshape. rewrite Hs. cbn [numel fold_right length].
    replace (Nat.eqb (chunks * (cs * (hidden * 1))) (r * (hidden * 1)))
      with true by (symmetry; apply Nat.eqb_eq; nia).
    cbn [andb Nat.eqb].
    eexists. split; [reflexivity|]. cbn [shape dtype data].
    split; [reflexivity|]. split.
    { split; [reflexivity|]. apply has_shape_build. reflexivity. }
    split; [reflexivity|]. split; [exact Hle|].
    rewrite entries_build.
    + replace (chunks * cs - r)%nat with 0%nat by lia. simpl. rewrite app_nil_r. reflexivity.
    + reflexivity.
    + rewrite Hlen. cbn [numel fold_right]. nia.
Qed.

(** ** Well-formedness is kept by the operations *)

Lemma Forall_map_iff {A B} (P : B -> Prop) (f : A -> B) (l : list A) :
  Forall P (map f l) <-> Forall (fun a => P (f a)) l.
Proof. apply Forall_map. Qed.

(** A broadcasting operation on two well-shaped arrays gives an array of
    the broadcast shape. *)
Lemma has_shape_bmap2 {A B C} (f : A -> B -> C) n sa sb (a : tensor A n) (b : tensor B n) :
  has_shape n sa a = true -> has_shape n sb b = true -> broadcastable sa sb = true ->
  has_shape n (bshape sa sb) (bmap2 f n a b) = true.
Proof.
  revert sa sb a b. induction n as [|n IH]; intros sa sb a b Ha Hb Hbr.
  - destruct sa, sb; simpl in *; try discriminate. reflexivity.
  - destruct sa as [|da sa]; [discriminate|]. destruct sb as [|db sb]; [discriminate|].
    apply has_shape_S in Ha. destruct Ha as [Hla Hfa].
    apply has_shape_S in Hb. destruct Hb as [Hlb Hfb].
    cbn [broadcastable] in Hbr. apply andb_true_iff in Hbr. destruct Hbr as [Hd Hbr].
    cbn [bshape]. apply has_shape_S.
    rewrite Forall_forall in Hfa, Hfb.
    cbn [bmap2]. unfold bzip.
    destruct b as [|y [|y' b]].
    + (* db = 0 *)
      simpl in Hlb. subst db.
      destruct a as [|x [|x' a]]; simpl in Hla; subst da; simpl in *;
        try discriminate; split; auto.
    + simpl in Hlb. subst db. split.
      * rewrite length_map. transitivity da; [exact Hla|].
        destruct (Nat.eqb da 1) eqn:E; [|reflexivity].
        apply Nat.eqb_eq in E. exact E.
      * apply Forall_map_iff, Forall_forall. intros x Hx.
        apply IH; auto. apply Hfb. left. reflexivity.
    + destruct a as [|x [|x' a]].
      * simpl in Hla. subst da. simpl in Hlb. subst db. simpl in Hd. discriminate.
      * simpl in Hla. subst da. split; [rewrite length_map; simpl; exact Hlb|].
        apply Forall_map_iff, Forall_forall. intros z Hz.
        apply IH; auto. apply Hfa. left. reflexivity.
      * assert (Hab : da = db).
        { simpl in Hla, Hlb. subst da db.
          apply orb_true_iff in Hd. destruct Hd as [Hd|Hd]; [|discriminate].
          apply orb_true_iff in Hd. destruct Hd as [Hd|Hd]; [|discriminate].
          apply Nat.eqb_eq in Hd. exact Hd. }
        split.
        -- rewrite length_map, length_combine.
           transitivity (Nat.min da db); [f_equal; assumption|].
           rewrite Hab, Nat.min_id.
           destruct (Nat.eqb db 1) eqn:E; [|reflexivity].
           reflexivity.
        -- apply Forall_map_iff, Forall_forall. intros [u v] Hin. cbn [fst snd].
           apply IH; auto;
             [apply Hfa; eapply in_combine_l; exact Hin
             | apply Hfb; eapply in_combine_r; exact Hin].
Qed.

Lemma length_bshape (sa sb : list nat) :
  broadcastable sa sb = true -> length (bshape sa sb) = length sa.
Proof.
  revert sb. induction sa as [|a sa IH]; intros [|b sb] H; simpl in *; try discriminate.
  - reflexivity.
  - apply andb_true_iff in H. destruct H as [_ H]. rewrite IH by exact H. reflexivity.
Qed.

Lemma tbinop_wf n (f : Q -> Q -> Q) (a b r : Tensor n) :
  wf a -> wf b -> tbinop f a b = Ok r ->
  wf r /\ shape r = bshape (shape a) (shape b) /\ broadcastable (shape a) (shape b) = true.
Proof.
  intros [Hla Ha] [Hlb Hb]. unfold tbinop.
  destruct (broadcastable (shape a) (shape b)) eqn:E; [|discriminate].
  intros H. inversion H; subst r; clear H. cbn [shape data].
  split; [|auto]. split; cbn [shape data].
  - rewrite length_bshape by exact E. exact Hla.
  - apply has_shape_bmap2; assumption.
Qed.

Lemma tlift_wf n (f : Q -> Q) (t : Tensor n) : wf t -> wf (tlift f t).
Proof.
  intros [Hl H]. split; [exact Hl|]. unfold tlift. cbn [shape data].
  rewrite has_shape_tmap. exact H.
Qed.

Lemma to_wf n (d : DType) (t : Tensor n) : wf t -> wf (to d t).
Proof. intros H. exact H. Qed.

Lemma sym_quant_wf n (x s q : Tensor n) (b : Z) :
  wf x -> wf s -> sym_quant x s b = Ok q ->
  wf q /\ shape q = bshape (shape x) (shape s) /\ broadcastable (shape x) (shape s) = true.
Proof.
  intros [Hlx Hx] [Hls Hs]. rewrite sym_quant_unfold.
  destruct (Nat.eqb (count_zeros s) 0); [|discriminate].
  destruct (broadcastable (shape x) (shape s)) eqn:E; [|discriminate].
  intros H. inversion H; subst q; clear H. cbn [shape data].
  split; [|auto]. split; cbn [shape data].
  - rewrite length_bshape by exact E. exact Hlx.
  - apply has_shape_bmap2; assumption.
Qed.

Lemma sym_dequant_wf n (q s r : Tensor n) (dt : DType) :
  wf q -> wf s -> sym_dequant q s dt = Ok r ->
  wf r /\ shape r = bshape (shape q) (shape s) /\ dtype r = dt.
Proof.
  intros [Hlq Hq] [Hls Hs]. rewrite sym_dequant_unfold.
  destruct (broadcastable (shape q) (shape s)) eqn:E; [|discriminate].
  intros H. inversion H; subst r; clear H. cbn [shape data dtype].
  split; [|auto]. split; cbn [shape data].
  - rewrite length_bshape by exact E. exact Hlq.
  - apply has_shape_bmap2; assumption.
Qed.

Lemma iadd_wf n (result x r : Tensor n) :
  wf result -> wf x -> iadd result x = Ok r ->
  wf r /\ shape r = shape result /\ dtype r = dtype result.
Proof.
  intros [Hlr Hr] [Hlx Hx]. unfold iadd.
  destruct (broadcastable (shape result) (shape x)) eqn:E; [|discriminate].
  destruct (shape_eqb (bshape (shape result) (shape x)) (shape result)) eqn:E2;
    [|discriminate].
  apply shape_eqb_eq in E2. intros H. inversion H; subst r; clear H.
  cbn [shape data dtype]. split; [|auto]. split; cbn [shape data]; [exact Hlr|].
  rewrite <- E2 at 1. apply has_shape_bmap2; assumption.
Qed.

Lemma div_scalar_wf n (t r : Tensor n) (c : Q) :
  wf t -> div_scalar t c = Ok r -> wf r /\ shape r = shape t /\ dtype r = dtype t.
Proof.
  intros Hw. unfold div_scalar.
  destruct (is_zero c && negb (Nat.eqb (numel (shape t)) 0)); [discriminate|].
  intros H. inversion H; subst r. split; [apply tlift_wf; exact Hw|]. auto.
Qed.

(** The loop keeps what every turn keeps. *)
Lemma run_bands_inv {R} (P : R -> Prop)
      (step : list nat * R -> nat -> outcome (list nat * R))
      (D : nat) (r0 : R) (count : list nat) (r : R) :
  P r0 ->
  (forall cnt res i cnt' res',
      (i < D)%nat -> P res -> step (cnt, res) i = Ok (cnt', res') -> P res') ->
  run_bands step D r0 = Ok (count, r) -> P r.
Proof.
  intros H0 Hstep. unfold run_bands.
  assert (G : forall l cnt0 res0, (forall i, In i l -> (i < D)%nat) -> P res0 ->
             fold_left (fun acc i => obind acc (fun st => step st i)) l
                       (Ok (cnt0, res0)) = Ok (count, r) -> P r).
  { induction l as [|i l IH]; intros cnt0 res0 Hl HP H; simpl in H.
    - inversion H; subst. exact HP.
    - destruct (step (cnt0, res0) i) as [[cnt1 res1]| |] eqn:E.
      + apply (IH cnt1 res1); [intros; apply Hl; right; assumption | | exact H].
        eapply Hstep; [apply Hl; left; reflexivity | exact HP | exact E].
      + rewrite fold_bands_raise in H. discriminate.
      + rewrite fold_bands_nonfinite in H. discriminate. }
  apply G; [|exact H0]. intros i Hi. apply in_seq in Hi. lia.
Qed.

Lemma has_shape_unsqueeze {A} n sh (t : tensor A n) :
  has_shape n sh t = true -> has_shape (S n) (sh ++ [1%nat]) (unsqueeze_data n t) = true.
Proof.
  revert sh t. induction n as [|n IH]; intros sh t H.
  - destruct sh; [reflexivity|discriminate].
  - destruct sh as [|d sh]; [discriminate|].
    apply has_shape_S in H. destruct H as [Hl Hf].
    change ((d :: sh) ++ [1%nat]) with (d :: (sh ++ [1%nat])).
    apply (has_shape_S (S n)). cbn [unsqueeze_data]. split.
    + rewrite length_map. exact Hl.
    + apply Forall_map_iff. revert Hf. apply Forall_impl. intros x. apply IH.
Qed.

Lemma unsqueeze_last_wf n (t : Tensor n) : wf t -> wf (unsqueeze_last t).
Proof.
  intros [Hl H]. split; unfold unsqueeze_last; cbn [shape data].
  - rewrite length_app, Hl. simpl. lia.
  - apply has_shape_unsqueeze. exact H.
Qed.

Lemma has_shape_repeat_rows {A} (k c h : nat) (m : tensor A 2) :
  has_shape 2 [c; h] m = true -> has_shape 3 [c; k; h] (repeat_rows k 1 m) = true.
Proof.
  intros H. apply (has_shape_S 1) in H. destruct H as [Hl Hf].
  apply (has_shape_S 2). cbn [repeat_rows]. split; [rewrite length_map; exact Hl|].
  apply Forall_map_iff. revert Hf. apply Forall_impl. intros row Hrow.
  apply (has_shape_S 1). split; [apply repeat_length|].
  apply Forall_forall. intros x Hx. apply repeat_spec in Hx. subst x. exact Hrow.
Qed.

Lemma has_shape_band_flags (band : Q -> Q -> bool) (c h : nat) (cm : list (list Q)) (tm : list Q) :
  has_shape 2 [c; h] cm = true -> length tm = c ->
  has_shape 2 [c; h] (band_flags band cm tm) = true.
Proof.
  intros H Ht. apply (has_shape_S 1) in H. destruct H as [Hl Hf].
  apply (has_shape_S 1). unfold band_flags. split.
  - rewrite length_map, length_combine. transitivity (Nat.min c c); [|apply Nat.min_id].
    f_equal; assumption.
  - apply Forall_map_iff, Forall_forall. intros [row t] Hin. cbn [fst snd].
    rewrite Forall_forall in Hf. apply in_combine_l in Hin. specialize (Hf row Hin).
    apply (has_shape_S 0) in Hf. apply (has_shape_S 0). rewrite length_map.
    split; [tauto|]. apply Forall_forall. intros; reflexivity.
Qed.

Lemma bshape_refl (s : list nat) : broadcastable s s = true /\ bshape s s = s.
Proof.
  induction s as [|a s [IH1 IH2]]; simpl; [auto|].
  rewrite Nat.eqb_refl, IH1, IH2. simpl. split; [reflexivity|].
  destruct (Nat.eqb a 1); reflexivity.
Qed.

Lemma lm_tmax_wf (hc : Tensor 3) (chunks cs hidden : nat) :
  shape hc = [chunks; cs; hidden] -> wf hc ->
  wf (lm_tmax hc) /\ shape (lm_tmax hc) = [chunks] /\ length (data (lm_tmax hc)) = chunks.
Proof.
  intros Hs [_ Hwf]. rewrite Hs in Hwf.
  apply (has_shape_S 2) in Hwf. destruct Hwf as [Hl _].
  unfold lm_tmax, wf. cbn [shape data]. rewrite Hs. cbn [removelast].
  assert (E : length (map chunk_tmax (tmap Qabs 3 (data hc))) = chunks).
  { rewrite length_map. cbn [tmap]. rewrite length_map. exact Hl. }
  split; [|auto]. split; [reflexivity|].
  apply (has_shape_S 0). split; [exact E|]. apply Forall_forall. intros; reflexivity.
Qed.

Lemma lm_cmax_shape (hc : Tensor 3) (chunks cs hidden : nat) :
  shape hc = [chunks; cs; hidden] -> wf hc ->
  has_shape 2 [chunks; hidden] (data (lm_cmax hc)) = true.
Proof.
  intros Hs [_ Hwf]. rewrite Hs in Hwf.
  apply (has_shape_S 2) in Hwf. destruct Hwf as [Hl _].
  unfold lm_cmax. cbn [data]. rewrite Hs. cbn [last].
  apply (has_shape_S 1). split.
  - rewrite length_map. cbn [tmap]. rewrite length_map. exact Hl.
  - apply Forall_map_iff, Forall_forall. intros mat _.
    apply (has_shape_S 0). unfold chunk_cmax. rewrite length_map, length_seq.
    split; [reflexivity|]. apply Forall_forall. intros; reflexivity.
Qed.

Lemma lm_threshold_wf (D : nat) (tmax : Tensor 1) (i : nat) :
  wf tmax -> (i < D)%nat ->
  wf (LmHeadTender.threshold (LmHeadTender.thresholds_of D tmax) i)
  /\ shape (LmHeadTender.threshold (LmHeadTender.thresholds_of D tmax) i)
     = shape tmax ++ [1%nat].
Proof.
  intros Hw Hi. unfold LmHeadTender.threshold, LmHeadTender.thresholds_of.
  rewrite nth_map_seq by exact Hi.
  split; [apply unsqueeze_last_wf, tlift_wf; exact Hw | reflexivity].
Qed.

(** Every turn of the loop of the LM head keeps [result] well formed and
    of the shape of the chunked tensor. *)
Lemma lm_band_step_inv (self : LmHeadTender.t) (dt : DType) (hc : Tensor 3)
      (chunks hidden : nat) cnt res i cnt' res' :
  shape hc = [chunks; LmHeadTender.chunk_size self; hidden] -> wf hc ->
  (i < LmHeadTender.decomp_factor self)%nat ->
  wf res /\ shape res = shape hc ->
  LmHeadTender.band_step self dt hc
    (LmHeadTender.thresholds_of (LmHeadTender.decomp_factor self) (lm_tmax hc))
    (lm_cmax hc) (cnt, res) i = Ok (cnt', res') ->
  wf res' /\ shape res' = shape hc.
Proof.
  intros Hs Hwf Hi [Hres Hsr]. unfold LmHeadTender.band_step.
  set (cs := LmHeadTender.chunk_size self) in *.
  set (D := LmHeadTender.decomp_factor self) in *.
  destruct (lm_tmax_wf hc chunks cs hidden Hs Hwf) as [Htw [Hts Htl]].
  pose proof (lm_cmax_shape hc chunks cs hidden Hs Hwf) as Hcm.
  destruct (lm_threshold_wf D (lm_tmax hc) i Htw Hi) as [Hthw Hths].
  rewrite Hts in Hths. cbn [app] in Hths.
  destruct (Nat.eqb (nth i (cnt ++ [_]) 0%nat) 0); intros H.
  - inversion H; subst. auto.
  - apply obind_ok in H. destruct H as [scale [Hsc H]].
    apply obind_ok in H. destruct H as [decomp_i [Hq H]].
    apply obind_ok in H. destruct H as [deq [Hdq H]].
    apply obind_ok in H. destruct H as [r [Hadd H]].
    inversion H; subst cnt' res'; clear H.
    assert (Hscw : wf scale).
    { apply (div_scalar_wf 3 _ scale _ (unsqueeze_last_wf 2 _ Hthw) Hsc). }
    assert (Hfp : wf (where_zero
              (repeat_rows cs 1 (LmHeadTender.band_mask D
                 (LmHeadTender.thresholds_of D (lm_tmax hc)) (lm_cmax hc) i)) hc)).
    { destruct Hwf as [Hlen Hdata]. split; [exact Hlen|].
      unfold where_zero. cbn [shape data].
      destruct (bshape_refl (shape hc)) as [Hb1 Hb2]. rewrite <- Hb2 at 1.
      apply has_shape_bmap2; [|exact Hdata|exact Hb1].
      rewrite Hs. apply has_shape_repeat_rows.
      rewrite lm_band_mask_flags by (auto; rewrite Htl; apply (has_shape_S 1) in Hcm; tauto).
      apply has_shape_band_flags; assumption. }
    destruct (sym_quant_wf 3 _ _ _ _ Hfp Hscw Hq) as [Hqw _].
    destruct (sym_dequant_wf 3 _ _ _ _ Hqw Hscw Hdq) as [Hdw _].
    destruct (iadd_wf 3 _ _ _ Hres Hdw Hadd) as [Hrw [Hrs _]].
    split; [exact Hrw | congruence].
Qed.

Lemma lm_bands_result (self : LmHeadTender.t) (dt : DType) (hc : Tensor 3)
      (chunks hidden : nat) (count : list nat) (result : Tensor 3) :
  shape hc = [chunks; LmHeadTender.chunk_size self; hidden] ->
  (0 < LmHeadTender.chunk_size self)%nat -> (0 < hidden)%nat -> wf hc ->
  LmHeadTender.bands self dt hc = Ok (count, result) ->
  wf result /\ shape result = shape hc.
Proof.
  intros Hs Hcs Hh Hwf H.
  rewrite (lm_bands_unfold self dt hc chunks _ hidden Hs Hcs Hh) in H.
  revert H. apply (run_bands_inv (fun res => wf res /\ shape res = shape hc)).
  - split; [|reflexivity]. apply zeros_wf. destruct Hwf as [Hl _]. exact Hl.
  - intros cnt res i cnt' res' Hi HP E.
    exact (lm_band_step_inv self dt hc chunks hidden cnt res i cnt' res' Hs Hwf Hi HP E).
Qed.

Lemma bshape_column (a b : nat) :
  broadcastable [a; b] [a; 1%nat] = true /\ bshape [a; b] [a; 1%nat] = [a; b].
Proof.
  simpl. rewrite Nat.eqb_refl. simpl. rewrite !orb_true_r. split; [reflexivity|].
  destruct (Nat.eqb a 1); destruct (Nat.eqb b 1) eqn:E; try reflexivity;
    apply Nat.eqb_eq in E; subst; reflexivity.
Qed.

Lemma quantized_weight_shape (self : LmHeadTender.t) (dt : DType) (W Wl : Tensor 2)
      (vocab hw : nat) :
  shape W = [vocab; hw] ->
  LmHeadTender.quantized_weight self dt W = Ok Wl -> shape Wl = [hw; vocab].
Proof.
  intros Hs H. unfold LmHeadTender.quantized_weight in H.
  apply obind_ok in H. destruct H as [m [Hm H]].
  apply obind_ok in H. destruct H as [scale [Hsc H]].
  apply obind_ok in H. destruct H as [Wq [Hq H]].
  apply obind_ok in H. destruct H as [Wd [Hd H]].
  inversion H; subst Wl; clear H.
  assert (Hms : shape m = [vocab; 1%nat]).
  { unfold max_dim_last_keepdim, max_dim_last in Hm.
    cbn [shape tabs tlift] in Hm. rewrite Hs in Hm. cbn [last removelast] in Hm.
    destruct (negb (Nat.eqb hw 0)); [|discriminate].
    cbn [obind] in Hm. inversion Hm. reflexivity. }
  assert (Hss : shape scale = [vocab; 1%nat]).
  { unfold div_scalar in Hsc.
    destruct (is_zero _ && _); [discriminate|]. inversion Hsc. exact Hms. }
  destruct (bshape_column vocab hw) as [Hb1 Hb2].
  assert (Hqs : shape Wq = [vocab; hw]).
  { rewrite sym_quant_unfold, Hs, Hss, Hb1, Hb2 in Hq.
    destruct (Nat.eqb (count_zeros scale) 0); [|discriminate]. inversion Hq. reflexivity. }
  rewrite sym_dequant_unfold, Hqs, Hss, Hb1, Hb2 in Hd. inversion Hd.
  reflexivity.
Qed.

Lemma entries_firstn_rows {A} (p v r : nat) (rows : tensor A 2) :
  has_shape 2 [p; v] rows = true ->
  entries 2 (firstn r rows) = firstn (r * v) (entries 2 rows).
Proof.
  intros H. apply (has_shape_S 1) in H. destruct H as [_ Hf]. clear p.
  revert r. induction rows as [|row rows IH]; intros r.
  - rewrite firstn_nil. simpl. rewrite firstn_nil. reflexivity.
  - inversion Hf as [|? ? Hrow Hf']; subst.
    destruct r as [|r]; [reflexivity|].
    change (entries 2 (firstn (S r) (row :: rows)))
      with (entries 1 row ++ entries 2 (firstn r rows)).
    change (entries 2 (row :: rows)) with (entries 1 row ++ entries 2 rows).
    rewrite (IH Hf').
    assert (Hl : length (entries 1 row) = v).
    { rewrite (length_entries 1 [v] row Hrow). cbn [numel fold_right]. lia. }
    rewrite firstn_app, Hl.
    replace (S r * v - v)%nat with (r * v)%nat by lia.
    assert (Hle : (length (entries 1 row) <= S r * v)%nat) by (rewrite Hl; nia).
    rewrite (firstn_all2 _ Hle). reflexivity.
Qed.

(** Lines 1585-1586 on a product of [chunks * cs] rows: the first
    [bsz * tgt] rows are kept. *)
Lemma lm_trim_spec (bsz tgt chunks cs vocab : nat) (lm_out logits : Tensor 3) :
  wf lm_out -> shape lm_out = [chunks; cs; vocab] ->
  (0 < bsz * tgt <= chunks * cs)%nat ->
  LmHeadTender.trim bsz tgt (chunks * cs) lm_out = Ok logits ->
  shape logits = [bsz; tgt; vocab] /\ wf logits /\
  entries 3 (data logits) = firstn (bsz * tgt * vocab) (entries 3 (data lm_out)).
Proof.
  intros [_ Hwf] Hs Hr. rewrite Hs in Hwf.
  pose proof (length_entries 3 _ _ Hwf) as Hlen. cbn [numel fold_right] in Hlen.
  unfold LmHeadTender.trim, infer_dim. rewrite Hs. cbn [numel fold_right].
  replace (negb (Nat.eqb (chunks * cs) 0)) with true
    by (symmetry; apply negb_true_iff, Nat.eqb_neq; lia).
  replace (chunks * (cs * (vocab * 1)))%nat with (vocab * (chunks * cs))%nat by lia.
  rewrite Nat.Div0.mod_mul, Nat.div_mul by lia. cbn [andb Nat.eqb obind].
  unfold reshape at 1. rewrite Hs. cbn [numel fold_right length].
  replace (Nat.eqb (chunks * cs * (vocab * 1)) (chunks * (cs * (vocab * 1))))
    with true by (symmetry; apply Nat.eqb_eq; lia).
  cbn [andb Nat.eqb obind].
  unfold take_rows. cbn [shape dtype data hd tl].
  rewrite Nat.min_l by lia. cbn [numel fold_right].
  replace (negb (Nat.eqb (bsz * tgt) 0)) with true
    by (symmetry; apply negb_true_iff, Nat.eqb_neq; lia).
  replace (bsz * tgt * (vocab * 1))%nat with (vocab * (bsz * tgt))%nat by lia.
  rewrite Nat.Div0.mod_mul, Nat.div_mul by lia. cbn [andb Nat.eqb obind].
  unfold reshape. cbn [shape dtype data numel fold_right length].
  replace (Nat.eqb (bsz * (tgt * (vocab * 1))) (bsz * tgt * (vocab * 1)))
    with true by (symmetry; apply Nat.eqb_eq; lia).
  cbn [andb Nat.eqb]. intros H. apply Ok_inj in H. subst logits.
  cbn [shape data].
  assert (Hb : has_shape 2 [(chunks * cs)%nat; vocab]
                 (build 0 2 [(chunks * cs)%nat; vocab] (entries 3 (data lm_out))) = true)
    by (apply has_shape_build; reflexivity).
  assert (He : entries 2 (firstn (bsz * tgt)
                 (build 0 2 [(chunks * cs)%nat; vocab] (entries 3 (data lm_out))))
               = firstn (bsz * tgt * vocab) (entries 3 (data lm_out))).
  { rewrite (entries_firstn_rows (chunks * cs) vocab) by exact Hb.
    rewrite entries_build; [reflexivity|reflexivity|].
    rewrite Hlen. cbn [numel fold_right]. lia. }
  split; [reflexivity|]. split.
  - split; [reflexivity|]. apply has_shape_build. reflexivity.
  - rewrite entries_build; [exact He | reflexivity |].
    rewrite He, length_firstn, Hlen. cbn [numel fold_right]. nia.
Qed.

Lemma lm_bands_dims (self : LmHeadTender.t) (dt : DType) (hc : Tensor 3)
      (chunks cs hidden : nat) (st : list nat * Tensor 3) :
  shape hc = [chunks; cs; hidden] ->
  LmHeadTender.bands self dt hc = Ok st -> (0 < cs)%nat /\ (0 < hidden)%nat.
Proof.
  intros Hs H. unfold LmHeadTender.bands, max_dim_last in H.
  cbn [shape tabs tlift] in H. rewrite Hs in H. cbn [last removelast] in H.
  destruct hidden as [|hidden]; [discriminate|].
  cbn [Nat.eqb negb obind shape last removelast] in H.
  destruct cs as [|cs]; [discriminate|]. lia.
Qed.

Lemma reshape_spec {m} n sh (t r : Tensor m) (r' : Tensor n) :
  reshape n sh t = Ok r' ->
  numel sh = numel (shape t) /\ length sh = n /\
  r' = mkTensor (dtype t) sh (build 0 n sh (entries m (data t))).
Proof.
  unfold reshape.
  destruct (Nat.eqb (numel sh) (numel (shape t))) eqn:E1; [|discriminate].
  destruct (Nat.eqb (length sh) n) eqn:E2; [|discriminate].
  cbn [andb]. intros H. apply Ok_inj in H.
  apply Nat.eqb_eq in E1. apply Nat.eqb_eq in E2. auto.
Qed.

Lemma reshape_wf {m} n sh (t : Tensor m) (r' : Tensor n) :
  wf t -> reshape n sh t = Ok r' ->
  wf r' /\ shape r' = sh /\ dtype r' = dtype t /\
  entries n (data r') = entries m (data t).
Proof.
  intros [_ Hwf] H. apply (reshape_spec n sh t t) in H. destruct H as [Hn [Hl ->]].
  cbn [shape dtype data]. split; [|split; [reflexivity|split; [reflexivity|]]].
  - split; [exact Hl|]. apply has_shape_build. exact Hl.
  - apply entries_build; [exact Hl|].
    rewrite (length_entries m _ _ Hwf). symmetry. exact Hn.
Qed.

Lemma matmul_3_2_wf (a r : Tensor 3) (b : Tensor 2) (x y k v : nat) :
  wf a -> shape a = [x; y; k] -> last (shape b) 0%nat = v ->
  matmul_3_2 a b = Ok r -> wf r /\ shape r = [x; y; v].
Proof.
  intros [_ Hwf] Hs Hv. rewrite Hs in Hwf. unfold matmul_3_2.
  destruct (Nat.eqb (last (shape a) 0%nat) (hd 0%nat (shape b))); [|discriminate].
  cbn [obind]. intros H. apply Ok_inj in H. subst r. rewrite Hs, Hv.
  cbn [shape data removelast app]. split; [|reflexivity]. split; [reflexivity|].
  cbn [shape data].
  apply (has_shape_S 2) in Hwf. destruct Hwf as [Hl Hf].
  apply (has_shape_S 2). split; [rewrite length_map; exact Hl|].
  apply Forall_map_iff. revert Hf. apply Forall_impl. intros mat Hmat.
  apply (has_shape_S 1) in Hmat. destruct Hmat as [Hl' _].
  apply (has_shape_S 1). unfold matmul_data. split; [rewrite length_map; exact Hl'|].
  apply Forall_map_iff, Forall_forall. intros row _.
  apply (has_shape_S 0). rewrite length_map, length_seq. split; [reflexivity|].
  apply Forall_forall. intros; reflexivity.
Qed.

Lemma lm_chunking_dims (cs : nat) (hs : Tensor 2) (r hidden : nat) ch :
  shape hs = [r; hidden] -> LmHeadTender.chunking cs hs = Ok ch ->
  (0 < cs)%nat /\ (0 < r)%nat.
Proof.
  intros Hs H. unfold LmHeadTender.chunking in H. rewrite Hs in H. cbn [hd] in H.
  destruct cs as [|cs]; [discriminate|]. cbn [Nat.eqb negb] in H.
  split; [lia|].
  destruct r as [|r]; [|lia]. exfalso.
  destruct (ceil_div_spec 0 (S cs) ltac:(lia)) as [_ [_ Hz]].
  rewrite (proj2 Hz eq_refl) in H. discriminate.
Qed.

(** C8, as the code has it, for the LM head.  A forward pass that returns
    has cut the [r = tgt_len * bsz >= 1] rows of its input in
    [chunks = ceil(r / chunk_size)] chunks, the chunked tensor holding the
    input rows followed by zero rows up to [chunks * chunk_size]; the
    reconstructed tensor keeps that padded shape, it is multiplied with the
    dequantized weight, and of the product exactly the first [r] rows are
    returned: the logits have the rows of the input and one column per row of
    the weight. *)
Theorem lm_forward_pad_trim
        (mx : forall n, Tensor n -> Tensor n) (self : LmHeadTender.t)
        (hs : Tensor 3) (W : Tensor 2) (logits : Tensor 3)
        (bsz tgt hidden vocab hw : nat) :
  (forall n (t : Tensor n), shape (mx n t) = shape t) ->
  wf hs -> shape hs = [bsz; tgt; hidden] -> shape W = [vocab; hw] ->
  LmHeadTender.forward mx self hs W = Ok logits ->
  let r := (tgt * bsz)%nat in
  let cs := LmHeadTender.chunk_size self in
  let chunks := ceil_div r cs in
  (0 < r)%nat /\ (0 < cs)%nat /\
  (r <= chunks * cs)%nat /\ (forall k, r <= k * cs -> chunks <= k)%nat /\
  (exists hs2 hc count result Wl lm_out,
      reshape 2 [r; hidden] hs = Ok hs2 /\
      LmHeadTender.chunking cs hs2 = Ok (chunks, hc) /\
      shape hc = [chunks; cs; hidden] /\
      entries 3 (data hc)
      = entries 3 (data hs) ++ repeat 0 ((chunks * cs - r) * hidden)%nat /\
      LmHeadTender.decompose self (dtype hs) chunks hc = Ok (count, result) /\
      shape result = [chunks; cs; hidden] /\
      LmHeadTender.quantized_weight self (dtype hs) W = Ok Wl /\
      matmul_3_2 result Wl = Ok lm_out /\
      shape lm_out = [chunks; cs; vocab] /\
      (LmHeadTender.quant_out_bf16 self = false ->
       entries 3 (data logits) = firstn (r * vocab) (entries 3 (data lm_out)))) /\
  shape logits = [bsz; tgt; vocab].
Proof.
  intros Hmx Hwf Hs HW H r cs chunks.
  unfold LmHeadTender.forward in H.
  apply obind_ok in H. destruct H as [Wl [HWl H]].
  rewrite Hs in H.
  apply obind_ok in H. destruct H as [hs2 [Hre H]].
  apply obind_ok in H. destruct H as [[chunks' hc] [Hch H]].
  apply obind_ok in H. destruct H as [[count result] [Hdec H]].
  cbn [snd] in H.
  apply obind_ok in H. destruct H as [lm_out [Hmm H]].
  apply obind_ok in H. destruct H as [lg [Htrim H]].
  fold r in Hre. fold cs in Hch.
  destruct (reshape_wf 2 _ hs hs2 Hwf Hre) as [Hwf2 [Hs2 [Hd2 He2]]].
  destruct (lm_chunking_dims cs hs2 r hidden _ Hs2 Hch) as [Hcs Hr].
  destruct (lm_chunking_ok cs hs2 r hidden Hwf2 Hs2 Hcs Hr)
    as [hc0 [Hch0 [Hsc [Hwc [Hdc [Hle Hec]]]]]].
  rewrite Hch0 in Hch. apply Ok_inj in Hch. injection Hch as Ec Eh. subst chunks' hc0.
  fold chunks in Hsc, Hle, Hec, Hch0, Hdec, Htrim.
  destruct (ceil_div_spec r cs Hcs) as [_ [Hleast _]].
  (* the decomposition *)
  assert (Hdec' := Hdec). unfold LmHeadTender.decompose in Hdec'.
  apply obind_ok in Hdec'. destruct Hdec' as [[count0 result0] [Hb Hdec']].
  destruct (lm_bands_dims self _ hc chunks cs hidden _ Hsc Hb) as [_ Hh].
  destruct (lm_bands_result self _ hc chunks hidden count0 result0 Hsc Hcs Hh Hwc Hb)
    as [Hrw Hrs].
  destruct (Nat.eqb (sum_list count0) (last (shape hc) 0%nat * chunks)); [|discriminate].
  apply Ok_inj in Hdec'. injection Hdec' as E1 E2. subst count0 result0.
  rewrite Hsc in Hrs.
  (* the product and the trimming *)
  pose proof (quantized_weight_shape self _ W Wl vocab hw HW HWl) as HWs.
  assert (Hlast : last (shape Wl) 0%nat = vocab) by (rewrite HWs; reflexivity).
  destruct (matmul_3_2_wf result lm_out Wl chunks cs hidden vocab Hrw Hrs Hlast Hmm)
    as [Hlw Hls].
  destruct (lm_trim_spec bsz tgt chunks cs vocab lm_out lg Hlw Hls) as [Hgs [Hgw Hge]].
  { unfold r in Hr, Hle. lia. }
  { exact Htrim. }
  assert (Hfin : shape logits = [bsz; tgt; vocab] /\
                 (LmHeadTender.quant_out_bf16 self = false -> logits = lg)).
  { destruct (LmHeadTender.quant_out_bf16 self).
    - unfold quant_bfloat in H. destruct (dtype lg); try discriminate.
      apply Ok_inj in H. subst logits. rewrite Hmx. split; [exact Hgs|discriminate].
    - apply Ok_inj in H. subst logits. auto. }
  destruct Hfin as [Hfs Hfe].
  split; [exact Hr|]. split; [exact Hcs|]. split; [exact Hle|].
  split; [exact Hleast|]. split; [|exact Hfs].
  exists hs2, hc, count, result, Wl, lm_out.
  split; [exact Hre|]. split; [exact Hch0|]. split; [exact Hsc|].
  split; [rewrite Hec, He2; reflexivity|].
  split; [exact Hdec|]. split; [exact Hrs|]. split; [exact HWl|].
  split; [exact Hmm|]. split; [exact Hls|].
  intros Hbf. rewrite (Hfe Hbf), Hge. f_equal. unfold r. lia.
Qed.

(** ** A chunk of zeros (claim C2) *)

Lemma q_max_of_zero_iff (b : Z) : q_max_of b == 0 <-> b = 1%Z.
Proof.
  unfold q_max_of, pow2. split.
  - intros H. assert (E : Qpower 2 (b - 1) == 1) by lra.
    destruct (Z.lt_trichotomy (b - 1) 0) as [Hlt|[Heq|Hgt]]; [|lia|].
    + exfalso. pose proof (Qpower_lt_compat_l 2 (b - 1) 0 Hlt ltac:(reflexivity)) as Hp.
      change (Qpower 2 0) with 1 in Hp. lra.
    + exfalso. pose proof (Qpower_lt_compat_l 2 0 (b - 1) Hgt ltac:(reflexivity)) as Hp.
      change (Qpower 2 0) with 1 in Hp. lra.
  - intros ->. reflexivity.
Qed.

Lemma run_bands_first_raise {R} (step : list nat * R -> nat -> outcome (list nat * R))
      (c : nat -> nat) (e : error) (D : nat) (r0 : R) :
  (forall i cnt res, (i < D)%nat -> length cnt = i ->
     step (cnt, res) i
     = if Nat.eqb (c i) 0 then Ok (cnt ++ [c i], res) else Raise e) ->
  sum_list (map c (seq 0 D)) <> 0%nat ->
  run_bands step D r0 = Raise e.
Proof.
  intros Hstep. unfold run_bands.
  assert (G : forall n s cnt0, (s + n <= D)%nat -> length cnt0 = s ->
             sum_list (map c (seq s n)) <> 0%nat ->
             fold_left (fun acc i => obind acc (fun st => step st i)) (seq s n)
                       (Ok (cnt0, r0)) = Raise e).
  { induction n as [|n IH]; intros s cnt0 Hle Hlen Hsum; simpl in *; [congruence|].
    rewrite (Hstep s cnt0 r0) by (auto; lia).
    destruct (Nat.eqb (c s) 0) eqn:E.
    - apply Nat.eqb_eq in E. apply IH; [lia | rewrite length_app, Hlen; simpl; lia | lia].
    - apply fold_bands_raise. }
  intros Hsum. apply (G D 0%nat []); auto.
Qed.

Lemma chunk_tmax_zero (cs hidden : nat) (mat : list (list Q)) :
  (0 < cs)%nat -> (0 < hidden)%nat -> has_shape 2 [cs; hidden] mat = true ->
  Forall (fun v => v == 0) (entries 2 mat) -> chunk_tmax mat == 0.
Proof.
  intros Hcs Hh Hs Hz. apply (has_shape_S 1) in Hs. destruct Hs as [Hl Hf].
  rewrite Forall_forall in Hf, Hz. unfold chunk_tmax.
  assert (Hne : map max_list mat <> []) by (destruct mat; simpl in *; [lia|congruence]).
  pose proof (max_list_in _ Hne) as Hin. apply in_map_iff in Hin.
  destruct Hin as [row [E Hrow]]. rewrite <- E.
  pose proof (Hf row Hrow) as Hr. apply (has_shape_S 0) in Hr. destruct Hr as [Hrl _].
  assert (Hrne : row <> []) by (destruct row; simpl in *; [lia|congruence]).
  apply Hz. simpl. apply in_flat_map. exists row. split; [exact Hrow|].
  apply in_flat_map. exists (max_list row). split; [apply max_list_in; exact Hrne|].
  left. reflexivity.
Qed.

Lemma entries_abs_zero n (t : tensor Q n) :
  Forall (fun v => v == 0) (entries n t) ->
  Forall (fun v => v == 0) (entries n (tmap Qabs n t)).
Proof.
  rewrite entries_tmap. intros H. apply Forall_map_iff. revert H. apply Forall_impl.
  intros v E. rewrite E. reflexivity.
Qed.

(** In the LM head, a chunk of zeros makes the loop over the bands raise
    the zero-scale assertion of [sym_quant] at the first band that holds a
    channel. *)
Lemma lm_bands_zero_chunk (self : LmHeadTender.t) (dt : DType) (hc : Tensor 3)
      (chunks hidden : nat) (mat : list (list Q)) :
  shape hc = [chunks; LmHeadTender.chunk_size self; hidden] -> wf hc ->
  (0 < LmHeadTender.chunk_size self)%nat -> (0 < hidden)%nat ->
  (0 < LmHeadTender.decomp_factor self)%nat ->
  LmHeadTender.q_bits self <> 1%Z ->
  In mat (data hc) -> Forall (fun v => v == 0) (entries 2 mat) ->
  LmHeadTender.bands self dt hc = Raise ZeroScaleError.
Proof.
  intros Hs Hwf Hcs Hh HD Hq Hmat Hzero.
  set (cs := LmHeadTender.chunk_size self) in *.
  set (D := LmHeadTender.decomp_factor self) in *.
  rewrite (lm_bands_unfold self dt hc chunks cs hidden Hs Hcs Hh).
  destruct (lm_stats_bounds hc chunks cs hidden Hs Hcs Hh Hwf) as [Hlen [Hb Hsum]].
  set (c := fun i => @tcount 2 (band_flags (band_closed_top D i)
                                  (data (lm_cmax hc)) (data (lm_tmax hc)))).
  assert (Hchunks : (0 < chunks)%nat).
  { destruct Hwf as [_ Hw]. rewrite Hs in Hw. apply (has_shape_S 2) in Hw.
    destruct Hw as [Hl _]. destruct (data hc); [destruct Hmat|simpl in Hl; lia]. }
  apply (run_bands_first_raise _ c).
  - intros i cnt res Hi Hcnt. unfold LmHeadTender.band_step. fold D cs.
    rewrite lm_band_mask_flags by (auto; lia). fold (c i).
    rewrite app_nth2 by lia. rewrite Hcnt, Nat.sub_diag. cbn [nth].
    destruct (Nat.eqb (c i) 0); [reflexivity|].
    (* the scale of band [i] has a zero entry *)
    assert (Hqm : is_zero (q_max_of (LmHeadTender.q_bits self)) = false).
    { apply is_zero_false_iff. rewrite q_max_of_zero_iff. exact Hq. }
    unfold div_scalar. rewrite Hqm. cbn [andb obind].
    rewrite sym_quant_zero; [reflexivity|].
    apply count_zeros_pos. unfold tlift, unsqueeze_last. cbn [data].
    rewrite entries_tmap.
    change (unsqueeze_data 2 ?x) with (map (map (fun a : Q => [a])) x).
    rewrite lm_threshold_data by exact Hi.
    apply Exists_exists.
    set (A := map (map Qabs) mat).
    exists (threshold_spec D (chunk_tmax A) i / q_max_of (LmHeadTender.q_bits self)).
    split.
    + apply in_map_iff. exists (threshold_spec D (chunk_tmax A) i).
      split; [reflexivity|].
      change (entries 3 ?x) with (flat_map (entries 2) x).
      apply in_flat_map.
      exists [[threshold_spec D (chunk_tmax A) i]].
      split; [|simpl; auto].
      rewrite map_map. unfold lm_tmax. cbn [data]. rewrite map_map.
      apply in_map_iff. exists A. split; [reflexivity|].
      cbn [tmap]. apply in_map_iff. exists mat. auto.
    + assert (Ez : chunk_tmax A == 0).
      { apply (chunk_tmax_zero cs hidden); auto.
        - unfold A. change (map (map Qabs) mat) with (tmap Qabs 2 mat).
          rewrite has_shape_tmap.
          destruct Hwf as [_ Hw]. rewrite Hs in Hw. apply (has_shape_S 2) in Hw.
          destruct Hw as [_ Hf]. rewrite Forall_forall in Hf. apply Hf. exact Hmat.
        - apply (entries_abs_zero 2 mat Hzero). }
      unfold threshold_spec. rewrite Ez. unfold Qdiv. rewrite !Qmult_0_l. reflexivity.
  - fold D in Hsum.
    assert (E : sum_list (map c (seq 0 D)) = (hidden * chunks)%nat).
    { unfold c. rewrite (bands_total D (band_closed_top D)); [exact Hsum| |exact Hb].
      intros t v Ht Hv. apply closed_top_partition; assumption. }
    change (sum_list (map c (seq 0 D)) <> 0%nat). rewrite E. nia.
Qed.

Lemma flat_map_block {X A} (f : X -> list A) (L : nat) (l : list X) (c : nat) (d : X) :
  (forall x, In x l -> length (f x) = L) -> (c < length l)%nat ->
  firstn L (skipn (c * L) (flat_map f l)) = f (nth c l d).
Proof.
  revert c. induction l as [|x l IH]; intros c Hf Hc; simpl in Hc; [lia|].
  assert (Hx : length (f x) = L) by (apply Hf; left; reflexivity).
  destruct c as [|c].
  - simpl. rewrite firstn_app, Hx, Nat.sub_diag. simpl. rewrite app_nil_r.
    apply firstn_all2. lia.
  - cbn [flat_map nth]. rewrite skipn_app.
    rewrite (skipn_all2 (f x)) by (rewrite Hx; simpl; lia).
    rewrite Hx. replace (S c * L - L)%nat with (c * L)%nat by (simpl; lia).
    cbn [app]. apply IH; [intros; apply Hf; right; assumption | lia].
Qed.

Lemma reshape_succeeds {m} n sh (t : Tensor m) :
  numel sh = numel (shape t) -> length sh = n ->
  reshape n sh t = Ok (mkTensor (dtype t) sh (build 0 n sh (entries m (data t)))).
Proof.
  intros H1 H2. unfold reshape.
  rewrite (proj2 (Nat.eqb_eq _ _) H1), (proj2 (Nat.eqb_eq _ _) H2). reflexivity.
Qed.

(** C2, as the code has it.  In the LM head an all-zero chunk of the padded
    input makes the forward pass raise the zero-scale assertion of
    [sym_quant] (with a bit-width other than 1, and a weight that was
    quantized without error): the zero threshold reaches [sym_quant] as a
    scale and is refused before any division. *)
Theorem lm_forward_zero_chunk
        (mx : forall n, Tensor n -> Tensor n) (self : LmHeadTender.t)
        (hs : Tensor 3) (W Wl : Tensor 2) (bsz tgt hidden c : nat) :
  wf hs -> shape hs = [bsz; tgt; hidden] ->
  (0 < hidden)%nat -> (0 < tgt * bsz)%nat ->
  (0 < LmHeadTender.chunk_size self)%nat ->
  (0 < LmHeadTender.decomp_factor self)%nat ->
  LmHeadTender.q_bits self <> 1%Z ->
  LmHeadTender.quantized_weight self (dtype hs) W = Ok Wl ->
  let r := (tgt * bsz)%nat in
  let cs := LmHeadTender.chunk_size self in
  let chunks := ceil_div r cs in
  (c < chunks)%nat ->
  Forall (fun v => v == 0)
         (firstn (cs * hidden)
                 (skipn (c * (cs * hidden))
                        (entries 3 (data hs)
                         ++ repeat 0 ((chunks * cs - r) * hidden)%nat))) ->
  LmHeadTender.forward mx self hs W = Raise ZeroScaleError.
Proof.
  intros Hwf Hs Hh Hr Hcs HD Hq HWl r cs chunks Hc Hzero.
  unfold LmHeadTender.forward. rewrite HWl. cbn [obind]. rewrite Hs.
  rewrite reshape_succeeds;
    [|rewrite Hs; cbn [numel fold_right]; lia | reflexivity].
  cbn [obind].
  set (hs2 := mkTensor (dtype hs) [(tgt * bsz)%nat; hidden] _).
  assert (Hre : reshape 2 [(tgt * bsz)%nat; hidden] hs = Ok hs2).
  { apply reshape_succeeds; [rewrite Hs; cbn [numel fold_right]; lia | reflexivity]. }
  destruct (reshape_wf 2 _ hs hs2 Hwf Hre) as [Hwf2 [Hs2 [Hd2 He2]]].
  destruct (lm_chunking_ok cs hs2 r hidden Hwf2 Hs2 Hcs Hr)
    as [hc [Hch [Hsc [Hwc [Hdc [Hle Hec]]]]]].
  fold cs. rewrite Hch. cbn [obind].
  unfold LmHeadTender.decompose.
  rewrite (lm_bands_zero_chunk self (dtype hs) hc chunks hidden (nth c (data hc) []));
    try assumption; [reflexivity| |].
  - apply nth_In. destruct Hwc as [_ Hw]. rewrite Hsc in Hw.
    apply (has_shape_S 2) in Hw. destruct Hw as [Hl _].
    fold chunks in Hl. rewrite Hl. exact Hc.
  - destruct Hwc as [_ Hw]. rewrite Hsc in Hw.
    apply (has_shape_S 2) in Hw. destruct Hw as [Hl Hf]. rewrite Forall_forall in Hf.
    assert (E : firstn (cs * hidden) (skipn (c * (cs * hidden)) (entries 3 (data hc)))
                = entries 2 (nth c (data hc) [])).
    { apply (flat_map_block (entries 2) (cs * hidden) (data hc) c []).
      - intros mat Hmat. rewrite (length_entries 2 _ _ (Hf mat Hmat)).
        cbn [numel fold_right]. lia.
      - exact (eq_ind_r (fun n => (c < n)%nat) Hc Hl). }
    refine (eq_ind _ (fun l => Forall (fun v => v == 0) l) _ _ E).
    rewrite Hec, He2. exact Hzero.
Qed.

(** ** A single band (claim C5) *)

Lemma teq_refl n (t : tensor Q n) : teq n t t.
Proof.
  induction n as [|n IH]; simpl; [reflexivity|].
  induction t as [|x t IHt]; constructor; auto.
Qed.

Lemma teq_trans n (a b c : tensor Q n) : teq n a b -> teq n b c -> teq n a c.
Proof.
  revert a b c. induction n as [|n IH]; simpl; intros a b c H1 H2.
  - rewrite H1. exact H2.
  - revert c H2. induction H1 as [|x y a b Hxy Hab IHl]; intros c H2.
    + inversion H2. constructor.
    + inversion H2; subst. constructor; [eapply IH; eauto | apply IHl; assumption].
Qed.

Lemma unsqueeze_data_tmap {A B} (f : A -> B) n (t : tensor A n) :
  unsqueeze_data n (tmap f n t) = tmap f (S n) (unsqueeze_data n t).
Proof.
  induction n as [|n IH]; [reflexivity|].
  cbn [unsqueeze_data tmap]. rewrite !map_map.
  apply map_ext. intros x. apply IH.
Qed.

Lemma tmap_tmap {A B C} (f : A -> B) (g : B -> C) n (t : tensor A n) :
  tmap g n (tmap f n t) = tmap (fun x => g (f x)) n t.
Proof.
  induction n as [|n IH]; [reflexivity|].
  cbn [tmap]. rewrite map_map. apply map_ext. intros x. apply IH.
Qed.

Lemma combine_snd_id {A B} (xs : list A) (ys : list B) :
  length xs = length ys -> map snd (combine xs ys) = ys.
Proof.
  revert ys. induction xs as [|x xs IH]; intros [|y ys] H; simpl in *; try discriminate;
    [reflexivity|]. f_equal. apply IH. lia.
Qed.

(** [torch.where] with a mask that is set everywhere keeps the tensor. *)
Lemma bmap2_where_true n sh (m : tensor bool n) (x : tensor Q n) :
  has_shape n sh m = true -> has_shape n sh x = true ->
  Forall (fun b => b = true) (entries n m) ->
  bmap2 (fun (b : bool) v => if b then v else 0) n m x = x.
Proof.
  revert sh m x. induction n as [|n IH]; intros sh m x Hm Hx Ht.
  - simpl in *. inversion Ht; subst. reflexivity.
  - destruct sh as [|d sh]; [discriminate|].
    apply has_shape_S in Hm. destruct Hm as [Hlm Hfm].
    apply has_shape_S in Hx. destruct Hx as [Hlx Hfx].
    assert (Hlen : length m = length x)
      by (transitivity d; [exact Hlm | symmetry; exact Hlx]).
    cbn [bmap2]. rewrite bzip_eq_len by exact Hlen. clear Hlm Hlx.
    simpl in Ht. revert x Hlen Hfx.
    induction m as [|a m IHm]; intros [|y x] Hlen Hfx; simpl in *; try discriminate;
      [reflexivity|].
    apply Forall_app in Ht. destruct Ht as [Hta Htm].
    inversion Hfm; subst. inversion Hfx; subst.
    f_equal; [eapply IH; eauto | apply IHm; auto].
Qed.

Lemma entries_repeat_rows {A} (P : A -> Prop) (k : nat) (m : tensor A 2) :
  Forall P (entries 2 m) -> Forall P (entries 3 (repeat_rows k 1 m)).
Proof.
  intros H. rewrite Forall_forall in *. intros v Hv.
  simpl in Hv. apply in_flat_map in Hv. destruct Hv as [mat [Hmat Hv]].
  apply in_map_iff in Hmat. destruct Hmat as [row [<- Hrow]].
  apply in_flat_map in Hv. destruct Hv as [row' [Hrow' Hv]].
  apply repeat_spec in Hrow'. subst row'.
  apply H. simpl. apply in_flat_map. exists row. auto.
Qed.

(** Adding to a tensor of zeros. *)
Lemma bmap2_plus_zeros n sh (z y : tensor Q n) :
  has_shape n sh z = true -> has_shape n sh y = true ->
  Forall (fun v => v == 0) (entries n z) ->
  teq n (bmap2 Qplus n z y) y.
Proof.
  revert sh z y. induction n as [|n IH]; intros sh z y Hz Hy H0.
  - simpl in *. inversion H0; subst. lra.
  - destruct sh as [|d sh]; [discriminate|].
    apply has_shape_S in Hz. destruct Hz as [Hlz Hfz].
    apply has_shape_S in Hy. destruct Hy as [Hly Hfy].
    assert (Hlen : length z = length y)
      by (transitivity d; [exact Hlz | symmetry; exact Hly]).
    cbn [bmap2 teq]. rewrite bzip_eq_len by exact Hlen. clear Hlz Hly.
    simpl in H0. revert y Hlen Hfy.
    induction z as [|a z IHz]; intros [|b y] Hlen Hfy; simpl in *; try discriminate;
      [constructor|].
    apply Forall_app in H0. destruct H0 as [H0a H0z].
    inversion Hfz; subst. inversion Hfy; subst.
    constructor; [eapply IH; eauto | apply IHz; auto].
Qed.

Lemma count_zeros_tmap_equiv n (h h' : Q -> Q) (dt dt' : DType) sh sh' (u : tensor Q n) :
  (forall v, h v == 0 <-> h' v == 0) ->
  Nat.eqb (count_zeros (mkTensor dt sh (tmap h n u))) 0
  = Nat.eqb (count_zeros (mkTensor dt' sh' (tmap h' n u))) 0.
Proof.
  intros Hh. unfold count_zeros. cbn [data]. rewrite !entries_tmap.
  induction (entries n u) as [|v l IH]; [reflexivity|]. simpl.
  assert (E : is_zero (h v) = is_zero (h' v)).
  { destruct (is_zero (h v)) eqn:E1; destruct (is_zero (h' v)) eqn:E2; try reflexivity.
    - apply is_zero_iff in E1. apply Hh in E1. apply is_zero_iff in E1. congruence.
    - apply is_zero_iff in E2. apply Hh in E2. apply is_zero_iff in E2. congruence. }
  rewrite E. destruct (is_zero (h' v)); simpl; [reflexivity|exact IH].
Qed.

Lemma quant_entry_scale_comp (b : Z) (x s s' : Q) :
  s == s' -> quant_entry b x s = quant_entry b x s'.
Proof.
  intros E. unfold quant_entry. f_equal. f_equal. apply round_half_even_comp.
  assert (Ea : Qabs s == Qabs s') by (rewrite E; reflexivity).
  assert (Em : Qmax (Qabs s) eps == Qmax (Qabs s') eps).
  { destruct (Q.max_spec (Qabs s) eps) as [[H1 E1]|[H1 E1]];
      destruct (Q.max_spec (Qabs s') eps) as [[H2 E2]|[H2 E2]]; rewrite E1, E2; lra. }
  rewrite Em. reflexivity.
Qed.

Lemma bshape_chunk_scale (a b c : nat) :
  broadcastable [a; b; c] [a; 1%nat; 1%nat] = true /\
  bshape [a; b; c] [a; 1%nat; 1%nat] = [a; b; c].
Proof.
  simpl. rewrite Nat.eqb_refl. simpl. rewrite !orb_true_r. split; [reflexivity|].
  destruct (Nat.eqb a 1); destruct (Nat.eqb b 1) eqn:Eb; destruct (Nat.eqb c 1) eqn:Ec;
    try apply Nat.eqb_eq in Eb; try apply Nat.eqb_eq in Ec; subst; reflexivity.
Qed.

Lemma direct_unfold (bits : Z) (dt : DType) (hc : Tensor 3) (chunks cs hidden : nat) :
  shape hc = [chunks; cs; hidden] -> (0 < cs)%nat -> (0 < hidden)%nat ->
  direct_quant_dequant bits dt hc
  = (scale <- div_scalar (unsqueeze_last (unsqueeze_last (lm_tmax hc))) (q_max_of bits) ;;
     quant_dequant hc scale bits dt)%outcome.
Proof.
  intros Hs Hcs Hh. unfold direct_quant_dequant, max_dim_last.
  unfold tabs, tlift. cbn [shape dtype data]. rewrite Hs. cbn [last removelast].
  destruct hidden as [|hidden]; [lia|]. destruct cs as [|cs]; [lia|].
  cbn [Nat.eqb negb obind shape dtype data last removelast].
  unfold lm_tmax. rewrite Hs. cbn [last removelast reduce_last]. rewrite map_map.
  reflexivity.
Qed.

(** The scale of the single band, and the scale of the baseline, as maps
    over one array of chunk maxima. *)
Lemma lm_single_scale_data (tmax : Tensor 1) (qm : Q) :
  data (tlift (fun x => x / qm)
          (unsqueeze_last (LmHeadTender.threshold (LmHeadTender.thresholds_of 1 tmax) 0)))
  = tmap (fun x => threshold_spec 1 x 0 / qm) 3
         (unsqueeze_data 2 (unsqueeze_data 1 (data tmax)))
  /\
  data (tlift (fun x => x / qm) (unsqueeze_last (unsqueeze_last tmax)))
  = tmap (fun x => x / qm) 3 (unsqueeze_data 2 (unsqueeze_data 1 (data tmax))).
Proof.
  split; [|reflexivity].
  unfold LmHeadTender.threshold, LmHeadTender.thresholds_of.
  cbn [seq map nth]. unfold tlift, unsqueeze_last. cbn [data].
  rewrite (unsqueeze_data_tmap _ 1), (unsqueeze_data_tmap _ 2), tmap_tmap.
  reflexivity.
Qed.

(** C5.  With [decomp_factor = 1] the loop of the LM head (which removes no
    bias) leaves what one direct symmetric quantize-then-dequantize of the
    chunked, padded tensor gives, the scale of a chunk being its largest
    magnitude over [2^(bits-1) - 1]: the same shape, equal entries, the one
    count [hidden_dim * chunks]; and it fails when, and as, the direct one
    does. *)
Theorem lm_single_band_is_direct_quant
        (self : LmHeadTender.t) (dt : DType) (hc : Tensor 3) (chunks cs hidden : nat) :
  LmHeadTender.decomp_factor self = 1%nat ->
  LmHeadTender.chunk_size self = cs ->
  shape hc = [chunks; cs; hidden] -> (0 < chunks)%nat -> wf hc ->
  match direct_quant_dequant (LmHeadTender.q_bits self) dt hc,
        LmHeadTender.bands self dt hc with
  | Ok ref, Ok (count, result) =>
      count = [(hidden * chunks)%nat] /\ shape result = shape ref /\
      teq 3 (data result) (data ref) /\ dtype ref = dt /\ dtype result = dtype hc
  | Raise e, Raise e' => e = e'
  | NonFinite, NonFinite => True
  | _, _ => False
  end.
Proof.
  intros HD Hcsz Hs Hchunks Hwf.
  destruct (Nat.eq_dec hidden 0) as [Hh0|Hh0].
  { subst hidden. unfold direct_quant_dequant, LmHeadTender.bands, max_dim_last.
    unfold tabs, tlift. cbn [shape dtype data]. rewrite Hs. reflexivity. }
  destruct (Nat.eq_dec cs 0) as [Hc0|Hc0].
  { unfold direct_quant_dequant, LmHeadTender.bands, max_dim_last.
    unfold tabs, tlift. cbn [shape dtype data]. rewrite Hs. cbn [last removelast].
    destruct hidden; [lia|]. cbn [Nat.eqb negb obind shape last removelast].
    rewrite Hc0. reflexivity. }
  assert (Hcs : (0 < cs)%nat) by lia. assert (Hh : (0 < hidden)%nat) by lia.
  rewrite (direct_unfold _ dt hc chunks cs hidden Hs Hcs Hh).
  rewrite (lm_bands_unfold self dt hc chunks cs hidden Hs Hcs Hh).
  rewrite HD. unfold run_bands. cbn [seq fold_left obind].
  unfold LmHeadTender.band_step. rewrite HD, Hcsz.
  destruct (lm_stats_bounds hc chunks cs hidden Hs Hcs Hh Hwf) as [Hlen [Hb Hsum]].
  destruct (lm_tmax_wf hc chunks cs hidden Hs Hwf) as [Htw [Hts Htl]].
  pose proof (lm_cmax_shape hc chunks cs hidden Hs Hwf) as Hcm.
  rewrite lm_band_mask_flags by (auto; lia).
  set (flags := band_flags (band_closed_top 1 0) (data (lm_cmax hc)) (data (lm_tmax hc))).
  assert (Hcount : @tcount 2 flags = (hidden * chunks)%nat).
  { pose proof (bands_total 1 (band_closed_top 1) (data (lm_cmax hc)) (data (lm_tmax hc)))
      as Ht. cbn [seq map sum_list fold_right] in Ht. rewrite Nat.add_0_r in Ht.
    unfold flags. rewrite Ht; [exact Hsum| |exact Hb].
    intros t v H0 Hv. pose proof (closed_top_partition 1 t v ltac:(lia) H0 Hv) as Hp.
    cbn [seq map sum_list fold_right] in Hp. exact Hp. }
  cbn [app nth]. rewrite Hcount.
  replace (Nat.eqb (hidden * chunks) 0) with false by (symmetry; apply Nat.eqb_neq; nia).
  (* the two scales *)
  set (qm := q_max_of (LmHeadTender.q_bits self)).
  assert (Hnum : forall t : Tensor 1, shape t = [chunks] ->
             Nat.eqb (numel (shape (unsqueeze_last (unsqueeze_last t)))) 0 = false).
  { intros t Ht. unfold unsqueeze_last. cbn [shape]. rewrite Ht. cbn [app numel fold_right].
    apply Nat.eqb_neq. lia. }
  assert (Hths : shape (LmHeadTender.threshold (LmHeadTender.thresholds_of 1 (lm_tmax hc)) 0)
                 = [chunks; 1%nat]).
  { destruct (lm_threshold_wf 1 (lm_tmax hc) 0 Htw ltac:(lia)) as [_ E].
    rewrite E, Hts. reflexivity. }
  unfold div_scalar.
  replace (Nat.eqb (numel (shape (unsqueeze_last
             (LmHeadTender.threshold (LmHeadTender.thresholds_of 1 (lm_tmax hc)) 0)))) 0)
    with false
    by (unfold unsqueeze_last; cbn [shape]; rewrite Hths; cbn [app numel fold_right];
        symmetry; apply Nat.eqb_neq; lia).
  rewrite (Hnum (lm_tmax hc) Hts). cbn [negb]. rewrite andb_true_r.
  destruct (is_zero qm) eqn:Hqm; [exact I|]. cbn [obind].
  destruct (lm_single_scale_data (lm_tmax hc) qm) as [ES ES'].
  set (S := tlift (fun x => x / qm) (unsqueeze_last
              (LmHeadTender.threshold (LmHeadTender.thresholds_of 1 (lm_tmax hc)) 0))) in *.
  set (S' := tlift (fun x => x / qm) (unsqueeze_last (unsqueeze_last (lm_tmax hc)))) in *.
  set (U := unsqueeze_data 2 (unsqueeze_data 1 (data (lm_tmax hc)))) in *.
  assert (HSs : shape S = [chunks; 1%nat; 1%nat])
    by (unfold S, tlift, unsqueeze_last; cbn [shape]; rewrite Hths; reflexivity).
  assert (HSs' : shape S' = [chunks; 1%nat; 1%nat])
    by (unfold S', tlift, unsqueeze_last; cbn [shape]; rewrite Hts; reflexivity).
  assert (HU : has_shape 3 [chunks; 1%nat; 1%nat] U = true).
  { unfold U. apply (has_shape_unsqueeze 2 [chunks; 1%nat]).
    apply (has_shape_unsqueeze 1 [chunks]). destruct Htw as [_ Hw]. rewrite Hts in Hw.
    exact Hw. }
  assert (Hheq : forall v, threshold_spec 1 v 0 / qm == v / qm).
  { intros v. pose proof (threshold_spec_last 1 v ltac:(lia)) as E. simpl in E.
    rewrite E. reflexivity. }
  assert (Hqm' : ~ qm == 0) by (apply is_zero_false_iff; exact Hqm).
  (* the mask is set everywhere *)
  assert (Hfp : where_zero (repeat_rows cs 1 flags) hc = hc).
  { unfold where_zero. destruct Hwf as [_ Hw].
    rewrite (bmap2_where_true 3 (shape hc)); [destruct hc; reflexivity| |exact Hw|].
    - rewrite Hs. apply has_shape_repeat_rows. unfold flags.
      apply has_shape_band_flags; assumption.
    - apply entries_repeat_rows. unfold flags, band_flags.
      apply Forall_forall. intros b Hin. simpl in Hin. apply in_flat_map in Hin.
      destruct Hin as [row [Hrow Hin]]. apply in_map_iff in Hrow.
      destruct Hrow as [p [<- Hp]]. apply in_flat_map in Hin.
      destruct Hin as [b' [Hb' [<-|[]]]]. apply in_map_iff in Hb'.
      destruct Hb' as [v [<- Hv]]. destruct (Hb p Hp) as [Ht Hle].
      unfold band_closed_top. cbn [Nat.eqb]. apply Qle_bool_true.
      pose proof (threshold_spec_last 1 (snd p) ltac:(lia)) as E. simpl in E.
      rewrite E. apply Hle. exact Hv. }
  rewrite Hfp.
  (* both quantizers see a zero scale together *)
  assert (Hz : Nat.eqb (count_zeros S) 0 = Nat.eqb (count_zeros S') 0).
  { destruct S as [d1 s1 x1], S' as [d2 s2 x2]. cbn [data] in ES, ES'. subst x1 x2.
    apply count_zeros_tmap_equiv. intros v. rewrite Hheq. reflexivity. }
  unfold quant_dequant. rewrite !sym_quant_unfold, Hz, Hs, HSs, HSs'.
  destruct (bshape_chunk_scale chunks cs hidden) as [Hbr Hbs].
  rewrite Hbr, Hbs.
  destruct (Nat.eqb (count_zeros S') 0) eqn:Hz'; [|reflexivity].
  cbn [obind]. rewrite !sym_dequant_unfold. cbn [shape data]. rewrite HSs, HSs', Hbr, Hbs.
  cbn [obind]. unfold iadd, zeros. cbn [shape data dtype]. rewrite ?Hs.
  destruct (bshape_refl [chunks; cs; hidden]) as [Hr1 Hr2]. rewrite Hr1, Hr2.
  rewrite shape_eqb_refl. cbn [andb obind shape data dtype].
  split; [reflexivity|]. split; [reflexivity|]. split; [|auto].
  rewrite ES, ES'. rewrite !bmap2_fuse, !bmap2_tmap_r.
  destruct Hwf as [_ Hw]. rewrite Hs in Hw.
  eapply teq_trans.
  - apply (bmap2_plus_zeros 3 [chunks; cs; hidden]).
    + apply has_shape_build. reflexivity.
    + rewrite <- Hbs. apply has_shape_bmap2; [exact Hw | exact HU | exact Hbr].
    + rewrite entries_build; [|reflexivity|apply repeat_length].
      apply Forall_forall. intros v Hv. apply repeat_spec in Hv. subst v. reflexivity.
  - apply bmap2_teq. intros a c _.
    rewrite (quant_entry_scale_comp _ a _ _ (Hheq c)), (Hheq c). reflexivity.
Qed.

(** ** Concrete runs *)

Lemma lm_forward_zero_chunk_witness :
  LmHeadTender.forward mx_exact lm_small hidden_zero_row weight_3x2 = Raise ZeroScaleError.
Proof.
  eapply (lm_forward_zero_chunk mx_exact lm_small hidden_zero_row weight_3x2 _ 1 3 2 1).
  - split; reflexivity.
  - reflexivity.
  - lia.
  - lia.
  - simpl; lia.
  - simpl; lia.
  - discriminate.
  - vm_compute. reflexivity.
  - vm_compute. lia.
  - vm_compute. repeat constructor.
Defined.

(** C2 as stated fails: the all-zero chunk of [hidden_zero_row] ends the
    forward pass with the zero-scale assertion, not with zeros. *)
Lemma lm_zero_chunk_counterexample :
  LmHeadTender.forward mx_exact lm_small hidden_zero_row weight_3x2 = Raise ZeroScaleError
  /\ ~ exists logits,
         LmHeadTender.forward mx_exact lm_small hidden_zero_row weight_3x2 = Ok logits.
Proof.
  assert (H : LmHeadTender.forward mx_exact lm_small hidden_zero_row weight_3x2
              = Raise ZeroScaleError) by (vm_compute; reflexivity).
  split; [exact H|]. intros [logits E]. rewrite H in E. discriminate.
Qed.

Lemma lm_forward_pad_trim_witness :
  exists logits,
    LmHeadTender.forward mx_exact lm_small hidden_3x2 weight_3x2 = Ok logits /\
    shape logits = [1%nat; 3%nat; 3%nat].
Proof.
  eexists. split; [vm_compute; reflexivity|].
  eapply (lm_forward_pad_trim mx_exact lm_small hidden_3x2 weight_3x2 _ 1 3 2 3 2).
  - reflexivity.
  - split; reflexivity.
  - reflexivity.
  - reflexivity.
  - vm_compute. reflexivity.
Defined.

(** C8 as stated fails in the LM head: the returned logits have the rows of
    the input but the width of the weight, not the shape of the input. *)
Lemma lm_forward_shape_counterexample :
  exists logits,
    LmHeadTender.forward mx_exact lm_small hidden_3x2 weight_3x2 = Ok logits /\
    shape logits <> shape hidden_3x2.
Proof.
  eexists. split; [vm_compute; reflexivity|]. vm_compute. discriminate.
Qed.

Lemma lm_single_band_is_direct_quant_witness :
  match direct_quant_dequant 4 Float16 chunk_2x2,
        LmHeadTender.bands lm_one_band Float16 chunk_2x2 with
  | Ok ref, Ok (count, result) =>
      count = [(2 * 1)%nat] /\ shape result = shape ref /\
      teq 3 (data result) (data ref) /\ dtype ref = Float16 /\
      dtype result = dtype chunk_2x2
  | Raise e, Raise e' => e = e'
  | NonFinite, NonFinite => True
  | _, _ => False
  end.
Proof.
  apply (lm_single_band_is_direct_quant lm_one_band Float16 chunk_2x2 1 2 2).
  - reflexivity.
  - reflexivity.
  - reflexivity.
  - lia.
  - split; reflexivity.
Defined.

(** ** The attributes of the attention module (claim C9) *)

Module AttnFrame.
Import LlamaAttention_Tender_Eval.

Lemma preserves_ret {A} (a : A) : preserves (ret a).
Proof. intros s x s' H. apply Ok_inj in H. congruence. Qed.

Lemma preserves_get : preserves get.
Proof. intros s x s' H. apply Ok_inj in H. congruence. Qed.

Lemma preserves_lift {A} (o : outcome A) : preserves (lift o).
Proof.
  intros s x s' H. unfold lift in H. destruct o; try discriminate.
  apply Ok_inj in H. congruence.
Qed.

Lemma preserves_bind {A B} (m : M A) (k : A -> M B) :
  preserves m -> (forall a, preserves (k a)) -> preserves (bind m k).
Proof.
  intros Hm Hk s b s' H. unfold bind in H.
  destruct (m s) as [[a s1]| |] eqn:E; try discriminate.
  rewrite (Hk a s1 b s' H). exact (Hm s a s1 E).
Qed.

Lemma preserves_collect (upd : Collected -> Collected) :
  (forall c, untouched_cal (upd c) = untouched_cal c) -> preserves (collect upd).
Proof.
  intros Hu s x s' H. unfold collect in H. apply Ok_inj in H.
  injection H as _ <-. unfold frame_view. cbn [with_collected supplied hidden_size
    num_heads head_dim k_proj_out_features quant_mha quant_out_bf16 q_bits
    decomp_factor chunk_size collected].
  rewrite Hu. reflexivity.
Qed.

Lemma preserves_modify (f : t -> t) :
  (forall s, frame_view (f s) = frame_view s) -> preserves (modify f).
Proof.
  intros Hf s x s' H. unfold modify in H. apply Ok_inj in H.
  injection H as _ <-. apply Hf.
Qed.

Ltac frame_step :=
  match goal with
  | |- preserves (bind _ _) => apply preserves_bind; [|intros ?]
  | |- preserves (ret _) => apply preserves_ret
  | |- preserves (lift _) => apply preserves_lift
  | |- preserves get => apply preserves_get
  | |- preserves (collect _) => apply preserves_collect; intros ?; reflexivity
  | |- preserves (modify _) => apply preserves_modify; intros ?; reflexivity
  | |- preserves (match ?x with _ => _ end) => destruct x
  end.

Ltac frame_tac := repeat frame_step.

Lemma qk_bands_preserves dt chunks hc result : preserves (qk_bands dt chunks hc result).
Proof. unfold qk_bands. frame_tac. Qed.

Lemma sv_bands_preserves dt chunks src_len hc result :
  preserves (sv_bands dt chunks src_len hc result).
Proof. unfold sv_bands. frame_tac. Qed.

Lemma qk_block_preserves math_sqrt dt orig_tgt_len q_len kv_seq_len qs ks :
  preserves (qk_block math_sqrt dt orig_tgt_len q_len kv_seq_len qs ks).
Proof.
  unfold qk_block.
  repeat first [ apply qk_bands_preserves | frame_step ].
Qed.

Lemma sv_block_preserves mx dt hdt aw vs : preserves (sv_block mx dt hdt aw vs).
Proof.
  unfold sv_block.
  repeat first [ apply sv_bands_preserves | frame_step ].
Qed.

Lemma forward_preserves math_sqrt mx project softmax o_proj hs mask oa :
  preserves (forward math_sqrt mx project softmax o_proj hs mask oa).
Proof.
  unfold forward.
  repeat first [ apply qk_block_preserves | apply sv_block_preserves | frame_step ].
Qed.

End AttnFrame.

(** ** The bands of the attention paths *)

(** The bounds of [lm_stats_bounds] for any list of chunks of magnitudes. *)
Lemma chunk_stats_bounds (cs ch : nat) (A : list (list (list Q))) :
  (0 < cs)%nat -> (0 < ch)%nat ->
  Forall (fun mat => has_shape 2 [cs; ch] mat = true) A ->
  (forall mat row v, In mat A -> In row mat -> In v row -> 0 <= v) ->
  length (map (chunk_cmax ch) A) = length (map chunk_tmax A) /\
  (forall p, In p (combine (map (chunk_cmax ch) A) (map chunk_tmax A)) ->
     0 <= snd p /\ forall v, In v (fst p) -> v <= snd p) /\
  sum_list (map (fun p => length (fst p))
                (combine (map (chunk_cmax ch) A) (map chunk_tmax A)))
  = (ch * length A)%nat.
Proof.
  intros Hcs Hh HA Hpos. rewrite Forall_forall in HA. rewrite combine_diag.
  split; [rewrite !length_map; reflexivity|]. split.
  - intros p Hp. apply in_map_iff in Hp. destruct Hp as [mat [<- Hm]]. cbn [fst snd].
    apply (chunk_cmax_le_tmax cs ch mat Hcs Hh (HA mat Hm)).
    intros row v. apply Hpos. exact Hm.
  - rewrite map_map. cbn [fst].
    rewrite (sum_list_map_ext _ (fun _ => ch)).
    + rewrite sum_list_map_const. lia.
    + intros mat _. unfold chunk_cmax. rewrite length_map, length_seq. reflexivity.
Qed.

Lemma combine_map_r {A B C} (g : B -> C) (xs : list A) (ys : list B) :
  combine xs (map g ys) = map (fun p => (fst p, g (snd p))) (combine xs ys).
Proof.
  rewrite <- (map_id xs) at 1. rewrite combine_map_map. reflexivity.
Qed.

Lemma combine_map_l {A B C} (g : A -> C) (xs : list A) (ys : list B) :
  combine (map g xs) ys = map (fun p => (g (fst p), snd p)) (combine xs ys).
Proof.
  rewrite <- (map_id ys) at 1. rewrite combine_map_map. reflexivity.
Qed.

Lemma bmap2_rows_column3 (f : Q -> Q -> bool) (g : Q -> Q)
      (cm : list (list (list Q))) (tm : list (list Q)) :
  length cm = length tm ->
  (forall p, In p (combine cm tm) -> length (fst p) = length (snd p)) ->
  bmap2 f 3 cm (map (map (fun x => [g x])) tm)
  = batch_flags (fun t v => f v (g t)) cm tm.
Proof.
  intros Hl Hp. change (bmap2 f 3) with (bzip (bmap2 f 2)).
  rewrite bzip_eq_len by (rewrite length_map; exact Hl).
  rewrite combine_map_r, map_map. unfold batch_flags.
  apply map_ext_in. intros p Hin. cbn [fst snd].
  apply (bmap2_rows_column f g). apply Hp. exact Hin.
Qed.

Lemma map_combine_swap {A B C} (F : A * B -> C) (G : B * A -> C)
      (xs : list A) (ys : list B) :
  (forall p, In p (combine ys xs) -> F (snd p, fst p) = G p) ->
  map F (combine xs ys) = map G (combine ys xs).
Proof.
  revert ys. induction xs as [|x xs IH]; intros [|y ys] H; simpl; auto.
  f_equal; [apply (H (y, x)); left; reflexivity|].
  apply IH. intros p Hin. apply H. right. exact Hin.
Qed.

Lemma bmap2_column_rows3 (f : Q -> Q -> bool) (g : Q -> Q)
      (cm : list (list (list Q))) (tm : list (list Q)) :
  length cm = length tm ->
  (forall p, In p (combine cm tm) -> length (fst p) = length (snd p)) ->
  bmap2 f 3 (map (map (fun x => [g x])) tm) cm
  = batch_flags (fun t v => f (g t) v) cm tm.
Proof.
  intros Hl Hp. change (bmap2 f 3) with (bzip (bmap2 f 2)).
  rewrite bzip_eq_len by (rewrite length_map; symmetry; exact Hl).
  rewrite combine_map_l, map_map. unfold batch_flags.
  apply map_combine_swap. intros p Hin. cbn [fst snd].
  apply (bmap2_column_rows f g). apply Hp. exact Hin.
Qed.

Lemma bmap2_and_flags3 (F G : Q -> Q -> bool)
      (cm : list (list (list Q))) (tm : list (list Q)) :
  bmap2 andb 3 (batch_flags F cm tm) (batch_flags G cm tm)
  = batch_flags (fun t v => F t v && G t v) cm tm.
Proof.
  change (bmap2 andb 3) with (bzip (bmap2 andb 2)). unfold batch_flags.
  rewrite bzip_eq_len by (rewrite !length_map; reflexivity).
  rewrite combine_diag, map_map. apply map_ext. intros p. cbn [fst snd].
  unfold band_flags.
  apply (bmap2_and_rows (fun q v => F (snd q) v) (fun q v => G (snd q) v)
                        (fun q : list Q * Q => fst q)).
Qed.

Lemma batch_flags_count (band : Q -> Q -> bool)
      (cm : list (list (list Q))) (tm : list (list Q)) :
  @tcount 3 (batch_flags band cm tm)
  = sum_list (map (fun p => @tcount 2 (band_flags band (fst p) (snd p))) (combine cm tm)).
Proof.
  rewrite (@tcount_S 2). unfold batch_flags. rewrite map_map. reflexivity.
Qed.

(** Summed over the bands, the flags of a batch count every channel of
    every chunk of every batch entry once. *)
Lemma batch_bands_total (D : nat) (band : nat -> Q -> Q -> bool)
      (cm : list (list (list Q))) (tm : list (list Q)) :
  (forall t v, 0 <= t -> v <= t ->
     sum_list (map (fun i => b2n (band i t v)) (seq 0 D)) = 1%nat) ->
  (forall p, In p (combine cm tm) ->
     forall q, In q (combine (fst p) (snd p)) ->
       0 <= snd q /\ forall v, In v (fst q) -> v <= snd q) ->
  sum_list (map (fun i => @tcount 3 (batch_flags (band i) cm tm)) (seq 0 D))
  = sum_list (map (fun p => sum_list (map (fun q => length (fst q))
                                          (combine (fst p) (snd p))))
                  (combine cm tm)).
Proof.
  intros Hpart Hb.
  rewrite (sum_list_map_ext _ (fun i => sum_list (map (fun p =>
             @tcount 2 (band_flags (band i) (fst p) (snd p))) (combine cm tm)))).
  2: { intros i _. apply batch_flags_count. }
  rewrite sum_list_swap. apply sum_list_map_ext. intros p Hp.
  apply (bands_total D band); [exact Hpart | apply Hb; exact Hp].
Qed.

Lemma run_bands_count_lt {R} (step : list nat * R -> nat -> outcome (list nat * R))
      (c : nat -> nat) (D : nat) (r0 : R) (count : list nat) (r : R) :
  (forall cnt res i cnt' res', (i < D)%nat ->
      step (cnt, res) i = Ok (cnt', res') -> cnt' = cnt ++ [c i]) ->
  run_bands step D r0 = Ok (count, r) ->
  count = map c (seq 0 D).
Proof.
  intros Hstep. unfold run_bands.
  assert (G : forall n s cnt0 res0, (s + n <= D)%nat ->
             fold_left (fun acc i => obind acc (fun st => step st i)) (seq s n)
                       (Ok (cnt0, res0)) = Ok (count, r) ->
             count = cnt0 ++ map c (seq s n)).
  { induction n as [|n IH]; intros s cnt0 res0 Hle H; simpl in H.
    - apply Ok_inj in H. inversion H. simpl. rewrite app_nil_r. reflexivity.
    - destruct (step (cnt0, res0) s) as [[cnt1 res1]| |] eqn:E.
      + apply IH in H; [|lia].
        assert (Hs : (s < D)%nat) by lia.
        rewrite (Hstep _ _ _ _ _ Hs E) in H.
        rewrite <- app_assoc in H. exact H.
      + rewrite fold_bands_raise in H. discriminate.
      + rewrite fold_bands_nonfinite in H. discriminate. }
  intros H. apply G in H; [exact H | lia].
Qed.

Lemma tcompare_ok n (f : Q -> Q -> bool) (a b : Tensor n) (m : Mask n) :
  tcompare f a b = Ok m ->
  mdata m = bmap2 f n (data a) (data b) /\ mshape m = bshape (shape a) (shape b)
  /\ broadcastable (shape a) (shape b) = true.
Proof.
  unfold tcompare. destruct (broadcastable (shape a) (shape b)); [|discriminate].
  intros H. apply Ok_inj in H. subst m. auto.
Qed.

Lemma mask_and_ok n (a b m : Mask n) :
  mask_and a b = Ok m -> mdata m = bmap2 andb n (mdata a) (mdata b).
Proof.
  unfold mask_and. destruct (broadcastable (mshape a) (mshape b)); [|discriminate].
  intros H. apply Ok_inj in H. subst m. reflexivity.
Qed.

Module AttnBands.
Import LlamaAttention_Tender_Eval.

Lemma bind_ok {A B} (m : M A) (k : A -> M B) (self : t) (b : B) (self' : t) :
  bind m k self = Ok (b, self') ->
  exists a s1, m self = Ok (a, s1) /\ k a s1 = Ok (b, self').
Proof.
  unfold bind. destruct (m self) as [[a s1]| |]; intros H; [eauto|discriminate|discriminate].
Qed.

Lemma lift_ok {A} (o : outcome A) (self : t) (a : A) (self' : t) :
  lift o self = Ok (a, self') -> o = Ok a /\ self' = self.
Proof.
  unfold lift. destruct o; intros H; [|discriminate|discriminate].
  apply Ok_inj in H. inversion H. auto.
Qed.

Lemma threshold_data (D : nat) (tmax : Tensor 2) (i : nat) :
  (i < D)%nat ->
  data (threshold (thresholds_of D tmax) i)
  = map (map (fun x => [threshold_spec D x i])) (data tmax).
Proof.
  intros H. unfold threshold, thresholds_of.
  rewrite nth_map_seq by exact H.
  unfold unsqueeze_last, tlift. cbn [data unsqueeze_data tmap].
  rewrite map_map. apply map_ext. intros row. rewrite map_map. reflexivity.
Qed.

(** Without a supplied group index the flags of band [i] of Q x K^T are the
    inclusive band, chunk by chunk and batch entry by batch entry. *)
Lemma qk_band_mask_flags (D chunks : nat) (tmax : Tensor 2) (cmax : Tensor 3)
      (i : nat) (mask : Mask 3) :
  (i < D)%nat -> length (data cmax) = length (data tmax) ->
  (forall p, In p (combine (data cmax) (data tmax)) -> length (fst p) = length (snd p)) ->
  qk_band_mask chunks (thresholds_of D tmax) (Computed cmax) i = Ok mask ->
  mdata mask = batch_flags (band_inclusive D i) (data cmax) (data tmax).
Proof.
  intros Hi Hlen Hp. unfold qk_band_mask, band_inclusive.
  destruct (Nat.eqb i 0) eqn:E0.
  - intros H. apply tcompare_ok in H. destruct H as [H _]. rewrite H.
    rewrite threshold_data by exact Hi.
    apply Nat.eqb_eq in E0. subst i.
    apply (bmap2_rows_column3 Qle_bool (fun x => threshold_spec D x 0)); assumption.
  - apply Nat.eqb_neq in E0. intros H.
    apply obind_ok in H. destruct H as [lo [Hlo H]].
    apply obind_ok in H. destruct H as [hi [Hhi H]].
    apply mask_and_ok in H. rewrite H.
    apply tcompare_ok in Hlo. destruct Hlo as [Hlo _].
    apply tcompare_ok in Hhi. destruct Hhi as [Hhi _].
    rewrite Hlo, Hhi, !threshold_data by lia.
    rewrite (bmap2_column_rows3 Qlt_bool (fun x => threshold_spec D x (i - 1)))
      by assumption.
    rewrite (bmap2_rows_column3 Qle_bool (fun x => threshold_spec D x i)) by assumption.
    apply bmap2_and_flags3.
Qed.

(** The same for S x V, with the closed-top band. *)
Lemma sv_band_mask_flags (D chunks src_len : nat) (tmax : Tensor 2) (cmax : Tensor 3)
      (i : nat) (mask : Mask 3) :
  (i < D)%nat -> length (data cmax) = length (data tmax) ->
  (forall p, In p (combine (data cmax) (data tmax)) -> length (fst p) = length (snd p)) ->
  sv_band_mask D chunks src_len (thresholds_of D tmax) (Computed cmax) i = Ok mask ->
  mdata mask = batch_flags (band_closed_top D i) (data cmax) (data tmax).
Proof.
  intros Hi Hlen Hp. unfold sv_band_mask, band_closed_top.
  destruct (Nat.eqb i 0) eqn:E0.
  - intros H. apply tcompare_ok in H. destruct H as [H _]. rewrite H.
    rewrite threshold_data by exact Hi.
    apply Nat.eqb_eq in E0. subst i.
    apply (bmap2_rows_column3 Qle_bool (fun x => threshold_spec D x 0)); assumption.
  - apply Nat.eqb_neq in E0.
    destruct (Nat.eqb i (D - 1)) eqn:E1; intros H.
    + apply tcompare_ok in H. destruct H as [H _]. rewrite H.
      rewrite threshold_data by lia.
      apply (bmap2_rows_column3 (fun x y => Qlt_bool y x)
                                (fun x => threshold_spec D x (i - 1))); assumption.
    + apply obind_ok in H. destruct H as [lo [Hlo H]].
      apply obind_ok in H. destruct H as [hi [Hhi H]].
      apply mask_and_ok in H. rewrite H.
      apply tcompare_ok in Hlo. destruct Hlo as [Hlo _].
      apply tcompare_ok in Hhi. destruct Hhi as [Hhi _].
      rewrite Hlo, Hhi, !threshold_data by lia.
      rewrite (bmap2_column_rows3 Qlt_bool (fun x => threshold_spec D x (i - 1)))
        by assumption.
      rewrite (bmap2_rows_column3 Qle_bool (fun x => threshold_spec D x i)) by assumption.
      apply bmap2_and_flags3.
Qed.

Lemma qk_band_step_count self dt chunks hc thresholds src cnt res i cnt' res' :
  qk_band_step self dt chunks hc thresholds src (cnt, res) i = Ok (cnt', res') ->
  exists mask, qk_band_mask chunks thresholds src i = Ok mask
               /\ cnt' = cnt ++ [@tcount 3 (mdata mask)].
Proof.
  unfold qk_band_step. intros H.
  apply obind_ok in H. destruct H as [mask [Hm H]]. exists mask. split; [exact Hm|].
  destruct (Nat.eqb (nth i (cnt ++ [_]) 0%nat) 0).
  - apply Ok_inj in H. inversion H. reflexivity.
  - repeat (apply obind_ok in H; destruct H as [? [_ H]]).
    apply Ok_inj in H. inversion H. reflexivity.
Qed.

Lemma sv_band_step_count self dt chunks src_len hc thresholds src cnt res i cnt' res' :
  sv_band_step self dt chunks src_len hc thresholds src (cnt, res) i = Ok (cnt', res') ->
  exists mask, sv_band_mask (decomp_factor self) chunks src_len thresholds src i = Ok mask
               /\ cnt' = cnt ++ [@tcount 3 (mdata mask)].
Proof.
  unfold sv_band_step. intros H.
  apply obind_ok in H. destruct H as [mask [Hm H]]. exists mask. split; [exact Hm|].
  destruct (Nat.eqb (nth i (cnt ++ [_]) 0%nat) 0).
  - apply Ok_inj in H. inversion H. reflexivity.
  - repeat (apply obind_ok in H; destruct H as [? [_ H]]).
    apply Ok_inj in H. inversion H. reflexivity.
Qed.

(** The statistics the attention paths compute are the closed forms. *)
Lemma stats_unfold (hc : Tensor 4) (B chunks cs ch : nat) (m : Tensor 3) (tm : Tensor 2) :
  shape hc = [B; chunks; cs; ch] ->
  max_dim_last (tabs hc) = Ok m -> max_dim_last m = Ok tm ->
  tm = attn_tmax hc /\ (0 < cs)%nat /\ (0 < ch)%nat.
Proof.
  intros Hs. unfold max_dim_last at 1. unfold tabs, tlift. cbn [shape dtype data].
  rewrite Hs. cbn [last removelast].
  destruct ch as [|ch]; [discriminate|]. cbn [Nat.eqb negb].
  intros H. apply Ok_inj in H. subst m.
  unfold max_dim_last. cbn [shape dtype data last removelast].
  destruct cs as [|cs]; [discriminate|]. cbn [Nat.eqb negb].
  intros H. apply Ok_inj in H. subst tm.
  split; [|split; lia].
  unfold attn_tmax. rewrite Hs. cbn [removelast]. f_equal.
  cbn [reduce_last tmap]. rewrite !map_map. apply map_ext. intros Ab.
  rewrite !map_map. apply map_ext. intros mat. unfold chunk_tmax.
  f_equal; first [reflexivity | symmetry; apply map_map | apply map_map].
Qed.

Lemma cmax_unfold (hc : Tensor 4) (B chunks cs ch : nat) (cm : Tensor 3) :
  shape hc = [B; chunks; cs; ch] ->
  max_dim_rows (tabs hc) = Ok cm -> cm = attn_cmax hc.
Proof.
  intros Hs. unfold max_dim_rows, reduce_dim_rows, tabs, tlift. cbn [shape dtype data].
  rewrite Hs. cbn [last removelast].
  destruct cs as [|cs]; [discriminate|]. cbn [Nat.eqb negb].
  intros H. apply Ok_inj in H. subst cm.
  unfold attn_cmax. rewrite Hs. cbn [last removelast drop_rows_dim app].
  f_equal; try reflexivity.
Qed.

(** The statistics of a well-formed chunked tensor meet the hypotheses of
    [batch_bands_total], and its channel maxima are [B * chunks * ch]. *)
Lemma stats_bounds (hc : Tensor 4) (B chunks cs ch : nat) :
  shape hc = [B; chunks; cs; ch] -> (0 < cs)%nat -> (0 < ch)%nat -> wf hc ->
  length (data (attn_cmax hc)) = length (data (attn_tmax hc)) /\
  (forall p, In p (combine (data (attn_cmax hc)) (data (attn_tmax hc))) ->
     length (fst p) = length (snd p)) /\
  (forall p, In p (combine (data (attn_cmax hc)) (data (attn_tmax hc))) ->
     forall q, In q (combine (fst p) (snd p)) ->
       0 <= snd q /\ forall v, In v (fst q) -> v <= snd q) /\
  sum_list (map (fun p => sum_list (map (fun q => length (fst q))
                                        (combine (fst p) (snd p))))
                (combine (data (attn_cmax hc)) (data (attn_tmax hc))))
  = (B * chunks * ch)%nat.
Proof.
  intros Hs Hcs Hh [_ Hwf]. rewrite Hs in Hwf.
  unfold attn_cmax, attn_tmax. cbn [data]. rewrite Hs. cbn [last].
  set (A := tmap Qabs 4 (data hc)).
  assert (HA : has_shape 4 [B; chunks; cs; ch] A = true)
    by (unfold A; rewrite has_shape_tmap; exact Hwf).
  apply (has_shape_S 3 B [chunks; cs; ch] A) in HA. destruct HA as [HlenA HbA].
  rewrite Forall_forall in HbA.
  assert (Hpos : forall Ab mat row v,
             In Ab A -> In mat Ab -> In row mat -> In v row -> 0 <= v).
  { intros Ab mat row v Hb Hm Hr Hv.
    pose proof (entries_abs_nonneg 4 (data hc)) as Hall. rewrite Forall_forall in Hall.
    apply Hall. fold A. simpl. apply in_flat_map. exists Ab. split; [exact Hb|].
    apply in_flat_map. exists mat. split; [exact Hm|].
    apply in_flat_map. exists row. split; [exact Hr|].
    apply in_flat_map. exists v. split; [exact Hv|]. left. reflexivity. }
  assert (Hstat : forall Ab, In Ab A ->
             length Ab = chunks /\
             length (map (chunk_cmax ch) Ab) = length (map chunk_tmax Ab) /\
             (forall p, In p (combine (map (chunk_cmax ch) Ab) (map chunk_tmax Ab)) ->
                0 <= snd p /\ forall v, In v (fst p) -> v <= snd p) /\
             sum_list (map (fun p => length (fst p))
                           (combine (map (chunk_cmax ch) Ab) (map chunk_tmax Ab)))
             = (ch * length Ab)%nat).
  { intros Ab Hb. specialize (HbA Ab Hb).
    apply (has_shape_S 2 chunks [cs; ch] Ab) in HbA. destruct HbA as [Hl Hm].
    split; [exact Hl|].
    apply (chunk_stats_bounds cs ch Ab Hcs Hh Hm).
    intros mat row v. apply Hpos. exact Hb. }
  rewrite combine_diag.
  split; [rewrite !length_map; reflexivity|]. split; [|split].
  - intros p Hp. apply in_map_iff in Hp. destruct Hp as [Ab [<- Hb]]. cbn [fst snd].
    apply (Hstat Ab Hb).
  - intros p Hp. apply in_map_iff in Hp. destruct Hp as [Ab [<- Hb]]. cbn [fst snd].
    apply (Hstat Ab Hb).
  - rewrite map_map. cbn [fst snd].
    rewrite (sum_list_map_ext _ (fun _ => (ch * chunks)%nat)).
    + rewrite sum_list_map_const.
      transitivity (B * (ch * chunks))%nat; [|lia].
      exact (f_equal (fun x => (x * (ch * chunks))%nat) HlenA).
    + intros Ab Hb. destruct (Hstat Ab Hb) as [Hl [_ [_ Hsum]]].
      rewrite Hsum, Hl. reflexivity.
Qed.
(** With the statistics computed from the chunks, the counts the loop of
    Q x K^T leaves are those of the inclusive bands, and they sum to
    [B * chunks * ch]: every channel of every chunk of every batch entry is
    in one band. *)
Lemma qk_bands_counts (self : t) (dt : DType) (chunks : nat) (hc result : Tensor 4)
      (B n cs ch : nat) (count : list nat) (res : Tensor 4) (self' : t) :
  q_tmax (supplied self) = None -> q_group_index (supplied self) = None ->
  shape hc = [B; n; cs; ch] -> wf hc ->
  qk_bands dt chunks hc result self = Ok ((count, res), self') ->
  count = map (fun i => @tcount 3 (batch_flags (band_inclusive (decomp_factor self) i)
                         (data (attn_cmax hc)) (data (attn_tmax hc))))
              (seq 0 (decomp_factor self))
  /\ ((0 < decomp_factor self)%nat -> sum_list count = (B * n * ch)%nat)
  /\ (0 < cs)%nat /\ (0 < ch)%nat.
Proof.
  intros Ht Hg Hs Hwf H. unfold qk_bands in H.
  apply bind_ok in H. destruct H as (s0 & s1 & Hget & H).
  apply Ok_inj in Hget. inversion Hget; subst s0 s1; clear Hget.
  rewrite Ht, Hg in H.
  apply bind_ok in H. destruct H as (tm & s1 & Htm & H).
  apply bind_ok in Htm. destruct Htm as (m & s2 & Hm & Htm).
  apply lift_ok in Hm. destruct Hm as [Hm _].
  apply bind_ok in Htm. destruct Htm as (tm' & s3 & Htm' & Htm).
  apply lift_ok in Htm'. destruct Htm' as [Htm' _].
  apply bind_ok in Htm. destruct Htm as (u & s4 & _ & Htm).
  apply Ok_inj in Htm. inversion Htm; subst tm'; clear Htm.
  destruct (stats_unfold hc B n cs ch m tm Hs Hm Htm') as [-> [Hcs Hh]].
  apply bind_ok in H. destruct H as (src & s5 & Hsrc & H).
  apply bind_ok in Hsrc. destruct Hsrc as (cm & s6 & Hcm & Hsrc).
  apply lift_ok in Hcm. destruct Hcm as [Hcm _].
  apply (cmax_unfold hc B n cs ch cm Hs) in Hcm. subst cm.
  apply bind_ok in Hsrc. destruct Hsrc as (u' & s7 & _ & Hsrc).
  apply Ok_inj in Hsrc. inversion Hsrc; subst src; clear Hsrc.
  apply lift_ok in H. destruct H as [H _].
  destruct (stats_bounds hc B n cs ch Hs Hcs Hh Hwf) as [Hlen [Hp [Hb Hsum]]].
  set (D := decomp_factor self) in *.
  apply (run_bands_count_lt _ (fun i => @tcount 3 (batch_flags (band_inclusive D i)
           (data (attn_cmax hc)) (data (attn_tmax hc))))) in H.
  2: { intros cnt r i cnt' r' Hi E.
       apply qk_band_step_count in E. destruct E as (mask & Hmask & ->).
       rewrite (qk_band_mask_flags D chunks _ _ i mask Hi Hlen Hp Hmask). reflexivity. }
  split; [exact H|]. split; [|split; assumption]. intros HD. rewrite H.
  rewrite (batch_bands_total D (band_inclusive D)); [exact Hsum | | exact Hb].
  intros tv v Htv Hv. rewrite inclusive_partition by assumption.
  apply Qle_bool_true in Hv. rewrite Hv. reflexivity.
Qed.

(** The same for S x V, with the closed-top bands. *)
Lemma sv_bands_counts (self : t) (dt : DType) (chunks src_len : nat)
      (hc result : Tensor 4)
      (B n cs ch : nat) (count : list nat) (res : Tensor 4) (self' : t) :
  s_tmax (supplied self) = None -> s_group_index (supplied self) = None ->
  shape hc = [B; n; cs; ch] -> wf hc ->
  sv_bands dt chunks src_len hc result self = Ok ((count, res), self') ->
  count = map (fun i => @tcount 3 (batch_flags (band_closed_top (decomp_factor self) i)
                         (data (attn_cmax hc)) (data (attn_tmax hc))))
              (seq 0 (decomp_factor self))
  /\ ((0 < decomp_factor self)%nat -> sum_list count = (B * n * ch)%nat)
  /\ (0 < cs)%nat /\ (0 < ch)%nat.
Proof.
  intros Ht Hg Hs Hwf H. unfold sv_bands in H.
  apply bind_ok in H. destruct H as (s0 & s1 & Hget & H).
  apply Ok_inj in Hget. inversion Hget; subst s0 s1; clear Hget.
  rewrite Ht, Hg in H.
  apply bind_ok in H. destruct H as (tm & s1 & Htm & H).
  apply bind_ok in Htm. destruct Htm as (m & s2 & Hm & Htm).
  apply lift_ok in Hm. destruct Hm as [Hm _].
  apply bind_ok in Htm. destruct Htm as (tm' & s3 & Htm' & Htm).
  apply lift_ok in Htm'. destruct Htm' as [Htm' _].
  apply bind_ok in Htm. destruct Htm as (u & s4 & _ & Htm).
  apply Ok_inj in Htm. inversion Htm; subst tm'; clear Htm.
  destruct (stats_unfold hc B n cs ch m tm Hs Hm Htm') as [-> [Hcs Hh]].
  apply bind_ok in H. destruct H as (src & s5 & Hsrc & H).
  apply bind_ok in Hsrc. destruct Hsrc as (cm & s6 & Hcm & Hsrc).
  apply lift_ok in Hcm. destruct Hcm as [Hcm _].
  apply (cmax_unfold hc B n cs ch cm Hs) in Hcm. subst cm.
  apply bind_ok in Hsrc. destruct Hsrc as (u' & s7 & _ & Hsrc).
  apply Ok_inj in Hsrc. inversion Hsrc; subst src; clear Hsrc.
  apply lift_ok in H. destruct H as [H _].
  destruct (stats_bounds hc B n cs ch Hs Hcs Hh Hwf) as [Hlen [Hp [Hb Hsum]]].
  set (D := decomp_factor self) in *.
  apply (run_bands_count_lt _ (fun i => @tcount 3 (batch_flags (band_closed_top D i)
           (data (attn_cmax hc)) (data (attn_tmax hc))))) in H.
  2: { intros cnt r i cnt' r' Hi E.
       apply sv_band_step_count in E. destruct E as (mask & Hmask & ->).
       rewrite (sv_band_mask_flags D chunks src_len _ _ i mask Hi Hlen Hp Hmask).
       reflexivity. }
  split; [exact H|]. split; [|split; assumption]. intros HD. rewrite H.
  rewrite (batch_bands_total D (band_closed_top D)); [exact Hsum | | exact Hb].
  intros tv v Htv Hv. apply closed_top_partition; assumption.
Qed.
End AttnBands.

(** ** The attributes a forward pass leaves alone *)

(** C9: a forward pass of the attention module assigns no supplied
    calibration attribute (the channel biases, the tensor maxima, the group
    indices, the key and value scales): when [forward] returns, [supplied]
    holds what it held before the call.  Nor does it assign the
    configuration or the [_cal] attributes of the paths it does not run:
    what it writes is among the [_cal] attributes of Q x K^T and S x V
    (and [embed_dim], [kv_dim], which lines 630-631 set). *)
Theorem forward_keeps_supplied_calibration
        (math_sqrt : nat -> Q) (mx : forall n, Tensor n -> Tensor n)
        (project : Tensor 2 -> outcome (Tensor 4 * Tensor 4 * Tensor 4 * nat))
        (softmax : Tensor 4 -> Tensor 4) (o_proj : Tensor 3 -> outcome (Tensor 3))
        (hidden_states : Tensor 3) (attention_mask : option (Tensor 4))
        (output_attentions : bool)
        (self self' : LlamaAttention_Tender_Eval.t)
        (out : Tensor 3 * option (Tensor 4)) :
  LlamaAttention_Tender_Eval.forward math_sqrt mx project softmax o_proj
    hidden_states attention_mask output_attentions self = Ok (out, self') ->
  LlamaAttention_Tender_Eval.supplied self' = LlamaAttention_Tender_Eval.supplied self
  /\ frame_view self' = frame_view self.
Proof.
  intros H.
  pose proof (AttnFrame.forward_preserves math_sqrt mx project softmax o_proj
                hidden_states attention_mask output_attentions self out self' H) as F.
  split; [|exact F].
  unfold frame_view in F. congruence.
Qed.

Lemma forward_keeps_supplied_calibration_witness :
  exists out self',
    LlamaAttention_Tender_Eval.forward sqrt_one mx_exact project_one softmax_one
      o_proj_id hidden_one None true attn_calibrated = Ok (out, self')
    /\ LlamaAttention_Tender_Eval.supplied self' = supplied_k_bias_v_scale
    /\ LlamaAttention_Tender_Eval.collected self'
       <> LlamaAttention_Tender_Eval.collected attn_calibrated.
Proof.
  eexists. eexists. split; [vm_compute; reflexivity|]. split.
  - eapply (forward_keeps_supplied_calibration sqrt_one mx_exact project_one softmax_one
              o_proj_id hidden_one None true attn_calibrated).
    vm_compute. reflexivity.
  - vm_compute. discriminate.
Defined.

(** ** The coverage check of the attention paths *)

Lemma reshape_ok_wf {m} n sh (t : Tensor m) (r' : Tensor n) :
  reshape n sh t = Ok r' -> wf r' /\ shape r' = sh /\ dtype r' = dtype t.
Proof.
  intros H. apply (reshape_spec n sh t t) in H. destruct H as [Hn [Hl ->]].
  cbn [shape dtype data]. split; [|split; reflexivity].
  split; [exact Hl|]. apply has_shape_build. exact Hl.
Qed.

Lemma has_shape_reduce_rows {A B} (d : A) (f : list A -> B) (Bn n cs ch : nat)
      (x : tensor A 4) :
  has_shape 4 [Bn; n; cs; ch] x = true ->
  has_shape 3 [Bn; n; ch] (reduce_rows d f ch 2 x) = true.
Proof.
  intros H. apply (has_shape_S 3) in H. destruct H as [Hl Hf].
  apply (has_shape_S 2). cbn [reduce_rows]. split; [rewrite length_map; exact Hl|].
  apply Forall_map_iff. revert Hf. apply Forall_impl. intros Ab HAb.
  apply (has_shape_S 2) in HAb. destruct HAb as [Hl2 _].
  apply (has_shape_S 1). split; [rewrite length_map; exact Hl2|].
  apply Forall_map_iff, Forall_forall. intros mat _.
  apply (has_shape_S 0). rewrite length_map, length_seq. split; [reflexivity|].
  apply Forall_forall. intros; reflexivity.
Qed.

Lemma has_shape_repeat_rows3 {A} (k Bn n ch : nat) (x : tensor A 3) :
  has_shape 3 [Bn; n; ch] x = true ->
  has_shape 4 [Bn; n; k; ch] (repeat_rows k 2 x) = true.
Proof.
  intros H. apply (has_shape_S 2) in H. destruct H as [Hl Hf].
  apply (has_shape_S 3). cbn [repeat_rows]. split; [rewrite length_map; exact Hl|].
  apply Forall_map_iff. revert Hf. apply Forall_impl. intros Ab HAb.
  apply (has_shape_repeat_rows k n ch Ab HAb).
Qed.

Lemma reduce_rows_keepdim_wf (f : list Q -> Q) (t m : Tensor 4) (Bn n cs ch : nat) :
  wf t -> shape t = [Bn; n; cs; ch] ->
  obind (reduce_dim_rows f t) (fun r => Ok (unsqueeze_rows r)) = Ok m ->
  wf m /\ shape m = [Bn; n; 1%nat; ch].
Proof.
  intros [_ Hwf] Hs H. rewrite Hs in Hwf.
  apply obind_ok in H. destruct H as [r [Hr H]]. apply Ok_inj in H. subst m.
  unfold reduce_dim_rows in Hr. rewrite Hs in Hr. cbn [last removelast] in Hr.
  destruct (negb (Nat.eqb cs 0)); [|discriminate].
  apply Ok_inj in Hr. subst r.
  unfold unsqueeze_rows, insert_rows_dim, drop_rows_dim.
  cbn [shape data dtype last removelast app].
  split; [|reflexivity]. split; [reflexivity|]. cbn [shape data].
  apply has_shape_repeat_rows3. apply (has_shape_reduce_rows 0 f Bn n cs ch). exact Hwf.
Qed.

Lemma isub_wf n (result x r : Tensor n) :
  wf result -> wf x -> isub result x = Ok r ->
  wf r /\ shape r = shape result /\ dtype r = dtype result.
Proof.
  intros [Hlr Hr] [Hlx Hx]. unfold isub.
  destruct (broadcastable (shape result) (shape x)) eqn:E; [|discriminate].
  destruct (shape_eqb (bshape (shape result) (shape x)) (shape result)) eqn:E2;
    [|discriminate].
  apply shape_eqb_eq in E2. intros H. apply Ok_inj in H. subst r.
  cbn [shape data dtype]. split; [|auto]. split; cbn [shape data]; [exact Hlr|].
  rewrite <- E2 at 1. apply has_shape_bmap2; assumption.
Qed.

Module AttnCheck.
Import LlamaAttention_Tender_Eval.
Import AttnBands.

Lemma chunking_shape (cs : nat) (pd : DType) (states : Tensor 3) (B tgt ch chunks : nat)
      (hc : Tensor 4) :
  shape states = [B; tgt; ch] ->
  chunking cs pd states = Ok (chunks, hc) ->
  wf hc /\ shape hc = [B; chunks; cs; ch] /\ chunks = ceil_div tgt cs /\ chunks <> 0%nat.
Proof.
  intros Hs. unfold chunking. rewrite Hs.
  destruct (negb (Nat.eqb cs 0)); [|discriminate].
  destruct (negb (Nat.eqb (ceil_div tgt cs) 0)) eqn:E; [|discriminate].
  intros H. apply obind_ok in H. destruct H as [x [_ H]].
  apply obind_ok in H. destruct H as [y [Hy H]].
  apply Ok_inj in H. injection H as Hc Hy'. subst y chunks.
  apply reshape_ok_wf in Hy. destruct Hy as [Hw [Hsh _]].
  split; [exact Hw|]. split; [exact Hsh|]. split; [reflexivity|].
  apply negb_true_iff, Nat.eqb_neq in E. exact E.
Qed.

Lemma collect_ok (upd : Collected -> Collected) (s : t) (u : unit) (s' : t) :
  collect upd s = Ok (u, s') ->
  supplied s' = supplied s /\ decomp_factor s' = decomp_factor s.
Proof.
  unfold collect. intros H. apply Ok_inj in H. inversion H; subst. split; reflexivity.
Qed.

Ltac bind_step H x s Hx :=
  apply bind_ok in H; destruct H as (x & s & Hx & H).

End AttnCheck.

(** ** The sum of the counts *)

(** C7, amended: on chunks of finite numbers (no NaN: the tensors here
    hold rational numbers), the counts of the bands sum to the number of
    channels times the number of chunks (times the leading dimension
    [bsz * num_heads] in the attention-score path, whose chunks are cut per
    head), whatever the number of rows of a chunk; the statistics are
    computed from the chunks and there is at least one band. *)
Theorem band_counts_sum_to_chunks_times_channels :
  (forall (self : LmHeadTender.t) (dt : DType) (hc : Tensor 3)
          (chunks cs hidden : nat) (count : list nat) (result : Tensor 3),
      shape hc = [chunks; cs; hidden] -> (0 < cs)%nat -> (0 < hidden)%nat -> wf hc ->
      (0 < LmHeadTender.decomp_factor self)%nat ->
      LmHeadTender.bands self dt hc = Ok (count, result) ->
      sum_list count = (hidden * chunks)%nat)
  /\
  (forall (self : LlamaAttention_Tender_Eval.t) (dt : DType) (chunks src_len : nat)
          (hc result : Tensor 4) (B n cs ch : nat)
          (count : list nat) (res : Tensor 4) (self' : LlamaAttention_Tender_Eval.t),
      LlamaAttention_Tender_Eval.s_tmax (LlamaAttention_Tender_Eval.supplied self) = None ->
      LlamaAttention_Tender_Eval.s_group_index (LlamaAttention_Tender_Eval.supplied self)
      = None ->
      shape hc = [B; n; cs; ch] -> wf hc ->
      (0 < LlamaAttention_Tender_Eval.decomp_factor self)%nat ->
      LlamaAttention_Tender_Eval.sv_bands dt chunks src_len hc result self
      = Ok ((count, res), self') ->
      sum_list count = (B * n * ch)%nat).
Proof.
  split.
  - intros self dt hc chunks cs hidden count result Hs Hcs Hh Hwf HD H.
    apply (lm_bands_counts self dt hc chunks cs hidden count result Hs Hcs Hh Hwf H).
    exact HD.
  - intros self dt chunks src_len hc result B n cs ch count res self' Ht Hg Hs Hwf HD H.
    apply (AttnBands.sv_bands_counts self dt chunks src_len hc result B n cs ch
             count res self' Ht Hg Hs Hwf H).
    exact HD.
Qed.

Lemma band_counts_sum_to_chunks_times_channels_witness :
  (exists count result,
      LmHeadTender.bands lm_small Float16 chunk_2x2 = Ok (count, result)
      /\ sum_list count = (2 * 1)%nat)
  /\
  (LlamaAttention_Tender_Eval.chunking 2 Float16 scores_rows_two
   = Ok (1%nat, scores_chunks_two)
   /\ exists count res self',
      LlamaAttention_Tender_Eval.sv_bands Float16 1 2 scores_chunks_two
        (zeros (dtype scores_chunks_two) (shape scores_chunks_two)) attn_two_heads
      = Ok ((count, res), self')
      /\ sum_list count = (2 * 1 * 2)%nat).
Proof.
  split.
  - eexists. eexists. split; [vm_compute; reflexivity|].
    eapply (proj1 band_counts_sum_to_chunks_times_channels
                  lm_small Float16 chunk_2x2 1%nat 2%nat 2%nat).
    + reflexivity.
    + lia.
    + lia.
    + split; reflexivity.
    + simpl; lia.
    + vm_compute. reflexivity.
  - split; [vm_compute; reflexivity|].
    eexists. eexists. eexists. split; [vm_compute; reflexivity|].
    eapply (proj2 band_counts_sum_to_chunks_times_channels
                  attn_two_heads Float16 1%nat 2%nat scores_chunks_two
                  (zeros (dtype scores_chunks_two) (shape scores_chunks_two))
                  2%nat 1%nat 2%nat 2%nat).
    + reflexivity.
    + reflexivity.
    + reflexivity.
    + split; reflexivity.
    + simpl; lia.
    + vm_compute. reflexivity.
Defined.

(** C7 as stated fails: three rows of two channels in chunks of 2 rows are
    padded to 4 rows, and the counts of the LM head sum to
    [2 channels * 2 chunks = 4], not to [rows_padded * channels = 8]. *)
Lemma band_counts_padded_rows_counterexample :
  exists chunks hc count result,
    LmHeadTender.chunking (LmHeadTender.chunk_size lm_small) rows_3x2 = Ok (chunks, hc)
    /\ LmHeadTender.bands lm_small Float16 hc = Ok (count, result)
    /\ sum_list count = 4%nat
    /\ (chunks * LmHeadTender.chunk_size lm_small * 2)%nat = 8%nat
    /\ sum_list count <> (chunks * LmHeadTender.chunk_size lm_small * 2)%nat.
Proof.
  eexists. eexists. eexists. eexists.
  split; [vm_compute; reflexivity|].
  split; [vm_compute; reflexivity|].
  split; [vm_compute; reflexivity|].
  split; [vm_compute; reflexivity|].
  vm_compute. discriminate.
Qed.

(** ** The masks of the bands and what they zero *)

Lemma combine_app_eq {A B} (l1 l2 : list A) (k1 k2 : list B) :
  length l1 = length k1 ->
  combine (l1 ++ l2) (k1 ++ k2) = combine l1 k1 ++ combine l2 k2.
Proof.
  revert k1. induction l1 as [|x l1 IH]; intros [|y k1] H; simpl in *; try discriminate;
    [reflexivity|]. f_equal. apply IH. lia.
Qed.

(** On two arrays of one shape a broadcasting operation works entry by
    entry. *)
Lemma entries_bmap2 {A B C} (f : A -> B -> C) n sh (a : tensor A n) (b : tensor B n) :
  has_shape n sh a = true -> has_shape n sh b = true ->
  entries n (bmap2 f n a b)
  = map (fun p => f (fst p) (snd p)) (combine (entries n a) (entries n b)).
Proof.
  revert sh a b. induction n as [|n IH]; intros sh a b Ha Hb.
  - reflexivity.
  - destruct sh as [|d sh]; [discriminate|].
    apply has_shape_S in Ha. destruct Ha as [Hla Hfa].
    apply has_shape_S in Hb. destruct Hb as [Hlb Hfb].
    assert (Hlen : length a = length b)
      by (transitivity d; [exact Hla | symmetry; exact Hlb]).
    cbn [bmap2]. rewrite bzip_eq_len by exact Hlen. clear Hla Hlb.
    cbn [entries]. revert b Hlen Hfb.
    induction a as [|x a IHa]; intros [|y b] Hlen Hfb; simpl in *; try discriminate;
      [reflexivity|].
    inversion Hfa; subst. inversion Hfb; subst.
    rewrite combine_app_eq, map_app.
    + f_equal; [eapply IH; eauto | apply IHa; auto].
    + rewrite (length_entries n sh x), (length_entries n sh y) by assumption.
      reflexivity.
Qed.

Lemma where_zero_zeroed n sh (mask : tensor bool n) (t : Tensor n) :
  has_shape n sh mask = true -> has_shape n sh (data t) = true ->
  zeroed_outside n mask (data t) (data (where_zero mask t)).
Proof.
  intros Hm Ht. unfold zeroed_outside, where_zero. cbn [data].
  apply (entries_bmap2 (fun (b : bool) (x : Q) => if b then x else 0) n sh); assumption.
Qed.

Lemma where_mask_zeroed n sh (m : Mask n) (t fp : Tensor n) :
  has_shape n sh (mdata m) = true -> has_shape n sh (data t) = true ->
  where_mask m t = Ok fp ->
  zeroed_outside n (mdata m) (data t) (data fp).
Proof.
  intros Hm Ht. unfold where_mask.
  destruct (broadcastable (mshape m) (shape t)); [|discriminate].
  intros H. apply Ok_inj in H. subst fp. unfold zeroed_outside. cbn [data].
  apply (entries_bmap2 (fun (b : bool) (x : Q) => if b then x else 0) n sh); assumption.
Qed.

(** What a turn of each loop does with the chunks: the entries outside the
    band are zero in the tensor it quantizes, and the dequantized tensor is
    what it adds to [result]; a turn whose band is empty leaves [result]
    alone. *)
Lemma lm_band_step_adds (self : LmHeadTender.t) dt hc thresholds cmax cnt res i cnt' res' :
  LmHeadTender.band_step self dt hc thresholds cmax (cnt, res) i = Ok (cnt', res') ->
  (Nat.eqb (nth i cnt' 0%nat) 0 = true -> res' = res)
  /\ (Nat.eqb (nth i cnt' 0%nat) 0 = false ->
      exists scale q y,
        div_scalar (unsqueeze_last (LmHeadTender.threshold thresholds i))
                   (q_max_of (LmHeadTender.q_bits self)) = Ok scale
        /\ sym_quant (where_zero (repeat_rows (LmHeadTender.chunk_size self) 1
                                    (LmHeadTender.band_mask
                                       (LmHeadTender.decomp_factor self)
                                       thresholds cmax i)) hc)
                     scale (LmHeadTender.q_bits self) = Ok q
        /\ sym_dequant q scale dt = Ok y
        /\ iadd res y = Ok res'
        /\ data (where_zero (repeat_rows (LmHeadTender.chunk_size self) 1
                                (LmHeadTender.band_mask (LmHeadTender.decomp_factor self)
                                                        thresholds cmax i)) hc)
           = bmap2 (fun (b : bool) x => if b then x else 0) 3
                   (repeat_rows (LmHeadTender.chunk_size self) 1
                      (LmHeadTender.band_mask (LmHeadTender.decomp_factor self)
                                              thresholds cmax i))
                   (data hc)
        /\ forall sh,
             has_shape 3 sh (repeat_rows (LmHeadTender.chunk_size self) 1
                               (LmHeadTender.band_mask (LmHeadTender.decomp_factor self)
                                                       thresholds cmax i)) = true ->
             has_shape 3 sh (data hc) = true ->
             zeroed_outside 3
               (repeat_rows (LmHeadTender.chunk_size self) 1
                  (LmHeadTender.band_mask (LmHeadTender.decomp_factor self)
                                          thresholds cmax i))
               (data hc)
               (data (where_zero (repeat_rows (LmHeadTender.chunk_size self) 1
                                    (LmHeadTender.band_mask
                                       (LmHeadTender.decomp_factor self)
                                       thresholds cmax i)) hc))).
Proof.
  unfold LmHeadTender.band_step.
  destruct (Nat.eqb (nth i (cnt ++ [_]) 0%nat) 0) eqn:E; intros H.
  - apply Ok_inj in H. inversion H; subst cnt' res'. rewrite E.
    split; [reflexivity | discriminate].
  - apply obind_ok in H. destruct H as [scale [Hsc H]].
    apply obind_ok in H. destruct H as [q [Hq H]].
    apply obind_ok in H. destruct H as [y [Hy H]].
    apply obind_ok in H. destruct H as [r [Hr H]].
    apply Ok_inj in H. inversion H; subst cnt' res'. rewrite E.
    split; [discriminate|]. intros _.
    exists scale, q, y. repeat split; try assumption.
    intros sh Hm Hh. apply (where_zero_zeroed 3 sh); assumption.
Qed.

Lemma qk_band_step_adds (self : LlamaAttention_Tender_Eval.t) dt chunks hc
      thresholds src cnt res i cnt' res' :
  LlamaAttention_Tender_Eval.qk_band_step self dt chunks hc thresholds src (cnt, res) i
  = Ok (cnt', res') ->
  (Nat.eqb (nth i cnt' 0%nat) 0 = true -> res' = res)
  /\ (Nat.eqb (nth i cnt' 0%nat) 0 = false ->
      exists mask fp scale q y,
        LlamaAttention_Tender_Eval.qk_band_mask chunks thresholds src i = Ok mask
        /\ where_mask (mask_repeat_rows (LlamaAttention_Tender_Eval.chunk_size self) mask)
                      hc = Ok fp
        /\ div_scalar (unsqueeze_last (LlamaAttention_Tender_Eval.threshold thresholds i))
                      (q_max_of (LlamaAttention_Tender_Eval.q_bits self)) = Ok scale
        /\ sym_quant fp scale (LlamaAttention_Tender_Eval.q_bits self) = Ok q
        /\ sym_dequant q scale dt = Ok y
        /\ iadd res y = Ok res'
        /\ data fp
           = bmap2 (fun (b : bool) x => if b then x else 0) 4
                   (mdata (mask_repeat_rows
                             (LlamaAttention_Tender_Eval.chunk_size self) mask))
                   (data hc)
        /\ forall sh,
             has_shape 4 sh (mdata (mask_repeat_rows
                                      (LlamaAttention_Tender_Eval.chunk_size self) mask))
             = true ->
             has_shape 4 sh (data hc) = true ->
             zeroed_outside 4
               (mdata (mask_repeat_rows (LlamaAttention_Tender_Eval.chunk_size self) mask))
               (data hc) (data fp)).
Proof.
  unfold LlamaAttention_Tender_Eval.qk_band_step. intros H.
  apply obind_ok in H. destruct H as [mask [Hm H]].
  destruct (Nat.eqb (nth i (cnt ++ [_]) 0%nat) 0) eqn:E.
  - apply Ok_inj in H. inversion H; subst cnt' res'. rewrite E.
    split; [reflexivity | discriminate].
  - apply obind_ok in H. destruct H as [scale [Hsc H]].
    apply obind_ok in H. destruct H as [fp [Hfp H]].
    apply obind_ok in H. destruct H as [q [Hq H]].
    apply obind_ok in H. destruct H as [y [Hy H]].
    apply obind_ok in H. destruct H as [r [Hr H]].
    apply Ok_inj in H. inversion H; subst cnt' res'. rewrite E.
    split; [discriminate|]. intros _.
    exists mask, fp, scale, q, y. repeat split; try assumption.
    + unfold where_mask in Hfp. destruct (broadcastable _ _); [|discriminate].
      apply Ok_inj in Hfp. subst fp. reflexivity.
    + intros sh Hms Hh. apply (where_mask_zeroed 4 sh _ hc fp Hms Hh Hfp).
Qed.

Lemma sv_band_step_adds (self : LlamaAttention_Tender_Eval.t) dt chunks src_len hc
      thresholds src cnt res i cnt' res' :
  LlamaAttention_Tender_Eval.sv_band_step self dt chunks src_len hc thresholds src
    (cnt, res) i = Ok (cnt', res') ->
  (Nat.eqb (nth i cnt' 0%nat) 0 = true -> res' = res)
  /\ (Nat.eqb (nth i cnt' 0%nat) 0 = false ->
      exists mask fp scale q y,
        LlamaAttention_Tender_Eval.sv_band_mask
          (LlamaAttention_Tender_Eval.decomp_factor self) chunks src_len thresholds src i
        = Ok mask
        /\ where_mask (mask_repeat_rows (LlamaAttention_Tender_Eval.chunk_size self) mask)
                      hc = Ok fp
        /\ div_scalar (unsqueeze_last (LlamaAttention_Tender_Eval.threshold thresholds i))
                      (pow2 (LlamaAttention_Tender_Eval.q_bits self) - 1) = Ok scale
        /\ LlamaAttention_Tender_Eval.quant_unsigned fp scale
             (pow2 (LlamaAttention_Tender_Eval.q_bits self) - 1) = Ok q
        /\ sym_dequant q scale dt = Ok y
        /\ iadd res y = Ok res'
        /\ data fp
           = bmap2 (fun (b : bool) x => if b then x else 0) 4
                   (mdata (mask_repeat_rows
                             (LlamaAttention_Tender_Eval.chunk_size self) mask))
                   (data hc)
        /\ forall sh,
             has_shape 4 sh (mdata (mask_repeat_rows
                                      (LlamaAttention_Tender_Eval.chunk_size self) mask))
             = true ->
             has_shape 4 sh (data hc) = true ->
             zeroed_outside 4
               (mdata (mask_repeat_rows (LlamaAttention_Tender_Eval.chunk_size self) mask))
               (data hc) (data fp)).
Proof.
  unfold LlamaAttention_Tender_Eval.sv_band_step. intros H.
  apply obind_ok in H. destruct H as [mask [Hm H]].
  destruct (Nat.eqb (nth i (cnt ++ [_]) 0%nat) 0) eqn:E.
  - apply Ok_inj in H. inversion H; subst cnt' res'. rewrite E.
    split; [reflexivity | discriminate].
  - apply obind_ok in H. destruct H as [scale [Hsc H]].
    apply obind_ok in H. destruct H as [fp [Hfp H]].
    apply obind_ok in H. destruct H as [q [Hq H]].
    apply obind_ok in H. destruct H as [y [Hy H]].
    apply obind_ok in H. destruct H as [r [Hr H]].
    apply Ok_inj in H. inversion H; subst cnt' res'. rewrite E.
    split; [discriminate|]. intros _.
    exists mask, fp, scale, q, y. repeat split; try assumption.
    + unfold where_mask in Hfp. destruct (broadcastable _ _); [|discriminate].
      apply Ok_inj in Hfp. subst fp. reflexivity.
    + intros sh Hms Hh. apply (where_mask_zeroed 4 sh _ hc fp Hms Hh Hfp).
Qed.

(** C4, amended: when no group index is supplied, band [i] of the
    query path takes the channels of a chunk whose largest magnitude is at
    most [threshold[0]] for [i = 0] and in [(threshold[i-1], threshold[i]]]
    for [i > 0]; the attention-score path and the LM head take the same
    except that their last band takes the channels above
    [threshold[last-1]].  When a group index is supplied to an attention
    path, band [i] takes the channels whose index is [i] instead.  In every
    path a turn of the loop whose band is empty leaves [result] as it is,
    and a turn whose band is not empty quantizes, with the scale
    [threshold[i] / q_max], the chunks under [torch.where] with the flags
    repeated over the rows, and adds the dequantized tensor to [result];
    in the tensor it quantizes the entries that are flagged are those of
    the chunks and the others are zero. *)
Theorem band_masks_and_zeroing :
  (forall (D chunks : nat) (tmax : Tensor 2) (cmax : Tensor 3) (i : nat) (mask : Mask 3),
      (i < D)%nat -> length (data cmax) = length (data tmax) ->
      (forall p, In p (combine (data cmax) (data tmax)) ->
                 length (fst p) = length (snd p)) ->
      LlamaAttention_Tender_Eval.qk_band_mask chunks
        (LlamaAttention_Tender_Eval.thresholds_of D tmax)
        (LlamaAttention_Tender_Eval.Computed cmax) i = Ok mask ->
      mdata mask = batch_flags (band_inclusive D i) (data cmax) (data tmax))
  /\
  (forall (D chunks src_len : nat) (tmax : Tensor 2) (cmax : Tensor 3) (i : nat)
          (mask : Mask 3),
      (i < D)%nat -> length (data cmax) = length (data tmax) ->
      (forall p, In p (combine (data cmax) (data tmax)) ->
                 length (fst p) = length (snd p)) ->
      LlamaAttention_Tender_Eval.sv_band_mask D chunks src_len
        (LlamaAttention_Tender_Eval.thresholds_of D tmax)
        (LlamaAttention_Tender_Eval.Computed cmax) i = Ok mask ->
      mdata mask = batch_flags (band_closed_top D i) (data cmax) (data tmax))
  /\
  (forall (D : nat) (tmax : Tensor 1) (cmax : Tensor 2) (i : nat),
      (i < D)%nat -> length (data cmax) = length (data tmax) ->
      LmHeadTender.band_mask D (LmHeadTender.thresholds_of D tmax) cmax i
      = band_flags (band_closed_top D i) (data cmax) (data tmax))
  /\
  (forall (D chunks src_len : nat) (thresholds : list (Tensor 3)) (g : Tensor 3) (i : nat),
      LlamaAttention_Tender_Eval.qk_band_mask chunks thresholds
        (LlamaAttention_Tender_Eval.Indexed g) i
      = Ok (eq_scalar (take_dim1 chunks g) i)
      /\ LlamaAttention_Tender_Eval.sv_band_mask D chunks src_len thresholds
           (LlamaAttention_Tender_Eval.Indexed g) i
         = Ok (eq_scalar (take_dim2 src_len (take_dim1 chunks g)) i))
  /\
  (forall (self : LlamaAttention_Tender_Eval.t) dt chunks hc thresholds src
          cnt res i cnt' res',
      LlamaAttention_Tender_Eval.qk_band_step self dt chunks hc thresholds src (cnt, res) i
      = Ok (cnt', res') ->
      (Nat.eqb (nth i cnt' 0%nat) 0 = true -> res' = res)
      /\ (Nat.eqb (nth i cnt' 0%nat) 0 = false ->
          exists mask fp scale q y,
            LlamaAttention_Tender_Eval.qk_band_mask chunks thresholds src i = Ok mask
            /\ where_mask
                 (mask_repeat_rows (LlamaAttention_Tender_Eval.chunk_size self) mask)
                 hc = Ok fp
            /\ div_scalar
                 (unsqueeze_last (LlamaAttention_Tender_Eval.threshold thresholds i))
                 (q_max_of (LlamaAttention_Tender_Eval.q_bits self)) = Ok scale
            /\ sym_quant fp scale (LlamaAttention_Tender_Eval.q_bits self) = Ok q
            /\ sym_dequant q scale dt = Ok y
            /\ iadd res y = Ok res'
            /\ data fp
               = bmap2 (fun (b : bool) x => if b then x else 0) 4
                       (mdata (mask_repeat_rows
                                 (LlamaAttention_Tender_Eval.chunk_size self) mask))
                       (data hc)
            /\ forall sh,
                 has_shape 4 sh (mdata (mask_repeat_rows
                                          (LlamaAttention_Tender_Eval.chunk_size self)
                                          mask)) = true ->
                 has_shape 4 sh (data hc) = true ->
                 zeroed_outside 4
                   (mdata (mask_repeat_rows
                             (LlamaAttention_Tender_Eval.chunk_size self) mask))
                   (data hc) (data fp)))
  /\
  (forall (self : LlamaAttention_Tender_Eval.t) dt chunks src_len hc thresholds src
          cnt res i cnt' res',
      LlamaAttention_Tender_Eval.sv_band_step self dt chunks src_len hc thresholds src
        (cnt, res) i = Ok (cnt', res') ->
      (Nat.eqb (nth i cnt' 0%nat) 0 = true -> res' = res)
      /\ (Nat.eqb (nth i cnt' 0%nat) 0 = false ->
          exists mask fp scale q y,
            LlamaAttention_Tender_Eval.sv_band_mask
              (LlamaAttention_Tender_Eval.decomp_factor self) chunks src_len
              thresholds src i = Ok mask
            /\ where_mask
                 (mask_repeat_rows (LlamaAttention_Tender_Eval.chunk_size self) mask)
                 hc = Ok fp
            /\ div_scalar
                 (unsqueeze_last (LlamaAttention_Tender_Eval.threshold thresholds i))
                 (pow2 (LlamaAttention_Tender_Eval.q_bits self) - 1) = Ok scale
            /\ LlamaAttention_Tender_Eval.quant_unsigned fp scale
                 (pow2 (LlamaAttention_Tender_Eval.q_bits self) - 1) = Ok q
            /\ sym_dequant q scale dt = Ok y
            /\ iadd res y = Ok res'
            /\ data fp
               = bmap2 (fun (b : bool) x => if b then x else 0) 4
                       (mdata (mask_repeat_rows
                                 (LlamaAttention_Tender_Eval.chunk_size self) mask))
                       (data hc)
            /\ forall sh,
                 has_shape 4 sh (mdata (mask_repeat_rows
                                          (LlamaAttention_Tender_Eval.chunk_size self)
                                          mask)) = true ->
                 has_shape 4 sh (data hc) = true ->
                 zeroed_outside 4
                   (mdata (mask_repeat_rows
                             (LlamaAttention_Tender_Eval.chunk_size self) mask))
                   (data hc) (data fp)))
  /\
  (forall (self : LmHeadTender.t) dt hc thresholds cmax cnt res i cnt' res',
      LmHeadTender.band_step self dt hc thresholds cmax (cnt, res) i = Ok (cnt', res') ->
      (Nat.eqb (nth i cnt' 0%nat) 0 = true -> res' = res)
      /\ (Nat.eqb (nth i cnt' 0%nat) 0 = false ->
          exists scale q y,
            div_scalar (unsqueeze_last (LmHeadTender.threshold thresholds i))
                       (q_max_of (LmHeadTender.q_bits self)) = Ok scale
            /\ sym_quant (where_zero (repeat_rows (LmHeadTender.chunk_size self) 1
                                        (LmHeadTender.band_mask
                                           (LmHeadTender.decomp_factor self)
                                           thresholds cmax i)) hc)
                         scale (LmHeadTender.q_bits self) = Ok q
            /\ sym_dequant q scale dt = Ok y
            /\ iadd res y = Ok res'
            /\ data (where_zero (repeat_rows (LmHeadTender.chunk_size self) 1
                                   (LmHeadTender.band_mask
                                      (LmHeadTender.decomp_factor self)
                                      thresholds cmax i)) hc)
               = bmap2 (fun (b : bool) x => if b then x else 0) 3
                       (repeat_rows (LmHeadTender.chunk_size self) 1
                          (LmHeadTender.band_mask (LmHeadTender.decomp_factor self)
                                                  thresholds cmax i))
                       (data hc)
            /\ forall sh,
                 has_shape 3 sh (repeat_rows (LmHeadTender.chunk_size self) 1
                                   (LmHeadTender.band_mask
                                      (LmHeadTender.decomp_factor self)
                                      thresholds cmax i)) = true ->
                 has_shape 3 sh (data hc) = true ->
                 zeroed_outside 3
                   (repeat_rows (LmHeadTender.chunk_size self) 1
                      (LmHeadTender.band_mask (LmHeadTender.decomp_factor self)
                                              thresholds cmax i))
                   (data hc)
                   (data (where_zero (repeat_rows (LmHeadTender.chunk_size self) 1
                                        (LmHeadTender.band_mask
                                           (LmHeadTender.decomp_factor self)
                                           thresholds cmax i)) hc)))).
Proof.
  split; [exact AttnBands.qk_band_mask_flags|].
  split; [exact AttnBands.sv_band_mask_flags|].
  split; [exact lm_band_mask_flags|].
  split; [intros; split; reflexivity|].
  split; [exact qk_band_step_adds|].
  split; [exact sv_band_step_adds | exact lm_band_step_adds].
Qed.

Lemma band_masks_and_zeroing_witness :
  (exists mask,
      LlamaAttention_Tender_Eval.qk_band_mask 1
        (LlamaAttention_Tender_Eval.thresholds_of 2 (attn_tmax query_chunks_h4))
        (LlamaAttention_Tender_Eval.Computed (attn_cmax query_chunks_h4)) 1 = Ok mask
      /\ mdata mask = batch_flags (band_inclusive 2 1)
                                  (data (attn_cmax query_chunks_h4))
                                  (data (attn_tmax query_chunks_h4)))
  /\
  (exists mask,
      LlamaAttention_Tender_Eval.sv_band_mask 2 1 2
        (LlamaAttention_Tender_Eval.thresholds_of 2 (attn_tmax scores_chunks_two))
        (LlamaAttention_Tender_Eval.Computed (attn_cmax scores_chunks_two)) 1 = Ok mask
      /\ mdata mask = batch_flags (band_closed_top 2 1)
                                  (data (attn_cmax scores_chunks_two))
                                  (data (attn_tmax scores_chunks_two)))
  /\
  LmHeadTender.band_mask 2 (LmHeadTender.thresholds_of 2 (lm_tmax chunk_2x2))
                         (lm_cmax chunk_2x2) 1
  = band_flags (band_closed_top 2 1) (data (lm_cmax chunk_2x2)) (data (lm_tmax chunk_2x2))
  /\
  (exists cnt' res' scale q y,
      LmHeadTender.band_step lm_small Float16 chunk_2x2
        (LmHeadTender.thresholds_of 2 (lm_tmax chunk_2x2)) (lm_cmax chunk_2x2)
        ([0%nat], zeros Float16 [1%nat; 2%nat; 2%nat]) 1 = Ok (cnt', res')
      /\ sym_quant (@mkTensor 3 Float16 [1%nat; 2%nat; 2%nat] [[[0; 8]; [0; 4]]])
                   scale 4 = Ok q
      /\ sym_dequant q scale Float16 = Ok y
      /\ iadd (zeros Float16 [1%nat; 2%nat; 2%nat]) y = Ok res'
      /\ zeroed_outside 3 [[[false; true]; [false; true]]] (data chunk_2x2)
           [[[0; 8]; [0; 4]]]).
Proof.
  destruct band_masks_and_zeroing as (Hqk & Hsv & Hlm & _ & _ & _ & Hstep).
  split; [|split; [|split]].
  - eexists. split; [vm_compute; reflexivity|].
    eapply (Hqk 2%nat 1%nat (attn_tmax query_chunks_h4) (attn_cmax query_chunks_h4) 1%nat).
    + lia.
    + reflexivity.
    + intros p Hp. vm_compute in Hp. destruct Hp as [<-|[]]. reflexivity.
    + vm_compute. reflexivity.
  - eexists. split; [vm_compute; reflexivity|].
    eapply (Hsv 2%nat 1%nat 2%nat (attn_tmax scores_chunks_two)
                (attn_cmax scores_chunks_two) 1%nat).
    + lia.
    + reflexivity.
    + intros p Hp. vm_compute in Hp. destruct Hp as [<-|[<-|[]]]; reflexivity.
    + vm_compute. reflexivity.
  - apply (Hlm 2%nat (lm_tmax chunk_2x2) (lm_cmax chunk_2x2) 1%nat); [lia | reflexivity].
  - destruct (LmHeadTender.band_step lm_small Float16 chunk_2x2
                (LmHeadTender.thresholds_of 2 (lm_tmax chunk_2x2)) (lm_cmax chunk_2x2)
                ([0%nat], zeros Float16 [1%nat; 2%nat; 2%nat]) 1) as [[cnt' res']| |] eqn:E;
      [|vm_compute in E; discriminate|vm_compute in E; discriminate].
    destruct (Hstep lm_small Float16 chunk_2x2
                (LmHeadTender.thresholds_of 2 (lm_tmax chunk_2x2)) (lm_cmax chunk_2x2)
                [0%nat] (zeros Float16 [1%nat; 2%nat; 2%nat]) 1%nat cnt' res' E)
      as [_ Hne].
    assert (Hc : Nat.eqb (nth 1 cnt' 0%nat) 0 = false).
    { vm_compute in E. injection E as <- _. reflexivity. }
    destruct (Hne Hc) as (scale & q & y & _ & Hq & Hy & Hadd & _ & Hz).
    exists cnt', res', scale, q, y.
    split; [reflexivity|]. split; [exact Hq|]. split; [exact Hy|]. split; [exact Hadd|].
    apply (Hz [1%nat; 2%nat; 2%nat]); reflexivity.
Defined.

(** C4 as stated fails when a group index is supplied: the channel of the
    chunk of [query_chunks_one] has the largest magnitude of its chunk, so
    the thresholds put it in band 1 and leave band 0 empty; with the
    supplied index of [attn_indexed] the loop puts it in band 0. *)
Lemma supplied_group_index_counterexample :
  (exists count res self',
      LlamaAttention_Tender_Eval.qk_bands Float16 1 query_chunks_one
        (zeros (dtype query_chunks_one) (shape query_chunks_one)) attn_indexed
      = Ok ((count, res), self')
      /\ count = [1%nat; 0%nat])
  /\ map (fun i => @tcount 3 (batch_flags (band_inclusive 2 i)
                                (data (attn_cmax query_chunks_one))
                                (data (attn_tmax query_chunks_one))))
         (seq 0 2)
     = [0%nat; 1%nat]
  /\ (exists mask,
         LlamaAttention_Tender_Eval.qk_band_mask 1
           (LlamaAttention_Tender_Eval.thresholds_of 2 (attn_tmax query_chunks_one))
           (LlamaAttention_Tender_Eval.Indexed
              (@mkTensor 3 Float16 [1%nat; 1%nat; 1%nat] [[[0]]])) 0 = Ok mask
         /\ mdata mask = [[[true]]]
         /\ batch_flags (band_inclusive 2 0) (data (attn_cmax query_chunks_one))
                        (data (attn_tmax query_chunks_one)) = [[[false]]]).
Proof.
  split; [|split].
  - eexists. eexists. eexists. split; vm_compute; reflexivity.
  - vm_compute. reflexivity.
  - eexists. split; [vm_compute; reflexivity|]. split; vm_compute; reflexivity.
Qed.

(** * Further properties of the code *)

(** ** The weight of the LM head *)

Lemma max_list_abs_zero (row : list Q) :
  row <> [] ->
  (max_list (map Qabs row) == 0 <-> Forall (fun v => v == 0) row).
Proof.
  intros Hne.
  assert (Hne' : map Qabs row <> []) by (destruct row; simpl; congruence).
  split.
  - intros E. apply Forall_forall. intros v Hv.
    pose proof (max_list_ge (map Qabs row) (Qabs v) (in_map Qabs row v Hv)) as Hle.
    pose proof (Qabs_nonneg v) as H0.
    assert (Ea : Qabs v <= 0) by lra.
    apply Qabs_Qle_condition in Ea. lra.
  - intros Hz. pose proof (max_list_in _ Hne') as Hin.
    apply in_map_iff in Hin. destruct Hin as [v [E Hv]]. rewrite <- E.
    rewrite Forall_forall in Hz. rewrite (Hz v Hv). reflexivity.
Qed.

Lemma entries_column {A} (l : list A) : entries 2 (map (fun a => [a]) l) = l.
Proof.
  induction l as [|a l IH]; [reflexivity|].
  change (entries 2 (map (fun a => [a]) (a :: l)))
    with (a :: entries 2 (map (fun a => [a]) l)).
  rewrite IH. reflexivity.
Qed.

(** A row of zeros in the weight has the scale [0 / q_max = 0], which
    [sym_quant] refuses. *)
Lemma quantized_weight_zero_scale (self : LmHeadTender.t) (dt : DType) (W : Tensor 2)
        (vocab hw : nat) :
  wf W -> shape W = [vocab; hw] -> (0 < hw)%nat -> LmHeadTender.q_bits self <> 1%Z ->
  Exists (fun row => Forall (fun v => v == 0) row) (data W) ->
  LmHeadTender.quantized_weight self dt W = Raise ZeroScaleError.
Proof.
  intros [_ Hwf] Hs Hh Hq Hex. rewrite Hs in Hwf.
  apply (has_shape_S 1) in Hwf. destruct Hwf as [Hlen Hrows].
  rewrite Forall_forall in Hrows.
  assert (Hrow : forall row, In row (data W) -> row <> []).
  { intros row Hin. specialize (Hrows row Hin). apply (has_shape_S 0) in Hrows.
    destruct Hrows as [Hl _]. destruct row; simpl in *; [lia|congruence]. }
  assert (Hqm : is_zero (q_max_of (LmHeadTender.q_bits self)) = false).
  { apply is_zero_false_iff. rewrite q_max_of_zero_iff. exact Hq. }
  unfold LmHeadTender.quantized_weight, max_dim_last_keepdim, max_dim_last.
  unfold tabs, tlift. cbn [shape dtype data]. rewrite Hs. cbn [last removelast].
  destruct hw as [|hw]; [lia|]. cbn [Nat.eqb negb obind].
  unfold div_scalar. rewrite Hqm. cbn [andb obind].
  set (scale := tlift _ _).
  assert (Hent : entries 2 (data scale)
                 = map (fun row => max_list (map Qabs row)
                                   / q_max_of (LmHeadTender.q_bits self)) (data W)).
  { unfold scale, tlift, unsqueeze_last. cbn [data shape dtype].
    rewrite entries_tmap.
    transitivity (map (fun x => x / q_max_of (LmHeadTender.q_bits self))
                      (map max_list (map (map Qabs) (data W)))).
    - f_equal. exact (entries_column (map max_list (map (map Qabs) (data W)))).
    - rewrite !map_map. reflexivity. }
  assert (Hzero : Nat.eqb (count_zeros scale) 0 = false).
  { apply count_zeros_pos. rewrite Hent.
    apply Exists_exists in Hex. destruct Hex as [row [Hin Hz]].
    apply Exists_exists. exists (max_list (map Qabs row)
                                 / q_max_of (LmHeadTender.q_bits self)).
    split; [apply in_map_iff; exists row; auto|].
    rewrite (proj2 (max_list_abs_zero row (Hrow row Hin)) Hz).
    unfold Qdiv. ring. }
  rewrite sym_quant_unfold, Hzero. reflexivity.
Qed.

(** A row of zeros in the weight stops the forward pass of the LM head:
    the scale of that row is [0 / q_max = 0] and [sym_quant] raises its
    zero-scale assertion at line 1529, before the hidden states are looked
    at. *)
Theorem lm_forward_zero_weight_row
        (mx : forall n, Tensor n -> Tensor n) (self : LmHeadTender.t)
        (hs : Tensor 3) (W : Tensor 2) (vocab hw : nat) :
  wf W -> shape W = [vocab; hw] -> (0 < hw)%nat ->
  (2 <= LmHeadTender.q_bits self <= 64)%Z ->
  Exists (fun row => Forall (fun v => v == 0) row) (data W) ->
  LmHeadTender.forward mx self hs W = Raise ZeroScaleError.
Proof.
  intros Hw Hs Hh Hq Hz. unfold LmHeadTender.forward.
  assert (Hn : LmHeadTender.q_bits self <> 1%Z) by lia.
  rewrite (quantized_weight_zero_scale self (dtype hs) W vocab hw Hw Hs Hh Hn Hz).
  reflexivity.
Qed.

Lemma lm_forward_zero_weight_row_witness :
  LmHeadTender.forward mx_exact lm_small hidden_3x2 weight_zero_row = Raise ZeroScaleError.
Proof.
  apply (lm_forward_zero_weight_row mx_exact lm_small hidden_3x2 weight_zero_row 2 2).
  - split; reflexivity.
  - reflexivity.
  - lia.
  - simpl; lia.
  - right. left. repeat constructor.
Defined.

(** ** Inputs the LM head refuses *)

(** Once the weight is quantized, a chunk size of 0 ends the forward pass
    with the division by zero of [tgt_len / self.chunk_size], and, for a
    chunk size that is not 0, hidden states without a row end it with the
    assertion [chunks != 0]. *)
Theorem lm_forward_no_rows
        (mx : forall n, Tensor n -> Tensor n) (self : LmHeadTender.t)
        (hs : Tensor 3) (W Wl : Tensor 2) (bsz tgt hidden : nat) :
  LmHeadTender.quantized_weight self (dtype hs) W = Ok Wl ->
  shape hs = [bsz; tgt; hidden] ->
  (LmHeadTender.chunk_size self = 0%nat ->
   LmHeadTender.forward mx self hs W = Raise ZeroDivisionError)
  /\ (LmHeadTender.chunk_size self <> 0%nat -> (tgt * bsz)%nat = 0%nat ->
      LmHeadTender.forward mx self hs W = Raise EmptyInputError).
Proof.
  intros HW Hs. unfold LmHeadTender.forward. rewrite HW, Hs. cbn [obind].
  unfold reshape. rewrite Hs. cbn [numel fold_right length Nat.eqb].
  replace (Nat.eqb (tgt * bsz * (hidden * 1)) (bsz * (tgt * (hidden * 1)))) with true
    by (symmetry; apply Nat.eqb_eq; nia).
  cbn [andb obind]. unfold LmHeadTender.chunking. cbn [shape hd last].
  split.
  - intros E. rewrite E. cbn [Nat.eqb negb obind]. reflexivity.
  - intros Hcs Hz. destruct (LmHeadTender.chunk_size self) as [|cs] eqn:E; [congruence|].
    cbn [Nat.eqb negb]. rewrite Hz.
    rewrite (proj2 (proj2 (proj2 (ceil_div_spec 0 (S cs) ltac:(lia)))) eq_refl).
    reflexivity.
Qed.

Lemma lm_forward_no_rows_witness :
  LmHeadTender.forward mx_exact lm_no_chunk_rows hidden_3x2 weight_3x2
  = Raise ZeroDivisionError
  /\ LmHeadTender.forward mx_exact lm_small hidden_no_row weight_3x2
     = Raise EmptyInputError.
Proof.
  assert (HW : exists Wl, LmHeadTender.quantized_weight lm_small Float16 weight_3x2 = Ok Wl)
    by (eexists; vm_compute; reflexivity).
  destruct HW as [Wl HW].
  split.
  - apply (proj1 (lm_forward_no_rows mx_exact lm_no_chunk_rows hidden_3x2 weight_3x2 Wl
                    1 3 2 HW eq_refl)).
    reflexivity.
  - apply (proj2 (lm_forward_no_rows mx_exact lm_small hidden_no_row weight_3x2 Wl
                    1 0 2 HW eq_refl)).
    + discriminate.
    + reflexivity.
Defined.

(** ** The coverage check of the LM head *)

(** No operation on tensors raises the band-coverage error; only the checks
    on the counts do. *)
Lemma obind_never {A B} (e : error) (m : outcome A) (k : A -> outcome B) :
  m <> Raise e -> (forall a, m = Ok a -> k a <> Raise e) -> obind m k <> Raise e.
Proof.
  intros Hm Hk. destruct m as [a|e'|]; cbn [obind].
  - apply Hk. reflexivity.
  - intros E. apply Hm. injection E as ->. reflexivity.
  - discriminate.
Qed.

Lemma run_bands_never {R} (e : error)
      (step : list nat * R -> nat -> outcome (list nat * R)) (D : nat) (r0 : R) :
  (forall st i, step st i <> Raise e) -> run_bands step D r0 <> Raise e.
Proof.
  intros Hstep. unfold run_bands.
  assert (G : forall l acc, acc <> Raise e ->
             fold_left (fun acc i => obind acc (fun st => step st i)) l acc <> Raise e).
  { induction l as [|i l IH]; intros acc Hacc; simpl; [exact Hacc|].
    apply IH. apply obind_never; [exact Hacc|]. intros st _. apply Hstep. }
  apply G. discriminate.
Qed.

Ltac no_cov_step :=
  match goal with
  | |- Ok _ <> Raise _ => discriminate
  | |- Raise _ <> Raise _ => discriminate
  | |- NonFinite <> Raise _ => discriminate
  | |- obind _ _ <> Raise _ => apply obind_never; [|intros ? ?]
  | |- (if ?c then _ else _) <> Raise _ => destruct c
  | |- (let '(_, _) := ?p in _) <> Raise _ => destruct p
  | |- match ?l with [] => _ | _ :: _ => _ end <> Raise _ => destruct l
  | |- match ?d with Float16 => _ | _ => _ end <> Raise _ => destruct d
  end.

Ltac no_cov := repeat (cbn [obind]; no_cov_step).

Lemma tbinop_no_cov n (f : Q -> Q -> Q) (a b : Tensor n) :
  tbinop f a b <> Raise BandCoverageError.
Proof. unfold tbinop. no_cov. Qed.

Lemma sym_quant_no_cov n (x s : Tensor n) (b : Z) :
  sym_quant x s b <> Raise BandCoverageError.
Proof. rewrite sym_quant_unfold. no_cov. Qed.

Lemma sym_dequant_no_cov n (q s : Tensor n) (dt : DType) :
  sym_dequant q s dt <> Raise BandCoverageError.
Proof. rewrite sym_dequant_unfold. no_cov. Qed.

Lemma div_scalar_no_cov n (t : Tensor n) (c : Q) :
  div_scalar t c <> Raise BandCoverageError.
Proof. unfold div_scalar. no_cov. Qed.

Lemma iadd_no_cov n (r x : Tensor n) : iadd r x <> Raise BandCoverageError.
Proof. unfold iadd. no_cov. Qed.

Lemma isub_no_cov n (r x : Tensor n) : isub r x <> Raise BandCoverageError.
Proof. unfold isub. no_cov. Qed.

Lemma max_dim_last_no_cov n (t : Tensor (S n)) :
  max_dim_last t <> Raise BandCoverageError.
Proof. unfold max_dim_last. no_cov. Qed.

Lemma max_dim_last_keepdim_no_cov n (t : Tensor (S n)) :
  max_dim_last_keepdim t <> Raise BandCoverageError.
Proof. unfold max_dim_last_keepdim. no_cov. apply max_dim_last_no_cov. Qed.

Lemma reduce_dim_rows_no_cov n (f : list Q -> Q) (t : Tensor (S (S n))) :
  reduce_dim_rows f t <> Raise BandCoverageError.
Proof. unfold reduce_dim_rows. no_cov. Qed.

Lemma reshape_no_cov {m} n sh (t : Tensor m) :
  reshape n sh t <> Raise BandCoverageError.
Proof. unfold reshape. no_cov. Qed.

Lemma infer_dim_no_cov (total known : nat) :
  infer_dim total known <> Raise BandCoverageError.
Proof. unfold infer_dim. no_cov. Qed.

Lemma cat0_no_cov n (a b : Tensor (S n)) : cat0 a b <> Raise BandCoverageError.
Proof. unfold cat0. no_cov. Qed.

Lemma matmul_3_2_no_cov (a : Tensor 3) (b : Tensor 2) :
  matmul_3_2 a b <> Raise BandCoverageError.
Proof. unfold matmul_3_2. no_cov. Qed.

Lemma quant_bfloat_no_cov mx n (t : Tensor n) :
  quant_bfloat mx t <> Raise BandCoverageError.
Proof. unfold quant_bfloat. no_cov. Qed.

Lemma lm_quantized_weight_no_cov (self : LmHeadTender.t) dt W :
  LmHeadTender.quantized_weight self dt W <> Raise BandCoverageError.
Proof.
  unfold LmHeadTender.quantized_weight. no_cov;
    auto using max_dim_last_keepdim_no_cov, div_scalar_no_cov, sym_quant_no_cov,
               sym_dequant_no_cov.
Qed.

Lemma lm_chunking_no_cov cs hs : LmHeadTender.chunking cs hs <> Raise BandCoverageError.
Proof.
  unfold LmHeadTender.chunking. no_cov; auto using cat0_no_cov, reshape_no_cov.
Qed.

Lemma lm_trim_no_cov bsz tgt padded lm_out :
  LmHeadTender.trim bsz tgt padded lm_out <> Raise BandCoverageError.
Proof.
  unfold LmHeadTender.trim. no_cov; auto using infer_dim_no_cov, reshape_no_cov.
Qed.

Lemma lm_band_step_no_cov self dt hc thresholds cmax st i :
  LmHeadTender.band_step self dt hc thresholds cmax st i <> Raise BandCoverageError.
Proof.
  unfold LmHeadTender.band_step. destruct st as [cnt res]. no_cov;
    auto using div_scalar_no_cov, sym_quant_no_cov, sym_dequant_no_cov, iadd_no_cov.
Qed.

Lemma lm_bands_no_cov self dt hc :
  LmHeadTender.bands self dt hc <> Raise BandCoverageError.
Proof.
  unfold LmHeadTender.bands, max_dim_rows. no_cov;
    auto using max_dim_last_no_cov, reduce_dim_rows_no_cov.
  apply run_bands_never. intros st i. apply lm_band_step_no_cov.
Qed.

(** For hidden states of finite numbers (no NaN: the tensors here hold
    rational numbers) laid out as their shape says and at least one band,
    the forward pass of the LM head never ends in the assertion of line
    1582: whenever the loop over the bands completes, its counts sum to
    [hidden_dim * chunks]. *)
Theorem lm_forward_check_holds
        (mx : forall n, Tensor n -> Tensor n) (self : LmHeadTender.t)
        (hs : Tensor 3) (W : Tensor 2) :
  wf hs -> (0 < LmHeadTender.decomp_factor self)%nat ->
  LmHeadTender.forward mx self hs W <> Raise BandCoverageError.
Proof.
  intros Hwf HD. unfold LmHeadTender.forward.
  apply obind_never; [apply lm_quantized_weight_no_cov|]. intros Wl _.
  destruct (shape hs) as [|bsz [|tgt [|hidden [|]]]] eqn:Hs; try discriminate.
  apply obind_never; [apply reshape_no_cov|]. intros hs2 Hre.
  apply obind_never; [apply lm_chunking_no_cov|]. intros [chunks hc] Hch.
  destruct (reshape_wf 2 _ hs hs2 Hwf Hre) as [Hwf2 [Hs2 _]].
  destruct (lm_chunking_dims _ hs2 _ hidden _ Hs2 Hch) as [Hcs Hr].
  destruct (lm_chunking_ok _ hs2 _ hidden Hwf2 Hs2 Hcs Hr)
    as [hc0 [Hch0 [Hsc [Hwc _]]]].
  rewrite Hch0 in Hch. apply Ok_inj in Hch. injection Hch as Ec Eh. subst chunks hc0.
  apply obind_never.
  - unfold LmHeadTender.decompose.
    apply obind_never; [apply lm_bands_no_cov|]. intros [count result] Hb.
    destruct (lm_bands_dims self _ hc _ _ hidden _ Hsc Hb) as [_ Hh].
    destruct (lm_bands_counts self _ hc _ _ hidden count result Hsc Hcs Hh Hwc Hb)
      as [_ Hsum].
    rewrite Hsc. cbn [last]. rewrite (Hsum HD), Nat.eqb_refl. discriminate.
  - intros st _. no_cov;
      auto using matmul_3_2_no_cov, lm_trim_no_cov, quant_bfloat_no_cov.
Qed.

Lemma lm_forward_check_holds_witness :
  LmHeadTender.forward mx_exact lm_small hidden_3x2 weight_3x2
  <> Raise BandCoverageError.
Proof.
  apply (lm_forward_check_holds mx_exact lm_small hidden_3x2 weight_3x2).
  - split; reflexivity.
  - simpl; lia.
Defined.

(** Without a band the loop has no turn and the counts sum to 0: hidden
    states with a row and a channel end in the assertion of line 1582. *)
Theorem lm_forward_no_band
        (mx : forall n, Tensor n -> Tensor n) (self : LmHeadTender.t)
        (hs : Tensor 3) (W Wl : Tensor 2) (bsz tgt hidden : nat) :
  LmHeadTender.decomp_factor self = 0%nat ->
  LmHeadTender.quantized_weight self (dtype hs) W = Ok Wl ->
  wf hs -> shape hs = [bsz; tgt; hidden] ->
  (0 < tgt * bsz)%nat -> (0 < hidden)%nat -> (0 < LmHeadTender.chunk_size self)%nat ->
  LmHeadTender.forward mx self hs W = Raise BandCoverageError.
Proof.
  intros HD HW Hwf Hs Hr Hh Hcs. unfold LmHeadTender.forward. rewrite HW, Hs.
  cbn [obind].
  assert (Hre : exists hs2, reshape 2 [(tgt * bsz)%nat; hidden] hs = Ok hs2).
  { eexists. apply reshape_succeeds; [|reflexivity].
    rewrite Hs. cbn [numel fold_right]. nia. }
  destruct Hre as [hs2 Hre]. rewrite Hre. cbn [obind].
  destruct (reshape_wf 2 _ hs hs2 Hwf Hre) as [Hwf2 [Hs2 _]].
  destruct (lm_chunking_ok _ hs2 _ hidden Hwf2 Hs2 Hcs Hr)
    as [hc [Hch [Hsc [Hwc _]]]].
  rewrite Hch. cbn [obind].
  unfold LmHeadTender.decompose.
  rewrite (lm_bands_unfold self _ hc _ _ hidden Hsc Hcs Hh), HD.
  cbn [run_bands seq fold_left obind sum_list fold_right]. rewrite Hsc. cbn [last].
  destruct (ceil_div_spec (tgt * bsz) (LmHeadTender.chunk_size self) Hcs) as [_ [_ Hz]].
  destruct (Nat.eqb 0 (hidden * ceil_div (tgt * bsz) (LmHeadTender.chunk_size self))) eqn:E;
    [|reflexivity].
  apply Nat.eqb_eq in E. exfalso.
  assert (ceil_div (tgt * bsz) (LmHeadTender.chunk_size self) <> 0%nat)
    by (intros F; apply Hz in F; lia).
  nia.
Qed.

Lemma lm_forward_no_band_witness :
  LmHeadTender.forward mx_exact lm_no_band hidden_3x2 weight_3x2
  = Raise BandCoverageError.
Proof.
  assert (HW : exists Wl, LmHeadTender.quantized_weight lm_no_band Float16 weight_3x2 = Ok Wl)
    by (eexists; vm_compute; reflexivity).
  destruct HW as [Wl HW].
  apply (lm_forward_no_band mx_exact lm_no_band hidden_3x2 weight_3x2 Wl 1 3 2).
  - reflexivity.
  - exact HW.
  - split; reflexivity.
  - reflexivity.
  - simpl; lia.
  - lia.
  - simpl; lia.
Defined.

(** ** The dtype of the logits *)

Lemma lm_band_step_dtype (self : LmHeadTender.t) dt hc thresholds cmax cnt res i cnt' res' :
  LmHeadTender.band_step self dt hc thresholds cmax (cnt, res) i = Ok (cnt', res') ->
  dtype res' = dtype res.
Proof.
  unfold LmHeadTender.band_step.
  destruct (Nat.eqb (nth i (cnt ++ [_]) 0%nat) 0); intros H.
  - apply Ok_inj in H. injection H as _ <-. reflexivity.
  - apply obind_ok in H. destruct H as [scale [_ H]].
    apply obind_ok in H. destruct H as [q [_ H]].
    apply obind_ok in H. destruct H as [deq [_ H]].
    apply obind_ok in H. destruct H as [r [Hadd H]].
    apply Ok_inj in H. injection H as _ <-.
    unfold iadd in Hadd. destruct (_ && _); [|discriminate].
    apply Ok_inj in Hadd. subst r. reflexivity.
Qed.

Lemma lm_bands_dtype (self : LmHeadTender.t) dt hc count result :
  LmHeadTender.bands self dt hc = Ok (count, result) -> dtype result = dtype hc.
Proof.
  unfold LmHeadTender.bands. intros H.
  apply obind_ok in H. destruct H as [m [_ H]].
  apply obind_ok in H. destruct H as [tm [_ H]].
  apply obind_ok in H. destruct H as [cm [_ H]].
  revert H. apply (run_bands_inv (fun res => dtype res = dtype hc)).
  - reflexivity.
  - intros cnt res i cnt' res' _ Hres E.
    rewrite (lm_band_step_dtype _ _ _ _ _ _ _ _ _ _ E). exact Hres.
Qed.

Lemma lm_chunking_dtype cs hs chunks hc :
  LmHeadTender.chunking cs hs = Ok (chunks, hc) -> dtype hc = dtype hs.
Proof.
  unfold LmHeadTender.chunking.
  destruct (negb (Nat.eqb cs 0)); [|discriminate].
  destruct (negb (Nat.eqb (ceil_div _ cs) 0)); [|discriminate].
  intros H. apply obind_ok in H. destruct H as [x [Hx H]].
  apply obind_ok in H. destruct H as [y [Hy H]].
  apply Ok_inj in H. injection H as _ <-.
  apply (reshape_spec 3 _ x x) in Hy. destruct Hy as [_ [_ ->]]. cbn [dtype].
  destruct (Nat.ltb 0 _).
  - unfold cat0 in Hx. destruct (shape_eqb _ _); [|discriminate].
    apply Ok_inj in Hx. subst x. cbn [dtype]. apply promote_idem.
  - apply Ok_inj in Hx. subst x. reflexivity.
Qed.

Lemma lm_quantized_weight_dtype (self : LmHeadTender.t) dt W Wl :
  LmHeadTender.quantized_weight self dt W = Ok Wl -> dtype Wl = dt.
Proof.
  unfold LmHeadTender.quantized_weight. intros H.
  apply obind_ok in H. destruct H as [m [_ H]].
  apply obind_ok in H. destruct H as [scale [_ H]].
  apply obind_ok in H. destruct H as [q [_ H]].
  apply obind_ok in H. destruct H as [d [Hd H]].
  apply Ok_inj in H. subst Wl. cbn [transpose2 dtype].
  rewrite sym_dequant_unfold in Hd. destruct (broadcastable _ _); [|discriminate].
  apply Ok_inj in Hd. subst d. reflexivity.
Qed.

Lemma lm_trim_dtype bsz tgt padded lm_out logits :
  LmHeadTender.trim bsz tgt padded lm_out = Ok logits -> dtype logits = dtype lm_out.
Proof.
  unfold LmHeadTender.trim. intros H.
  apply obind_ok in H. destruct H as [v [_ H]].
  apply obind_ok in H. destruct H as [l2 [Hl2 H]].
  apply obind_ok in H. destruct H as [v2 [_ H]].
  apply (reshape_spec 3 _ _ (take_rows (bsz * tgt) l2)) in H. destruct H as [_ [_ ->]].
  apply (reshape_spec 2 _ lm_out lm_out) in Hl2. destruct Hl2 as [_ [_ ->]].
  reflexivity.
Qed.

(** The logits carry the dtype of the hidden states, and rounding them to
    bfloat16 asserts float32: with [quant_out_bf16] set, a forward pass
    returns only for float32 hidden states. *)
Theorem lm_forward_dtype
        (mx : forall n, Tensor n -> Tensor n) (self : LmHeadTender.t)
        (hs : Tensor 3) (W : Tensor 2) (logits : Tensor 3) :
  LmHeadTender.forward mx self hs W = Ok logits ->
  (LmHeadTender.quant_out_bf16 self = false -> dtype logits = dtype hs)
  /\ (LmHeadTender.quant_out_bf16 self = true -> dtype hs = Float32).
Proof.
  unfold LmHeadTender.forward. intros H.
  apply obind_ok in H. destruct H as [Wl [HWl H]].
  destruct (shape hs) as [|bsz [|tgt [|hidden [|]]]] eqn:Hs; try discriminate.
  apply obind_ok in H. destruct H as [hs2 [Hre H]].
  apply obind_ok in H. destruct H as [[chunks hc] [Hch H]].
  apply obind_ok in H. destruct H as [[count result] [Hdec H]].
  cbn [snd] in H.
  apply obind_ok in H. destruct H as [lm_out [Hmm H]].
  apply obind_ok in H. destruct H as [lg [Htrim H]].
  assert (Hd2 : dtype hs2 = dtype hs).
  { apply (reshape_spec 2 _ hs hs) in Hre. destruct Hre as [_ [_ ->]]. reflexivity. }
  pose proof (lm_chunking_dtype _ _ _ _ Hch) as Hdc.
  assert (Hdr : dtype result = dtype hs).
  { unfold LmHeadTender.decompose in Hdec.
    apply obind_ok in Hdec. destruct Hdec as [[c0 r0] [Hb Hdec]].
    destruct (Nat.eqb _ _); [|discriminate].
    apply Ok_inj in Hdec. injection Hdec as _ <-.
    rewrite (lm_bands_dtype _ _ _ _ _ Hb). congruence. }
  pose proof (lm_quantized_weight_dtype _ _ _ _ HWl) as HdW.
  assert (Hdl : dtype lm_out = dtype hs).
  { unfold matmul_3_2 in Hmm. destruct (Nat.eqb _ _); [|discriminate].
    apply Ok_inj in Hmm. subst lm_out. cbn [dtype]. rewrite Hdr, HdW.
    apply promote_idem. }
  pose proof (lm_trim_dtype _ _ _ _ _ Htrim) as Hdg.
  destruct (LmHeadTender.quant_out_bf16 self).
  - split; [discriminate|]. intros _.
    unfold quant_bfloat in H. rewrite Hdg, Hdl in H.
    destruct (dtype hs); try discriminate. reflexivity.
  - split; [|discriminate]. intros _. apply Ok_inj in H. subst logits. congruence.
Qed.

Lemma lm_forward_dtype_witness :
  exists logits,
    LmHeadTender.forward mx_exact lm_small hidden_3x2 weight_3x2 = Ok logits
    /\ dtype logits = Float16.
Proof.
  eexists. split; [vm_compute; reflexivity|].
  eapply (proj1 (lm_forward_dtype mx_exact lm_small hidden_3x2 weight_3x2 _ _)).
  reflexivity.
  Unshelve. vm_compute. reflexivity.
Defined.

(** ** The calibration attributes of the attention module *)

Module AttnTriple.
Import LlamaAttention_Tender_Eval.

Lemma triple_ret {A} (P Q : t -> Prop) (a : A) :
  (forall s, P s -> Q s) -> triple P (ret a) Q.
Proof. intros H s a' s' HP E. apply Ok_inj in E. injection E as _ <-. auto. Qed.

Lemma triple_lift {A} (P Q : t -> Prop) (o : outcome A) :
  (forall s, P s -> Q s) -> triple P (lift o) Q.
Proof.
  intros H s a s' HP E. apply AttnBands.lift_ok in E. destruct E as [_ ->]. auto.
Qed.

Lemma triple_get_bind {A} (P Q : t -> Prop) (k : t -> M A) :
  (forall self, P self -> triple P (k self) Q) -> triple P (bind get k) Q.
Proof. intros H s a s' HP E. exact (H s HP s a s' HP E). Qed.

Lemma triple_bind {A B} (P R Q : t -> Prop) (m : M A) (k : A -> M B) :
  triple P m R -> (forall a, triple R (k a) Q) -> triple P (bind m k) Q.
Proof.
  intros Hm Hk s b s' HP E. apply AttnBands.bind_ok in E.
  destruct E as (a & s1 & E1 & E2). exact (Hk a s1 b s' (Hm s a s1 HP E1) E2).
Qed.

Lemma triple_collect (P Q : t -> Prop) (upd : Collected -> Collected) :
  (forall s, P s -> Q (with_collected (upd (collected s)) s)) ->
  triple P (collect upd) Q.
Proof. intros H s a s' HP E. apply Ok_inj in E. injection E as _ <-. auto. Qed.

Lemma triple_modify (P Q : t -> Prop) (f : t -> t) :
  (forall s, P s -> Q (f s)) -> triple P (modify f) Q.
Proof. intros H s a s' HP E. apply Ok_inj in E. injection E as _ <-. auto. Qed.
End AttnTriple.

Module AttnCal.
Import LlamaAttention_Tender_Eval.
Import AttnTriple.

(** One step of a proof that a computation keeps an invariant [J]; [tac]
    closes the side conditions. *)
Ltac inv_step J tac :=
  match goal with
  | |- triple _ (bind get _) _ => apply triple_get_bind; intros ? ?
  | |- triple _ (bind _ _) _ => apply (triple_bind _ J); [|intros ?]
  | |- triple _ (ret _) _ => apply triple_ret; intros ? ?; assumption
  | |- triple _ (lift _) _ => apply triple_lift; intros ? ?; assumption
  | |- triple _ (collect _) _ => apply triple_collect; intros ? ?; tac
  | |- triple _ (modify _) _ => apply triple_modify; intros ? ?; tac
  | |- triple _ (match ?x with _ => _ end) _ => destruct x eqn:?; try solve [exfalso; tac]
  end.

Ltac inv_tac J tac := repeat inv_step J tac.

Ltac split_hyps := repeat match goal with H : _ /\ _ |- _ => destruct H end.

Ltac plain_tac :=
  split_hyps;
  try match goal with
      | H : quant_mha ?s = _, E : negb (quant_mha ?s) = _ |- _ =>
          rewrite H in E; discriminate
      end;
  cbn; auto.

(** Without quantization ([quant_mha] is [False]) a forward pass writes no
    [_cal] attribute. *)
Lemma forward_plain_triple math_sqrt mx project softmax o_proj hs mask oa (c0 : Collected) :
  triple (fun s => quant_mha s = false /\ collected s = c0)
         (forward math_sqrt mx project softmax o_proj hs mask oa)
         (fun s => quant_mha s = false /\ collected s = c0).
Proof.
  unfold forward.
  inv_tac (fun s => quant_mha s = false /\ collected s = c0) plain_tac.
Qed.

Ltac supplied_tac :=
  split_hyps;
  try match goal with
      | Hsup : supplied ?s = _, E : _ (supplied ?s) = None |- _ =>
          rewrite Hsup in E; rewrite E in *; cbn in *; discriminate
      end;
  cbn; auto.

(** A statistic whose attribute is supplied is not collected: its [_cal]
    attribute is left as it was. *)
Lemma forward_supplied_triple math_sqrt mx project softmax o_proj hs mask oa
      (f : cal_field) (s0 : Supplied) (v0 : option {n : nat & Tensor n}) :
  is_supplied f s0 = true ->
  triple (fun s => supplied s = s0 /\ cal_value f (collected s) = v0)
         (forward math_sqrt mx project softmax o_proj hs mask oa)
         (fun s => supplied s = s0 /\ cal_value f (collected s) = v0).
Proof.
  intros Hs. unfold forward, qk_block, sv_block, qk_bands, sv_bands.
  destruct f; cbn [is_supplied] in Hs;
    match goal with |- triple ?J _ _ => inv_tac J supplied_tac end.
Qed.

Lemma triple_raise {A} (P Q : t -> Prop) (e : error) :
  triple P (@lift A (Raise e)) Q.
Proof. intros s a s' _ E. discriminate. Qed.

Ltac quantized_tac :=
  split_hyps;
  try match goal with
      | H : quant_mha ?s = true, E : negb (quant_mha ?s) = true |- _ =>
          rewrite H in E; discriminate
      end;
  try match goal with
      | Hsup : supplied ?s = _, E : _ (supplied ?s) = Some _ |- _ =>
          rewrite Hsup in E; rewrite E in *; cbn in *; discriminate
      end;
  cbn; repeat split; auto; try discriminate.

(** One step towards the first [collect] of the statistic written by [upd]:
    [P] holds before it, [Q] from it on. *)
Ltac fill_step P Q upd :=
  match goal with
  | |- triple _ (bind get _) _ => apply triple_get_bind; intros ? ?
  | |- triple _ (bind ?m _) _ =>
      match m with
      | context [upd] =>
          apply (triple_bind _ Q); [|intros ?; inv_tac Q quantized_tac]
      | _ => apply (triple_bind _ P); [inv_tac P quantized_tac|intros ?]
      end
  | |- triple _ (collect _) _ => apply triple_collect; intros ? ?; quantized_tac
  | |- triple _ (lift (Raise _)) _ => apply triple_raise
  | |- triple _ (match ?x with _ => _ end) _ =>
      destruct x eqn:?; try solve [exfalso; quantized_tac]
  end.

Ltac fill_tac upd :=
  match goal with
  | |- triple ?P _ ?Q => repeat fill_step P Q upd
  end.

(** In a quantized forward pass that returns, every statistic whose
    attribute is not supplied is collected. *)
Lemma forward_missing_triple math_sqrt mx project softmax o_proj hs mask oa
      (f : cal_field) (s0 : Supplied) :
  is_supplied f s0 = false ->
  triple (fun s => supplied s = s0 /\ quant_mha s = true)
         (forward math_sqrt mx project softmax o_proj hs mask oa)
         (fun s => (supplied s = s0 /\ quant_mha s = true)
                   /\ cal_value f (collected s) <> None).
Proof.
  intros Hs. unfold forward, qk_block, sv_block, qk_bands, sv_bands.
  destruct f; cbn [is_supplied] in Hs.
  - fill_tac @with_k_ch_bias_cal.
  - fill_tac @with_q_ch_bias_cal.
  - fill_tac @with_q_tmax_cal.
  - fill_tac @with_q_cmax_cal.
  - fill_tac @with_k_scale_cal.
  - fill_tac @with_s_tmax_cal.
  - fill_tac @with_s_cmax_cal.
  - fill_tac @with_v_scale_cal.
Qed.
End AttnCal.

(** Without quantization ([quant_mha] is [False]) a forward pass of the
    attention module that returns has written no [_cal] attribute. *)
Theorem forward_unquantized_collects_nothing
        (math_sqrt : nat -> Q) (mx : forall n, Tensor n -> Tensor n)
        (project : Tensor 2 -> outcome (Tensor 4 * Tensor 4 * Tensor 4 * nat))
        (softmax : Tensor 4 -> Tensor 4) (o_proj : Tensor 3 -> outcome (Tensor 3))
        (hidden_states : Tensor 3) (attention_mask : option (Tensor 4))
        (output_attentions : bool)
        (self self' : LlamaAttention_Tender_Eval.t)
        (out : Tensor 3 * option (Tensor 4)) :
  LlamaAttention_Tender_Eval.quant_mha self = false ->
  LlamaAttention_Tender_Eval.forward math_sqrt mx project softmax o_proj
    hidden_states attention_mask output_attentions self = Ok (out, self') ->
  LlamaAttention_Tender_Eval.collected self' = LlamaAttention_Tender_Eval.collected self.
Proof.
  intros Hq H.
  apply (AttnCal.forward_plain_triple math_sqrt mx project softmax o_proj
           hidden_states attention_mask output_attentions
           (LlamaAttention_Tender_Eval.collected self) self out self'
           (conj Hq eq_refl) H).
Qed.

Lemma forward_unquantized_collects_nothing_witness :
  exists out self',
    LlamaAttention_Tender_Eval.forward sqrt_one mx_exact project_one softmax_one
      o_proj_id hidden_one None true attn_plain = Ok (out, self')
    /\ LlamaAttention_Tender_Eval.collected self'
       = LlamaAttention_Tender_Eval.collected attn_plain.
Proof.
  eexists. eexists. split; [vm_compute; reflexivity|].
  eapply (forward_unquantized_collects_nothing sqrt_one mx_exact project_one
            softmax_one o_proj_id hidden_one None true attn_plain).
  - reflexivity.
  - vm_compute. reflexivity.
Defined.

(** The cache-or-compute switch, on the side of the cache: in a forward
    pass that returns, a statistic whose attribute is supplied is not
    collected, its [_cal] attribute holds what it held before. *)
Theorem forward_skips_supplied
        (math_sqrt : nat -> Q) (mx : forall n, Tensor n -> Tensor n)
        (project : Tensor 2 -> outcome (Tensor 4 * Tensor 4 * Tensor 4 * nat))
        (softmax : Tensor 4 -> Tensor 4) (o_proj : Tensor 3 -> outcome (Tensor 3))
        (hidden_states : Tensor 3) (attention_mask : option (Tensor 4))
        (output_attentions : bool)
        (self self' : LlamaAttention_Tender_Eval.t)
        (out : Tensor 3 * option (Tensor 4)) (f : cal_field) :
  is_supplied f (LlamaAttention_Tender_Eval.supplied self) = true ->
  LlamaAttention_Tender_Eval.forward math_sqrt mx project softmax o_proj
    hidden_states attention_mask output_attentions self = Ok (out, self') ->
  cal_value f (LlamaAttention_Tender_Eval.collected self')
  = cal_value f (LlamaAttention_Tender_Eval.collected self).
Proof.
  intros Hs H.
  apply (AttnCal.forward_supplied_triple math_sqrt mx project softmax o_proj
           hidden_states attention_mask output_attentions f _ _ Hs
           self out self' (conj eq_refl eq_refl) H).
Qed.

Lemma forward_skips_supplied_witness :
  exists out self',
    LlamaAttention_Tender_Eval.forward sqrt_one mx_exact project_one softmax_one
      o_proj_id hidden_one None true attn_calibrated = Ok (out, self')
    /\ cal_value KChBias (LlamaAttention_Tender_Eval.collected self')
       = cal_value KChBias (LlamaAttention_Tender_Eval.collected attn_calibrated).
Proof.
  eexists. eexists. split; [vm_compute; reflexivity|].
  eapply (forward_skips_supplied sqrt_one mx_exact project_one
            softmax_one o_proj_id hidden_one None true attn_calibrated).
  - reflexivity.
  - vm_compute. reflexivity.
Defined.

(** The switch on the side of the computation: in a quantized forward pass
    that returns, every statistic whose attribute is not supplied has been
    computed and stored in its [_cal] attribute. *)
Theorem forward_collects_missing
        (math_sqrt : nat -> Q) (mx : forall n, Tensor n -> Tensor n)
        (project : Tensor 2 -> outcome (Tensor 4 * Tensor 4 * Tensor 4 * nat))
        (softmax : Tensor 4 -> Tensor 4) (o_proj : Tensor 3 -> outcome (Tensor 3))
        (hidden_states : Tensor 3) (attention_mask : option (Tensor 4))
        (output_attentions : bool)
        (self self' : LlamaAttention_Tender_Eval.t)
        (out : Tensor 3 * option (Tensor 4)) (f : cal_field) :
  LlamaAttention_Tender_Eval.quant_mha self = true ->
  is_supplied f (LlamaAttention_Tender_Eval.supplied self) = false ->
  LlamaAttention_Tender_Eval.forward math_sqrt mx project softmax o_proj
    hidden_states attention_mask output_attentions self = Ok (out, self') ->
  cal_value f (LlamaAttention_Tender_Eval.collected self') <> None.
Proof.
  intros Hq Hs H.
  apply (AttnCal.forward_missing_triple math_sqrt mx project softmax o_proj
           hidden_states attention_mask output_attentions f _ Hs
           self out self' (conj eq_refl Hq) H).
Qed.

Lemma forward_collects_missing_witness :
  exists out self',
    LlamaAttention_Tender_Eval.forward sqrt_one mx_exact project_one softmax_one
      o_proj_id hidden_one None true attn_calibrated = Ok (out, self')
    /\ cal_value QTmax (LlamaAttention_Tender_Eval.collected self') <> None.
Proof.
  eexists. eexists. split; [vm_compute; reflexivity|].
  eapply (forward_collects_missing sqrt_one mx_exact project_one
            softmax_one o_proj_id hidden_one None true attn_calibrated).
  - reflexivity.
  - reflexivity.
  - vm_compute. reflexivity.
Defined.


(** ** Attention masks *)

Lemma nth_error_seq0 (n i : nat) : (i < n)%nat -> nth_error (seq 0 n) i = Some i.
Proof.
  intros H. rewrite (nth_error_nth' _ 0%nat) by (rewrite length_seq; exact H).
  rewrite seq_nth by exact H. reflexivity.
Qed.

Lemma nth_error_map_seq {A} (F : nat -> A) (n i : nat) :
  (i < n)%nat -> nth_error (map F (seq 0 n)) i = Some (F i).
Proof. intros H. rewrite nth_error_map, nth_error_seq0 by exact H. reflexivity. Qed.

Lemma repeat_map_seq {A} (x : A) (n : nat) : repeat x n = map (fun _ => x) (seq 0 n).
Proof.
  generalize 0%nat. induction n as [|n IH]; intros s; simpl; [reflexivity|].
  rewrite <- IH. reflexivity.
Qed.

Lemma combine_map2_same {X A B C} (g : A -> B -> C) (f : X -> A) (h : X -> B) (l : list X) :
  map (fun p => g (fst p) (snd p)) (combine (map f l) (map h l))
  = map (fun x => g (f x) (h x)) l.
Proof. induction l as [|x l IH]; simpl; [reflexivity|]. rewrite IH. reflexivity. Qed.

Lemma bzip_map_same {X A B C} (g : A -> B -> C) (f : X -> A) (h : X -> B) (l : list X) :
  bzip g (map f l) (map h l) = map (fun x => g (f x) (h x)) l.
Proof.
  destruct l as [|a [|b l]]; try reflexivity.
  exact (combine_map2_same g f h (a :: b :: l)).
Qed.

Lemma bmap2_tmap_self {A B C} (f : B -> A -> C) (g : A -> B) n (t : tensor A n) :
  bmap2 f n (tmap g n t) t = tmap (fun x => f (g x) x) n t.
Proof.
  induction n as [|n IH]; [reflexivity|].
  cbn [bmap2 tmap].
  rewrite <- (map_id t) at 2. rewrite bzip_map_same.
  apply map_ext. intros a. apply IH.
Qed.

Lemma nth_error_bzip {A B C} (g : A -> B -> C) (xs : list A) (ys : list B) (i : nat) x y :
  length xs = length ys -> nth_error xs i = Some x -> nth_error ys i = Some y ->
  nth_error (bzip g xs ys) i = Some (g x y).
Proof.
  intros Hl Hx Hy.
  assert (E : bzip g xs ys = map (fun p => g (fst p) (snd p)) (combine xs ys)).
  { unfold bzip. destruct ys as [|y0 [|y1 ys]].
    - destruct xs; [reflexivity|discriminate].
    - destruct xs as [|x0 [|x1 xs]]; try discriminate. reflexivity.
    - destruct xs as [|x0 [|x1 xs]]; try discriminate. reflexivity. }
  rewrite E, nth_error_map. clear E.
  revert ys i Hl Hx Hy. induction xs as [|a xs IH]; intros [|b ys] i Hl Hx Hy;
    try discriminate; destruct i; simpl in *; try discriminate.
  - injection Hx as ->. injection Hy as ->. reflexivity.
  - apply IH; [lia|assumption|assumption].
Qed.

Lemma tnth_cons {A} (d : A) n (xs : list (tensor A n)) i idx x :
  nth_error xs i = Some x -> tnth d (S n) xs (i :: idx) = tnth d n x idx.
Proof.
  intros H.
  change (match nth_error xs i with Some x0 => tnth d n x0 idx | None => d end
          = tnth d n x idx).
  rewrite H. reflexivity.
Qed.

Lemma tnth_single {A} (d : A) n (x : tensor A n) idx :
  tnth d (S n) [x] (0%nat :: idx) = tnth d n x idx.
Proof. apply (tnth_cons d n [x] 0%nat idx x). reflexivity. Qed.

(** An index within the shape reaches an entry. *)
Lemma tnth_bmap2 {A B C} (dA : A) (dB : B) (dC : C) (f : A -> B -> C) n sh
      (a : tensor A n) (b : tensor B n) (idx : list nat) :
  has_shape n sh a = true -> has_shape n sh b = true -> in_range idx sh ->
  tnth dC n (bmap2 f n a b) idx = f (tnth dA n a idx) (tnth dB n b idx).
Proof.
  revert sh a b idx. induction n as [|n IH]; intros sh a b idx Ha Hb Hr.
  - reflexivity.
  - destruct sh as [|d sh]; [discriminate|].
    inversion Hr as [|i d' idx' sh' Hi Hr']; subst.
    apply has_shape_S in Ha. destruct Ha as [Hla Hfa].
    apply has_shape_S in Hb. destruct Hb as [Hlb Hfb].
    cbn [tnth bmap2].
    destruct (nth_error a i) as [x|] eqn:Ex;
      [|apply nth_error_None in Ex; lia].
    destruct (nth_error b i) as [y|] eqn:Ey;
      [|apply nth_error_None in Ey; lia].
    rewrite (nth_error_bzip _ a b i x y) by (try assumption; lia).
    apply (IH sh); [| |exact Hr'].
    + rewrite Forall_forall in Hfa. apply Hfa. eapply nth_error_In; eauto.
    + rewrite Forall_forall in Hfb. apply Hfb. eapply nth_error_In; eauto.
Qed.

Lemma In_entries_tnth {A} (d : A) n sh (t : tensor A n) (x : A) :
  has_shape n sh t = true ->
  (In x (entries n t) <-> exists idx, in_range idx sh /\ tnth d n t idx = x).
Proof.
  revert sh t. induction n as [|n IH]; intros sh t Ht.
  - destruct sh; [|discriminate]. cbn [entries tnth]. split.
    + intros [H|[]]. exists []. split; [constructor|exact H].
    + intros [idx [_ H]]. left. exact H.
  - destruct sh as [|k sh]; [discriminate|].
    apply has_shape_S in Ht. destruct Ht as [Hl Hf]. rewrite Forall_forall in Hf.
    cbn [entries]. rewrite in_flat_map. split.
    + intros [y [Hy Hx]]. apply In_nth_error in Hy. destruct Hy as [i Hi].
      apply (IH sh y) in Hx; [|apply Hf; eapply nth_error_In; eauto].
      destruct Hx as [idx [Hr Hx]]. exists (i :: idx). split.
      * constructor; [|exact Hr]. rewrite <- Hl. apply nth_error_Some.
        intros E. pose proof (eq_trans (eq_sym Hi) E) as F. discriminate F.
      * rewrite (tnth_cons d n t i idx y Hi). exact Hx.
    + intros [idx [Hr Hx]]. destruct idx as [|i idx']; [inversion Hr|].
      apply Forall2_cons_iff in Hr. destruct Hr as [Hi Hr'].
      destruct (nth_error t i) as [y|] eqn:Ey; [|apply nth_error_None in Ey; lia].
      rewrite (tnth_cons d n t i idx' y Ey) in Hx.
      exists y. split; [eapply nth_error_In; eauto|].
      apply (IH sh y); [apply Hf; eapply nth_error_In; eauto|]. eauto.
Qed.

Lemma finfo_min_neg (d : DType) : finfo_min d < 0.
Proof. destruct d; vm_compute; reflexivity. Qed.

Lemma in_range4 (idx : list nat) (a b c d : nat) :
  in_range idx [a; b; c; d] <->
  exists i j k l, idx = [i; j; k; l] /\ (i < a /\ j < b /\ k < c /\ l < d)%nat.
Proof.
  unfold in_range. split.
  - intros H. inversion H as [|i ? t1 ? Hi H1]; subst.
    inversion H1 as [|j ? t2 ? Hj H2]; subst.
    inversion H2 as [|k ? t3 ? Hk H3]; subst.
    inversion H3 as [|l ? t4 ? Hll H4]; subst.
    inversion H4; subst. exists i, j, k, l. auto.
  - intros [i [j [k [l [-> [Hi [Hj [Hk Hll]]]]]]]]. repeat constructor; assumption.
Qed.

Lemma seq_add_map (s n : nat) : seq s n = map (fun j => (s + j)%nat) (seq 0 n).
Proof.
  induction s as [|s IH]; [symmetry; apply map_id|].
  rewrite <- seq_shift, IH, map_map. reflexivity.
Qed.

(** The causal mask, entry by entry. *)
Lemma causal_data (v : Q) (tgt past : nat) :
  let mask : tensor Q 2 := repeat (repeat v tgt) tgt in
  let cond : tensor bool 2 :=
    map (fun bound => map (fun c => Nat.ltb c bound) (seq 0 tgt)) (map S (seq 0 tgt)) in
  (if Nat.ltb 0 past
   then map (fun row => repeat 0 past ++ row) (masked_fill cond 0 mask)
   else masked_fill cond 0 mask)
  = map (fun i => map (fun j => if Nat.leb j (i + past) then 0 else v)
                      (seq 0 (tgt + past))) (seq 0 tgt).
Proof.
  intros mask cond.
  assert (E : masked_fill cond 0 mask
              = map (fun i => map (fun j => if Nat.ltb j (S i) then 0 else v) (seq 0 tgt))
                    (seq 0 tgt)).
  { unfold masked_fill, cond, mask. cbn [bmap2].
    rewrite map_map, (repeat_map_seq (repeat v tgt)), bzip_map_same.
    apply map_ext. intros i.
    rewrite (repeat_map_seq v), bzip_map_same. reflexivity. }
  rewrite E. clear E.
  assert (R : forall i,
             repeat 0 past ++ map (fun j => if Nat.ltb j (S i) then 0 else v) (seq 0 tgt)
             = map (fun j => if Nat.leb j (i + past) then 0 else v) (seq 0 (tgt + past))).
  { intros i. rewrite (Nat.add_comm tgt past), seq_app, map_app. f_equal.
    - rewrite repeat_map_seq. apply map_ext_in. intros j Hj. apply in_seq in Hj.
      destruct (Nat.leb_spec j (i + past)); [reflexivity|lia].
    - cbn [Nat.add]. rewrite (seq_add_map past), map_map.
      apply map_ext. intros j.
      destruct (Nat.ltb_spec j (S i)), (Nat.leb_spec (past + j) (i + past));
        try reflexivity; lia. }
  destruct (Nat.ltb_spec 0 past) as [Hp|Hp].
  - rewrite map_map. apply map_ext. intros i. apply R.
  - assert (past = 0%nat) by lia. subst past.
    apply map_ext. intros i. rewrite <- R. reflexivity.
Qed.

Lemma tnth_tmap {A B} (dA : A) (dB : B) (f : A -> B) n sh (a : tensor A n) (idx : list nat) :
  has_shape n sh a = true -> in_range idx sh ->
  tnth dB n (tmap f n a) idx = f (tnth dA n a idx).
Proof.
  revert sh a idx. induction n as [|n IH]; intros sh a idx Ha Hr.
  - reflexivity.
  - destruct sh as [|d sh]; [discriminate|].
    destruct idx as [|i idx]; [inversion Hr|].
    apply Forall2_cons_iff in Hr. destruct Hr as [Hi Hr].
    apply has_shape_S in Ha. destruct Ha as [Hl Hf]. rewrite Forall_forall in Hf.
    destruct (nth_error a i) as [x|] eqn:Ex; [|apply nth_error_None in Ex; lia].
    rewrite (tnth_cons dA n a i idx x Ex).
    assert (Em : nth_error (map (tmap f n) a) i = Some (tmap f n x))
      by (rewrite nth_error_map; exact (f_equal (option_map (tmap f n)) Ex)).
    change (tmap f (S n) a) with (map (tmap f n) a).
    rewrite (tnth_cons dB n _ i idx _ Em).
    apply (IH sh); [|exact Hr]. apply Hf. eapply nth_error_In; eauto.
Qed.

Lemma has_shape_repeat {A} n k sh (x : tensor A n) :
  has_shape n sh x = true -> has_shape (S n) (k :: sh) (repeat x k) = true.
Proof.
  intros H. apply has_shape_S. split; [apply repeat_length|].
  apply Forall_forall. intros y Hy. apply repeat_spec in Hy. subst y. exact H.
Qed.

Lemma has_shape_rows {A} (F : nat -> nat -> A) (r c : nat) :
  has_shape 2 [r; c] (map (fun i => map (F i) (seq 0 c)) (seq 0 r)) = true.
Proof.
  apply (has_shape_S 1). split; [rewrite length_map, length_seq; reflexivity|].
  apply Forall_forall. intros row Hrow. apply in_map_iff in Hrow.
  destruct Hrow as [i [<- _]].
  apply (has_shape_S 0). split; [rewrite length_map, length_seq; reflexivity|].
  apply Forall_forall. intros; reflexivity.
Qed.

Lemma forallb_false_ex {A} (f : A -> bool) (l : list A) :
  forallb f l = false -> exists x, In x l /\ f x = false.
Proof.
  induction l as [|a l IH]; simpl; [discriminate|].
  destruct (f a) eqn:E; simpl; intros H.
  - destruct (IH H) as [x [Hx Hf]]. exists x. auto.
  - exists a. auto.
Qed.

Section MaskFacts.
Variable default_dtype_scalar : Q -> outcome Q.

Lemma causal_mask_spec (bsz tgt past : nat) (dt : DType) :
  default_dtype_scalar (finfo_min dt) = Ok (finfo_min dt) ->
  exists m,
    _make_causal_mask default_dtype_scalar (bsz, tgt) dt past = Ok m
    /\ wf m /\ shape m = [bsz; 1%nat; tgt; (tgt + past)%nat] /\ dtype m = dt
    /\ forall b i j, (b < bsz)%nat -> (i < tgt)%nat -> (j < tgt + past)%nat ->
         tnth 0 4 (data m) [b; 0%nat; i; j]
         = if Nat.leb j (i + past) then 0 else finfo_min dt.
Proof.
  intros Hf. unfold _make_causal_mask. rewrite Hf. cbn [obind]. cbv zeta.
  rewrite (causal_data (finfo_min dt) tgt past).
  eexists. split; [reflexivity|]. cbn [shape dtype data].
  split; [|split; [reflexivity|split; [reflexivity|]]].
  - split; [reflexivity|]. cbn [shape data].
    apply (has_shape_repeat 3). apply (has_shape_S 2). split; [reflexivity|].
    constructor; [|constructor]. apply has_shape_rows.
  - intros b i j Hb Hi Hj.
    rewrite (tnth_cons 0 3 _ b _ _ (nth_error_repeat _ Hb)).
    rewrite (tnth_single 0 2).
    rewrite (tnth_cons 0 1 _ i _ _ (nth_error_map_seq _ tgt i Hi)).
    rewrite (tnth_cons 0 0 _ j _ _ (nth_error_map_seq _ (tgt + past) j Hj)).
    reflexivity.
Qed.

Lemma expand_mask_spec (mask : Tensor 2) (dt : DType) (tgt_len : option nat)
      (bsz src : nat) :
  wf mask -> shape mask = [bsz; src] ->
  let T := match tgt_len with Some t => t | None => src end in
  exists m,
    _expand_mask mask dt tgt_len = Ok m
    /\ wf m /\ shape m = [bsz; 1%nat; T; src] /\ dtype m = dt
    /\ forall b i j, (b < bsz)%nat -> (i < T)%nat -> (j < src)%nat ->
         let a := tnth 0 2 (data mask) [b; j] in
         (a == 1 -> tnth 0 4 (data m) [b; 0%nat; i; j] == 0)
         /\ (~ a == 1 -> tnth 0 4 (data m) [b; 0%nat; i; j] = finfo_min dt).
Proof.
  intros [_ Hw] Hs T. rewrite Hs in Hw. unfold _expand_mask. rewrite Hs.
  fold T. cbv zeta.
  unfold masked_fill, to_bool. rewrite bmap2_tmap_self, tmap_tmap.
  set (F := fun x : Q => if negb (is_zero (1 - x)) then finfo_min dt else 1 - x).
  set (E := map (fun row : list Q => [repeat row T]) (data mask)).
  apply (has_shape_S 1) in Hw. destruct Hw as [Hl Hrows]. rewrite Forall_forall in Hrows.
  assert (HE : has_shape 4 [bsz; 1%nat; T; src] (E : tensor Q 4) = true).
  { apply (has_shape_S 3). split; [unfold E; rewrite length_map; exact Hl|].
    apply Forall_forall. intros x Hx. apply in_map_iff in Hx. destruct Hx as [row [<- Hrow]].
    apply (has_shape_S 2). split; [reflexivity|]. constructor; [|constructor].
    apply (has_shape_repeat 1). apply Hrows. exact Hrow. }
  eexists. split; [reflexivity|]. cbn [shape dtype data].
  split; [|split; [reflexivity|split; [reflexivity|]]].
  - split; [reflexivity|]. cbn [shape data]. rewrite has_shape_tmap. exact HE.
  - intros b i j Hb Hi Hj. set (a := tnth 0 2 (data mask) [b; j]).
    assert (Hr : in_range [b; 0%nat; i; j] [bsz; 1%nat; T; src])
      by (repeat constructor; assumption).
    rewrite (tnth_tmap 0 0 _ 4 _ (E : tensor Q 4) _ HE Hr).
    assert (Ea : tnth 0 4 (E : tensor Q 4) [b; 0%nat; i; j] = a).
    { destruct (nth_error (data mask) b) as [row|] eqn:Erow;
        [|apply nth_error_None in Erow; lia].
      assert (E1 : nth_error E b = Some [repeat row T])
        by (unfold E; rewrite nth_error_map;
            exact (f_equal (option_map (fun row : list Q => [repeat row T])) Erow)).
      rewrite (tnth_cons 0 3 E b _ _ E1).
      rewrite (tnth_single 0 2).
      rewrite (tnth_cons 0 1 _ i _ _ (nth_error_repeat _ Hi)).
      unfold a. rewrite (tnth_cons 0 1 (data mask) b _ _ Erow). reflexivity. }
    rewrite Ea. unfold F, is_zero. split; intros Ha.
    + destruct (Qeq_bool (1 - a) 0) eqn:Ez; cbn [negb]; [lra|].
      exfalso. apply Qeq_bool_neq in Ez. apply Ez. lra.
    + destruct (Qeq_bool (1 - a) 0) eqn:Ez; cbn [negb]; [|reflexivity].
      exfalso. apply Qeq_bool_iff in Ez. apply Ha. lra.
Qed.
End MaskFacts.

Section DecoderMask.
Variable default_dtype_scalar : Q -> outcome Q.
Variables (am : Tensor 2) (dt : DType) (bsz tgt past : nat).
Hypothesis Hscalar : default_dtype_scalar (finfo_min dt) = Ok (finfo_min dt).
Hypothesis Hwf : wf am.
Hypothesis Hshape : shape am = [bsz; (tgt + past)%nat].
Hypothesis Htgt : (1 < tgt)%nat.

(** A key position is visible to a query position when it is not masked
    and not in the future. *)
Let visible (b i j : nat) : Prop :=
  tnth 0 2 (data am) [b; j] == 1 /\ (j <= i + past)%nat.

Lemma decoder_mask_cases :
  exists s : tensor Q 4,
    has_shape 4 [bsz; 1%nat; tgt; (tgt + past)%nat] s = true
    /\ _prepare_decoder_attention_mask default_dtype_scalar (Some am) (bsz, tgt) dt past
       = (if forallb (finite_in dt) (entries 4 s)
          then Ok (Some (@mkTensor 4 dt [bsz; 1%nat; tgt; (tgt + past)%nat] s))
          else NonFinite)
    /\ forall b i j, (b < bsz)%nat -> (i < tgt)%nat -> (j < tgt + past)%nat ->
         let x := tnth 0 4 s [b; 0%nat; i; j] in
         (visible b i j -> x == 0)
         /\ (~ visible b i j -> x <= finfo_min dt)
         /\ (finite_in dt x = false <->
             ~ tnth 0 2 (data am) [b; j] == 1 /\ (i + past < j)%nat)
         /\ (finite_in dt x = true -> ~ visible b i j -> x == finfo_min dt).
Proof.
  destruct (causal_mask_spec default_dtype_scalar bsz tgt past dt Hscalar)
    as [C [HC [[_ HwC] [HsC [HdC HeC]]]]].
  destruct (expand_mask_spec am dt (Some tgt) bsz (tgt + past) Hwf Hshape)
    as [E [HE [[_ HwE] [HsE [HdE HeE]]]]].
  rewrite HsC in HwC. rewrite HsE in HwE.
  exists (bmap2 Qplus 4 (data E) (data C)). split; [|split].
  - pose proof (has_shape_bmap2 Qplus 4 _ _ _ _ HwE HwC
                  (proj1 (bshape_refl _))) as H.
    rewrite (proj2 (bshape_refl _)) in H. exact H.
  - unfold _prepare_decoder_attention_mask. cbn [snd].
    destruct (Nat.ltb_spec 1 tgt) as [_|]; [|lia].
    rewrite HC. cbn [obind]. rewrite HE. cbn [obind].
    unfold mask_add, tbinop. rewrite HsE, HsC, HdE, HdC.
    rewrite (proj1 (bshape_refl _)), (proj2 (bshape_refl _)), promote_idem.
    cbn [obind dtype data].
    destruct (forallb (finite_in dt) _); reflexivity.
  - intros b i j Hb Hi Hj.
    assert (Hr : in_range [b; 0%nat; i; j] [bsz; 1%nat; tgt; (tgt + past)%nat])
      by (repeat constructor; assumption).
    rewrite (tnth_bmap2 0 0 0 Qplus 4 _ (data E) (data C) _ HwE HwC Hr).
    rewrite (HeC b i j Hb Hi Hj).
    destruct (HeE b i j Hb Hi Hj) as [He1 He0].
    pose proof (finfo_min_neg dt) as Hneg.
    unfold visible, finite_in.
    set (e := tnth 0 4 (data E) [b; 0%nat; i; j]) in *.
    set (a := tnth 0 2 (data am) [b; j]) in *.
    set (m := finfo_min dt) in *.
    destruct (Qeq_dec a 1) as [Ha|Ha]; destruct (Nat.leb_spec j (i + past)) as [Hj'|Hj'].
    + specialize (He1 Ha).
      assert (Hfin : Qle_bool m (e + 0) && Qle_bool (e + 0) (- m) = true)
        by (apply andb_true_iff; split; apply Qle_bool_iff; lra).
      rewrite Hfin. split; [|split; [|split; [split|]]].
      * intros _. lra.
      * intros H. exfalso. apply H. auto.
      * discriminate.
      * intros [H _]. contradiction.
      * intros _ H. exfalso. apply H. auto.
    + specialize (He1 Ha).
      assert (Hfin : Qle_bool m (e + m) && Qle_bool (e + m) (- m) = true)
        by (apply andb_true_iff; split; apply Qle_bool_iff; lra).
      rewrite Hfin. split; [|split; [|split; [split|]]].
      * intros [_ H]. lia.
      * intros _. lra.
      * discriminate.
      * intros [H _]. contradiction.
      * intros _ _. lra.
    + specialize (He0 Ha). rewrite He0.
      assert (Hfin : Qle_bool m (m + 0) && Qle_bool (m + 0) (- m) = true)
        by (apply andb_true_iff; split; apply Qle_bool_iff; lra).
      rewrite Hfin. split; [|split; [|split; [split|]]].
      * intros [H _]. contradiction.
      * intros _. lra.
      * discriminate.
      * intros [_ H]. lia.
      * intros _ _. lra.
    + specialize (He0 Ha). rewrite He0.
      assert (Hfin : Qle_bool m (m + m) && Qle_bool (m + m) (- m) = false).
      { apply andb_false_iff. left. apply not_true_iff_false.
        intros H. apply Qle_bool_iff in H. lra. }
      rewrite Hfin. split; [|split; [|split; [split|]]].
      * intros [H _]. contradiction.
      * intros _. lra.
      * intros _. split; [exact Ha|exact Hj'].
      * reflexivity.
      * discriminate.
Qed.
End DecoderMask.

(** The causal mask has the shape [[bsz, 1, tgt_len, tgt_len + past]] and
    the dtype asked for; its entry for query position [i] and key position
    [j] is 0 when [j <= i + past] and [finfo(dtype).min] when the key lies
    in the future.  ([torch.full] is called without a dtype: the minimum
    has to be a value of the default dtype.) *)
Theorem causal_mask_entries (default_dtype_scalar : Q -> outcome Q)
        (bsz tgt past : nat) (dt : DType) :
  default_dtype_scalar (finfo_min dt) = Ok (finfo_min dt) ->
  exists m,
    _make_causal_mask default_dtype_scalar (bsz, tgt) dt past = Ok m
    /\ wf m /\ shape m = [bsz; 1%nat; tgt; (tgt + past)%nat] /\ dtype m = dt
    /\ forall b i j, (b < bsz)%nat -> (i < tgt)%nat -> (j < tgt + past)%nat ->
         tnth 0 4 (data m) [b; 0%nat; i; j]
         = if Nat.leb j (i + past) then 0 else finfo_min dt.
Proof. apply causal_mask_spec. Qed.

Lemma causal_mask_entries_witness :
  exists m,
    _make_causal_mask scalar_exact (2%nat, 2%nat) Float16 1 = Ok m
    /\ wf m /\ shape m = [2%nat; 1%nat; 2%nat; 3%nat] /\ dtype m = Float16
    /\ forall b i j, (b < 2)%nat -> (i < 2)%nat -> (j < 2 + 1)%nat ->
         tnth 0 4 (data m) [b; 0%nat; i; j]
         = if Nat.leb j (i + 1) then 0 else finfo_min Float16.
Proof. apply (causal_mask_entries scalar_exact 2 2 1 Float16). reflexivity. Defined.

(** The expanded padding mask has the shape [[bsz, 1, tgt_len, src_len]]
    ([tgt_len] defaults to [src_len]); its entry for key position [j] of
    sequence [b] is 0 where the mask holds 1 and [finfo(dtype).min] where
    it holds anything else, whatever the query position. *)
Theorem expand_mask_entries (mask : Tensor 2) (dt : DType) (tgt_len : option nat)
        (bsz src : nat) :
  wf mask -> shape mask = [bsz; src] ->
  exists m,
    _expand_mask mask dt tgt_len = Ok m
    /\ wf m
    /\ shape m = [bsz; 1%nat; match tgt_len with Some t => t | None => src end; src]
    /\ dtype m = dt
    /\ forall b i j, (b < bsz)%nat ->
         (i < match tgt_len with Some t => t | None => src end)%nat -> (j < src)%nat ->
         (tnth 0 2 (data mask) [b; j] == 1 -> tnth 0 4 (data m) [b; 0%nat; i; j] == 0)
         /\ (~ tnth 0 2 (data mask) [b; j] == 1 ->
             tnth 0 4 (data m) [b; 0%nat; i; j] = finfo_min dt).
Proof. intros Hw Hs. apply (expand_mask_spec mask dt tgt_len bsz src Hw Hs). Qed.

Lemma expand_mask_entries_witness :
  exists m,
    _expand_mask mask_left_pad Float16 None = Ok m
    /\ wf m /\ shape m = [1%nat; 1%nat; 3%nat; 3%nat] /\ dtype m = Float16
    /\ forall b i j, (b < 1)%nat -> (i < 3)%nat -> (j < 3)%nat ->
         (tnth 0 2 (data mask_left_pad) [b; j] == 1
          -> tnth 0 4 (data m) [b; 0%nat; i; j] == 0)
         /\ (~ tnth 0 2 (data mask_left_pad) [b; j] == 1 ->
             tnth 0 4 (data m) [b; 0%nat; i; j] = finfo_min Float16).
Proof.
  apply (expand_mask_entries mask_left_pad Float16 None 1 3).
  - split; reflexivity.
  - reflexivity.
Defined.

(** With more than one query position, the causal mask and the expanded
    padding mask are added; where both hold [finfo.min] the sum leaves the
    dtype (it is [-inf] in torch).  This happens exactly when a key position
    after the first new one is masked in some sequence. *)
Theorem decoder_mask_overflow (default_dtype_scalar : Q -> outcome Q)
        (am : Tensor 2) (dt : DType) (bsz tgt past : nat) :
  default_dtype_scalar (finfo_min dt) = Ok (finfo_min dt) ->
  wf am -> shape am = [bsz; (tgt + past)%nat] -> (1 < tgt)%nat ->
  (_prepare_decoder_attention_mask default_dtype_scalar (Some am) (bsz, tgt) dt past
   = NonFinite
   <-> exists b j, (b < bsz)%nat /\ (past < j < tgt + past)%nat
                   /\ ~ tnth 0 2 (data am) [b; j] == 1).
Proof.
  intros Hf Hw Hs Ht.
  destruct (decoder_mask_cases default_dtype_scalar am dt bsz tgt past Hf Hw Hs Ht)
    as [s [Hsh [Heq Hent]]].
  rewrite Heq. destruct (forallb (finite_in dt) (entries 4 s)) eqn:Hfb.
  - split; [discriminate|]. intros [b [j [Hb [Hj Ha]]]]. exfalso.
    assert (Hi : (0 < tgt)%nat) by lia.
    destruct (Hent b 0%nat j Hb Hi (proj2 Hj)) as [_ [_ [[_ Hfalse] _]]].
    assert (Hin : In (tnth 0 4 s [b; 0%nat; 0%nat; j]) (entries 4 s)).
    { apply (In_entries_tnth 0 4 _ s _ Hsh). eexists. split; [|reflexivity].
      repeat constructor; lia. }
    rewrite forallb_forall in Hfb. rewrite (Hfb _ Hin) in Hfalse.
    assert (true = false) by (apply Hfalse; split; [exact Ha|lia]). discriminate.
  - split; [intros _|reflexivity].
    apply forallb_false_ex in Hfb. destruct Hfb as [x [Hin Hx]].
    apply (In_entries_tnth 0 4 _ s _ Hsh) in Hin. destruct Hin as [idx [Hr Hidx]].
    apply in_range4 in Hr. destruct Hr as [b [h [i [j [-> [Hb [Hh [Hi Hj]]]]]]]].
    assert (h = 0%nat) by lia. subst h x.
    destruct (Hent b i j Hb Hi Hj) as [_ [_ [[Hfalse _] _]]].
    destruct (Hfalse Hx) as [Ha Hlt].
    exists b, j. split; [exact Hb|]. split; [lia|exact Ha].
Qed.

Lemma decoder_mask_overflow_witness :
  _prepare_decoder_attention_mask scalar_exact (Some mask_right_pad)
    (1%nat, 3%nat) Float16 0 = NonFinite
  <-> exists b j, (b < 1)%nat /\ (0 < j < 3 + 0)%nat
                  /\ ~ tnth 0 2 (data mask_right_pad) [b; j] == 1.
Proof.
  apply (decoder_mask_overflow scalar_exact mask_right_pad Float16 1 3 0).
  - reflexivity.
  - split; reflexivity.
  - reflexivity.
  - lia.
Defined.

(** With more than one query position and an attention mask that hides no
    key position after the first new one, the two masks are never both
    [finfo.min] at an entry, so their sum stays in the dtype: the decoder
    mask is returned, 0 where the key position is visible (its padding mask
    holds 1 and it is not after the query position) and [finfo(dtype).min]
    everywhere else. *)
Theorem decoder_mask_visible_entries (default_dtype_scalar : Q -> outcome Q)
        (am : Tensor 2) (dt : DType) (bsz tgt past : nat) :
  default_dtype_scalar (finfo_min dt) = Ok (finfo_min dt) ->
  wf am -> shape am = [bsz; (tgt + past)%nat] -> (1 < tgt)%nat ->
  (forall b j, (b < bsz)%nat -> (past < j < tgt + past)%nat ->
               tnth 0 2 (data am) [b; j] == 1) ->
  exists m,
    _prepare_decoder_attention_mask default_dtype_scalar (Some am) (bsz, tgt) dt past
    = Ok (Some m)
    /\ wf m /\ shape m = [bsz; 1%nat; tgt; (tgt + past)%nat] /\ dtype m = dt
    /\ forall b i j, (b < bsz)%nat -> (i < tgt)%nat -> (j < tgt + past)%nat ->
         (tnth 0 2 (data am) [b; j] == 1 /\ (j <= i + past)%nat ->
          tnth 0 4 (data m) [b; 0%nat; i; j] == 0)
         /\ (~ (tnth 0 2 (data am) [b; j] == 1 /\ (j <= i + past)%nat) ->
             tnth 0 4 (data m) [b; 0%nat; i; j] == finfo_min dt).
Proof.
  intros Hf Hw Hs Ht Hvis.
  destruct (decoder_mask_cases default_dtype_scalar am dt bsz tgt past Hf Hw Hs Ht)
    as [s [Hsh [Heq Hent]]].
  rewrite Heq. destruct (forallb (finite_in dt) (entries 4 s)) eqn:Hfb.
  - eexists. split; [reflexivity|]. cbn [shape dtype data].
    split; [split; [reflexivity|exact Hsh]|]. split; [reflexivity|]. split; [reflexivity|].
    intros b i j Hb Hi Hj.
    destruct (Hent b i j Hb Hi Hj) as [Hv [_ [_ Hm]]].
    split; [exact Hv|]. apply Hm.
    rewrite forallb_forall in Hfb. apply Hfb.
    apply (In_entries_tnth 0 4 _ s _ Hsh). eexists. split; [|reflexivity].
    repeat constructor; assumption.
  - exfalso.
    apply forallb_false_ex in Hfb. destruct Hfb as [x [Hin Hx]].
    apply (In_entries_tnth 0 4 _ s _ Hsh) in Hin. destruct Hin as [idx [Hr Hidx]].
    apply in_range4 in Hr. destruct Hr as [b [h [i [j [-> [Hb [Hh [Hi Hj]]]]]]]].
    assert (h = 0%nat) by lia. subst h x.
    destruct (Hent b i j Hb Hi Hj) as [_ [_ [[Hfalse _] _]]].
    destruct (Hfalse Hx) as [Ha Hlt].
    apply Ha. apply Hvis; [exact Hb | lia].
Qed.

Lemma decoder_mask_visible_entries_witness :
  exists m,
    _prepare_decoder_attention_mask scalar_exact (Some mask_left_pad)
      (1%nat, 3%nat) Float16 0 = Ok (Some m)
    /\ wf m /\ shape m = [1%nat; 1%nat; 3%nat; 3%nat] /\ dtype m = Float16
    /\ forall b i j, (b < 1)%nat -> (i < 3)%nat -> (j < 3 + 0)%nat ->
         (tnth 0 2 (data mask_left_pad) [b; j] == 1 /\ (j <= i + 0)%nat ->
          tnth 0 4 (data m) [b; 0%nat; i; j] == 0)
         /\ (~ (tnth 0 2 (data mask_left_pad) [b; j] == 1 /\ (j <= i + 0)%nat) ->
             tnth 0 4 (data m) [b; 0%nat; i; j] == finfo_min Float16).
Proof.
  apply (decoder_mask_visible_entries scalar_exact mask_left_pad Float16 1 3 0).
  - reflexivity.
  - split; reflexivity.
  - reflexivity.
  - lia.
  - intros b j Hb Hj. assert (b = 0%nat) by lia. subst b.
    assert (Hc : j = 1%nat \/ j = 2%nat) by lia.
    destruct Hc as [-> | ->]; vm_compute; reflexivity.
Defined.

(** ** The unpadding data of the flash-attention path *)

Lemma int32_small (z : Z) : (- 2 ^ 31 <= z < 2 ^ 31)%Z -> int32 z = z.
Proof.
  intros H. unfold int32, wrap.
  change (2 ^ (32 - 1))%Z with (2 ^ 31)%Z.
  rewrite Z.mod_small; [lia|]. change (2 ^ 32)%Z with (2 * 2 ^ 31)%Z. lia.
Qed.

Lemma tokens_nil : tokens [] = 0%Z.
Proof. reflexivity. Qed.

Lemma tokens_cons (x : Z) (row : list Z) :
  tokens (x :: row) = ((if Z.eqb x 0 then 0 else 1) + tokens row)%Z.
Proof.
  unfold tokens. cbn [filter]. destruct (Z.eqb x 0); cbn [negb length]; lia.
Qed.

Lemma tokens_app (a b : list Z) : tokens (a ++ b) = (tokens a + tokens b)%Z.
Proof. unfold tokens. rewrite filter_app, length_app. lia. Qed.

Lemma tokens_bounds (row : list Z) : (0 <= tokens row <= Z.of_nat (length row))%Z.
Proof.
  unfold tokens. pose proof (filter_length_le (fun x => negb (Z.eqb x 0)) row). lia.
Qed.

Lemma sum_as_tokens_from (row : list Z) (acc : Z) :
  Forall (fun x => x = 0 \/ x = 1)%Z row ->
  (0 <= acc)%Z -> (acc + Z.of_nat (length row) < 2 ^ 31)%Z ->
  fold_left (fun a x => int32 (a + int32 x)%Z) row acc = (acc + tokens row)%Z.
Proof.
  revert acc. induction row as [|x row IH]; intros acc Hb Ha Hl.
  - cbn [fold_left]. rewrite tokens_nil. lia.
  - inversion Hb as [|? ? Hx Hb']; subst. cbn [fold_left length] in *.
    rewrite tokens_cons.
    assert (Ex : int32 x = x) by (apply int32_small; destruct Hx; subst; lia).
    rewrite Ex.
    assert (Es : int32 (acc + x) = (acc + x)%Z)
      by (apply int32_small; destruct Hx; subst; lia).
    rewrite Es, IH; [|exact Hb'|destruct Hx; lia|destruct Hx; subst; lia].
    destruct Hx; subst;
      [change ((0 =? 0)%Z) with true | change ((1 =? 0)%Z) with false];
      cbv iota; lia.
Qed.

Lemma sum_as_tokens (row : list Z) :
  Forall (fun x => x = 0 \/ x = 1)%Z row -> (Z.of_nat (length row) < 2 ^ 31)%Z ->
  sum_as int32 row = tokens row.
Proof.
  intros Hb Hl. unfold sum_as. rewrite sum_as_tokens_from; [lia|exact Hb|lia|lia].
Qed.

Lemma length_concat_cons {A} (r : list A) (rs : list (list A)) :
  length (concat (r :: rs)) = (length r + length (concat rs))%nat.
Proof. cbn [concat]. apply length_app. Qed.

(** The running sums of the sequence lengths are the numbers of tokens of
    the leading sequences. *)
Lemma cumsum_tokens (rows : list (list Z)) (acc : Z) :
  Forall (Forall (fun x => x = 0 \/ x = 1)%Z) rows ->
  (0 <= acc)%Z -> (acc + Z.of_nat (length (concat rows)) < 2 ^ 31)%Z ->
  cumsum_as int32 acc (map (sum_as int32) rows)
  = map (fun k => (acc + tokens (concat (firstn k rows)))%Z) (seq 1 (length rows)).
Proof.
  revert acc. induction rows as [|r rows IH]; intros acc Hb Ha Hl; [reflexivity|].
  inversion Hb as [|? ? Hr Hb']; subst.
  rewrite length_concat_cons in Hl.
  pose proof (tokens_bounds r) as Htr.
  cbn [map cumsum_as length seq].
  rewrite (sum_as_tokens r Hr) by lia.
  rewrite (int32_small (tokens r)) by lia.
  rewrite (int32_small (acc + tokens r)) by lia.
  f_equal.
  - cbn [firstn concat]. rewrite app_nil_r. reflexivity.
  - rewrite IH; [|exact Hb'|lia|lia].
    rewrite <- (seq_shift (length rows) 1), map_map. apply map_ext. intros k.
    cbn [firstn concat]. rewrite tokens_app. lia.
Qed.

Lemma length_nonzero_from (l : list Z) (s : nat) :
  length (filter (fun p : nat * Z => negb (Z.eqb (snd p) 0)) (combine (seq s (length l)) l))
  = length (filter (fun x => negb (Z.eqb x 0)) l).
Proof.
  revert s. induction l as [|x l IH]; intros s; [reflexivity|].
  cbn [length seq combine filter snd]. destruct (negb (Z.eqb x 0)); cbn [length]; rewrite IH;
    reflexivity.
Qed.

Lemma length_nonzero (l : list Z) : Z.of_nat (length (nonzero l)) = tokens l.
Proof. unfold nonzero, tokens. rewrite length_map, length_nonzero_from. reflexivity. Qed.

Lemma fold_Zmax_spec (l : list Z) (x : Z) :
  (x <= fold_left Z.max l x)%Z /\ Forall (fun y => y <= fold_left Z.max l x)%Z l
  /\ In (fold_left Z.max l x) (x :: l).
Proof.
  revert x. induction l as [|a l IH]; intros x; cbn [fold_left].
  - split; [lia|]. split; [constructor|left; reflexivity].
  - destruct (IH (Z.max x a)) as [H1 [H2 H3]]. split; [lia|]. split.
    + constructor; [lia|exact H2].
    + destruct H3 as [H3|H3].
      * destruct (Z.max_spec x a) as [[_ E]|[_ E]]; rewrite E in *.
        -- right. left. exact H3.
        -- left. exact H3.
      * right. right. exact H3.
Qed.

Lemma firstn_S_nth {A} (d : A) (l : list A) (k : nat) :
  (k < length l)%nat -> firstn (S k) l = firstn k l ++ [nth k l d].
Proof.
  revert k. induction l as [|a l IH]; intros k H; [cbn in H; lia|].
  destruct k as [|k]; [reflexivity|].
  cbn [firstn nth app]. f_equal. apply IH. cbn in H. lia.
Qed.

(** For a padding mask of zeros and ones with fewer than [2^31]
    positions: [cu_seqlens] starts at 0 and has one entry more than there
    are sequences, consecutive entries differ by the number of tokens of a
    sequence, its last entry is the number of [indices], and
    [max_seqlen_in_batch] is the largest number of tokens of a sequence. *)
Theorem unpad_data_lengths (padding_mask : list (list Z)) :
  padding_mask <> [] ->
  Forall (Forall (fun x => x = 0 \/ x = 1)%Z) padding_mask ->
  (Z.of_nat (length (concat padding_mask)) < 2 ^ 31)%Z ->
  exists indices cu_seqlens max_seqlen,
    _get_unpad_data padding_mask = Ok (indices, cu_seqlens, max_seqlen)
    /\ length cu_seqlens = S (length padding_mask)
    /\ nth 0 cu_seqlens 0%Z = 0%Z
    /\ (forall b, (b < length padding_mask)%nat ->
          (nth (S b) cu_seqlens 0 - nth b cu_seqlens 0)%Z = tokens (nth b padding_mask []))
    /\ nth (length padding_mask) cu_seqlens 0%Z = Z.of_nat (length indices)
    /\ (forall b, (b < length padding_mask)%nat ->
          (tokens (nth b padding_mask []) <= max_seqlen)%Z)
    /\ (exists b, (b < length padding_mask)%nat
                  /\ tokens (nth b padding_mask []) = max_seqlen).
Proof.
  intros Hne Hb Hl. unfold _get_unpad_data.
  assert (Hrows : map (sum_as int32) padding_mask = map tokens padding_mask).
  { clear Hne. induction padding_mask as [|r rows IH]; [reflexivity|].
    inversion Hb as [|? ? Hr Hb']; subst. rewrite length_concat_cons in Hl.
    cbn [map]. rewrite (sum_as_tokens r Hr) by lia. f_equal. apply IH; [exact Hb'|lia]. }
  rewrite (cumsum_tokens padding_mask 0 Hb) by lia.
  rewrite Hrows.
  destruct padding_mask as [|r0 rows] eqn:Em; [contradiction|]. rewrite <- Em in *.
  assert (Emax : max_all (map tokens padding_mask)
                 = Ok (fold_left Z.max (map tokens rows) (tokens r0)))
    by (rewrite Em; reflexivity).
  rewrite Emax. cbn [obind].
  set (n := length padding_mask).
  set (F := fun k => (0 + tokens (concat (firstn k padding_mask)))%Z).
  assert (Ecu : 0%Z :: map F (seq 1 n) = map F (seq 0 (S n))) by reflexivity.
  rewrite Ecu.
  do 3 eexists. split; [reflexivity|].
  split; [rewrite length_map, length_seq; reflexivity|].
  split; [reflexivity|].
  split; [|split; [|split]].
  - intros b Hlt. rewrite !nth_map_seq by lia. unfold F.
    rewrite (firstn_S_nth [] padding_mask b Hlt), concat_app, tokens_app.
    cbn [concat]. rewrite app_nil_r. lia.
  - rewrite nth_map_seq by lia. unfold F, n.
    rewrite firstn_all, length_nonzero. lia.
  - intros b Hlt.
    destruct (fold_Zmax_spec (map tokens rows) (tokens r0)) as [H0 [Hall _]].
    rewrite Em. destruct b as [|b]; [exact H0|]. cbn [nth].
    rewrite Forall_forall in Hall. apply Hall. apply in_map. apply nth_In.
    unfold n in Hlt. rewrite Em in Hlt. cbn in Hlt. lia.
  - destruct (fold_Zmax_spec (map tokens rows) (tokens r0)) as [_ [_ Hin]].
    change (tokens r0 :: map tokens rows) with (map tokens (r0 :: rows)) in Hin.
    rewrite <- Em in Hin. apply in_map_iff in Hin. destruct Hin as [r [Hr Hin]].
    apply (In_nth _ _ []) in Hin. destruct Hin as [b [Hlt Hnth]].
    exists b. split; [exact Hlt|]. rewrite Hnth. exact Hr.
Qed.

Lemma unpad_data_lengths_witness :
  exists indices cu_seqlens max_seqlen,
    _get_unpad_data padding_two = Ok (indices, cu_seqlens, max_seqlen)
    /\ length cu_seqlens = S (length padding_two)
    /\ nth 0 cu_seqlens 0%Z = 0%Z
    /\ (forall b, (b < length padding_two)%nat ->
          (nth (S b) cu_seqlens 0 - nth b cu_seqlens 0)%Z = tokens (nth b padding_two []))
    /\ nth (length padding_two) cu_seqlens 0%Z = Z.of_nat (length indices)
    /\ (forall b, (b < length padding_two)%nat ->
          (tokens (nth b padding_two []) <= max_seqlen)%Z)
    /\ (exists b, (b < length padding_two)%nat
                  /\ tokens (nth b padding_two []) = max_seqlen).
Proof.
  apply (unpad_data_lengths padding_two).
  - discriminate.
  - repeat first [apply Forall_nil | apply Forall_cons | (left; reflexivity) | (right; reflexivity)].
  - vm_compute. reflexivity.
Defined.

Lemma nonzero_from_spec (l : list Z) (s : nat) :
  let r := map (fun p : nat * Z => Z.of_nat (fst p))
               (filter (fun p : nat * Z => negb (Z.eqb (snd p) 0))
                       (combine (seq s (length l)) l)) in
  increasing r
  /\ forall i, In i r <->
               exists n, i = Z.of_nat (s + n) /\ (n < length l)%nat /\ nth n l 0%Z <> 0%Z.
Proof.
  revert s. induction l as [|x l IH]; intros s.
  - cbn. split; [exact I|]. intros i. split; [intros []|].
    intros [n [_ [H _]]]. lia.
  - cbn zeta in *. cbn [length seq combine filter snd].
    destruct (IH (S s)) as [Hs Hin]. clear IH.
    set (r := map (fun p : nat * Z => Z.of_nat (fst p))
                  (filter (fun p : nat * Z => negb (Z.eqb (snd p) 0))
                          (combine (seq (S s) (length l)) l))) in *.
    assert (Htail : forall i, In i r ->
              exists n, i = Z.of_nat (s + S n) /\ (S n < S (length l))%nat
                        /\ nth (S n) (x :: l) 0%Z <> 0%Z).
    { intros i Hi. apply Hin in Hi. destruct Hi as [n [-> [Hn Hz]]].
      exists n. split; [f_equal; lia|]. split; [lia|exact Hz]. }
    assert (Hback : forall n, (S n < S (length l))%nat -> nth (S n) (x :: l) 0%Z <> 0%Z ->
              In (Z.of_nat (s + S n)) r).
    { intros n Hn Hz. apply Hin. exists n. split; [f_equal; lia|]. split; [lia|exact Hz]. }
    destruct (Z.eqb_spec x 0) as [Ex|Ex]; cbn [negb map fst].
    + split; [exact Hs|]. intros i. split.
      * intros Hi. destruct (Htail i Hi) as [n [E [Hn Hz]]]. exists (S n). auto.
      * intros [n [-> [Hn Hz]]]. destruct n as [|n]; [cbn in Hz; contradiction|].
        apply Hback; assumption.
    + split.
      * split; [|exact Hs]. apply Forall_forall. intros i Hi.
        destruct (Htail i Hi) as [n [-> _]]. lia.
      * intros i. split.
        -- intros [Hi|Hi].
           ++ exists 0%nat. split; [rewrite Nat.add_0_r; auto|]. split; [lia|exact Ex].
           ++ destruct (Htail i Hi) as [n [E [Hn Hz]]]. exists (S n). auto.
        -- intros [n [-> [Hn Hz]]]. destruct n as [|n].
           ++ left. rewrite Nat.add_0_r. reflexivity.
           ++ right. apply Hback; assumption.
Qed.

(** The [indices] are the positions of the flattened padding mask that
    hold a value other than zero, each once and in increasing order. *)
Theorem unpad_data_indices (padding_mask : list (list Z))
        (indices cu_seqlens : list Z) (max_seqlen : Z) :
  _get_unpad_data padding_mask = Ok (indices, cu_seqlens, max_seqlen) ->
  increasing indices
  /\ forall i, In i indices <->
               (0 <= i < Z.of_nat (length (concat padding_mask)))%Z
               /\ nth (Z.to_nat i) (concat padding_mask) 0%Z <> 0%Z.
Proof.
  unfold _get_unpad_data. destruct (max_all _) as [mx| |]; try discriminate.
  cbn [obind]. intros H. apply Ok_inj in H. injection H as <- _ _.
  destruct (nonzero_from_spec (concat padding_mask) 0) as [Hs Hin].
  split; [exact Hs|]. intros i. unfold nonzero. rewrite Hin. split.
  - intros [n [-> [Hn Hz]]]. cbn [Nat.add]. rewrite Nat2Z.id. split; [lia|exact Hz].
  - intros [Hi Hz]. exists (Z.to_nat i). cbn [Nat.add].
    split; [lia|]. split; [lia|exact Hz].
Qed.

Lemma unpad_data_indices_witness :
  increasing [1; 2; 3; 4; 5]%Z
  /\ forall i, In i [1; 2; 3; 4; 5]%Z <->
               (0 <= i < Z.of_nat (length (concat padding_two)))%Z
               /\ nth (Z.to_nat i) (concat padding_two) 0%Z <> 0%Z.
Proof.
  apply (unpad_data_indices padding_two [1; 2; 3; 4; 5]%Z [0; 2; 5]%Z 3%Z).
  vm_compute. reflexivity.
Defined.

(** ** Token positions for generation *)

Lemma int64_small (z : Z) : (- 2 ^ 63 <= z < 2 ^ 63)%Z -> int64 z = z.
Proof.
  intros H. unfold int64, wrap.
  change (2 ^ (64 - 1))%Z with (2 ^ 63)%Z.
  rewrite Z.mod_small; [lia|]. change (2 ^ 64)%Z with (2 * 2 ^ 63)%Z. lia.
Qed.

(** The running sums of a row of zeros and ones count its tokens. *)
Lemma cumsum_bits (row : list Z) (acc : Z) :
  Forall (fun x => x = 0 \/ x = 1)%Z row ->
  (0 <= acc)%Z -> (acc + Z.of_nat (length row) < 2 ^ 63)%Z ->
  cumsum_as int64 acc row
  = map (fun k => (acc + tokens (firstn k row))%Z) (seq 1 (length row)).
Proof.
  revert acc. induction row as [|x row IH]; intros acc Hb Ha Hl; [reflexivity|].
  inversion Hb as [|? ? Hx Hb']; subst. cbn [length] in Hl.
  cbn [cumsum_as length seq map].
  assert (Ex : int64 x = x) by (apply int64_small; destruct Hx; subst; lia).
  assert (Es : int64 (acc + x) = (acc + x)%Z)
    by (apply int64_small; destruct Hx; subst; lia).
  assert (Et : tokens [x] = x) by (destruct Hx; subst; reflexivity).
  rewrite Ex, Es. f_equal.
  - cbn [firstn]. rewrite Et. reflexivity.
  - rewrite IH; [|exact Hb'|destruct Hx; lia|destruct Hx; subst; lia].
    rewrite <- (seq_shift (length row) 1), map_map. apply map_ext. intros k.
    cbn [firstn]. change (x :: firstn k row) with ([x] ++ firstn k row).
    rewrite tokens_app, Et. lia.
Qed.

Lemma nth_map_combine {A B C} (f : A * B -> C) (a : list A) (b : list B)
      (j : nat) (da : A) (db : B) (dc : C) :
  (j < length a)%nat -> length a = length b ->
  nth j (map f (combine a b)) dc = f (nth j a da, nth j b db).
Proof.
  intros Hj Hl.
  rewrite (nth_indep _ dc (f (da, db))) by (rewrite length_map, length_combine; lia).
  rewrite (map_nth f), combine_nth by exact Hl. reflexivity.
Qed.

Lemma length_cumsum_as (cast : Z -> Z) (acc : Z) (l : list Z) :
  length (cumsum_as cast acc l) = length l.
Proof.
  revert acc. induction l as [|x l IH]; intros acc; [reflexivity|].
  cbn [cumsum_as length]. rewrite IH. reflexivity.
Qed.

Lemma length_position_row (row : list Z) : length (position_row row) = length row.
Proof.
  unfold position_row. rewrite length_map, length_combine, length_map, length_cumsum_as.
  apply Nat.min_id.
Qed.

Lemma position_row_nth (row : list Z) (j : nat) :
  Forall (fun x => x = 0 \/ x = 1)%Z row -> (Z.of_nat (length row) < 2 ^ 63)%Z ->
  (j < length row)%nat ->
  nth j (position_row row) 0%Z = token_position row j.
Proof.
  intros Hb Hl Hj. unfold position_row, token_position.
  rewrite (nth_map_combine _ _ _ j 0%Z 0%Z)
    by (try rewrite length_map, length_cumsum_as; auto).
  cbn [fst snd]. destruct (Z.eqb (nth j row 0%Z) 0); [reflexivity|].
  rewrite (cumsum_bits row 0 Hb) by lia. rewrite map_map.
  rewrite (nth_indep _ 0%Z (int64 (0 + tokens (firstn 1 row) - 1)))
    by (rewrite length_map, length_seq; exact Hj).
  rewrite (map_nth (fun k => int64 (0 + tokens (firstn k row) - 1)) (seq 1 (length row)) 1%nat).
  rewrite seq_nth by exact Hj.
  pose proof (tokens_bounds (firstn (1 + j) row)) as Ht.
  rewrite length_firstn in Ht.
  rewrite int64_small by lia. cbn [Nat.add]. lia.
Qed.

Lemma last_nth_pred {A} (l : list A) (d : A) : last l d = nth (length l - 1) l d.
Proof.
  induction l as [|a l IH]; [reflexivity|].
  destruct l as [|b l]; [reflexivity|].
  change (last (a :: b :: l) d) with (last (b :: l) d). rewrite IH.
  cbn [length]. replace (S (S (length l)) - 1)%nat with (S (S (length l) - 1)) by lia.
  reflexivity.
Qed.

(** Without [position_ids] among the keyword arguments, the positions are
    made from an attention mask of zeros and ones: a token gets one less
    than the number of tokens up to it, a masked position gets 1.  With a
    cache only the position of the last column is kept, and an attention
    mask without a column then ends in an [IndexError]. *)
Theorem generation_position_ids {X E} (input_ids mask : LongTensor)
        (past_key_values : option (list X)) (inputs_embeds : option E)
        (use_cache : option bool) :
  lwf mask ->
  Forall (Forall (fun x => x = 0 \/ x = 1)%Z) (ldata mask) ->
  (Z.of_nat (snd (lshape mask)) < 2 ^ 63)%Z ->
  (truthy past_key_values = false ->
   exists mi p,
     prepare_inputs_for_generation input_ids past_key_values (Some mask)
       inputs_embeds None use_cache = Return mi
     /\ mi_position_ids mi = Some p /\ lshape p = lshape mask
     /\ forall b j, (b < fst (lshape mask))%nat -> (j < snd (lshape mask))%nat ->
          nth j (nth b (ldata p) []) 0%Z = token_position (nth b (ldata mask) []) j)
  /\ (truthy past_key_values = true -> (0 < snd (lshape mask))%nat ->
      exists mi p,
        prepare_inputs_for_generation input_ids past_key_values (Some mask)
          inputs_embeds None use_cache = Return mi
        /\ mi_position_ids mi = Some p /\ lshape p = (fst (lshape mask), 1%nat)
        /\ forall b, (b < fst (lshape mask))%nat ->
             nth b (ldata p) []
             = [token_position (nth b (ldata mask) []) (snd (lshape mask) - 1)])
  /\ (truthy past_key_values = true -> snd (lshape mask) = 0%nat ->
      prepare_inputs_for_generation input_ids past_key_values (Some mask)
        inputs_embeds None use_cache = Fail IndexError).
Proof.
  intros [Hlen Hrows] Hb Hl. rewrite Forall_forall in Hrows, Hb.
  assert (Hrow : forall b, (b < fst (lshape mask))%nat ->
            let row := nth b (ldata mask) [] in
            length row = snd (lshape mask)
            /\ Forall (fun x => x = 0 \/ x = 1)%Z row).
  { intros b Hlt row. assert (Hin : In row (ldata mask)) by (apply nth_In; lia). auto. }
  unfold prepare_inputs_for_generation. split; [|split].
  - intros Ht. rewrite Ht. cbn [rbind]. do 2 eexists.
    split; [reflexivity|]. cbn [mi_position_ids]. split; [reflexivity|].
    cbn [lshape ldata]. split; [reflexivity|]. intros b j Hlt Hj.
    destruct (Hrow b Hlt) as [Hrl Hrb].
    rewrite (nth_indep _ [] (position_row [])) by (rewrite length_map; lia).
    rewrite (map_nth position_row (ldata mask) [] b).
    apply position_row_nth; [exact Hrb|lia|lia].
  - intros Ht Hc. rewrite Ht. cbn [lshape].
    destruct (Nat.eqb_spec (snd (lshape mask)) 0) as [|_]; [lia|].
    cbn [rbind]. do 2 eexists.
    split; [reflexivity|]. cbn [mi_position_ids]. split; [reflexivity|].
    cbn [lshape ldata]. split; [reflexivity|]. intros b Hlt.
    destruct (Hrow b Hlt) as [Hrl Hrb].
    rewrite map_map.
    rewrite (nth_indep _ [] [last (position_row []) 0%Z]) by (rewrite length_map; lia).
    rewrite (map_nth (fun row => [last (position_row row) 0%Z]) (ldata mask) [] b).
    rewrite last_nth_pred, length_position_row, Hrl.
    rewrite position_row_nth; [reflexivity|exact Hrb|lia|lia].
  - intros Ht Hc. rewrite Ht. cbn [lshape]. rewrite Hc. reflexivity.
Qed.

Lemma generation_position_ids_witness :
  exists mi p,
    @prepare_inputs_for_generation nat nat ids_two (Some [1%nat]) (Some mask_two)
      None None None = Return mi
    /\ mi_position_ids mi = Some p /\ lshape p = (2%nat, 1%nat)
    /\ forall b, (b < 2)%nat ->
         nth b (ldata p) [] = [token_position (nth b (ldata mask_two) []) 2].
Proof.
  apply (@generation_position_ids nat nat ids_two mask_two (Some [1%nat]) None None).
  - split; [reflexivity|]. repeat constructor.
  - repeat first [apply Forall_nil | apply Forall_cons | (left; reflexivity) | (right; reflexivity)].
  - vm_compute. reflexivity.
  - reflexivity.
  - cbn. lia.
Defined.

Lemma tokens_repeat_0 (p : nat) : tokens (repeat 0%Z p) = 0%Z.
Proof.
  induction p as [|p IH]; [reflexivity|].
  cbn [repeat]. rewrite tokens_cons, IH. reflexivity.
Qed.

Lemma tokens_repeat_1 (n : nat) : tokens (repeat 1%Z n) = Z.of_nat n.
Proof.
  induction n as [|n IH]; [reflexivity|].
  cbn [repeat]. rewrite tokens_cons, IH. change (Z.eqb 1 0) with false. cbv iota. lia.
Qed.

Lemma firstn_repeat {A} (x : A) (k n : nat) :
  firstn k (repeat x n) = repeat x (Nat.min k n).
Proof.
  revert k. induction n as [|n IH]; intros k.
  - rewrite Nat.min_0_r. destruct k; reflexivity.
  - destruct k as [|k]; [reflexivity|]. cbn [repeat firstn Nat.min]. rewrite IH. reflexivity.
Qed.

Lemma nth_repeat_in {A} (x d : A) (j n : nat) : (j < n)%nat -> nth j (repeat x n) d = x.
Proof.
  intros H. apply nth_error_nth. apply nth_error_repeat. exact H.
Qed.

(** A prompt padded on the left: the [p] padding positions get the
    position 1 and the [n] tokens after them the positions 0 to [n - 1]. *)
Theorem position_row_left_padded (p n : nat) :
  (Z.of_nat (p + n) < 2 ^ 63)%Z ->
  position_row (repeat 0%Z p ++ repeat 1%Z n)
  = repeat 1%Z p ++ map Z.of_nat (seq 0 n).
Proof.
  intros Hl.
  set (row := repeat 0%Z p ++ repeat 1%Z n).
  assert (Hlen : length row = (p + n)%nat)
    by (unfold row; rewrite length_app, !repeat_length; reflexivity).
  assert (Hb : Forall (fun x => x = 0 \/ x = 1)%Z row).
  { unfold row. apply Forall_app. split; apply Forall_forall; intros x Hx;
      apply repeat_spec in Hx; auto. }
  apply (nth_ext _ _ 0%Z 0%Z).
  - rewrite length_position_row, Hlen, length_app, repeat_length, length_map, length_seq.
    reflexivity.
  - intros j Hj. rewrite length_position_row, Hlen in Hj.
    rewrite position_row_nth by (try exact Hb; lia).
    unfold token_position, row.
    destruct (Nat.lt_ge_cases j p) as [Hjp|Hjp].
    + rewrite !app_nth1 by (rewrite repeat_length; exact Hjp).
      rewrite !nth_repeat_in by exact Hjp. reflexivity.
    + rewrite !app_nth2 by (rewrite repeat_length; exact Hjp).
      rewrite !repeat_length, nth_repeat_in by lia.
      change (Z.eqb 1 0) with false. cbv iota.
      rewrite firstn_app, repeat_length, tokens_app.
      rewrite firstn_repeat, tokens_repeat_0, firstn_repeat, tokens_repeat_1.
      rewrite (nth_indep _ 0%Z (Z.of_nat 0)) by (rewrite length_map, length_seq; lia).
      rewrite (map_nth Z.of_nat), seq_nth by lia. lia.
Qed.

Lemma position_row_left_padded_witness :
  position_row (repeat 0%Z 2 ++ repeat 1%Z 3) = repeat 1%Z 2 ++ map Z.of_nat (seq 0 3).
Proof. apply (position_row_left_padded 2 3). vm_compute. reflexivity. Defined.

(** ** The pooled position of sequence classification *)

Lemma rmap_return {A B} (f : A -> result B) (g : A -> B) (l : list A) :
  (forall a, In a l -> f a = Return (g a)) -> rmap f l = Return (map g l).
Proof.
  induction l as [|a l IH]; intros H; [reflexivity|].
  cbn [rmap map]. rewrite (H a) by (left; reflexivity). cbn [rbind].
  rewrite IH by (intros; apply H; right; assumption). reflexivity.
Qed.

(** Among flags, the first flag set is the first largest entry. *)
Lemma argmax_from_flags (pad : Z) (row : list Z) (best_i i : nat) (best : Z) :
  (best = 0 \/ best = 1)%Z ->
  argmax_from best_i best i (map (fun t => if Z.eqb t pad then 1 else 0)%Z row)
  = if Z.eqb best 1 then best_i
    else match first_pad pad row with
         | Some k => (i + k)%nat
         | None => best_i
         end.
Proof.
  revert best_i i best. induction row as [|t row IH]; intros best_i i best Hb.
  - cbn. destruct (Z.eqb best 1); reflexivity.
  - cbn [map argmax_from first_pad]. destruct (Z.eqb t pad).
    + destruct Hb as [-> | ->].
      * change (Z.ltb 0 1) with true. cbv iota. rewrite IH by auto.
        change (Z.eqb 1 1) with true. change (Z.eqb 0 1) with false. cbv iota.
        rewrite Nat.add_0_r. reflexivity.
      * change (Z.ltb 1 1) with false. cbv iota. rewrite IH by auto. reflexivity.
    + destruct Hb as [-> | ->].
      * change (Z.ltb 0 0) with false. cbv iota. rewrite IH by auto.
        change (Z.eqb 0 1) with false. cbv iota.
        destruct (first_pad pad row) as [k|]; cbn [option_map]; [lia|reflexivity].
      * change (Z.ltb 1 0) with false. cbv iota. rewrite IH by auto. reflexivity.
Qed.

Lemma argmax_flags (pad : Z) (row : list Z) :
  row <> [] ->
  argmax (map (fun t => if Z.eqb t pad then 1 else 0)%Z row)
  = Return (Z.of_nat match first_pad pad row with Some k => k | None => 0%nat end).
Proof.
  destruct row as [|t row]; [contradiction|]. intros _.
  cbn [map argmax first_pad]. destruct (Z.eqb t pad).
  - rewrite argmax_from_flags by auto. reflexivity.
  - rewrite argmax_from_flags by auto. change (Z.eqb 0 1) with false. cbv iota.
    destruct (first_pad pad row) as [k|]; reflexivity.
Qed.

Lemma first_pad_lt (pad : Z) (row : list Z) (k : nat) :
  first_pad pad row = Some k -> (k < length row)%nat.
Proof.
  revert k. induction row as [|t row IH]; intros k; [discriminate|].
  cbn [first_pad length]. destruct (Z.eqb t pad).
  - intros H. injection H as <-. lia.
  - destruct (first_pad pad row) as [k'|]; [|discriminate].
    cbn [option_map]. intros H. injection H as <-. specialize (IH k' eq_refl). lia.
Qed.

Lemma index_py_nat {A} (d : A) (l : list A) (i : nat) :
  (i < length l)%nat -> index_py l (Z.of_nat i) = Return (nth i l d).
Proof.
  intros H. unfold index_py.
  destruct (Z.ltb_spec (Z.of_nat i) 0) as [|_]; [lia|].
  destruct (Z.leb_spec 0 (Z.of_nat i)) as [_|]; [|lia].
  destruct (Z.ltb_spec (Z.of_nat i) (Z.of_nat (length l))) as [_|]; [|lia].
  cbn [andb]. rewrite Nat2Z.id, (nth_error_nth' l d H). reflexivity.
Qed.

Lemma index_py_last {A} (d : A) (l : list A) :
  l <> [] -> index_py l (-1) = Return (nth (length l - 1) l d).
Proof.
  intros H. assert (Hl : (0 < length l)%nat) by (destruct l; [contradiction|cbn; lia]).
  unfold index_py. change (Z.ltb (-1) 0) with true. cbv iota.
  replace (-1 + Z.of_nat (length l))%Z with (Z.of_nat (length l - 1)) by lia.
  destruct (Z.leb_spec 0 (Z.of_nat (length l - 1))) as [_|]; [|lia].
  destruct (Z.ltb_spec (Z.of_nat (length l - 1)) (Z.of_nat (length l))) as [_|]; [|lia].
  cbn [andb]. rewrite Nat2Z.id, (nth_error_nth' l d) by lia. reflexivity.
Qed.

(** With a pad token defined and token ids given, the pooled logits of a
    sequence are those of the position before its first pad token; of its
    last position when it holds no pad token, and also when it starts with
    one. *)
Theorem pooled_logits_position {A} (d : A) (pad : Z) (ids : LongTensor)
        (embeds_batch : nat) (logits : list (list A)) :
  lwf ids -> (0 < snd (lshape ids))%nat -> (Z.of_nat (snd (lshape ids)) < 2 ^ 63)%Z ->
  length logits = fst (lshape ids) ->
  Forall (fun row => length row = snd (lshape ids)) logits ->
  exists pooled,
    pooled_logits (Some pad) (Some ids) embeds_batch logits = Return pooled
    /\ length pooled = fst (lshape ids)
    /\ forall b, (b < fst (lshape ids))%nat ->
         nth b pooled d
         = nth (pooled_position pad (nth b (ldata ids) [])) (nth b logits []) d.
Proof.
  intros [Hlen Hrows] Hc Hl Hll Hlr. rewrite Forall_forall in Hrows, Hlr.
  unfold pooled_logits.
  destruct (Nat.eqb_spec (snd (lshape ids)) 0) as [|_]; [lia|].
  set (sl := fun row : list Z =>
               (Z.of_nat match first_pad pad row with Some k => k | None => 0%nat end - 1)%Z).
  rewrite (rmap_return _ sl).
  2:{ intros row Hrow. specialize (Hrows row Hrow).
      rewrite argmax_flags by (destruct row; [cbn in Hrows; lia|discriminate]).
      cbn [rbind]. unfold sl. f_equal. apply int64_small.
      destruct (first_pad pad row) as [k|] eqn:Ek; [|lia].
      apply first_pad_lt in Ek. lia. }
  cbn [rbind].
  set (pick := fun b : nat =>
                 nth (pooled_position pad (nth b (ldata ids) [])) (nth b logits []) d).
  rewrite (rmap_return _ pick).
  2:{ intros b Hb. apply in_seq in Hb.
      rewrite (index_py_nat [] logits b) by lia. cbn [rbind].
      assert (Hrl : length (nth b logits []) = snd (lshape ids))
        by (apply Hlr, nth_In; lia).
      assert (Hil : length (nth b (ldata ids) []) = snd (lshape ids))
        by (apply Hrows, nth_In; lia).
      rewrite (nth_indep _ 0%Z (sl [])) by (rewrite length_map; lia).
      rewrite (map_nth sl (ldata ids) [] b).
      unfold pick, pooled_position, sl.
      destruct (first_pad pad (nth b (ldata ids) [])) as [[|k]|] eqn:Ek.
      - change (Z.of_nat 0 - 1)%Z with (-1)%Z.
        rewrite (index_py_last d) by (intros E; rewrite E in Hrl; cbn in Hrl; lia).
        rewrite Hrl, Hil. reflexivity.
      - apply first_pad_lt in Ek.
        replace (Z.of_nat (S k) - 1)%Z with (Z.of_nat k) by lia.
        apply index_py_nat. lia.
      - change (Z.of_nat 0 - 1)%Z with (-1)%Z.
        rewrite (index_py_last d) by (intros E; rewrite E in Hrl; cbn in Hrl; lia).
        rewrite Hrl, Hil. reflexivity. }
  eexists. split; [reflexivity|]. split; [rewrite length_map, length_seq; reflexivity|].
  intros b Hb.
  rewrite (nth_indep _ d (pick 0%nat)) by (rewrite length_map, length_seq; exact Hb).
  rewrite (map_nth pick (seq 0 (fst (lshape ids))) 0%nat b), seq_nth by exact Hb.
  reflexivity.
Qed.

Lemma pooled_logits_position_witness :
  exists pooled,
    pooled_logits (Some 0%Z) (Some ids_two) 0 logits_two = Return pooled
    /\ length pooled = 2%nat
    /\ forall b, (b < 2)%nat ->
         nth b pooled 0%Z
         = nth (pooled_position 0%Z (nth b (ldata ids_two) [])) (nth b logits_two []) 0%Z.
Proof.
  apply (pooled_logits_position 0%Z 0%Z ids_two 0 logits_two).
  - split; [reflexivity|]. repeat constructor.
  - cbn. lia.
  - vm_compute. reflexivity.
  - reflexivity.
  - repeat constructor.
Defined.

(** ** Rotation by half and grouped heads *)

Lemma length_rotate_row (row : list Q) : length (rotate_row row) = length row.
Proof.
  unfold rotate_row. rewrite length_app, length_map, length_skipn, length_firstn.
  pose proof (Nat.Div0.div_le_upper_bound (length row) 2 (length row)). lia.
Qed.

Lemma rotate_row_twice (row : list Q) :
  Nat.even (length row) = true -> rotate_row (rotate_row row) = map Qopp row.
Proof.
  intros He. apply Nat.even_spec in He. destruct He as [h Hh].
  assert (Hdiv : (length row / 2 = h)%nat)
    by (rewrite Hh, Nat.mul_comm; apply Nat.div_mul; lia).
  unfold rotate_row at 1. rewrite length_rotate_row, Hdiv.
  unfold rotate_row. rewrite Hdiv.
  set (x1 := firstn h row). set (m2 := map Qopp (skipn h row)).
  assert (Hl2 : length m2 = h)
    by (unfold m2; rewrite length_map, length_skipn; lia).
  rewrite firstn_app, skipn_app, Hl2, Nat.sub_diag.
  rewrite (firstn_all2 m2) by lia. rewrite (skipn_all2 m2) by lia.
  cbn [firstn skipn app]. rewrite app_nil_r.
  unfold m2, x1. rewrite <- map_app, firstn_skipn. reflexivity.
Qed.

Lemma map_last_ext {A B} (f g : list A -> list B) n sh (t : tensor A (S n)) :
  length sh = S n -> has_shape (S n) sh t = true ->
  (forall row, length row = last sh 0%nat -> f row = g row) ->
  map_last f n t = map_last g n t.
Proof.
  revert sh t. induction n as [|n IH]; intros sh t Hr Ht H.
  - destruct sh as [|d [|d' sh]]; try discriminate.
    apply (has_shape_S 0) in Ht. destruct Ht as [Hl _].
    cbn [map_last]. apply H. exact Hl.
  - destruct sh as [|d sh]; [discriminate|].
    apply has_shape_S in Ht. destruct Ht as [Hl Hf]. rewrite Forall_forall in Hf.
    cbn [map_last]. apply map_ext_in. intros x Hx.
    apply (IH sh); [cbn in Hr; lia|apply Hf; exact Hx|].
    intros row Hrow. apply H. rewrite Hrow.
    destruct sh as [|d' sh]; [discriminate|reflexivity].
Qed.

Lemma map_last_map_last {A B C} (f : list A -> list B) (g : list B -> list C) n
      (t : tensor A (S n)) :
  map_last g n (map_last f n t) = map_last (fun row => g (f row)) n t.
Proof.
  induction n as [|n IH]; [reflexivity|].
  cbn [map_last]. rewrite map_map. apply map_ext. intros x. apply IH.
Qed.

Lemma map_last_tmap {A B} (f : A -> B) n (t : tensor A (S n)) :
  map_last (map f) n t = tmap f (S n) t.
Proof.
  induction n as [|n IH]; [reflexivity|].
  cbn [map_last]. change (tmap f (S (S n)) t) with (map (tmap f (S n)) t).
  apply map_ext. intros x. apply IH.
Qed.

(** Rotating twice the halves of a last dimension of even size changes
    the sign of every entry. *)
Theorem rotate_half_twice {n} (x : Tensor (S n)) :
  wf x -> Nat.even (last (shape x) 0%nat) = true ->
  rotate_half (rotate_half x) = tlift Qopp x.
Proof.
  intros [Hr Hs] He. unfold rotate_half, tlift. cbn [dtype shape data]. f_equal.
  rewrite map_last_map_last, <- map_last_tmap.
  apply (map_last_ext _ _ n (shape x)); [exact Hr|exact Hs|].
  intros row Hrow. apply rotate_row_twice. rewrite Hrow. exact He.
Qed.

Lemma rotate_half_twice_witness :
  rotate_half (rotate_half query_rot) = tlift Qopp query_rot.
Proof.
  apply (@rotate_half_twice 3 query_rot).
  - split; reflexivity.
  - reflexivity.
Defined.

(** ** Grouped key/value heads *)

Lemma map_nth_seq_id {A} (d : A) (t : list A) :
  map (fun i => nth i t d) (seq 0 (length t)) = t.
Proof.
  apply (nth_ext _ _ d d); [rewrite length_map, length_seq; reflexivity|].
  intros i Hi. rewrite length_map, length_seq in Hi.
  apply (nth_map_seq (fun i => nth i t d)). exact Hi.
Qed.

Lemma build_entries {A} (d : A) n sh (t : tensor A n) :
  length sh = n -> has_shape n sh t = true -> build d n sh (entries n t) = t.
Proof.
  revert sh t. induction n as [|n IH]; intros sh t Hr Ht.
  - reflexivity.
  - destruct sh as [|k sh]; [discriminate|].
    apply has_shape_S in Ht. destruct Ht as [Hl Hf]. rewrite Forall_forall in Hf.
    cbn [build hd tl entries].
    assert (Hblock : forall x, In x t -> length (entries n x) = numel sh).
    { intros x Hx. apply (length_entries n sh). apply Hf, Hx. }
    rewrite <- Hl.
    transitivity (map (fun i => nth i t (build d n sh [])) (seq 0 (length t)));
      [|apply map_nth_seq_id].
    apply map_ext_in. intros i Hi. apply in_seq in Hi. destruct Hi as [_ Hi].
    rewrite (flat_map_block (entries n) (numel sh) t i (build d n sh []) Hblock Hi).
    apply IH; [cbn in Hr; lia|].
    apply Hf. apply nth_In. exact Hi.
Qed.

Lemma nth_map_in {A B} (f : A -> B) (l : list A) (i : nat) (da : A) (db : B) :
  (i < length l)%nat -> nth i (map f l) db = f (nth i l da).
Proof.
  intros H. rewrite (nth_indep _ db (f da)) by (rewrite length_map; exact H).
  apply map_nth.
Qed.

Lemma flat_map_flat_map {A B C} (f : B -> list C) (g : A -> list B) (l : list A) :
  flat_map f (flat_map g l) = flat_map (fun x => flat_map f (g x)) l.
Proof.
  induction l as [|a l IH]; [reflexivity|].
  cbn [flat_map]. rewrite flat_map_app, IH. reflexivity.
Qed.

Lemma flat_map_map_in {A B C} (f : B -> list C) (g : A -> B) (l : list A) :
  flat_map f (map g l) = flat_map (fun x => f (g x)) l.
Proof. induction l as [|a l IH]; [reflexivity|]. cbn. rewrite IH. reflexivity. Qed.

Lemma length_flat_map_repeat {A} (n : nat) (l : list A) :
  length (flat_map (fun x => repeat x n) l) = (length l * n)%nat.
Proof.
  induction l as [|a l IH]; [reflexivity|].
  cbn [flat_map length]. rewrite length_app, repeat_length, IH. lia.
Qed.

(** Copy [h] of the heads repeated [n] times each is head [h / n]. *)
Lemma nth_flat_map_repeat {A} (d : A) (n : nat) (l : list A) (h : nat) :
  (0 < n)%nat -> (h < length l * n)%nat ->
  nth h (flat_map (fun x => repeat x n) l) d = nth (h / n) l d.
Proof.
  intros Hn. revert h. induction l as [|a l IH]; intros h Hh; [cbn in Hh; lia|].
  cbn [flat_map length] in *.
  destruct (Nat.lt_ge_cases h n) as [Hlt|Hge].
  - rewrite app_nth1 by (rewrite repeat_length; exact Hlt).
    rewrite Nat.div_small by exact Hlt. cbn [nth].
    apply nth_error_nth. apply nth_error_repeat. exact Hlt.
  - rewrite app_nth2 by (rewrite repeat_length; exact Hge).
    rewrite repeat_length, IH by lia.
    replace h with (1 * n + (h - n))%nat at 2 by lia.
    rewrite Nat.div_add_l by lia. reflexivity.
Qed.

(** [repeat_kv] returns a tensor of [num_key_value_heads * n_rep] heads;
    head [h] of the result is head [h / n_rep] of the input: every
    key/value head is repeated [n_rep] times in a row, as
    [torch.repeat_interleave] does. *)
Theorem repeat_kv_heads (hidden_states : Tensor 4) (n_rep batch kv slen head_dim : nat) :
  wf hidden_states -> shape hidden_states = [batch; kv; slen; head_dim] ->
  (0 < n_rep)%nat ->
  exists r,
    repeat_kv hidden_states n_rep = Ok r
    /\ wf r /\ shape r = [batch; (kv * n_rep)%nat; slen; head_dim]
    /\ dtype r = dtype hidden_states
    /\ forall b h, (b < batch)%nat -> (h < kv * n_rep)%nat ->
         nth h (nth b (data r) []) [] = nth (h / n_rep) (nth b (data hidden_states) []) [].
Proof.
  intros [Hr Hw] Hs Hn. rewrite Hs in Hw. unfold repeat_kv. rewrite Hs.
  destruct (Nat.eqb_spec n_rep 1) as [->|Hn1].
  - exists hidden_states. split; [reflexivity|]. rewrite Nat.mul_1_r.
    split; [split; [exact Hr|rewrite Hs; exact Hw]|].
    split; [exact Hs|]. split; [reflexivity|].
    intros b h _ _. rewrite Nat.div_1_r. reflexivity.
  - set (T := map (fun heads : list (tensor Q 2) => flat_map (fun head => repeat head n_rep) heads)
                  (data hidden_states)).
    apply (has_shape_S 3) in Hw. destruct Hw as [Hl Hf]. rewrite Forall_forall in Hf.
    assert (HT : has_shape 4 [batch; (kv * n_rep)%nat; slen; head_dim] (T : tensor Q 4) = true).
    { apply (has_shape_S 3). split; [unfold T; rewrite length_map; exact Hl|].
      apply Forall_forall. intros x Hx. apply in_map_iff in Hx.
      destruct Hx as [heads [<- Hheads]].
      specialize (Hf heads Hheads). apply (has_shape_S 2) in Hf. destruct Hf as [Hlh Hfh].
      rewrite Forall_forall in Hfh.
      apply (has_shape_S 2). split; [rewrite length_flat_map_repeat, Hlh; reflexivity|].
      apply Forall_forall. intros y Hy. apply in_flat_map in Hy.
      destruct Hy as [head [Hhead Hy]]. apply repeat_spec in Hy. subst y.
      apply Hfh. exact Hhead. }
    cbv zeta.
    match goal with |- context [reshape 4 _ ?e] => set (E := e) end.
    assert (HE : entries 5 (data E) = entries 4 (T : tensor Q 4)).
    { unfold E, T. cbn [data entries]. rewrite !flat_map_map_in.
      apply flat_map_ext. intros heads.
      rewrite flat_map_map_in, flat_map_flat_map. reflexivity. }
    rewrite reshape_succeeds.
    2:{ unfold E. cbn [shape numel fold_right]. rewrite !Nat.mul_assoc. reflexivity. }
    2:{ reflexivity. }
    rewrite HE, build_entries by (try reflexivity; exact HT).
    unfold E. cbn [dtype].
    eexists. split; [reflexivity|]. cbn [shape dtype data].
    split; [split; [reflexivity|exact HT]|]. split; [reflexivity|]. split; [reflexivity|].
    intros b h Hb Hh. unfold T.
    transitivity (nth h (flat_map (fun head : tensor Q 2 => repeat head n_rep)
                                  (nth b (data hidden_states) [])) []).
    { apply (f_equal (fun l : list (tensor Q 2) => nth h l [])).
      apply (nth_map_in (fun heads : list (tensor Q 2) =>
                           flat_map (fun head => repeat head n_rep) heads)
                        (data hidden_states) b [] []).
      exact (eq_ind_r (fun x => (b < x)%nat) Hb Hl). }
    apply nth_flat_map_repeat; [exact Hn|].
    assert (Hin : In (nth b (data hidden_states) []) (data hidden_states))
      by (apply nth_In; lia).
    specialize (Hf _ Hin). apply (has_shape_S 2) in Hf. destruct Hf as [Hlh _].
    rewrite Hlh. exact Hh.
Qed.

Lemma repeat_kv_heads_witness :
  exists r,
    repeat_kv kv_two_heads 2 = Ok r
    /\ wf r /\ shape r = [1%nat; (2 * 2)%nat; 1%nat; 2%nat]
    /\ dtype r = dtype kv_two_heads
    /\ forall b h, (b < 1)%nat -> (h < 2 * 2)%nat ->
         nth h (nth b (data r) []) [] = nth (h / 2) (nth b (data kv_two_heads) []) [].
Proof.
  apply (repeat_kv_heads kv_two_heads 2 1 2 1 2).
  - split; reflexivity.
  - reflexivity.
  - lia.
Defined.

(** ** Rotary position embedding *)

Lemma index_py_cases {A} (l : list A) (p : Z) :
  (exists a, index_py l p = Return a
             /\ (- Z.of_nat (length l) <= p < Z.of_nat (length l))%Z)
  \/ (index_py l p = Fail IndexError
      /\ ~ (- Z.of_nat (length l) <= p < Z.of_nat (length l))%Z).
Proof.
  unfold index_py.
  set (q := if Z.ltb p 0 then (p + Z.of_nat (length l))%Z else p).
  destruct (Z.leb_spec 0 q) as [H0|H0]; destruct (Z.ltb_spec q (Z.of_nat (length l))) as [H1|H1];
    cbn [andb]; try (right; split; [reflexivity|]; unfold q in *;
                     destruct (Z.ltb_spec p 0); lia).
  assert (Hn : (Z.to_nat q < length l)%nat) by lia.
  destruct (nth_error l (Z.to_nat q)) as [a|] eqn:E;
    [|apply nth_error_None in E; lia].
  left. exists a. split; [reflexivity|]. unfold q in *. destruct (Z.ltb_spec p 0); lia.
Qed.

(** A traversal whose steps fail with [IndexError] only fails with it
    exactly when one of its steps does. *)
Lemma rmap_index_error {A B} (f : A -> result B) (l : list A) :
  (forall a e, In a l -> f a = Fail e -> e = IndexError) ->
  (forall e, rmap f l = Fail e -> e = IndexError)
  /\ (rmap f l = Fail IndexError <-> exists a, In a l /\ f a = Fail IndexError).
Proof.
  induction l as [|a l IH]; intros Hf.
  - cbn. split; [discriminate|]. split; [discriminate|]. intros [a [[] _]].
  - destruct IH as [IH1 IH2]; [intros x e Hx; apply Hf; right; exact Hx|].
    cbn [rmap]. destruct (f a) as [b|e] eqn:Ea; cbn [rbind].
    + destruct (rmap f l) as [bs|e'] eqn:El; cbn [rbind].
      * split; [discriminate|]. split; [discriminate|].
        intros [x [[->|Hx] Hfx]]; [rewrite Ea in Hfx; discriminate|].
        destruct IH2 as [_ IH2]. specialize (IH2 (ex_intro _ x (conj Hx Hfx))).
        discriminate.
      * pose proof (IH1 e' eq_refl) as ->. split; [intros e H; injection H as <-; reflexivity|].
        split; [|reflexivity]. intros _.
        destruct IH2 as [IH2 _]. destruct (IH2 eq_refl) as [x [Hx Hfx]].
        exists x. split; [right; exact Hx|exact Hfx].
    + pose proof (Hf a e (or_introl eq_refl) Ea) as ->.
      split; [intros e H; injection H as <-; reflexivity|].
      split; [|reflexivity]. intros _. exists a. split; [left; reflexivity|exact Ea].
Qed.

Lemma gather_index_error (table : Tensor 2) (position_ids : LongTensor) :
  (forall e, gather_positions table position_ids = Fail e -> e = IndexError)
  /\ (gather_positions table position_ids = Fail IndexError
      <-> exists ids p,
            In ids (ldata position_ids) /\ In p ids
            /\ ~ (- Z.of_nat (length (data table)) <= p
                  < Z.of_nat (length (data table)))%Z).
Proof.
  unfold gather_positions.
  assert (Hin : forall ids : list Z,
            (forall e, rmap (index_py (data table)) ids = Fail e -> e = IndexError)
            /\ (rmap (index_py (data table)) ids = Fail IndexError
                <-> exists p, In p ids /\ index_py (data table) p = Fail IndexError)).
  { intros ids. apply rmap_index_error. intros p e _ Hp.
    destruct (index_py_cases (data table) p) as [[a [E _]]|[E _]];
      rewrite E in Hp; [discriminate|]. injection Hp as <-. reflexivity. }
  destruct (rmap_index_error (fun ids => rmap (index_py (data table)) ids)
              (ldata position_ids)) as [H1 H2].
  { intros ids e _ He. exact (proj1 (Hin ids) e He). }
  destruct (rmap _ (ldata position_ids)) as [rows|e] eqn:E; cbn [rbind].
  - split; [discriminate|]. split; [discriminate|].
    intros [ids [p [Hids [Hp Hout]]]]. exfalso.
    assert (Hfail : rmap (index_py (data table)) ids = Fail IndexError).
    { apply (proj2 (Hin ids)). exists p. split; [exact Hp|].
      destruct (index_py_cases (data table) p) as [[a [_ Hr]]|[Ef _]];
        [contradiction|exact Ef]. }
    destruct H2 as [_ H2]. specialize (H2 (ex_intro _ ids (conj Hids Hfail))).
    discriminate.
  - pose proof (H1 e eq_refl) as ->. split; [intros e H; injection H as <-; reflexivity|].
    split; [|reflexivity]. intros _.
    destruct H2 as [H2 _]. destruct (H2 eq_refl) as [ids [Hids Hfail]].
    apply (proj2 (Hin ids)) in Hfail. destruct Hfail as [p [Hp Hfp]].
    exists ids, p. split; [exact Hids|]. split; [exact Hp|].
    destruct (index_py_cases (data table) p) as [[a [Ea _]]|[_ Hout]];
      [rewrite Ea in Hfp; discriminate|exact Hout].
Qed.

(** [apply_rotary_pos_emb] ends in an [IndexError] exactly when a position
    id lies outside the tables, that is outside [[-seq_len, seq_len)]. *)
Theorem rotary_position_out_of_range (q k : Tensor 4) (cos sin : Tensor 2)
        (position_ids : LongTensor) :
  length (data sin) = length (data cos) ->
  (apply_rotary_pos_emb q k cos sin position_ids = Fail IndexError
   <-> exists ids p,
         In ids (ldata position_ids) /\ In p ids
         /\ ~ (- Z.of_nat (length (data cos)) <= p < Z.of_nat (length (data cos)))%Z).
Proof.
  intros HL. unfold apply_rotary_pos_emb.
  destruct (gather_index_error cos position_ids) as [C1 C2].
  destruct (gather_index_error sin position_ids) as [S1 S2]. rewrite HL in S2.
  destruct (gather_positions cos position_ids) as [C|e] eqn:EC; cbn [rbind].
  - destruct (gather_positions sin position_ids) as [Sn|e] eqn:ES; cbn [rbind].
    + split.
      * intros H. exfalso.
        destruct (rotary q C Sn) as [qe|e|]; cbn [of_outcome rbind] in H; try discriminate.
        destruct (rotary k C Sn) as [ke|e|]; cbn [of_outcome rbind] in H; discriminate.
      * intros H. apply C2 in H. discriminate.
    + pose proof (S1 e eq_refl) as ->. split; [intros _|reflexivity].
      apply S2. reflexivity.
  - pose proof (C1 e eq_refl) as ->. split; [intros _|reflexivity].
    apply C2. reflexivity.
Qed.

Lemma rotary_position_out_of_range_witness :
  apply_rotary_pos_emb query_rot query_rot cos_table sin_table
    (mkLong (1%nat, 2%nat) [[0; 2]]%Z) = Fail IndexError
  <-> exists ids p,
        In ids (ldata (mkLong (1%nat, 2%nat) [[0; 2]]%Z)) /\ In p ids
        /\ ~ (- Z.of_nat (length (data cos_table)) <= p
              < Z.of_nat (length (data cos_table)))%Z.
Proof.
  apply (rotary_position_out_of_range query_rot query_rot cos_table sin_table
           (mkLong (1%nat, 2%nat) [[0; 2]]%Z)).
  reflexivity.
Defined.

(** ** The coverage check of the attention paths for one sequence *)

Lemma max_dim_rows_keepdim_no_cov n (t : Tensor (S (S n))) :
  max_dim_rows_keepdim t <> Raise BandCoverageError.
Proof.
  unfold max_dim_rows_keepdim, max_dim_rows. no_cov. apply reduce_dim_rows_no_cov.
Qed.

Lemma min_dim_rows_keepdim_no_cov n (t : Tensor (S (S n))) :
  min_dim_rows_keepdim t <> Raise BandCoverageError.
Proof.
  unfold min_dim_rows_keepdim, min_dim_rows. no_cov. apply reduce_dim_rows_no_cov.
Qed.

Lemma matmul_no_cov n (a b : Tensor (S (S n))) : matmul a b <> Raise BandCoverageError.
Proof. unfold matmul. no_cov. Qed.

Lemma cat1_no_cov n (a b : Tensor (S (S n))) : cat1 a b <> Raise BandCoverageError.
Proof. unfold cat1. no_cov. Qed.

Lemma tcompare_no_cov n (f : Q -> Q -> bool) (a b : Tensor n) :
  tcompare f a b <> Raise BandCoverageError.
Proof. unfold tcompare. no_cov. Qed.

Lemma mask_and_no_cov n (a b : Mask n) : mask_and a b <> Raise BandCoverageError.
Proof. unfold mask_and. no_cov. Qed.

Lemma where_mask_no_cov n (m : Mask n) (t : Tensor n) :
  where_mask m t <> Raise BandCoverageError.
Proof. unfold where_mask. no_cov. Qed.

Module AttnPass.
Import LlamaAttention_Tender_Eval.
Import AttnBands.
Import AttnCheck.

Lemma quant_unsigned_no_cov (fp scale : Tensor 4) (qm : Q) :
  quant_unsigned fp scale qm <> Raise BandCoverageError.
Proof. unfold quant_unsigned, tdiv. no_cov. apply tbinop_no_cov. Qed.

Lemma chunking_no_cov cs pd states : chunking cs pd states <> Raise BandCoverageError.
Proof.
  unfold chunking.
  destruct (shape states) as [|a [|b [|c [|]]]]; no_cov;
    auto using cat1_no_cov, reshape_no_cov.
Qed.

Lemma qk_band_mask_no_cov chunks thresholds src i :
  qk_band_mask chunks thresholds src i <> Raise BandCoverageError.
Proof.
  unfold qk_band_mask. destruct src; no_cov;
    auto using tcompare_no_cov, mask_and_no_cov.
Qed.

Lemma sv_band_mask_no_cov D chunks src_len thresholds src i :
  sv_band_mask D chunks src_len thresholds src i <> Raise BandCoverageError.
Proof.
  unfold sv_band_mask. destruct src; no_cov;
    auto using tcompare_no_cov, mask_and_no_cov.
Qed.

Lemma qk_band_step_no_cov self dt chunks hc thresholds src st i :
  qk_band_step self dt chunks hc thresholds src st i <> Raise BandCoverageError.
Proof.
  unfold qk_band_step. destruct st as [cnt res]. no_cov;
    auto using qk_band_mask_no_cov, div_scalar_no_cov, where_mask_no_cov,
               sym_quant_no_cov, sym_dequant_no_cov, iadd_no_cov.
Qed.

Lemma sv_band_step_no_cov self dt chunks src_len hc thresholds src st i :
  sv_band_step self dt chunks src_len hc thresholds src st i <> Raise BandCoverageError.
Proof.
  unfold sv_band_step. destruct st as [cnt res]. no_cov;
    auto using sv_band_mask_no_cov, div_scalar_no_cov, where_mask_no_cov,
               quant_unsigned_no_cov, sym_dequant_no_cov, iadd_no_cov.
Qed.

Lemma never_ret {A} (a : A) : never_cov (ret a).
Proof. intros s. discriminate. Qed.

Lemma never_get : never_cov get.
Proof. intros s. discriminate. Qed.

Lemma never_collect upd : never_cov (collect upd).
Proof. intros s. discriminate. Qed.

Lemma never_modify f : never_cov (modify f).
Proof. intros s. discriminate. Qed.

Lemma never_lift {A} (o : outcome A) : o <> Raise BandCoverageError -> never_cov (lift o).
Proof.
  intros H s. unfold lift. destruct o as [a|e|]; try discriminate.
  intros E. apply H. injection E as ->. reflexivity.
Qed.

Lemma never_bind {A B} (m : M A) (k : A -> M B) :
  never_cov m -> (forall a, never_cov (k a)) -> never_cov (bind m k).
Proof.
  intros Hm Hk s. unfold bind. destruct (m s) as [[a s1]|e|] eqn:E.
  - apply Hk.
  - intros H. injection H as ->. exact (Hm s E).
  - discriminate.
Qed.

Lemma bind_raise {A B} (m : M A) (k : A -> M B) (s : t) (e : error) :
  bind m k s = Raise e ->
  m s = Raise e \/ exists a s1, m s = Ok (a, s1) /\ k a s1 = Raise e.
Proof.
  unfold bind. destruct (m s) as [[a s1]|e'|]; intros H.
  - right. eauto.
  - left. injection H as ->. reflexivity.
  - discriminate.
Qed.

Create HintDb nocov.

#[local] Hint Resolve max_dim_rows_keepdim_no_cov min_dim_rows_keepdim_no_cov
  matmul_no_cov tbinop_no_cov sym_quant_no_cov sym_dequant_no_cov div_scalar_no_cov
  isub_no_cov iadd_no_cov max_dim_last_no_cov max_dim_last_keepdim_no_cov
  reduce_dim_rows_no_cov reshape_no_cov chunking_no_cov quant_bfloat_no_cov : nocov.

Ltac never_step :=
  match goal with
  | |- never_cov (bind _ _) => apply never_bind; [|intros ?]
  | |- never_cov (ret _) => apply never_ret
  | |- never_cov get => apply never_get
  | |- never_cov (collect _) => apply never_collect
  | |- never_cov (modify _) => apply never_modify
  | |- never_cov (lift (Raise ShapeMismatchError)) => apply never_lift; discriminate
  | |- never_cov (lift (run_bands _ _ _)) =>
      apply never_lift, run_bands_never; intros ? ?;
      first [apply qk_band_step_no_cov | apply sv_band_step_no_cov]
  | |- never_cov (lift _) =>
      apply never_lift; first [solve [auto with nocov] | unfold max_dim_rows; auto with nocov]
  | |- never_cov (match ?x with _ => _ end) => destruct x
  end.

Ltac never_tac := repeat never_step.

Lemma qk_bands_never dt chunks hc result : never_cov (qk_bands dt chunks hc result).
Proof. unfold qk_bands. never_tac. Qed.

Lemma sv_bands_never dt chunks src_len hc result :
  never_cov (sv_bands dt chunks src_len hc result).
Proof. unfold sv_bands. never_tac. Qed.

(** A step that does not end in the assertion either returns, or ends the
    computation otherwise. *)
Ltac raise_step H x s Hx :=
  apply bind_raise in H;
  destruct H as [H|(x & s & Hx & H)];
  [exfalso; revert H;
   match goal with
   | |- ?m ?s0 = _ -> False =>
       let N := fresh "N" in
       assert (N : never_cov m) by (try apply qk_bands_never; try apply sv_bands_never;
                                    never_tac);
       exact (N s0)
   end|].

(** With the statistics of the query computed from the chunks and a
    leading dimension [bsz * heads] of [self.num_heads], Q x K^T does not
    end in the check of line 768. *)
Lemma qk_block_passes math_sqrt dt o q kv (query key : Tensor 4) (self : t)
      (bsz heads tgt d : nat) :
  shape query = [bsz; heads; tgt; d] ->
  q_ch_bias (supplied self) = None -> q_tmax (supplied self) = None ->
  q_group_index (supplied self) = None ->
  (0 < decomp_factor self)%nat ->
  (bsz * heads)%nat = num_heads self ->
  qk_block math_sqrt dt o q kv query key self <> Raise BandCoverageError.
Proof.
  intros Hq Hb Ht Hg HD Hheads H. unfold qk_block in H.
  raise_step H s0 s0' Hget. apply Ok_inj in Hget. inversion Hget; subst s0 s0'; clear Hget.
  rewrite Hq in H.
  destruct (shape key) as [|k0 [|k1 [|src [|k3 [|]]]]] eqn:Hk;
    try (revert H; apply never_lift; discriminate).
  raise_step H q3 s1 Hq3. apply lift_ok in Hq3. destruct Hq3 as [Hq3 ->].
  raise_step H k3' s1 Hk3. apply lift_ok in Hk3. destruct Hk3 as [Hk3 ->].
  raise_step H q3s s1 Hq3s. apply lift_ok in Hq3s. destruct Hq3s as [Hq3s ->].
  raise_step H kb s1 Hkb.
  assert (F1 : frame_view s1 = frame_view self).
  { revert Hkb. match goal with
    | |- ?m _ = _ -> _ => assert (P : preserves m) by AttnFrame.frame_tac
    end.
    apply P. }
  clear Hkb.
  raise_step H K s2 HK. apply lift_ok in HK. destruct HK as [_ ->].
  raise_step H scale s2 Hsc.
  assert (F2 : frame_view s2 = frame_view s1).
  { revert Hsc. match goal with
    | |- ?m _ = _ -> _ => assert (P : preserves m) by AttnFrame.frame_tac
    end.
    apply P. }
  clear Hsc.
  raise_step H K0 s3 HK0. apply lift_ok in HK0. destruct HK0 as [_ ->].
  raise_step H K1 s3 HK1. apply lift_ok in HK1. destruct HK1 as [_ ->].
  raise_step H ch s3 Hch. apply lift_ok in Hch. destruct Hch as [Hch ->].
  destruct ch as [chunks hc].
  rewrite Hb in H.
  raise_step H qb s3 Hqb.
  bind_step Hqb ch_max s4 Hmax. apply lift_ok in Hmax. destruct Hmax as [Hmax ->].
  bind_step Hqb ch_min s4 Hmin. apply lift_ok in Hmin. destruct Hmin as [Hmin ->].
  bind_step Hqb bsum s4 Hsum. apply lift_ok in Hsum. destruct Hsum as [Hsum ->].
  bind_step Hqb u s4 Hcol. apply collect_ok in Hcol. destruct Hcol as [Hsup3 HD3].
  apply Ok_inj in Hqb. injection Hqb as Hqb Hs34. subst s4.
  raise_step H o1 s5 Ho1. apply lift_ok in Ho1. destruct Ho1 as [_ ->].
  raise_step H o2 s5 Ho2. apply lift_ok in Ho2. destruct Ho2 as [_ ->].
  raise_step H o3 s5 Ho3. apply lift_ok in Ho3. destruct Ho3 as [_ ->].
  raise_step H hc' s5 Hsub. apply lift_ok in Hsub. destruct Hsub as [Hsub ->].
  raise_step H st s6 Hbands. destruct st as [count result].
  destruct (reshape_ok_wf 3 _ query q3 Hq3) as [Wq3 [Sq3 _]].
  destruct (div_scalar_wf 3 q3 q3s _ Wq3 Hq3s) as [Wq3s [Sq3s _]].
  rewrite Sq3 in Sq3s.
  destruct (chunking_shape _ _ q3s _ _ _ chunks hc Sq3s Hch) as [Whc [Shc [_ Hc0]]].
  destruct (reduce_rows_keepdim_wf max_list hc ch_max _ _ _ _ Whc Shc Hmax) as [Wmax Smax].
  destruct (reduce_rows_keepdim_wf min_list hc ch_min _ _ _ _ Whc Shc Hmin) as [Wmin Smin].
  destruct (tbinop_wf 4 Qplus ch_max ch_min bsum Wmax Wmin Hsum) as [Wsum _].
  assert (Wqb : wf qb) by (subst qb; apply tlift_wf; exact Wsum).
  destruct (isub_wf 4 hc qb hc' Whc Wqb Hsub) as [Whc' [Shc' _]].
  rewrite Shc in Shc'.
  assert (Fs : supplied s3 = supplied self /\ decomp_factor s3 = decomp_factor self).
  { unfold frame_view in F1, F2. split; congruence. }
  destruct Fs as [Fsup FD].
  destruct (qk_bands_counts s3 dt chunks hc' _ _ _ _ _ count result s6
              ltac:(rewrite Fsup; exact Ht) ltac:(rewrite Fsup; exact Hg) Shc' Whc' Hbands)
    as [_ [Hsumc [_ Hhd]]].
  rewrite FD in Hsumc. specialize (Hsumc HD).
  assert (E : Nat.eqb (sum_list count) (num_heads self * head_dim self * chunks) = true).
  { apply Nat.eqb_eq. rewrite Hsumc, Hheads. lia. }
  rewrite E in H. cbv iota in H.
  revert H. match goal with
  | |- ?m ?s0 = _ -> False =>
      assert (N : never_cov m) by (never_tac; discriminate); exact (N s0)
  end.
Qed.

(** The same for S x V and the check of line 867. *)
Lemma sv_block_passes mx dt hdt (aw value : Tensor 4) (self : t)
      (bsz heads tgt src : nat) :
  shape aw = [bsz; heads; tgt; src] ->
  s_tmax (supplied self) = None -> s_group_index (supplied self) = None ->
  (0 < decomp_factor self)%nat ->
  (bsz * heads)%nat = num_heads self ->
  sv_block mx dt hdt aw value self <> Raise BandCoverageError.
Proof.
  intros Hq Ht Hg HD Hheads H. unfold sv_block in H.
  raise_step H s0 s0' Hget. apply Ok_inj in Hget. inversion Hget; subst s0 s0'; clear Hget.
  rewrite Hq in H.
  raise_step H a3 s1 Ha3. apply lift_ok in Ha3. destruct Ha3 as [Ha3 ->].
  raise_step H scale s1 Hsc.
  assert (F1 : frame_view s1 = frame_view self).
  { revert Hsc. match goal with
    | |- ?m _ = _ -> _ => assert (P : preserves m) by AttnFrame.frame_tac
    end.
    apply P. }
  clear Hsc.
  raise_step H V0 s2 HV0. apply lift_ok in HV0. destruct HV0 as [_ ->].
  raise_step H V1 s2 HV1. apply lift_ok in HV1. destruct HV1 as [_ ->].
  raise_step H ch s2 Hch. apply lift_ok in Hch. destruct Hch as [Hch ->].
  destruct ch as [chunks hc].
  raise_step H st s3 Hbands. destruct st as [count result].
  destruct (reshape_ok_wf 3 _ aw a3 Ha3) as [Wa3 [Sa3 _]].
  destruct (chunking_shape _ _ a3 _ _ _ chunks hc Sa3 Hch) as [Whc [Shc [_ Hc0]]].
  assert (Fs : supplied s1 = supplied self /\ decomp_factor s1 = decomp_factor self).
  { unfold frame_view in F1. split; congruence. }
  destruct Fs as [Fsup FD].
  destruct (sv_bands_counts s1 dt chunks src hc _ _ _ _ _ count result s3
              ltac:(rewrite Fsup; exact Ht) ltac:(rewrite Fsup; exact Hg) Shc Whc Hbands)
    as [_ [Hsumc [_ Hhd]]].
  rewrite FD in Hsumc. specialize (Hsumc HD).
  assert (E : Nat.eqb (sum_list count) (num_heads self * src * chunks) = true).
  { apply Nat.eqb_eq. rewrite Hsumc, Hheads. lia. }
  rewrite E in H. cbv iota in H.
  revert H. match goal with
  | |- ?m ?s0 = _ -> False =>
      assert (N : never_cov m) by (never_tac; discriminate); exact (N s0)
  end.
Qed.

(** The frame of the state a step ends in. *)
Ltac frame_of Hx F :=
  match type of Hx with
  | ?m ?s = Ok (_, ?s') =>
      assert (F : frame_view s' = frame_view s)
        by (let P := fresh "P" in
            assert (P : preserves m)
              by (repeat first [ apply AttnFrame.qk_block_preserves
                               | apply AttnFrame.sv_block_preserves
                               | AttnFrame.frame_step ]);
            exact (P _ _ _ Hx))
  end.

(** Q x K^T hands back the batch size of the query. *)
Lemma qk_block_bsz math_sqrt dt o q kv (query key : Tensor 4) (self self' : t)
      (bsz heads tgt d b : nat) (w : Tensor 4) :
  shape query = [bsz; heads; tgt; d] ->
  qk_block math_sqrt dt o q kv query key self = Ok ((b, w), self') ->
  b = bsz.
Proof.
  intros Hq H. unfold qk_block in H.
  bind_step H s0 s0' Hget. clear Hget.
  rewrite Hq in H.
  destruct (shape key) as [|k0 [|k1 [|src [|k3 [|]]]]] eqn:Hk; try discriminate.
  repeat first
    [ apply bind_ok in H; destruct H as (? & ? & _ & H)
    | match type of H with
      | context [let '(_, _) := ?x in _] => destruct x
      end ].
  apply Ok_inj in H. congruence.
Qed.

Lemma shape_eqb_true (s1 s2 : list nat) : shape_eqb s1 s2 = true -> s1 = s2.
Proof. unfold shape_eqb. destruct (list_eq_dec Nat.eq_dec s1 s2); [trivial|discriminate]. Qed.

(** A mask of one head broadcasts to the heads of the scores. *)
Lemma bshape_mask (b n q k : nat) : bshape [b; n; q; k] [b; 1%nat; q; k] = [b; n; q; k].
Proof.
  cbn [bshape].
  destruct (Nat.eqb_spec b 1), (Nat.eqb_spec n 1), (Nat.eqb_spec q 1), (Nat.eqb_spec k 1);
    congruence.
Qed.

(** The checks of the shapes end in another error. *)
Ltac shape_check :=
  match goal with
  | |- (if ?c then _ else _) <> _ => destruct c; discriminate
  end.

(** For one sequence, with projections that keep the heads of the module and
    none of the statistics of the query and of the scores supplied, the
    whole pass does not end in the checks of lines 768 and 867. *)
Lemma forward_passes math_sqrt mx
      (project : Tensor 2 -> outcome (Tensor 4 * Tensor 4 * Tensor 4 * nat))
      (softmax : Tensor 4 -> Tensor 4) (o_proj : Tensor 3 -> outcome (Tensor 3))
      (hs : Tensor 3) (mask : option (Tensor 4)) (oa : bool) (self : t)
      (q_len dims : nat) :
  shape hs = [1%nat; q_len; dims] ->
  (forall h, project h <> Raise BandCoverageError) ->
  (forall h q k v n, project h = Ok (q, k, v, n) ->
                     exists tgt d, shape q = [1%nat; num_heads self; tgt; d]) ->
  (forall w, shape (softmax w) = shape w) ->
  (forall x, o_proj x <> Raise BandCoverageError) ->
  q_ch_bias (supplied self) = None -> q_tmax (supplied self) = None ->
  q_group_index (supplied self) = None ->
  s_tmax (supplied self) = None -> s_group_index (supplied self) = None ->
  (0 < decomp_factor self)%nat ->
  forward math_sqrt mx project softmax o_proj hs mask oa self <> Raise BandCoverageError.
Proof.
  intros Hs Pn Ps Ss On Hb Ht Hg Hst Hsg HD H. unfold forward in H.
  rewrite Hs in H.
  raise_step H u1 s1 Hm1. frame_of Hm1 F1. clear Hm1.
  raise_step H s1' s1'' Hget. apply Ok_inj in Hget. inversion Hget; subst s1' s1''; clear Hget.
  raise_step H u2 s2 Hm2. frame_of Hm2 F2. clear Hm2.
  raise_step H s2' s2'' Hget. apply Ok_inj in Hget. inversion Hget; subst s2' s2''; clear Hget.
  assert (F : frame_view s2 = frame_view self) by congruence.
  clear F1 F2.
  raise_step H hf s3 Hhf. apply lift_ok in Hhf. destruct Hhf as [_ ->].
  apply bind_raise in H. destruct H as [H|(qkv & s3 & Hp & H)].
  { revert H. apply never_lift, Pn. }
  apply lift_ok in Hp. destruct Hp as [Hp ->].
  destruct qkv as [[[query key] value] kv].
  destruct (Ps _ _ _ _ _ Hp) as (tgt & d & Hq).
  destruct (quant_mha s2) eqn:Eq; cbn [negb] in H.
  2: { revert H. match goal with
       | |- ?m ?s0 = _ -> False =>
           assert (N : never_cov m)
             by (never_tac; first [shape_check | apply On]); exact (N s0)
       end. }
  apply bind_raise in H. destruct H as [H|([b aw] & s3 & Hqk & H)].
  { revert H. unfold frame_view in F.
    assert (FN : num_heads s2 = num_heads self) by congruence.
    apply (qk_block_passes _ _ _ _ _ _ _ _ _ _ _ _ Hq); [congruence ..|].
    rewrite FN. lia. }
  pose proof (qk_block_bsz _ _ _ _ _ _ _ _ _ _ _ _ _ _ _ Hq Hqk) as Eb. subst b.
  frame_of Hqk F3. clear Hqk.
  assert (F' : frame_view s3 = frame_view self) by congruence.
  apply bind_raise in H. destruct H as [H|(u3 & s4 & Ha & H)].
  { revert H. apply never_lift. shape_check. }
  apply lift_ok in Ha. destruct Ha as [Ha ->].
  destruct (shape_eqb (shape aw) [1%nat; num_heads s2; q_len; kv]) eqn:Eaw;
    [|discriminate].
  apply shape_eqb_true in Eaw. clear Ha.
  apply bind_raise in H. destruct H as [H|(aw0 & s4 & Hmask & H)].
  { revert H. match goal with
    | |- ?m ?s0 = _ -> False =>
        assert (N : never_cov m) by (never_tac; shape_check); exact (N s0)
    end. }
  assert (Haw0 : shape aw0 = [1%nat; num_heads s2; q_len; kv] /\ s4 = s3).
  { destruct mask as [m|].
    - bind_step Hmask u4 s5 Hm. apply lift_ok in Hm. destruct Hm as [Hm ->].
      apply lift_ok in Hmask. destruct Hmask as [Hadd ->]. split; [|reflexivity].
      destruct (shape_eqb (shape m) [1%nat; 1%nat; q_len; kv]) eqn:Em; [|discriminate].
      apply shape_eqb_true in Em.
      unfold tbinop in Hadd.
      destruct (broadcastable (shape aw) (shape m)); [|discriminate].
      apply Ok_inj in Hadd. subst aw0. cbn [shape].
      rewrite Eaw, Em. apply bshape_mask.
    - apply Ok_inj in Hmask. inversion Hmask; subst. split; [exact Eaw|reflexivity]. }
  destruct Haw0 as [Haw0 ->]. clear Hmask.
  apply bind_raise in H. destruct H as [H|([b ao] & s4 & Hsv & H)].
  { revert H. unfold frame_view in F'.
    apply (sv_block_passes _ _ _ _ _ _ 1%nat (num_heads s2) q_len kv).
    - rewrite Ss. exact Haw0.
    - congruence.
    - congruence.
    - congruence.
    - unfold frame_view in F.
      assert (FN : num_heads s3 = num_heads s2) by congruence.
      rewrite FN. lia. }
  revert H. match goal with
  | |- ?m ?s0 = _ -> False =>
      assert (N : never_cov m)
        by (never_tac; first [shape_check | apply On]); exact (N s0)
  end.
Qed.
End AttnPass.

(** The whole forward pass on one sequence of finite numbers (no NaN in
    the query or in the scores the softmax returns: the tensors here hold
    rational numbers).  For hidden states of batch size 1, projections
    whose query has the shape [(1, num_heads, q_len, head_dim)] of line
    646, a softmax that keeps the shape of the scores, and none of
    [q_ch_bias], [q_tmax], [q_group_index], [s_tmax], [s_group_index]
    supplied, the pass never ends with the assertion of the coverage check,
    with or without a mask and whether [quant_mha] is set or not; the
    projections themselves are taken not to raise it. *)
Theorem forward_one_sequence_passes_check
        (math_sqrt : nat -> Q) (mx : forall n, Tensor n -> Tensor n)
        (project : Tensor 2 -> outcome (Tensor 4 * Tensor 4 * Tensor 4 * nat))
        (softmax : Tensor 4 -> Tensor 4) (o_proj : Tensor 3 -> outcome (Tensor 3))
        (hidden_states : Tensor 3) (attention_mask : option (Tensor 4))
        (output_attentions : bool)
        (self : LlamaAttention_Tender_Eval.t) (q_len dimensions : nat) :
  shape hidden_states = [1%nat; q_len; dimensions] ->
  (forall h, project h <> Raise BandCoverageError) ->
  (forall h q k v n,
      project h = Ok (q, k, v, n) ->
      exists tgt d,
        shape q = [1%nat; LlamaAttention_Tender_Eval.num_heads self; tgt; d]) ->
  (forall w, shape (softmax w) = shape w) ->
  (forall x, o_proj x <> Raise BandCoverageError) ->
  LlamaAttention_Tender_Eval.q_ch_bias (LlamaAttention_Tender_Eval.supplied self) = None ->
  LlamaAttention_Tender_Eval.q_tmax (LlamaAttention_Tender_Eval.supplied self) = None ->
  LlamaAttention_Tender_Eval.q_group_index (LlamaAttention_Tender_Eval.supplied self)
  = None ->
  LlamaAttention_Tender_Eval.s_tmax (LlamaAttention_Tender_Eval.supplied self) = None ->
  LlamaAttention_Tender_Eval.s_group_index (LlamaAttention_Tender_Eval.supplied self)
  = None ->
  (0 < LlamaAttention_Tender_Eval.decomp_factor self)%nat ->
  LlamaAttention_Tender_Eval.forward math_sqrt mx project softmax o_proj
    hidden_states attention_mask output_attentions self <> Raise BandCoverageError.
Proof.
  intros Hs Pn Ps Ss On Hb Ht Hg Hst Hsg HD.
  exact (AttnPass.forward_passes math_sqrt mx project softmax o_proj hidden_states
           attention_mask output_attentions self q_len dimensions
           Hs Pn Ps Ss On Hb Ht Hg Hst Hsg HD).
Qed.

Lemma forward_one_sequence_passes_check_witness :
  (exists out self',
      LlamaAttention_Tender_Eval.forward sqrt_exact mx_exact project_h4 softmax_keep
        o_proj_id hidden_h4 None false attn_head4 = Ok (out, self'))
  /\ LlamaAttention_Tender_Eval.forward sqrt_exact mx_exact project_h4 softmax_keep
       o_proj_id hidden_h4 None false attn_head4 <> Raise BandCoverageError.
Proof.
  split; [eexists; eexists; vm_compute; reflexivity|].
  eapply (forward_one_sequence_passes_check sqrt_exact mx_exact project_h4 softmax_keep
            o_proj_id hidden_h4 None false attn_head4 1%nat 4%nat).
  - reflexivity.
  - intros h. discriminate.
  - intros h q k v n E. exists 1%nat, 4%nat.
    unfold project_h4 in E. injection E as <- _ _ _. reflexivity.
  - intros w. reflexivity.
  - intros x. discriminate.
  - reflexivity.
  - reflexivity.
  - reflexivity.
  - reflexivity.
  - reflexivity.
  - simpl; lia.
Defined.
(** ** Floating-point rounding *)

Lemma pow2_add (a b : Z) : pow2 (a + b) == pow2 a * pow2 b.
Proof. unfold pow2. apply Qpower_plus. discriminate. Qed.

Lemma pow2_lt (a b : Z) : (a < b)%Z -> pow2 a < pow2 b.
Proof. intros H. unfold pow2. apply Qpower_lt_compat_l; [exact H | reflexivity]. Qed.

Lemma pow2_le (a b : Z) : (a <= b)%Z -> pow2 a <= pow2 b.
Proof. intros H. unfold pow2. apply Qpower_le_compat_l; [exact H | discriminate]. Qed.

Lemma pow2_lt_inv (a b : Z) : pow2 a < pow2 b -> (a < b)%Z.
Proof.
  intros H. destruct (Z_lt_le_dec a b) as [L|L]; [exact L|].
  exfalso. apply pow2_le in L. lra.
Qed.

Lemma pow2_opp (a : Z) : pow2 (- a) == / pow2 a.
Proof. unfold pow2. apply Qpower_opp. Qed.

Lemma pow2_sub (a b : Z) : pow2 (a - b) == pow2 a / pow2 b.
Proof. unfold Z.sub. rewrite pow2_add, pow2_opp. reflexivity. Qed.

Lemma Qdiv_lt_cross (x y z w : Q) : 0 < y -> 0 < w -> x * w < z * y -> x / y < z / w.
Proof.
  intros Hy Hw H. apply Qlt_shift_div_r; [exact Hy|].
  setoid_replace (z / w * y) with (z * y / w) by (field; lra).
  apply Qlt_shift_div_l; [exact Hw | exact H].
Qed.

Lemma Qabs_make (q : Q) : Qabs q == inject_Z (Z.abs (Qnum q)) / inject_Z (Zpos (Qden q)).
Proof.
  destruct q as [n d]. unfold Qabs. cbn [Qnum Qden].
  rewrite (Qmake_Qdiv (Z.abs n) d). reflexivity.
Qed.

(** [ilog2 q] is the exponent of the leading bit of [q]. *)
Lemma ilog2_spec (q : Q) :
  ~ q == 0 -> pow2 (ilog2 q) <= Qabs q /\ Qabs q < pow2 (ilog2 q + 1).
Proof.
  intros Hq. unfold ilog2.
  set (n := Z.abs (Qnum q)). set (d := Zpos (Qden q)).
  assert (Hn : (0 < n)%Z).
  { unfold n. destruct q as [m e]. unfold Qeq in Hq. cbn in Hq |- *. lia. }
  assert (Hd : (0 < d)%Z) by reflexivity.
  destruct (Z.log2_spec n Hn) as [Ha1 Ha2].
  destruct (Z.log2_spec d Hd) as [Hc1 Hc2].
  set (a := Z.log2 n) in *. set (c := Z.log2 d) in *.
  assert (Ha0 : (0 <= a)%Z) by apply Z.log2_nonneg.
  assert (Hc0 : (0 <= c)%Z) by apply Z.log2_nonneg.
  pose proof (Qabs_make q) as Eabs. fold n d in Eabs.
  assert (EA : pow2 a == inject_Z (2 ^ a)) by (apply pow2_nonneg_exp; exact Ha0).
  assert (EC : pow2 c == inject_Z (2 ^ c)) by (apply pow2_nonneg_exp; exact Hc0).
  assert (HA1 : pow2 a <= inject_Z n) by (rewrite EA, <- Zle_Qle; exact Ha1).
  assert (HA2 : inject_Z n < 2 * pow2 a).
  { rewrite EA. change 2 with (inject_Z 2). rewrite <- inject_Z_mult, <- Zlt_Qlt.
    replace (Z.succ a) with (a + 1)%Z in Ha2 by lia.
    rewrite Z.pow_add_r in Ha2 by lia. lia. }
  assert (HC1 : pow2 c <= inject_Z d) by (rewrite EC, <- Zle_Qle; exact Hc1).
  assert (HC2 : inject_Z d < 2 * pow2 c).
  { rewrite EC. change 2 with (inject_Z 2). rewrite <- inject_Z_mult, <- Zlt_Qlt.
    replace (Z.succ c) with (c + 1)%Z in Hc2 by lia.
    rewrite Z.pow_add_r in Hc2 by lia. lia. }
  pose proof (pow2_pos a) as Pa. pose proof (pow2_pos c) as Pc.
  assert (PD : 0 < inject_Z d) by lra.
  assert (Elo : pow2 (a - c - 1) == pow2 a / (2 * pow2 c)).
  { rewrite !pow2_sub. change (pow2 1) with 2. field. lra. }
  assert (Ehi : pow2 (a - c + 1) == 2 * pow2 a / pow2 c).
  { rewrite pow2_add, pow2_sub. change (pow2 1) with 2. field. lra. }
  assert (Hlo : pow2 (a - c - 1) < Qabs q).
  { rewrite Elo, Eabs. apply Qdiv_lt_cross; [lra | exact PD | nra]. }
  assert (Hhi : Qabs q < pow2 (a - c + 1)).
  { rewrite Ehi, Eabs. apply Qdiv_lt_cross; [exact PD | exact Pc | nra]. }
  destruct (Qle_bool (pow2 (a - c)) (Qabs q)) eqn:E.
  - apply Qle_bool_iff in E. split; [exact E | exact Hhi].
  - split; [apply Qlt_le_weak; exact Hlo|].
    replace (a - c - 1 + 1)%Z with (a - c)%Z by lia.
    apply Qnot_le_lt. intros H. apply Qle_bool_iff in H. congruence.
Qed.

(** The exponent of the leading bit is determined by the value. *)
Lemma ilog2_unique (q : Q) (e : Z) :
  pow2 e <= Qabs q -> Qabs q < pow2 (e + 1) -> ilog2 q = e.
Proof.
  intros H1 H2.
  assert (Hq : ~ q == 0).
  { intros E. rewrite E in H1. pose proof (pow2_pos e). change (Qabs 0) with 0 in H1. lra. }
  destruct (ilog2_spec q Hq) as [G1 G2].
  assert (L1 : (e < ilog2 q + 1)%Z) by (apply pow2_lt_inv; lra).
  assert (L2 : (ilog2 q < e + 1)%Z) by (apply pow2_lt_inv; lra).
  lia.
Qed.

Lemma ilog2_comp (q q' : Q) : q == q' -> ~ q == 0 -> ilog2 q = ilog2 q'.
Proof.
  intros E Hq. symmetry. destruct (ilog2_spec q Hq) as [G1 G2].
  apply ilog2_unique; rewrite <- E; assumption.
Qed.

Lemma quantum_pos (f : format) (q : Q) : 0 < quantum f q.
Proof. apply pow2_pos. Qed.

Lemma round_finite_eq (f : format) (q : Q) :
  round_finite f q == inject_Z (round_half_even (q / quantum f q)) * quantum f q.
Proof. unfold round_finite. apply Qred_correct. Qed.

Lemma round_half_even_small (t : Q) : Qabs t <= 1 # 2 -> round_half_even t = 0%Z.
Proof.
  intros H. apply Qabs_Qle_condition in H. destruct H as [H1 H2].
  unfold round_half_even.
  pose proof (Qfloor_le t) as Hl. pose proof (Qlt_floor t) as Hu.
  rewrite inject_Z_plus in Hu. change (inject_Z 1) with 1 in Hu.
  assert (Hf : (Qfloor t = -1 \/ Qfloor t = 0)%Z).
  { assert (L1 : (-1 <= Qfloor t)%Z).
    { destruct (Z_lt_le_dec (Qfloor t) (-1)) as [L|L]; [|exact L]. exfalso.
      assert (inject_Z (Qfloor t) <= inject_Z (-2)) by (rewrite <- Zle_Qle; lia).
      change (inject_Z (-2)) with (-2 # 1) in H. lra. }
    assert (L2 : (Qfloor t <= 0)%Z).
    { destruct (Z_lt_le_dec 0 (Qfloor t)) as [L|L]; [|exact L]. exfalso.
      assert (inject_Z 1 <= inject_Z (Qfloor t)) by (rewrite <- Zle_Qle; lia).
      change (inject_Z 1) with 1 in H. lra. }
    lia. }
  destruct Hf as [Hf|Hf]; rewrite Hf in *.
  - change (inject_Z (-1)) with (-1 # 1) in *.
    destruct (Qcompare (t - (-1 # 1)) (1 # 2)) eqn:E.
    + reflexivity.
    + apply Qlt_alt in E. lra.
    + reflexivity.
  - change (inject_Z 0) with 0 in *.
    destruct (Qcompare (t - 0) (1 # 2)) eqn:E.
    + reflexivity.
    + reflexivity.
    + apply Qgt_alt in E. lra.
Qed.

Lemma round_finite_0 (f : format) (q : Q) : q == 0 -> round_finite f q = 0.
Proof.
  intros E. unfold round_finite.
  change 0 with (Qred 0). apply Qred_complete.
  rewrite (round_half_even_comp (q / quantum f q) (inject_Z 0)).
  - rewrite round_half_even_Z. ring.
  - generalize (quantum f q). intros u. rewrite E. unfold Qdiv. ring.
Qed.

(** Rounding depends on the value only. *)
Lemma round_finite_comp (f : format) (q q' : Q) :
  q == q' -> round_finite f q = round_finite f q'.
Proof.
  intros E. destruct (Qeq_dec q 0) as [Z0|N0].
  - rewrite (round_finite_0 f q Z0). symmetry. apply round_finite_0.
    rewrite <- E. exact Z0.
  - unfold round_finite. apply Qred_complete.
    unfold quantum. rewrite <- (ilog2_comp q q' E N0).
    rewrite (round_half_even_comp (q / pow2 (Z.max (ilog2 q) (emin f) - prec f + 1))
               (q' / pow2 (Z.max (ilog2 q) (emin f) - prec f + 1))); [reflexivity|].
    generalize (pow2 (Z.max (ilog2 q) (emin f) - prec f + 1)). intros u.
    rewrite E. reflexivity.
Qed.

Lemma fround_comp (f : format) (q q' : Q) : q == q' -> fround f q = fround f q'.
Proof. intros E. unfold fround. rewrite (round_finite_comp f q q' E). reflexivity. Qed.

(** A multiple of its own quantum is not moved. *)
Lemma round_finite_multiple (f : format) (q : Q) (m : Z) :
  q == inject_Z m * quantum f q -> round_finite f q == q.
Proof.
  intros E. rewrite round_finite_eq.
  rewrite (round_half_even_comp (q / quantum f q) (inject_Z m)).
  - rewrite round_half_even_Z. symmetry. exact E.
  - pose proof (quantum_pos f q) as P. revert E P.
    generalize (quantum f q). intros u E P. rewrite E. field. lra.
Qed.

Lemma Qred_inject_Z (z : Z) : Qred (inject_Z z) = inject_Z z.
Proof.
  unfold Qred, inject_Z.
  pose proof (Z.ggcd_gcd z 1) as G. pose proof (Z.ggcd_correct_divisors z 1) as D.
  destruct (Z.ggcd z 1) as [g [aa bb]]. cbn [fst snd] in *.
  rewrite Z.gcd_1_r in G. subst g. destruct D as [D1 D2].
  rewrite Z.mul_1_l in D1, D2. subst aa bb. reflexivity.
Qed.

Lemma Qabs_inject_Z (z : Z) : Qabs (inject_Z z) = inject_Z (Z.abs z).
Proof. reflexivity. Qed.

(** The integers of magnitude at most [2 ^ prec] are numbers of the
    format. *)
Lemma round_finite_int (f : format) (z : Z) :
  (1 <= prec f)%Z -> (emin f - prec f + 1 <= 0)%Z -> (Z.abs z <= 2 ^ prec f)%Z ->
  round_finite f (inject_Z z) = inject_Z z.
Proof.
  intros Hp He Hz.
  destruct (Z.eq_dec z 0) as [->|Nz]; [apply round_finite_0; reflexivity|].
  assert (Hq : ~ inject_Z z == 0).
  { intros E. apply Nz. change 0 with (inject_Z 0) in E. apply -> inject_Z_injective in E.
    exact E. }
  destruct (ilog2_spec _ Hq) as [G1 G2]. rewrite Qabs_inject_Z in G1, G2.
  set (e := ilog2 (inject_Z z)) in *.
  assert (E0 : (0 <= e)%Z).
  { assert (L : (0 < e + 1)%Z); [|lia]. apply pow2_lt_inv.
    change (pow2 0) with (inject_Z 1).
    assert (inject_Z 1 <= inject_Z (Z.abs z)) by (rewrite <- Zle_Qle; lia). lra. }
  assert (E1 : (e <= prec f)%Z).
  { destruct (Z_le_gt_dec e (prec f)) as [L|L]; [exact L|]. exfalso.
    assert (L' : (prec f < e)%Z) by lia. apply pow2_lt in L'.
    rewrite (pow2_nonneg_exp (prec f)) in L' by lia.
    assert (inject_Z (Z.abs z) <= inject_Z (2 ^ prec f)) by (rewrite <- Zle_Qle; exact Hz).
    lra. }
  transitivity (Qred (inject_Z z)); [|apply Qred_inject_Z].
  unfold round_finite. apply Qred_complete. rewrite <- round_finite_eq.
  destruct (Z_le_gt_dec (Z.max e (emin f) - prec f + 1) 0) as [L|L].
  - apply (round_finite_multiple f _ (z * 2 ^ (- (Z.max e (emin f) - prec f + 1)))).
    unfold quantum. fold e.
    set (u := (Z.max e (emin f) - prec f + 1)%Z) in *.
    rewrite inject_Z_mult. rewrite <- (pow2_nonneg_exp (- u)) by lia.
    rewrite <- Qmult_assoc, <- pow2_add.
    replace (- u + u)%Z with 0%Z by lia. change (pow2 0) with 1. ring.
  - assert (Ee : e = prec f) by lia.
    assert (Ea : Z.abs z = (2 ^ prec f)%Z).
    { rewrite Ee in G1. rewrite (pow2_nonneg_exp (prec f)) in G1 by lia.
      rewrite <- Zle_Qle in G1. lia. }
    apply (round_finite_multiple f _ (z / 2)).
    unfold quantum. fold e. rewrite Ee.
    replace (Z.max (prec f) (emin f) - prec f + 1)%Z with 1%Z by lia.
    change (pow2 1) with (inject_Z 2). rewrite <- inject_Z_mult.
    apply inject_Z_injective.
    assert (Ev : (2 ^ prec f = 2 * 2 ^ (prec f - 1))%Z).
    { rewrite <- Z.pow_succ_r by lia. f_equal. lia. }
    assert (Hdiv : (z = 2 * (z / 2))%Z).
    { apply Z.div_exact; [lia|]. apply Z.mod_divide; [lia|].
      apply Z.divide_abs_r. rewrite Ea, Ev. apply Z.divide_factor_l. }
    lia.
Qed.

(** What rounds to zero: the magnitudes of at most half the least
    subnormal number, [2 ^ (emin - prec)]. *)
Lemma round_finite_zero_iff (f : format) (q : Q) :
  (1 <= prec f)%Z ->
  (round_finite f q == 0 <-> Qabs q <= pow2 (emin f - prec f)).
Proof.
  intros Hp. split.
  - intros H. destruct (Qeq_dec q 0) as [Z0|N0].
    { rewrite Z0. change (Qabs 0) with 0. apply Qlt_le_weak, pow2_pos. }
    rewrite round_finite_eq in H.
    pose proof (quantum_pos f q) as P.
    assert (Hm : round_half_even (q / quantum f q) = 0%Z).
    { destruct (Z.eq_dec (round_half_even (q / quantum f q)) 0) as [E|E]; [exact E|].
      exfalso. apply Qmult_integral in H. destruct H as [H|H]; [|lra].
      apply E. change 0 with (inject_Z 0) in H. apply -> inject_Z_injective in H. exact H. }
    pose proof (round_half_even_nearest (q / quantum f q)) as N. rewrite Hm in N.
    assert (Ea : Qabs q <= (1 # 2) * quantum f q).
    { assert (E : q / quantum f q - inject_Z 0 == q / quantum f q)
        by (change (inject_Z 0) with 0; ring).
      rewrite E in N. unfold Qdiv in N. rewrite Qabs_Qmult, Qabs_Qinv in N.
      rewrite (Qabs_pos (quantum f q)) in N by lra.
      apply (Qmult_le_compat_r _ _ (quantum f q)) in N; [|lra].
      assert (E' : Qabs q * / quantum f q * quantum f q == Qabs q) by (field; lra).
      rewrite E' in N. exact N. }
    destruct (ilog2_spec q N0) as [G1 G2].
    destruct (Z_lt_le_dec (ilog2 q) (emin f)) as [L|L].
    + unfold quantum in Ea. rewrite Z.max_r in Ea by lia.
      replace (emin f - prec f + 1)%Z with (1 + (emin f - prec f))%Z in Ea by lia.
      rewrite pow2_add in Ea. change (pow2 1) with 2 in Ea. lra.
    + exfalso. unfold quantum in Ea. rewrite Z.max_l in Ea by lia.
      assert (Lp : pow2 (ilog2 q - prec f + 1) <= pow2 (ilog2 q)) by (apply pow2_le; lia).
      pose proof (pow2_pos (ilog2 q)) as Pq. lra.
  - intros H. destruct (Qeq_dec q 0) as [Z0|N0].
    { rewrite (round_finite_0 f q Z0). reflexivity. }
    destruct (ilog2_spec q N0) as [G1 G2].
    assert (L : (ilog2 q < emin f)%Z).
    { apply pow2_lt_inv. apply Qle_lt_trans with (Qabs q); [exact G1|].
      apply Qle_lt_trans with (pow2 (emin f - prec f)); [exact H|]. apply pow2_lt. lia. }
    rewrite round_finite_eq.
    rewrite round_half_even_small; [ring|].
    unfold quantum. rewrite Z.max_r by lia.
    replace (emin f - prec f + 1)%Z with (1 + (emin f - prec f))%Z by lia.
    rewrite pow2_add. change (pow2 1) with 2.
    pose proof (pow2_pos (emin f - prec f)) as P.
    unfold Qdiv. rewrite Qabs_Qmult, Qabs_Qinv.
    rewrite (Qabs_pos (2 * pow2 (emin f - prec f))) by lra.
    apply Qle_shift_div_r; [lra|]. lra.
Qed.

(** A rounded integer-valued bound does not fall below an integer the
    argument reaches. *)
Lemma round_half_even_ge (x : Q) (k : Z) : inject_Z k <= x -> (k <= round_half_even x)%Z.
Proof.
  intros H. pose proof (round_half_even_nearest x) as N.
  apply Qabs_Qle_condition in N. destruct N as [N1 N2].
  destruct (Z_le_gt_dec k (round_half_even x)) as [L|L]; [exact L|]. exfalso.
  assert (inject_Z (round_half_even x) <= inject_Z (k - 1)) by (rewrite <- Zle_Qle; lia).
  unfold Z.sub in H0. rewrite inject_Z_plus in H0.
  change (inject_Z (- (1))) with (-1 # 1) in H0. lra.
Qed.

Lemma round_half_even_le (x : Q) (k : Z) : x <= inject_Z k -> (round_half_even x <= k)%Z.
Proof.
  intros H. pose proof (round_half_even_nearest x) as N.
  apply Qabs_Qle_condition in N. destruct N as [N1 N2].
  destruct (Z_le_gt_dec (round_half_even x) k) as [L|L]; [exact L|]. exfalso.
  assert (inject_Z (k + 1) <= inject_Z (round_half_even x)) by (rewrite <- Zle_Qle; lia).
  rewrite inject_Z_plus in H0. change (inject_Z 1) with 1 in H0.
  lra.
Qed.

(** ** The quantization primitive in floating point *)

Lemma inject_Z_pred (a : Z) : inject_Z (a - 1) == inject_Z a - 1.
Proof. unfold Z.sub. rewrite inject_Z_plus. reflexivity. Qed.

Lemma q_hi_int (b : Z) : (1 <= b <= 25)%Z -> IEEE.q_hi b = inject_Z (2 ^ (b - 1) - 1).
Proof.
  intros Hb. unfold IEEE.q_hi.
  rewrite (round_finite_comp _ _ _ (q_max_of_int b (proj1 Hb))).
  apply round_finite_int; cbn; try lia.
  assert (0 < 2 ^ (b - 1))%Z by (apply Z.pow_pos_nonneg; lia).
  assert (2 ^ (b - 1) <= 2 ^ 24)%Z by (apply Z.pow_le_mono_r; lia).
  lia.
Qed.

Lemma q_lo_int (b : Z) : (1 <= b <= 25)%Z -> IEEE.q_lo b = inject_Z (- 2 ^ (b - 1)).
Proof.
  intros Hb. unfold IEEE.q_lo.
  assert (E : - (q_max_of b + 1) == inject_Z (- 2 ^ (b - 1))).
  { rewrite (q_max_of_int b (proj1 Hb)), inject_Z_pred, inject_Z_opp. ring. }
  rewrite (round_finite_comp _ _ _ E).
  apply round_finite_int; cbn; try lia.
  assert (0 < 2 ^ (b - 1))%Z by (apply Z.pow_pos_nonneg; lia).
  assert (2 ^ (b - 1) <= 2 ^ 24)%Z by (apply Z.pow_le_mono_r; lia).
  lia.
Qed.

(** The clamp of [sym_quant] on an integer, in lowest terms. *)
Lemma clamp_bounds_int (b z : Z) :
  (1 <= b <= 25)%Z ->
  Qred (clamp (IEEE.q_lo b) (IEEE.q_hi b) (inject_Z z))
  = inject_Z (Z.min (Z.max z (- 2 ^ (b - 1))) (2 ^ (b - 1) - 1)).
Proof.
  intros Hb.
  transitivity (Qred (inject_Z (Z.min (Z.max z (- 2 ^ (b - 1))) (2 ^ (b - 1) - 1))));
    [|apply Qred_inject_Z].
  apply Qred_complete.
  rewrite <- (clamp_int b z (proj1 Hb)).
  apply clamp_comp; [| |reflexivity].
  - rewrite (q_lo_int b Hb). rewrite (q_max_of_int b (proj1 Hb)), inject_Z_pred, inject_Z_opp.
    ring.
  - rewrite (q_hi_int b Hb). symmetry. apply q_max_of_int. lia.
Qed.


Lemma eps32_pos : 0 < eps32.
Proof. vm_compute. reflexivity. Qed.

Lemma representable_round (d : DType) (q : Q) :
  representable d q -> round_to d (Finite q) = Finite (Qred q).
Proof. intros H. exact H. Qed.

Lemma representable_round_finite (d : DType) (q : Q) :
  representable d q -> round_finite (format_of d) q = Qred q.
Proof.
  unfold representable, fround. intros H.
  destruct (Qle_bool (pow2 (emax (format_of d) + 1))
                     (Qabs (round_finite (format_of d) q))); [discriminate|].
  injection H as H. exact H.
Qed.

(** The divisor of line 63 on a float32 scale entry. *)
Lemma divisor_pos (s : Q) : 0 < Qmax (Qabs (Qred s)) eps32.
Proof.
  pose proof eps32_pos as P. pose proof (Q.le_max_r (Qabs (Qred s)) eps32). lra.
Qed.

Lemma divisor_comp (s : Q) : Qmax (Qabs (Qred s)) eps32 == Qmax (Qabs s) eps32.
Proof.
  assert (E : Qabs (Qred s) == Qabs s) by (rewrite Qred_correct; reflexivity).
  destruct (Q.max_spec (Qabs (Qred s)) eps32) as [[H1 E1]|[H1 E1]];
    destruct (Q.max_spec (Qabs s) eps32) as [[H2 E2]|[H2 E2]];
    rewrite E1, E2; lra.
Qed.

(** The entry [sym_quant] computes from float32 numbers [x] and [s]: the
    float32 quotient, rounded to an integer and clamped. *)
Lemma quant_entry32_value (b : Z) (x s : Q) :
  (1 <= b <= 25)%Z -> representable Float32 x -> representable Float32 s ->
  quant_entry32 b (Finite x) (Finite s)
  = Finite (inject_Z
              (Z.min (Z.max (round_half_even
                               (round_finite (format_of Float32)
                                             (x / Qmax (Qabs s) eps32)))
                            (- 2 ^ (b - 1)))
                     (2 ^ (b - 1) - 1))).
Proof.
  intros Hb Hx Hs. unfold quant_entry32.
  rewrite (representable_round _ _ Hx), (representable_round _ _ Hs).
  cbn [fabs fclamp_min fdiv].
  pose proof (divisor_pos s) as P.
  destruct (Qeq_bool (Qmax (Qabs (Qred s)) eps32) 0) eqn:E.
  { apply Qeq_bool_iff in E. lra. }
  clear E.
  assert (Et : Qred x / Qmax (Qabs (Qred s)) eps32 == x / Qmax (Qabs s) eps32).
  { rewrite (divisor_comp s), Qred_correct. reflexivity. }
  rewrite (fround_comp _ _ _ Et). unfold fround.
  set (r := round_finite (format_of Float32) (x / Qmax (Qabs s) eps32)).
  assert (Hp : (0 < 2 ^ (b - 1))%Z) by (apply Z.pow_pos_nonneg; lia).
  assert (Hp24 : (2 ^ (b - 1) <= 2 ^ 24)%Z) by (apply Z.pow_le_mono_r; lia).
  destruct (Qle_bool (pow2 (emax (format_of Float32) + 1)) (Qabs r)) eqn:Ov.
  - apply Qle_bool_iff in Ov.
    change (pow2 (emax (format_of Float32) + 1)) with (inject_Z (2 ^ 128)) in Ov.
    cbn [fround_int fclamp].
    destruct (Qlt_bool r 0) eqn:Sg.
    + unfold Qlt_bool in Sg. apply negb_true_iff in Sg.
      assert (Hr : r < 0).
      { apply Qnot_le_lt. intros H. apply Qle_bool_iff in H. congruence. }
      rewrite Qabs_neg in Ov by lra.
      assert (Hle : (round_half_even r <= - 2 ^ 128)%Z).
      { apply round_half_even_le. rewrite inject_Z_opp. lra. }
      rewrite (q_lo_int b Hb), (q_hi_int b Hb). f_equal.
      assert (2 ^ 24 < 2 ^ 128)%Z by reflexivity.
      rewrite Z.max_r by lia. rewrite Z.min_l by lia.
      transitivity (Qred (inject_Z (- 2 ^ (b - 1)))); [|apply Qred_inject_Z].
      apply Qred_complete.
      rewrite Q.min_l by (rewrite <- Zle_Qle; lia). reflexivity.
    + unfold Qlt_bool in Sg. apply negb_false_iff in Sg. apply Qle_bool_iff in Sg.
      rewrite Qabs_pos in Ov by exact Sg.
      assert (Hge : (2 ^ 128 <= round_half_even r)%Z) by (apply round_half_even_ge; exact Ov).
      rewrite (q_hi_int b Hb). f_equal.
      assert (2 ^ 24 < 2 ^ 128)%Z by reflexivity.
      rewrite Z.max_l by lia. rewrite Z.min_r by lia. apply Qred_inject_Z.
  - cbn [fround_int fclamp]. f_equal. apply clamp_bounds_int. exact Hb.
Qed.

(** [IEEE.sym_quant] in closed form. *)
Lemma ieee_sym_quant_unfold n (x s : FTensor n) (b : Z) :
  IEEE.sym_quant x s b
  = if Nat.eqb (IEEE.count_zeros (IEEE.to Float32 s)) 0
    then if broadcastable (fshape x) (fshape s)
         then Ok (mkFTensor Float32 (bshape (fshape x) (fshape s))
                            (bmap2 (quant_entry32 b) n (fdata x) (fdata s)))
         else Raise ShapeMismatchError
    else Raise ZeroScaleError.
Proof.
  unfold IEEE.sym_quant.
  destruct (Nat.eqb (IEEE.count_zeros (IEEE.to Float32 s)) 0); [|reflexivity].
  unfold IEEE.tbinop. cbn [fshape fdtype fdata IEEE.to IEEE.tlift].
  destruct (broadcastable (fshape x) (fshape s)); [|reflexivity].
  cbn [obind]. unfold IEEE.tlift. cbn [fshape fdtype fdata promote]. f_equal. f_equal.
  rewrite !tmap_tmap, !tmap_bmap2, bmap2_tmap_r, bmap2_tmap_l. reflexivity.
Qed.


Lemma ieee_count_zeros_0 n (s : FTensor n) :
  Nat.eqb (IEEE.count_zeros (IEEE.to Float32 s)) 0 = true
  <-> Forall (fun v => fis_zero (round_to Float32 v) = false) (entries n (fdata s)).
Proof.
  unfold IEEE.count_zeros, IEEE.to. cbn [fdata].
  rewrite filter_length_0, entries_tmap, Forall_map. reflexivity.
Qed.

Lemma ieee_count_zeros_pos n (s : FTensor n) :
  Nat.eqb (IEEE.count_zeros (IEEE.to Float32 s)) 0 = false
  <-> Exists (fun v => fis_zero (round_to Float32 v) = true) (entries n (fdata s)).
Proof.
  rewrite <- Bool.not_true_iff_false, ieee_count_zeros_0.
  induction (entries n (fdata s)) as [|v l IH].
  - split; [intros H; exfalso; apply H; constructor | intros H; inversion H].
  - split.
    + intros H. destruct (fis_zero (round_to Float32 v)) eqn:E; [left; exact E|].
      right. apply IH. intros F. apply H. constructor; assumption.
    + intros H F. inversion F; subst. inversion H; subst; [congruence|].
      apply IH in H1. tauto.
Qed.

(** The conversion of line 54 turns into zero the magnitudes of at most
    [2 ^ -150]. *)
Lemma rounds_to_zero32 (q : Q) :
  fis_zero (round_to Float32 (Finite q)) = true <-> Qabs q <= pow2 (-150).
Proof.
  cbn [round_to]. unfold fround.
  rewrite <- (round_finite_zero_iff (format_of Float32) q) by (cbn; lia).
  set (r := round_finite (format_of Float32) q).
  destruct (Qle_bool (pow2 (emax (format_of Float32) + 1)) (Qabs r)) eqn:Ov.
  - apply Qle_bool_iff in Ov. cbn [fis_zero]. split; [discriminate|].
    intros E. exfalso. rewrite E in Ov. change (Qabs 0) with 0 in Ov.
    pose proof (pow2_pos (emax (format_of Float32) + 1)). lra.
  - cbn [fis_zero]. apply Qeq_bool_iff.
Qed.

Lemma rounds_to_zero32_representable (q : Q) :
  representable Float32 q -> (fis_zero (round_to Float32 (Finite q)) = true <-> q == 0).
Proof.
  intros H. rewrite (representable_round _ _ H). cbn [fis_zero].
  rewrite Qeq_bool_iff, Qred_correct. reflexivity.
Qed.

Lemma quantize_spec_int (b : Z) (x s : Q) :
  (1 <= b)%Z ->
  quantize_spec b x s
  == inject_Z (Z.min (Z.max (round_half_even (x / s)) (- 2 ^ (b - 1))) (2 ^ (b - 1) - 1)).
Proof.
  intros Hb. rewrite <- (clamp_int b _ Hb). unfold quantize_spec, q_max_of.
  apply clamp_comp; [ring | reflexivity | reflexivity].
Qed.

(** Where the scale entry is at least the floor and the quotient is a
    float32 number, the entry is the specification's [round(x / s)],
    clamped. *)
Lemma quant_entry32_spec (b : Z) (x s : Q) :
  (1 <= b <= 25)%Z -> representable Float32 x -> representable Float32 s ->
  eps32 <= s -> representable Float32 (x / s) ->
  quant_entry32 b (Finite x) (Finite s) = Finite (Qred (quantize_spec b x s)).
Proof.
  intros Hb Hx Hs He Hq. rewrite (quant_entry32_value b x s Hb Hx Hs). f_equal.
  rewrite <- Qred_inject_Z. apply Qred_complete.
  rewrite (quantize_spec_int b x s (proj1 Hb)).
  assert (Ed : Qmax (Qabs s) eps32 == s).
  { pose proof eps32_pos. rewrite Qabs_pos by lra.
    destruct (Q.max_spec s eps32) as [[H1 E]|[H1 E]]; rewrite E; lra. }
  assert (Er : round_finite (format_of Float32) (x / Qmax (Qabs s) eps32) == x / s).
  { rewrite (round_finite_comp _ _ (x / s)) by (rewrite Ed; reflexivity).
    rewrite (representable_round_finite _ _ Hq). apply Qred_correct. }
  rewrite (round_half_even_comp _ _ Er). reflexivity.
Qed.

(** C3, as the code has it in floating point.  [sym_quant] raises the
    zero-scale assertion exactly when an entry of the scale is zero once it
    is converted to float32 (line 54): that is a magnitude of at most
    [2 ^ -150], and for a scale that holds float32 numbers, as a float16,
    bfloat16 or float32 tensor does, an entry that is zero.  On a scale
    without such an entry whose shape broadcasts with the input it returns a
    float32 tensor; for float32 numbers [x] and [s] and 1 to 25 bits its
    entry is the float32 quotient of [x] by [max(|s|, 1e-9)], the floor
    being the float32 nearest to [1e-9], rounded to an integer with ties to
    even and clamped to [[-(2^(b-1)), 2^(b-1)-1]]; and where the scale entry
    is at least that floor and [x / s] is itself a float32 number, the entry
    is the specification's [round(x / s)], clamped. *)
Theorem sym_quant_float32_correct n (x s : FTensor n) (b : Z) :
  (IEEE.sym_quant x s b = Raise ZeroScaleError
   <-> Exists (fun v => fis_zero (round_to Float32 v) = true) (entries n (fdata s))) /\
  (forall q, fis_zero (round_to Float32 (Finite q)) = true <-> Qabs q <= pow2 (-150)) /\
  (forall q, representable Float32 q ->
             (fis_zero (round_to Float32 (Finite q)) = true <-> q == 0)) /\
  (broadcastable (fshape x) (fshape s) = true ->
   Forall (fun v => fis_zero (round_to Float32 v) = false) (entries n (fdata s)) ->
   IEEE.sym_quant x s b
   = Ok (mkFTensor Float32 (bshape (fshape x) (fshape s))
                   (bmap2 (quant_entry32 b) n (fdata x) (fdata s)))) /\
  (forall xv sv,
      (1 <= b <= 25)%Z -> representable Float32 xv -> representable Float32 sv ->
      quant_entry32 b (Finite xv) (Finite sv)
      = Finite (inject_Z
                  (Z.min (Z.max (round_half_even
                                   (round_finite (format_of Float32)
                                                 (xv / Qmax (Qabs sv) eps32)))
                                (- 2 ^ (b - 1)))
                         (2 ^ (b - 1) - 1)))) /\
  (forall xv sv,
      (1 <= b <= 25)%Z -> representable Float32 xv -> representable Float32 sv ->
      eps32 <= sv -> representable Float32 (xv / sv) ->
      quant_entry32 b (Finite xv) (Finite sv) = Finite (Qred (quantize_spec b xv sv))).
Proof.
  split; [|split; [|split; [|split; [|split]]]].
  - rewrite <- ieee_count_zeros_pos, ieee_sym_quant_unfold.
    destruct (Nat.eqb (IEEE.count_zeros (IEEE.to Float32 s)) 0).
    + destruct (broadcastable (fshape x) (fshape s)); split; discriminate.
    + split; reflexivity.
  - exact rounds_to_zero32.
  - exact rounds_to_zero32_representable.
  - intros Hb Hz. apply ieee_count_zeros_0 in Hz.
    rewrite ieee_sym_quant_unfold, Hz, Hb. reflexivity.
  - intros xv sv. apply quant_entry32_value.
  - intros xv sv. apply quant_entry32_spec.
Qed.

Lemma sym_quant_float32_correct_witness :
  IEEE.sym_quant (fvec Float16 [Finite (7 # 2); Finite (-9)])
                 (fvec Float16 [Finite (1 # 2); Finite (1 # 2)]) 4
  = Ok (fvec Float32 [Finite 7; Finite (-8)])
  /\ quant_entry32 4 (Finite (7 # 2)) (Finite (1 # 2)) = Finite 7
  /\ (fis_zero (round_to Float32 (Finite (1 # 2))) = true <-> 1 # 2 == 0).
Proof.
  pose proof (sym_quant_float32_correct 1 (fvec Float16 [Finite (7 # 2); Finite (-9)])
                (fvec Float16 [Finite (1 # 2); Finite (1 # 2)]) 4)
    as [_ [_ [H3 [H4 [_ H6]]]]].
  split; [|split].
  - rewrite H4; [vm_compute; reflexivity | reflexivity |].
    repeat constructor.
  - rewrite (H6 (7 # 2) (1 # 2)); [vm_compute; reflexivity | lia | | | |];
      vm_compute; first [reflexivity | discriminate].
  - apply H3. vm_compute. reflexivity.
Defined.

(** C3 as stated fails in three ways.  On a negative scale the code
    divides by [|s|] and returns 1 where [round(x / s)] is -1.  A float64
    scale entry [2 ^ -170] is not zero, yet line 54 turns it into zero and
    the assertion is raised.  And for the float32 numbers
    [x = 1179649 / 2^18] and [s = 8388615 / 2^23] the float32 quotient is
    the tie 4.5, rounded to 4, where [round(x / s)] is 5. *)
Lemma sym_quant_spec_counterexample :
  (IEEE.sym_quant (fvec Float32 [Finite 1]) (fvec Float32 [Finite (-1)]) 4
   = Ok (fvec Float32 [Finite 1])
   /\ quantize_spec 4 1 (-1) == -1)
  /\ (IEEE.sym_quant (fvec Float32 [Finite 1]) (fvec Float64 [Finite (pow2 (-170))]) 4
      = Raise ZeroScaleError
      /\ representable Float64 (pow2 (-170)) /\ ~ pow2 (-170) == 0)
  /\ (IEEE.sym_quant (fvec Float32 [Finite (1179649 # 262144)])
                     (fvec Float32 [Finite (8388615 # 8388608)]) 4
      = Ok (fvec Float32 [Finite 4])
      /\ representable Float32 (1179649 # 262144)
      /\ representable Float32 (8388615 # 8388608)
      /\ quantize_spec 4 (1179649 # 262144) (8388615 # 8388608) == 5).
Proof.
  split; [|split].
  - split; vm_compute; reflexivity.
  - split; [vm_compute; reflexivity|]. split; [vm_compute; reflexivity|].
    intros H. vm_compute in H. discriminate.
  - repeat split; vm_compute; reflexivity.
Qed.

(** *** Idempotence of quantize-then-dequantize in floating point (C6) *)






Lemma bshape_bshape (a b : list nat) :
  broadcastable a b = true ->
  broadcastable (bshape (bshape a b) b) b = true
  /\ bshape (bshape (bshape a b) b) b = bshape a b.
Proof.
  intros H. destruct (broadcastable_bshape a b H) as [H1 H2].
  rewrite H2. split; assumption.
Qed.



(** ** The coverage checks on one sequence (claim C1) *)

Module AttnChecked.
Import LlamaAttention_Tender_Eval.
Import AttnBands.
Import AttnCheck.

Lemma isub_shape n (result x r : Tensor n) : isub result x = Ok r -> shape r = shape result.
Proof.
  unfold isub. destruct (_ && _); [|discriminate].
  intros H. apply Ok_inj in H. subst r. reflexivity.
Qed.

(** A pass of Q x K^T that gets past line 768 ran the loop over the bands
    on the chunks of the query, and its counts summed to
    [num_heads * head_dim * chunks]. *)
Lemma qk_block_checked math_sqrt dt o q kv (query key : Tensor 4) (self self' : t)
      (r : nat * Tensor 4) (bsz heads tgt d : nat) :
  shape query = [bsz; heads; tgt; d] ->
  qk_block math_sqrt dt o q kv query key self = Ok (r, self') ->
  exists (q3 q3s : Tensor 3) (pd : DType) (chunks : nat) (hc0 bias hc : Tensor 4)
         (count : list nat) (res : Tensor 4) (s1 s2 : t),
    reshape 3 [(bsz * heads)%nat; tgt; head_dim self] query = Ok q3
    /\ div_scalar q3 (math_sqrt (head_dim self)) = Ok q3s
    /\ chunking (chunk_size self) pd q3s = Ok (chunks, hc0)
    /\ isub hc0 bias = Ok hc
    /\ shape hc = [(bsz * heads)%nat; chunks; chunk_size self; head_dim self]
    /\ qk_bands dt chunks hc (zeros (dtype hc0) (shape hc0)) s1 = Ok ((count, res), s2)
    /\ sum_list count = (num_heads self * head_dim self * chunks)%nat.
Proof.
  intros Hq H. unfold qk_block in H.
  bind_step H s0 s0' Hget. apply Ok_inj in Hget. inversion Hget; subst s0 s0'; clear Hget.
  rewrite Hq in H.
  destruct (shape key) as [|k0 [|k1 [|src [|k3 [|]]]]] eqn:Hk;
    try (apply lift_ok in H; destruct H as [H _]; discriminate).
  bind_step H q3 s1 Hq3. apply lift_ok in Hq3. destruct Hq3 as [Hq3 ->].
  bind_step H k3' s1 Hk3. apply lift_ok in Hk3. destruct Hk3 as [Hk3 ->].
  bind_step H q3s s1 Hq3s. apply lift_ok in Hq3s. destruct Hq3s as [Hq3s ->].
  bind_step H kb s1 Hkb. clear Hkb.
  bind_step H K s2 HK. apply lift_ok in HK. destruct HK as [_ ->].
  bind_step H scale s2 Hsc. clear Hsc.
  bind_step H K0 s3 HK0. apply lift_ok in HK0. destruct HK0 as [_ ->].
  bind_step H K1 s3 HK1. apply lift_ok in HK1. destruct HK1 as [_ ->].
  bind_step H ch s3 Hch. apply lift_ok in Hch. destruct Hch as [Hch ->].
  destruct ch as [chunks hc].
  bind_step H qb s4 Hqb. clear Hqb.
  bind_step H o1 s5 Ho1. apply lift_ok in Ho1. destruct Ho1 as [_ ->].
  bind_step H o2 s5 Ho2. apply lift_ok in Ho2. destruct Ho2 as [_ ->].
  bind_step H o3 s5 Ho3. apply lift_ok in Ho3. destruct Ho3 as [_ ->].
  bind_step H hc' s5 Hsub. apply lift_ok in Hsub. destruct Hsub as [Hsub ->].
  bind_step H st s6 Hbands. destruct st as [count result].
  bind_step H u' s7 Hassert. apply lift_ok in Hassert. destruct Hassert as [Hassert _].
  clear H.
  destruct (reshape_ok_wf 3 _ query q3 Hq3) as [Wq3 [Sq3 _]].
  destruct (div_scalar_wf 3 q3 q3s _ Wq3 Hq3s) as [Wq3s [Sq3s _]].
  rewrite Sq3 in Sq3s.
  destruct (chunking_shape _ _ q3s _ _ _ chunks hc Sq3s Hch) as [Whc [Shc _]].
  destruct (Nat.eqb (sum_list count) (num_heads self * head_dim self * chunks)) eqn:E;
    [|discriminate].
  apply Nat.eqb_eq in E.
  exists q3, q3s, (dtype (transpose_last K1)), chunks, hc, qb, hc', count, result, s4, s6.
  split; [exact Hq3|]. split; [exact Hq3s|]. split; [exact Hch|].
  split; [exact Hsub|]. split; [rewrite (isub_shape _ _ _ _ Hsub); exact Shc|].
  split; [exact Hbands | exact E].
Qed.

(** The same for S x V and line 867. *)
Lemma sv_block_checked mx dt hdt (aw value : Tensor 4) (self self' : t)
      (r : nat * Tensor 4) (bsz heads tgt src : nat) :
  shape aw = [bsz; heads; tgt; src] ->
  sv_block mx dt hdt aw value self = Ok (r, self') ->
  exists (a3 : Tensor 3) (chunks : nat) (hc : Tensor 4)
         (count : list nat) (res : Tensor 4) (s1 s2 : t),
    reshape 3 [(bsz * heads)%nat; tgt; src] aw = Ok a3
    /\ chunking (chunk_size self) hdt a3 = Ok (chunks, hc)
    /\ shape hc = [(bsz * heads)%nat; chunks; chunk_size self; src]
    /\ sv_bands dt chunks src hc (zeros (dtype hc) (shape hc)) s1 = Ok ((count, res), s2)
    /\ sum_list count = (num_heads self * src * chunks)%nat.
Proof.
  intros Hq H. unfold sv_block in H.
  bind_step H s0 s0' Hget. apply Ok_inj in Hget. inversion Hget; subst s0 s0'; clear Hget.
  rewrite Hq in H.
  bind_step H a3 s1 Ha3. apply lift_ok in Ha3. destruct Ha3 as [Ha3 ->].
  bind_step H scale s1 Hsc. clear Hsc.
  bind_step H V0 s2 HV0. apply lift_ok in HV0. destruct HV0 as [_ ->].
  bind_step H V1 s2 HV1. apply lift_ok in HV1. destruct HV1 as [_ ->].
  bind_step H ch s2 Hch. apply lift_ok in Hch. destruct Hch as [Hch ->].
  destruct ch as [chunks hc].
  bind_step H st s3 Hbands. destruct st as [count result].
  bind_step H u' s4 Hassert. apply lift_ok in Hassert. destruct Hassert as [Hassert _].
  clear H.
  destruct (reshape_ok_wf 3 _ aw a3 Ha3) as [Wa3 [Sa3 _]].
  destruct (chunking_shape _ _ a3 _ _ _ chunks hc Sa3 Hch) as [Whc [Shc _]].
  destruct (Nat.eqb (sum_list count) (num_heads self * src * chunks)) eqn:E;
    [|discriminate].
  apply Nat.eqb_eq in E.
  exists a3, chunks, hc, count, result, s1, s3.
  split; [exact Ha3|]. split; [exact Hch|]. split; [exact Shc|].
  split; [exact Hbands | exact E].
Qed.

End AttnChecked.

(** With at least one band, chunks laid out as their shape says and the
    statistics computed from them, the loop of the LM head and its check do
    not end in the assertion of line 1582. *)
Lemma lm_decompose_passes (self : LmHeadTender.t) (dt : DType) (hc : Tensor 3)
      (chunks cs hidden : nat) :
  shape hc = [chunks; cs; hidden] -> (0 < cs)%nat -> (0 < hidden)%nat -> wf hc ->
  (0 < LmHeadTender.decomp_factor self)%nat ->
  LmHeadTender.decompose self dt chunks hc <> Raise BandCoverageError.
Proof.
  intros Hs Hcs Hh Hwf HD. unfold LmHeadTender.decompose.
  apply obind_never; [apply lm_bands_no_cov|]. intros [count result] Hb.
  destruct (lm_bands_counts self _ hc _ _ hidden count result Hs Hcs Hh Hwf Hb)
    as [_ Hsum].
  rewrite Hs. cbn [last]. rewrite (Hsum HD), Nat.eqb_refl. discriminate.
Qed.

Lemma lm_decompose_checked (self : LmHeadTender.t) (dt : DType) (hc : Tensor 3)
      (chunks : nat) (count : list nat) (result : Tensor 3) :
  LmHeadTender.decompose self dt chunks hc = Ok (count, result) ->
  LmHeadTender.bands self dt hc = Ok (count, result)
  /\ sum_list count = (last (shape hc) 0%nat * chunks)%nat.
Proof.
  unfold LmHeadTender.decompose. intros H.
  apply obind_ok in H. destruct H as [[c r'] [Hb H]].
  destruct (Nat.eqb (sum_list c) (last (shape hc) 0%nat * chunks)) eqn:E; [|discriminate].
  apply Ok_inj in H. injection H as -> ->.
  split; [exact Hb|]. apply Nat.eqb_eq. exact E.
Qed.

(** C1, amended to one sequence.  The checks of lines 768 and 867 compare
    the sum of the counts with [num_heads * channels * chunks], the check of
    line 1582 with [hidden_dim * chunks].  With the statistics computed
    from the chunks, at least one band and finite entries (the tensors here
    hold rational numbers), Q x K^T and S x V on a query and on scores whose
    leading dimension [bsz * heads] is [self.num_heads], and the loop of the
    LM head, do not end in the assertion: every channel of every chunk is
    in exactly one band.  And a pass that gets past its check, with or
    without supplied statistics, ran the loop on the chunks of its input
    and its counts summed to that number, the number of channels of all
    chunks when [bsz * heads = num_heads]; a pass whose counts sum to
    anything else is stopped by the assertion. *)
Theorem coverage_check_one_sequence :
  (forall math_sqrt dt orig_tgt_len q_len kv_seq_len (query key : Tensor 4)
          (self : LlamaAttention_Tender_Eval.t) (bsz heads tgt d : nat),
      shape query = [bsz; heads; tgt; d] ->
      LlamaAttention_Tender_Eval.q_ch_bias (LlamaAttention_Tender_Eval.supplied self) = None ->
      LlamaAttention_Tender_Eval.q_tmax (LlamaAttention_Tender_Eval.supplied self) = None ->
      LlamaAttention_Tender_Eval.q_group_index (LlamaAttention_Tender_Eval.supplied self)
      = None ->
      (0 < LlamaAttention_Tender_Eval.decomp_factor self)%nat ->
      (bsz * heads)%nat = LlamaAttention_Tender_Eval.num_heads self ->
      LlamaAttention_Tender_Eval.qk_block math_sqrt dt orig_tgt_len q_len kv_seq_len
        query key self <> Raise BandCoverageError)
  /\
  (forall mx dt hidden_dtype (scores value : Tensor 4)
          (self : LlamaAttention_Tender_Eval.t) (bsz heads tgt src : nat),
      shape scores = [bsz; heads; tgt; src] ->
      LlamaAttention_Tender_Eval.s_tmax (LlamaAttention_Tender_Eval.supplied self) = None ->
      LlamaAttention_Tender_Eval.s_group_index (LlamaAttention_Tender_Eval.supplied self)
      = None ->
      (0 < LlamaAttention_Tender_Eval.decomp_factor self)%nat ->
      (bsz * heads)%nat = LlamaAttention_Tender_Eval.num_heads self ->
      LlamaAttention_Tender_Eval.sv_block mx dt hidden_dtype scores value self
      <> Raise BandCoverageError)
  /\
  (forall (self : LmHeadTender.t) (dt : DType) (hc : Tensor 3) (chunks cs hidden : nat),
      shape hc = [chunks; cs; hidden] -> (0 < cs)%nat -> (0 < hidden)%nat -> wf hc ->
      (0 < LmHeadTender.decomp_factor self)%nat ->
      LmHeadTender.decompose self dt chunks hc <> Raise BandCoverageError)
  /\
  (forall math_sqrt dt orig_tgt_len q_len kv_seq_len (query key : Tensor 4)
          (self self' : LlamaAttention_Tender_Eval.t) (r : nat * Tensor 4)
          (bsz heads tgt d : nat),
      shape query = [bsz; heads; tgt; d] ->
      LlamaAttention_Tender_Eval.qk_block math_sqrt dt orig_tgt_len q_len kv_seq_len
        query key self = Ok (r, self') ->
      exists (q3 q3s : Tensor 3) (pd : DType) (chunks : nat) (hc0 bias hc : Tensor 4)
             (count : list nat) (res : Tensor 4) (s1 s2 : LlamaAttention_Tender_Eval.t),
        reshape 3 [(bsz * heads)%nat; tgt; LlamaAttention_Tender_Eval.head_dim self] query
        = Ok q3
        /\ div_scalar q3 (math_sqrt (LlamaAttention_Tender_Eval.head_dim self)) = Ok q3s
        /\ LlamaAttention_Tender_Eval.chunking
             (LlamaAttention_Tender_Eval.chunk_size self) pd q3s = Ok (chunks, hc0)
        /\ isub hc0 bias = Ok hc
        /\ shape hc = [(bsz * heads)%nat; chunks;
                       LlamaAttention_Tender_Eval.chunk_size self;
                       LlamaAttention_Tender_Eval.head_dim self]
        /\ LlamaAttention_Tender_Eval.qk_bands dt chunks hc
             (zeros (dtype hc0) (shape hc0)) s1 = Ok ((count, res), s2)
        /\ sum_list count
           = (LlamaAttention_Tender_Eval.num_heads self
              * LlamaAttention_Tender_Eval.head_dim self * chunks)%nat)
  /\
  (forall mx dt hidden_dtype (scores value : Tensor 4)
          (self self' : LlamaAttention_Tender_Eval.t) (r : nat * Tensor 4)
          (bsz heads tgt src : nat),
      shape scores = [bsz; heads; tgt; src] ->
      LlamaAttention_Tender_Eval.sv_block mx dt hidden_dtype scores value self
      = Ok (r, self') ->
      exists (a3 : Tensor 3) (chunks : nat) (hc : Tensor 4)
             (count : list nat) (res : Tensor 4) (s1 s2 : LlamaAttention_Tender_Eval.t),
        reshape 3 [(bsz * heads)%nat; tgt; src] scores = Ok a3
        /\ LlamaAttention_Tender_Eval.chunking
             (LlamaAttention_Tender_Eval.chunk_size self) hidden_dtype a3 = Ok (chunks, hc)
        /\ shape hc = [(bsz * heads)%nat; chunks;
                       LlamaAttention_Tender_Eval.chunk_size self; src]
        /\ LlamaAttention_Tender_Eval.sv_bands dt chunks src hc
             (zeros (dtype hc) (shape hc)) s1 = Ok ((count, res), s2)
        /\ sum_list count
           = (LlamaAttention_Tender_Eval.num_heads self * src * chunks)%nat)
  /\
  (forall (self : LmHeadTender.t) (dt : DType) (hc : Tensor 3) (chunks : nat)
          (count : list nat) (result : Tensor 3),
      LmHeadTender.decompose self dt chunks hc = Ok (count, result) ->
      LmHeadTender.bands self dt hc = Ok (count, result)
      /\ sum_list count = (last (shape hc) 0%nat * chunks)%nat).
Proof.
  split; [intros; eapply AttnPass.qk_block_passes; eassumption|].
  split; [intros; eapply AttnPass.sv_block_passes; eassumption|].
  split; [exact lm_decompose_passes|].
  split; [exact AttnChecked.qk_block_checked|].
  split; [exact AttnChecked.sv_block_checked|].
  exact lm_decompose_checked.
Qed.

Lemma coverage_check_one_sequence_witness :
  (exists r self',
      LlamaAttention_Tender_Eval.qk_block sqrt_exact Float16 1 1 2 query_h4 key_h4
        attn_head4 = Ok (r, self'))
  /\ LlamaAttention_Tender_Eval.qk_block sqrt_exact Float16 1 1 2 query_h4 key_h4
       attn_head4 <> Raise BandCoverageError
  /\ LlamaAttention_Tender_Eval.sv_block mx_exact Float16 Float16 scores_h4 value_h4
       attn_head4 <> Raise BandCoverageError
  /\ LmHeadTender.decompose lm_small Float16 1 chunk_2x2 <> Raise BandCoverageError
  /\ (exists count result,
         LmHeadTender.decompose lm_small Float16 1 chunk_2x2 = Ok (count, result)
         /\ sum_list count = (last (shape chunk_2x2) 0%nat * 1)%nat).
Proof.
  destruct coverage_check_one_sequence as (Hqk & Hsv & Hlm & _ & _ & Hlmc).
  split; [eexists; eexists; vm_compute; reflexivity|].
  split; [|split; [|split]].
  - eapply (Hqk sqrt_exact Float16 1%nat 1%nat 2%nat query_h4 key_h4 attn_head4
                1%nat 1%nat 1%nat 4%nat).
    + reflexivity.
    + reflexivity.
    + reflexivity.
    + reflexivity.
    + simpl; lia.
    + reflexivity.
  - eapply (Hsv mx_exact Float16 Float16 scores_h4 value_h4 attn_head4
                1%nat 1%nat 1%nat 2%nat).
    + reflexivity.
    + reflexivity.
    + reflexivity.
    + simpl; lia.
    + reflexivity.
  - apply (Hlm lm_small Float16 chunk_2x2 1%nat 2%nat 2%nat).
    + reflexivity.
    + lia.
    + lia.
    + split; reflexivity.
    + simpl; lia.
  - eexists. eexists. split; [vm_compute; reflexivity|].
    eapply (Hlmc lm_small Float16 chunk_2x2 1%nat). vm_compute. reflexivity.
Defined.

(** C1 as stated fails on a batch of two sequences (one head of dimension
    4, chunks of 2 rows, 2 bands): the checks of the attention paths leave
    the batch out.  With the statistics computed from the chunks the
    counts are [4; 4] for Q x K^T and [1; 3] for S x V, every channel of
    every chunk is in exactly one band, yet 8 is compared with
    [1 * 4 * 1] and 4 with [1 * 2 * 1] and both blocks end with the
    assertion.  With a supplied group index that leaves the four channels
    of the second sequence in no band the counts are [2; 2], 4 of 8
    channels, and the block is let through. *)
Lemma coverage_check_batch_counterexample :
  LlamaAttention_Tender_Eval.qk_block sqrt_exact Float16 1 1 2 query_batch2 key_batch2
    attn_head4 = Raise BandCoverageError
  /\ (exists res self',
         LlamaAttention_Tender_Eval.qk_bands Float16 1 query_chunks_batch2
           (zeros (dtype query_chunks_batch2) (shape query_chunks_batch2)) attn_head4
         = Ok (([4%nat; 4%nat], res), self'))
  /\ LlamaAttention_Tender_Eval.sv_block mx_exact Float16 Float16 scores_batch2
       value_batch2 attn_head4 = Raise BandCoverageError
  /\ (exists res self',
         LlamaAttention_Tender_Eval.sv_bands Float16 1 2 scores_chunks_batch2
           (zeros (dtype scores_chunks_batch2) (shape scores_chunks_batch2)) attn_head4
         = Ok (([1%nat; 3%nat], res), self'))
  /\ (exists r self',
         LlamaAttention_Tender_Eval.qk_block sqrt_exact Float16 1 1 2 query_batch2
           key_batch2 attn_skewed4 = Ok (r, self'))
  /\ (exists res self',
         LlamaAttention_Tender_Eval.qk_bands Float16 1 query_chunks_batch2
           (zeros (dtype query_chunks_batch2) (shape query_chunks_batch2)) attn_skewed4
         = Ok (([2%nat; 2%nat], res), self')).
Proof.
  split; [vm_compute; reflexivity|].
  split; [eexists; eexists; vm_compute; reflexivity|].
  split; [vm_compute; reflexivity|].
  split; [eexists; eexists; vm_compute; reflexivity|].
  split; eexists; eexists; vm_compute; reflexivity.
Qed.
